(* ===== verification/_CoqProject ===== *)
-Q . S2P
Prelude.v
DgMessage.v
Broker.v
Streams.v
MeshNet.v
NetUtils.v
IpAlloc.v
SafeMap.v
RoutingTable.v
Firewall.v
Router.v
RouterOps.v
Topology.v
Session.v
PeersSync.v
Discovery.v
SessionStreams.v
Repos.v
Model.v
Encodings.v
AwgClient.v
AwgTransport.v
Services.v
Node.v
TunLoops.v
TunSetup.v
TunRun.v
Api.v
NodeLife.v
App.v
Process.v
Certs.v
MeshNode.v
MeshTransport.v
SessionLife.v
DiscoveryLife.v
DataPlane.v
MeshSync.v
MeshRules.v
ClientSync.v
MeshClients.v
MeshGossip.v
Accounting.v
