(* ===== verification/Prelude.v ===== *)
(** * Liberator node: a verification development

    The program (Go, under src/) is a node of a mesh VPN.  VPN clients connect to
    it with AmneziaWG; the nodes of a mesh are connected over QUIC; packets travel
    between clients, the TUN interface of the machine and the other nodes through
    one router, which a distributed firewall guards.  This library translates the
    node's own code into Rocq functions and proves what makes it correct.

    ** How the program is put together

<<
      gRPC, HTTP  -->  controllers  -->  peers manager  -->  transports (AWG) --+
      (JWT check)          |                  |                    |            |
                           |                  v                    v            |
                           +--> firewall   database (SQLite)   VPN device       |
                                manager                            |            |
                                  |                                v            |
      TUN interface <---------->  router: firewall, table, shaped routes <------+
                                  ^        |
                   rules, clients |        | datagrams
                                  |        v
                                mesh node: sessions, discovery, peerssync, store
>>

    The managers write the database first and then the running node, and undo
    what they can when a step fails.  The router tells subscribers about local
    changes; peerssync carries them to the other nodes and reconciles what it
    receives with the local router.  Discovery keeps the store of known peers and
    dials them; the session registry settles duplicate connections.

    ** Files

    The data plane:
    - Prelude.v: Go's integers, slices, errors and panics ([gores]), the order of a
      map ([MapRange]), lemmas and tactics shared by all files.
    - DgMessage.v (internal/utils/dgmessage): the header parser and the pool of
      messages.  Broker.v: Go channels and the subscriptions of router/events.go,
      topology/memory.go and session/registry.go.  Streams.v: the shape of the
      streams between nodes (session.go: RunWhileConnected, and the loops of the
      gRPC servers and clients).
    - NetUtils.v (internal/utils/netutils), IpAlloc.v (internal/utils/ipalloc),
      SafeMap.v (internal/utils/safemap).
    - RoutingTable.v (pkg/routingtable): table.go, and shaped.go with its worker.
    - Firewall.v (pkg/firewall): the engine, and the interleavings of its calls.
    - Router.v (pkg/router): dispatch, the three packet handlers, the egress
      policy, the control plane.  RouterOps.v: the control plane one operation at a
      time, for those who watch a router.  DataPlane.v: the router between its goroutines,
      and who owns each message.
    - TunLoops.v, TunSetup.v, TunRun.v (pkg/iface/iface.go): the loops between the TUN
      device and the router; creation and removal of the interface and its rules; how
      the loops end.
    - AwgClient.v, AwgTransport.v (pkg/transport/awg): keys and client links; the
      tables of the transport, the watchdog, the virtual TUN device.

    The mesh:
    - Topology.v (pkg/mesh/topology), Session.v (pkg/mesh/session), PeersSync.v
      (pkg/mesh/peerssync), Discovery.v (pkg/mesh/discovery).
    - SessionStreams.v (discovery/syncer.go, discovery/server.go, peerssync/syncer.go:
      Start): the loops that start the streams of every session, and the stream of
      known peers.  MeshSync.v, ClientSync.v (peerssync over a stream): the rules and
      the clients of one node at another, while both change and streams break.
    - MeshNet.v: any number of nodes with a stream between any two, for any service
      of Streams.v.  MeshRules.v, MeshClients.v, MeshGossip.v: the rules, the clients
      and the known peers of a whole mesh, as its instances.
    - SessionLife.v (pkg/mesh/session/engine.go): runSession of all the sessions of a
      node, from the connection to the removal.  DiscoveryLife.v (discovery/syncer.go:
      Start): the ticker, the loop over announced peers and the dials, over them.
    - MeshNode.v (pkg/mesh/node.go, api.go, peerssync/remote_client.go, and the
      identity and counters of transport/quic.go): the node over these parts.
    - Certs.v (internal/utils/cert, cmd/certgen): certificates, their files, the
      program that issues a mesh.  MeshTransport.v (pkg/mesh/transport, mesh.New,
      internal/utils/quictransport): who may join a mesh, and the sockets held.

    The managers and the application:
    - Repos.v (internal/infra/repos, internal/app/initdb.go): the tables, their
      constraints and every query.  Model.v, Encodings.v: shared data and the
      encodings of the standard library.
    - Services.v (pkg/services): firewall manager and peers manager.
    - Node.v (internal/app/app.go): the wiring, which discharges the interfaces of
      Services.v with the router and the transports.
    - Api.v (pkg/api/controllers): the token checks and every handler.
    - NodeLife.v: start, calls, synchronisation and statistics in any order.
      Accounting.v (AwgTransport.v's watchdog, the statistics channels of
      pkg/services/peersmanager, the limits in the database): the way of the traffic
      counters from a client's packets to its bill.
    - App.v (internal/app/app.go): [New], [Run], [closeResources].  Process.v
      (cmd/node, internal/appconfig, internal/infra/ipapi, the node and router
      handlers): the process around it and what it reports.

    ** Conventions

    A function of the code is a function here, with its receiver as an argument
    and its new state as a result; names are those of the code.  A Go call that
    can fail or panic has type [gores]: [Ok], [Err] with the message, [Panic]
    (index out of range, nil map or pointer, send on a closed channel, second
    close).  Integers are [Z] with their wrap-around written out ([u8] to [u64],
    [i64]); bytes are [Z]; text is [string].  Maps are [gmap]; a loop over a map
    takes its order from the class [MapRange], about which only permutation is
    assumed, so a theorem holds for every order.  A channel, a message, a
    connection or a session that is shared is an object with an identity in a
    heap; a slice of a message's buffer is a reference.  A method that holds a
    lock is one step; where the code releases the lock in between, the steps are
    split and the theorems quantify over interleavings (Firewall.v, TunLoops.v,
    DataPlane.v, Streams.v, MeshNode.v).  [select] with several ready cases,
    [sync.Pool.Get], and what the outside yields (time, sockets, files, the
    database's failures) are arguments.

    A function that blocks returns [None].  The loops of the code that never end
    are steps, and runs are finite sequences of steps; where the code must make
    progress, that is a theorem with a bound: three turns of a worker for a
    message (MeshNode.v), one turn for each packet or batch (TunLoops.v),
    four turns to end a reader (TunRun.v), a round
    for each packet (AwgTransport.v), a turn for each new session
    (SessionStreams.v), a round of the ticker and the messages under way
    (Streams.v).  There is no fuel in the operations of the program.

    ** Interfaces

    Code outside src/ is a class whose laws are its documented behaviour, and
    every theorem that uses the laws has a witness with a concrete instance:
    [Link] (what an object of the table does with a datagram), [Limiter]
    (x/time/rate), [Device] (the VPN device), [Curve], [Entropy] and [Zlib],
    [DeviceReader] (when such a device closes itself), [JsonPeers] (encoding/json for the store), [QueryPlan] and [Platform] (the row
    order of a query, the conversion of large floats), [JWT], [Crypto], [Host]
    (netlink, TUN, iptables), [X509], [Pem], [PKCS8] and [TLS].  Between components:
    [SyncRouter] (what peerssync needs of the router), [LocalRules] and [Transports]
    (what the managers need), each with its laws, proved of the router and of the
    transports in PeersSync.v and Node.v; the theorems of the client are proved
    against the interface.  [Served] is what the server of a stream takes from its
    component, [Contract] what a service promises; both are discharged for rules
    (MeshSync.v), clients (ClientSync.v) and peers (SessionStreams.v).  [MeshLaws] is
    what a mesh needs of a service so that silence spreads, and [MeshOwner] what it
    needs of a node that tells the truth about its own things; MeshRules.v and
    MeshClients.v discharge them.

    ** What is shown

    - Policy: what a client's packet may reach, exactly when the firewall accepts
      a flow, that removing a rule closes the flows it justified
      ([transport_policy], [rules_allow_iff_permitted], [rule_check_decides],
      [remove_rule_revokes]); with calls interleaved section by section the changes
      of the rules are linearizable ([firewall_interleaving_ok]), but a packet between
      its check and its punch can outlive a removal
      ([removal_can_miss_packet_in_flight]).
    - Refinement of the firewall's tables by a map of rules ([add_rule_refines],
      [remove_rule_refines]) and of the sender's rules and clients by a dump
      ([sync_rules_reconciles], [sync_clients_reconciles]).
    - Invariants: sessions own their connections, duplicate dials converge, the
      store keeps the freshest record of an address, the transport's tables agree,
      the running firewall stays within the database.
    - The managers: creating a client is all or nothing, deleting removes it
      everywhere, and a start or a synchronisation calls the transport for exactly the
      valid clients, each of which is then served unless that call failed.
    - The node: every run of the control plane keeps the invariant and never
      panics ([node_life]), and without a valid token nothing changes.
    - The data plane, while the transports run: in every interleaving each pooled
      message has one owner, so it is neither released twice nor overwritten before it
      is sent or dropped ([messages_have_one_owner]).  What [SendDatagram] has queued
      are slices of messages that are released then, and these can be overwritten
      ([queued_packet_is_overwritten], [queued_datagram_is_overwritten]).
    - The distributed state: whatever was lost, the rules and the clients of a node
      that rests are mirrored exactly after one round of its ticker
      ([rules_converge], [clients_converge]); every session gets its streams, once,
      unless 100 sessions wait for the loop ([every_session_is_followed]).  A rule that
      its owner revoked is gone from the mesh for good once the owner was heard by all
      who held it, whatever else happens meanwhile, as long as no node listens to one
      that has not heard the owner yet ([revocation_is_final]); a stale dump can bring
      it back.
    - A mesh of any number of nodes: every route leads to the node whose network
      the address belongs to ([routes_lead_home]), a client that its node dropped is gone from
      the mesh for good under the same conditions ([departure_is_final]), and a
      peer that nobody is connected to is forgotten by all after its time to live
      ([dead_peers_are_forgotten]).
    - Who is in the mesh: a connection carries the identity of a certificate that the
      root vouches for ([only_verified_peers]), and nodes whose certificates one root
      issued do meet ([issued_nodes_meet], [certgen_makes_a_mesh]).
    - The mesh node: each datagram goes to the peer it is for and at most once, with
      what its buffer holds when it is sent; the queue empties until the shutdown, which
      is final.  No connection outlives its [runSession], and none is left after a
      shutdown ([nothing_left_behind]); no address is dialled twice at a time
      ([dials_are_safe]), and a node that knows the address of a peer has a dial under
      way or is connected to it, or a dial has failed, or it was shut down
      ([known_peers_are_reached]).
    - Traffic: but for the losses that the theorem names, no byte of an address is lost
      or counted twice on its way from the packet to the database
      ([every_byte_is_accounted]), and while the goroutines run and the database answers
      it arrives ([traffic_is_billed]).
    - Parsers and encoders: totality, memory safety and round trips.
    - Resources: a failed start gives back what it took, and tells the VPN devices that
      it has started to stop ([start_owns_or_releases]).

    Some theorems state defects of the code as it is (they are named in the
    findings of the manifest): the model follows the code.

    ** Not modelled

    Code that only calls a library: the tokenising of YAML and JSON, the HTTP
    client, the reading and writing of QUIC streams and their deadlines, the gRPC
    runtime that carries the messages, and generated code (pkg/api/grpc, the proto
    directories).  cmd/meshtest prints the default interface with a copy of the
    function in TunSetup.v.  Logging is left out.

    Three limits of the model itself.  A handler of the router is one step of
    DataPlane.v: what it does between its locks is split in Firewall.v and in
    RouterOps.v, but the two are not interleaved with each other there.  Clocks of
    different nodes are one clock.  A goroutine that the scheduler never runs is a run
    without its steps, so what says that something happens says after which steps. *)
From Stdlib Require Export Ascii ZArith Lia.
From stdpp Require Export base gmap strings list fin_maps fin_sets pretty.

(** ** Notations and hint databases *)

Declare Scope go_scope.
Delimit Scope go_scope with go.

(** [node] resolves the routine side conditions (ranges, membership in the
    iteration order of a map); [gosimpl] rewrites with the laws of the Go
    primitives modelled below. *)
Create HintDb node.
Create Rewrite HintDb gosimpl.

(** ** Machine integers

    A Go integer of width [w] is a [Z]; every conversion and every arithmetic
    operation that can leave the range is wrapped explicitly, as Go does. *)

Definition u8 (z : Z) : Z := (z `mod` 2 ^ 8)%Z.
Definition u16 (z : Z) : Z := (z `mod` 2 ^ 16)%Z.
Definition u32 (z : Z) : Z := (z `mod` 2 ^ 32)%Z.
Definition u64 (z : Z) : Z := (z `mod` 2 ^ 64)%Z.
Definition i64 (z : Z) : Z := ((z + 2 ^ 63) `mod` 2 ^ 64 - 2 ^ 63)%Z.

Definition is_u8 (z : Z) : Prop := (0 <= z < 2 ^ 8)%Z.
Definition is_u16 (z : Z) : Prop := (0 <= z < 2 ^ 16)%Z.
Definition is_u32 (z : Z) : Prop := (0 <= z < 2 ^ 32)%Z.
Definition is_u64 (z : Z) : Prop := (0 <= z < 2 ^ 64)%Z.
Definition is_i64 (z : Z) : Prop := (- 2 ^ 63 <= z < 2 ^ 63)%Z.

#[export] Instance is_u8_dec z : Decision (is_u8 z).
Proof. unfold is_u8. apply _. Defined.
#[export] Instance is_u16_dec z : Decision (is_u16 z).
Proof. unfold is_u16. apply _. Defined.
#[export] Instance is_u32_dec z : Decision (is_u32 z).
Proof. unfold is_u32. apply _. Defined.
#[export] Instance is_u64_dec z : Decision (is_u64 z).
Proof. unfold is_u64. apply _. Defined.

(** [words] unfolds every width so that [lia] sees plain arithmetic. *)
Ltac words :=
  unfold is_u8, is_u16, is_u32, is_u64, is_i64, u8, u16, u32, u64, i64 in *;
  change (2 ^ 8)%Z with 256%Z in *;
  change (2 ^ 16)%Z with 65536%Z in *;
  change (2 ^ 32)%Z with 4294967296%Z in *;
  change (2 ^ 48)%Z with 281474976710656%Z in *;
  change (2 ^ 63)%Z with 9223372036854775808%Z in *;
  change (2 ^ 64)%Z with 18446744073709551616%Z in *.

Ltac word_lia := words; Z.div_mod_to_equations; lia.

Lemma u8_small z : is_u8 z → u8 z = z.
Proof. intros; unfold u8; apply Z.mod_small; word_lia. Qed.
Lemma u16_small z : is_u16 z → u16 z = z.
Proof. intros; unfold u16; apply Z.mod_small; word_lia. Qed.
Lemma u32_small z : is_u32 z → u32 z = z.
Proof. intros; unfold u32; apply Z.mod_small; word_lia. Qed.
Lemma u64_small z : is_u64 z → u64 z = z.
Proof. intros; unfold u64; apply Z.mod_small; word_lia. Qed.
Lemma i64_small z : is_i64 z → i64 z = z.
Proof. intros; word_lia. Qed.
Lemma u8_range z : is_u8 (u8 z).
Proof. unfold is_u8, u8. apply Z.mod_pos_bound. lia. Qed.
Lemma u16_range z : is_u16 (u16 z).
Proof. unfold is_u16, u16. apply Z.mod_pos_bound. lia. Qed.
Lemma u32_range z : is_u32 (u32 z).
Proof. unfold is_u32, u32. apply Z.mod_pos_bound. lia. Qed.
Lemma u64_range z : is_u64 (u64 z).
Proof. unfold is_u64, u64. apply Z.mod_pos_bound. lia. Qed.
Lemma i64_range z : is_i64 (i64 z).
Proof. word_lia. Qed.
#[export] Hint Resolve u8_range u16_range u32_range u64_range i64_range : node.
#[export] Hint Rewrite u8_small u16_small u32_small u64_small i64_small
  using (first [assumption | auto with node | word_lia]) : gosimpl.

(** Converting a wrapped [uint64] difference to [int64] gives the signed
    difference back: Go code relies on it when it subtracts counters. *)
Lemma i64_u64_sub a b : is_i64 (a - b) → i64 (u64 (a - b)) = (a - b)%Z.
Proof. intros; word_lia. Qed.

(** ** Bit operations on words *)

Lemma land_shiftl_low a b n :
  (0 <= n → 0 <= b < 2 ^ n → Z.land (Z.shiftl a n) b = 0)%Z.
Proof.
  intros Hn Hb. destruct (decide (b = 0)%Z) as [->|]; [apply Z.land_0_r|].
  apply Z.bits_inj'. intros i Hi.
  rewrite Z.land_spec, Z.bits_0, Z.shiftl_spec by done.
  destruct (Z.lt_ge_cases i n).
  - by rewrite Z.testbit_neg_r by lia.
  - rewrite (Z.bits_above_log2 b i); [apply andb_false_r|lia|].
    apply Z.log2_lt_pow2; [lia|].
    apply Z.lt_le_trans with (2 ^ n)%Z; [lia|]. apply Z.pow_le_mono_r; lia.
Qed.

Lemma lor_shiftl_add a b n :
  (0 <= n → 0 <= b < 2 ^ n → Z.lor (Z.shiftl a n) b = a * 2 ^ n + b)%Z.
Proof.
  intros Hn Hb. pose proof (land_shiftl_low a b n Hn Hb) as H0.
  rewrite <- Z.lxor_lor by done. rewrite <- Z.add_nocarry_lxor by done.
  by rewrite Z.shiftl_mul_pow2.
Qed.

(** ** Results of Go calls

    A call returns a value, an [error] (its message), or panics.  Functions
    without an [error] result and without a partial operation stay plain
    functions. *)
Inductive gores (A : Type) :=
| Ok (a : A)
| Err (msg : string)
| Panic.
Arguments Ok {A} _.
Arguments Err {A} _.
Arguments Panic {A}.

Definition gobind {A B} (c : gores A) (k : A → gores B) : gores B :=
  match c with
  | Ok a => k a
  | Err e => Err e
  | Panic => Panic
  end.

Notation "x <- c ;; k" := (gobind c (λ x, k))
  (at level 89, c at next level, right associativity) : go_scope.

Definition is_ok {A} (c : gores A) : bool :=
  match c with Ok _ => true | _ => false end.

#[export] Instance gores_eq_dec {A} `{EqDecision A} : EqDecision (gores A).
Proof. solve_decision. Defined.

(** A value or a panic for a slice expression: [b[i]] and [b[i:j]] on bytes. *)
Definition go_index {A} (b : list A) (i : Z) : gores A :=
  if decide (0 <= i < Z.of_nat (length b))%Z
  then match b !! Z.to_nat i with Some x => Ok x | None => Panic end
  else Panic.

Definition go_slice {A} (b : list A) (i j : Z) : gores (list A) :=
  if decide (0 <= i ∧ i <= j ∧ j <= Z.of_nat (length b))%Z
  then Ok (take (Z.to_nat (j - i)) (drop (Z.to_nat i) b))
  else Panic.

Lemma go_index_ok {A} (b : list A) i :
  (0 <= i < Z.of_nat (length b))%Z → ∃ x, go_index b i = Ok x ∧ b !! Z.to_nat i = Some x.
Proof.
  intros Hi. unfold go_index. rewrite decide_True by done.
  destruct (lookup_lt_is_Some_2 b (Z.to_nat i)) as [x Hx]; [lia|].
  exists x. by rewrite Hx.
Qed.

Lemma go_slice_ok {A} (b : list A) i j :
  (0 <= i ∧ i <= j ∧ j <= Z.of_nat (length b))%Z →
  go_slice b i j = Ok (take (Z.to_nat (j - i)) (drop (Z.to_nat i) b)).
Proof. intros H. unfold go_slice. by rewrite decide_True. Qed.

(** [len] of a Go slice or string. *)
Notation golen b := (Z.of_nat (length b)).

(** [copy(buf[offset:], pkt)]: as much as fits. *)
Definition copy_at {A} (buf : list A) (offset : nat) (pkt : list A) : list A :=
  let n := Nat.min (length pkt) (length buf - offset) in
  take offset buf ++ take n pkt ++ drop (offset + n) buf.

Section CopyAt.
Context {A : Type}.
Implicit Types buf pkt : list A.

Lemma copy_at_length buf k pkt : (k <= length buf)%nat → length (copy_at buf k pkt) = length buf.
Proof. intros Hk. unfold copy_at. rewrite !length_app, !length_take, length_drop. lia. Qed.

(** What fits is there afterwards, and nothing else moves. *)
Lemma copy_at_same buf k pkt :
  (k + length pkt <= length buf)%nat → take (length pkt) (drop k (copy_at buf k pkt)) = pkt.
Proof.
  intros Hk. unfold copy_at. rewrite Nat.min_l by lia. rewrite drop_app_length' by (rewrite length_take; lia).
  rewrite firstn_all. by rewrite take_app_length.
Qed.

Lemma copy_at_disjoint buf k pkt a n :
  (a + n <= k ∨ k + length pkt <= a)%nat → (k + length pkt <= length buf)%nat →
  take n (drop a (copy_at buf k pkt)) = take n (drop a buf).
Proof.
  intros Hd Hk. unfold copy_at. rewrite Nat.min_l by lia. rewrite firstn_all. apply list_eq. intros i.
  destruct (decide (i < n)%nat) as [Hi|Hi]; [|rewrite !lookup_take_ge by lia; done].
  rewrite !lookup_take_lt, !lookup_drop by lia. destruct Hd as [Hd|Hd].
  - rewrite lookup_app_l by (rewrite length_take; lia). by rewrite lookup_take_lt by lia.
  - rewrite lookup_app_r by (rewrite length_take; lia). rewrite length_take, Nat.min_l by lia.
    rewrite lookup_app_r by lia. rewrite lookup_drop. f_equal. lia.
Qed.

End CopyAt.

(** ** Iteration over Go maps

    [for k, v := range m] visits the entries of [m] once each, in an order the
    language leaves open.  Every operation that ranges over a map takes the
    order as the argument [map_range]; theorems therefore hold for any order. *)
Class MapRange := {
  map_range : ∀ {K A : Type} `{Countable K}, gmap K A → list (K * A);
  map_range_perm : ∀ {K A : Type} `{Countable K} (m : gmap K A),
    map_range m ≡ₚ map_to_list m }.

(** The order of stdpp's [map_to_list], used where a concrete run is evaluated. *)
#[export] Instance map_to_list_range : MapRange | 100.
Proof. refine {| map_range K A _ _ m := map_to_list m |}. by intros. Defined.

Section Range.
Context `{MR : MapRange} {K A : Type} `{Countable K}.

Lemma elem_of_map_range (m : gmap K A) k x : (k, x) ∈ map_range m ↔ m !! k = Some x.
Proof. rewrite (map_range_perm m). apply elem_of_map_to_list. Qed.

Lemma map_range_NoDup (m : gmap K A) : NoDup (map_range m).*1.
Proof. rewrite (map_range_perm m). apply NoDup_fst_map_to_list. Qed.

Lemma map_range_NoDup_pairs (m : gmap K A) : NoDup (map_range m).
Proof. rewrite (map_range_perm m). apply NoDup_map_to_list. Qed.

Lemma map_range_length (m : gmap K A) : length (map_range m) = size m.
Proof. rewrite (map_range_perm m). apply length_map_to_list. Qed.

Lemma map_range_empty (m : gmap K A) : m = ∅ → map_range m = [].
Proof.
  intros ->. apply Permutation_nil_r. rewrite (map_range_perm ∅). by rewrite map_to_list_empty.
Qed.

End Range.

(** Removing the first occurrence of a value from a slice:
    [append(s[:i], s[i+1:]...)] at the first [i] with [s[i] == x]. *)
Fixpoint remove_first {A} `{EqDecision A} (x : A) (l : list A) : list A :=
  match l with
  | [] => []
  | y :: l' => if decide (y = x) then l' else y :: remove_first x l'
  end.

Section RemoveFirst.
Context {A : Type} `{EqDecision A}.
Implicit Types (x y : A) (l : list A).

Lemma remove_first_subseteq x y l : y ∈ remove_first x l → y ∈ l.
Proof. induction l as [|z l IH]; simpl; [done|]. case_decide; set_solver. Qed.

Lemma elem_of_remove_first_ne x y l : y ≠ x → y ∈ l → y ∈ remove_first x l.
Proof. intros Hne. induction l as [|z l IH]; simpl; [done|]. case_decide; set_solver. Qed.

Lemma remove_first_NoDup x l : NoDup l → NoDup (remove_first x l).
Proof.
  induction 1 as [|z l Hz HN IH]; simpl; [constructor|].
  case_decide; [done|]. constructor; [|done]. eauto using remove_first_subseteq.
Qed.

Lemma elem_of_remove_first x y l : NoDup l → y ∈ remove_first x l ↔ y ∈ l ∧ y ≠ x.
Proof.
  intros HN. split.
  - intros Hy. split; [by eapply remove_first_subseteq|]. intros ->.
    induction HN as [|z l Hz HN IH]; simpl in Hy; [set_solver|]. case_decide; set_solver.
  - intros [? ?]. by apply elem_of_remove_first_ne.
Qed.

Lemma remove_first_not_in x l : x ∉ l → remove_first x l = l.
Proof.
  induction l as [|z l IH]; simpl; intros Hx; [done|].
  rewrite decide_False by set_solver. f_equal. apply IH. set_solver.
Qed.

End RemoveFirst.

(** ** Go strings

    Comparison of strings is bytewise ([String.ltb]); only antisymmetry and
    totality are needed below. *)
Definition str_gt (s t : string) : bool := String.ltb t s.
Definition str_lt (s t : string) : bool := String.ltb s t.

Lemma str_gt_asym s t : str_gt s t = true → str_gt t s = false.
Proof.
  unfold str_gt, String.ltb. rewrite (String.compare_antisym s t).
  by destruct (String.compare t s).
Qed.

Lemma str_gt_total s t : s ≠ t → str_gt s t = negb (str_gt t s).
Proof.
  unfold str_gt, String.ltb. intros Hne. rewrite (String.compare_antisym s t).
  destruct (String.compare t s) eqn:E; simpl; try done.
  by apply String.compare_eq_iff in E.
Qed.

(** ** Folding a state through a list in the order of the list *)

Lemma foldl_invariant {S A} (P : S → Prop) (f : S → A → S) l s :
  P s → (∀ s a, a ∈ l → P s → P (f s a)) → P (foldl f s l).
Proof.
  revert s. induction l as [|a l IH]; intros s Hs Hstep; simpl; [done|].
  apply IH; [apply Hstep; [set_solver|done]|]. intros; apply Hstep; [set_solver|done].
Qed.

(** What every step of a fold keeps. *)
Lemma foldl_keeps {A X Y} (f : A → X → A) (g : A → Y) l x : (∀ x y, g (f x y) = g x) → g (foldl f x l) = g x.
Proof. intros H. revert x. induction l as [|y l IH]; intros x; [done|]. simpl. by rewrite IH. Qed.

(** ** encoding/binary: big-endian words

    [be16] and [be32] are [binary.BigEndian.Uint16]/[Uint32] (which panic on a
    short slice), [put32] is [binary.BigEndian.PutUint32]. *)
Definition be16 (b : list Z) : gores Z :=
  match b with
  | b0 :: b1 :: _ => Ok (Z.lor (Z.shiftl b0 8) b1)
  | _ => Panic
  end.

Definition be32 (b : list Z) : gores Z :=
  match b with
  | b0 :: b1 :: b2 :: b3 :: _ =>
      Ok (Z.lor (Z.lor (Z.lor (Z.shiftl b0 24) (Z.shiftl b1 16)) (Z.shiftl b2 8)) b3)
  | _ => Panic
  end.

Definition put16 (n : Z) : list Z := [u8 (Z.shiftr n 8); u8 n].

Definition put32 (n : Z) : list Z :=
  [u8 (Z.shiftr n 24); u8 (Z.shiftr n 16); u8 (Z.shiftr n 8); u8 n].

Lemma be16_value b0 b1 l :
  is_u8 b0 → is_u8 b1 → be16 (b0 :: b1 :: l) = Ok (b0 * 256 + b1)%Z.
Proof. intros. simpl. f_equal. rewrite lor_shiftl_add; word_lia. Qed.

Lemma be32_value b0 b1 b2 b3 l :
  is_u8 b0 → is_u8 b1 → is_u8 b2 → is_u8 b3 →
  be32 (b0 :: b1 :: b2 :: b3 :: l) = Ok (b0 * 16777216 + b1 * 65536 + b2 * 256 + b3)%Z.
Proof.
  intros. simpl. f_equal. rewrite <- !Z.lor_assoc.
  rewrite (lor_shiftl_add b2 b3 8) by word_lia.
  rewrite (lor_shiftl_add b1 _ 16) by word_lia.
  rewrite (lor_shiftl_add b0 _ 24) by word_lia. word_lia.
Qed.

Lemma put16_be16 n l : is_u16 n → be16 (put16 n ++ l) = Ok n.
Proof.
  intros. unfold put16, app. rewrite be16_value by auto with node.
  f_equal. rewrite Z.shiftr_div_pow2 by lia. change (2 ^ 8)%Z with 256%Z. word_lia.
Qed.

Lemma put32_be32 n l : is_u32 n → be32 (put32 n ++ l) = Ok n.
Proof.
  intros. unfold put32, app. rewrite be32_value by auto with node.
  f_equal. rewrite !Z.shiftr_div_pow2 by lia.
  change (2 ^ 24)%Z with 16777216%Z. change (2 ^ 16)%Z with 65536%Z.
  change (2 ^ 8)%Z with 256%Z. word_lia.
Qed.
