(* ===== verification/DgMessage.v ===== *)
(** * Datagram messages (internal/utils/dgmessage)

    The packet objects that travel through the router: the parser of the IPv4
    and L4 headers ([NewMessageCopyFrom]), the pooled buffers behind the
    messages and their release ([Free]).  Buffers are objects of a heap: a
    message that has been released and handed out again is the same object, so
    sharing is visible in the model. *)
From S2P Require Import Prelude.

Open Scope go_scope.

Module DgMessage.

(** ** Data *)

Record HoleInfo := mkHoleInfo {
  SrcIP : Z;
  DstIP : Z;
  SrcPort : Z;
  DstPort : Z;
  Protocol : string }.

#[export] Instance HoleInfo_eq_dec : EqDecision HoleInfo.
Proof. solve_decision. Defined.

(** A message object: [dm_buf] is the backing array of [Data] (its length is
    the capacity of the slice), [dm_len] the length of [Data], [dm_owned] says
    whether the field [pool] is set. *)
Record DatagramMessage := mkMessage {
  dm_buf : list Z;
  dm_len : nat;
  dm_ipversion : Z;
  dm_hole : HoleInfo;
  dm_owned : bool }.

Definition dm_data (m : DatagramMessage) : list Z := take (dm_len m) (dm_buf m).

(** The pool with the objects it ever created: [pool_items] is the content of
    the [sync.Pool], [pool_heap] the message objects by identity. *)
Record dgPool := mkPool {
  maxSize : nat;
  pool_items : list nat;
  pool_heap : gmap nat DatagramMessage;
  pool_next : nat }.

Definition zero_hole : HoleInfo := mkHoleInfo 0 0 0 0 "".

(** ** Operations *)

Definition NewDGMessagePool (max : nat) : dgPool := mkPool max [] ∅ 0.

(** The [New] function of the [sync.Pool]. *)
Definition pool_New (max : nat) : DatagramMessage :=
  mkMessage (replicate max 0%Z) 0 4 zero_hole false.

(** [sync.Pool.Get] returns an arbitrary item of the pool or calls [New]: the
    runtime's choice is the argument [pick], an index into the items. *)
Definition pool_Get (pick : option nat) (p : dgPool) : nat * dgPool :=
  match pick ≫= λ i, (i,.) <$> (pool_items p !! i) with
  | Some (i, id) =>
      (id, mkPool (maxSize p) (delete i (pool_items p)) (pool_heap p) (pool_next p))
  | None =>
      (pool_next p,
       mkPool (maxSize p) (pool_items p)
         (<[pool_next p := pool_New (maxSize p)]> (pool_heap p)) (S (pool_next p)))
  end.

(** The L4 part of [NewMessageCopyFrom]: protocol name and ports. *)
Definition parse_l4 (copyFrom : list Z) : gores (string * Z * Z) :=
  b0 <- go_index copyFrom 0;;
  let ihl := (Z.land b0 15 * 4)%Z in
  proto <- go_index copyFrom 9;;
  if decide (proto = 6%Z) then
    if decide (golen copyFrom < ihl + 14)%Z then Err "packet too small for TCP"
    else
      s <- go_slice copyFrom ihl (ihl + 2);; sp <- be16 s;;
      d <- go_slice copyFrom (ihl + 2) (ihl + 4);; dp <- be16 d;;
      Ok ("tcp", sp, dp)
  else if decide (proto = 17%Z) then
    if decide (golen copyFrom < ihl + 8)%Z then Err "packet too small for UDP"
    else
      s <- go_slice copyFrom ihl (ihl + 2);; sp <- be16 s;;
      d <- go_slice copyFrom (ihl + 2) (ihl + 4);; dp <- be16 d;;
      Ok ("udp", sp, dp)
  else if decide (proto = 1%Z) then Ok ("icmp", 0%Z, 0%Z)
  else Err "unsupported L4 protocol".

(** Filling the object taken from the pool: [msg.Data = msg.Data[:len]] panics
    when the capacity is too small. *)
Definition fill_message (m : DatagramMessage) (copyFrom : list Z) (hi : HoleInfo)
    : gores DatagramMessage :=
  if decide (length copyFrom <= length (dm_buf m))%nat
  then Ok (mkMessage (copyFrom ++ drop (length copyFrom) (dm_buf m))
             (length copyFrom) (dm_ipversion m) hi true)
  else Panic.

Definition NewMessageCopyFrom (pick : option nat) (p : dgPool) (copyFrom : list Z)
    : gores (dgPool * nat) :=
  if decide (golen copyFrom < 20)%Z then Err "packet too small for IPv4" else
  b0 <- go_index copyFrom 0;;
  if decide (Z.shiftr b0 4 ≠ 4%Z) then Err "only ipv4 is supported" else
  if decide (maxSize p < length copyFrom)%nat then Err "packet size exceeds pool capacity" else
  l4 <- parse_l4 copyFrom;;
  let '(protocol, srcPort, dstPort) := l4 in
  let '(id, p') := pool_Get pick p in
  s <- go_slice copyFrom 12 16;; src <- be32 s;;
  d <- go_slice copyFrom 16 20;; dst <- be32 d;;
  match pool_heap p' !! id with
  | None => Panic
  | Some msg =>
      msg' <- fill_message msg copyFrom (mkHoleInfo src dst srcPort dstPort protocol);;
      Ok (mkPool (maxSize p') (pool_items p') (<[id := msg']> (pool_heap p')) (pool_next p'), id)
  end.

(** [Free]: a message without a pool is ignored; otherwise the slice is cut to
    length 0 (the capacity stays), the protocol is cleared and the object is
    put back. *)
Definition Free (p : dgPool) (id : nat) : dgPool :=
  match pool_heap p !! id with
  | Some m =>
      if dm_owned m then
        mkPool (maxSize p) (pool_items p ++ [id])
          (<[id := mkMessage (dm_buf m) 0 (dm_ipversion m)
                     (mkHoleInfo (SrcIP (dm_hole m)) (DstIP (dm_hole m))
                        (SrcPort (dm_hole m)) (DstPort (dm_hole m)) "")
                     (dm_owned m)]> (pool_heap p)) (pool_next p)
      else p
  | None => p
  end.

(** ** The pool invariant

    Every object has the pool's capacity; the items are distinct objects of the
    heap; identities below [pool_next] are the only ones in use.  [live] is the
    set of messages handed out and not yet released. *)
Record pool_ok (p : dgPool) (live : gset nat) : Prop := {
  pok_cap : ∀ id m, pool_heap p !! id = Some m → length (dm_buf m) = maxSize p;
  pok_next : ∀ id, is_Some (pool_heap p !! id) → (id < pool_next p)%nat;
  pok_items : NoDup (pool_items p);
  pok_items_heap : ∀ id, id ∈ pool_items p → is_Some (pool_heap p !! id);
  pok_live_heap : ∀ id, id ∈ live → is_Some (pool_heap p !! id);
  pok_disjoint : ∀ id, id ∈ live → id ∉ pool_items p }.

(** The acceptance condition of the L4 switch alone. *)
Definition accepts_l4 (b : list Z) : bool :=
  let ihl := (Z.land (b !!! 0%nat) 15 * 4)%Z in
  (bool_decide (b !!! 9%nat = 6%Z) && bool_decide (ihl + 14 <= golen b)%Z) ||
  (bool_decide (b !!! 9%nat = 17%Z) && bool_decide (ihl + 8 <= golen b)%Z) ||
  bool_decide (b !!! 9%nat = 1%Z).

(** The fields of the header, octet by octet: the first is the most significant. *)
Definition octets16 (b : list Z) (i : nat) : Z := (b !!! i * 256 + b !!! S i)%Z.
Definition octets32 (b : list Z) (i : nat) : Z := (octets16 b i * 65536 + octets16 b (S (S i)))%Z.
Definition header_length (b : list Z) : nat := 4 * Z.to_nat (b !!! 0%nat mod 16).

Definition header_of (b : list Z) (hi : HoleInfo) : Prop :=
  SrcIP hi = octets32 b 12 ∧ DstIP hi = octets32 b 16 ∧
  ((b !!! 9%nat = 6%Z ∧ Protocol hi = "tcp" ∨ b !!! 9%nat = 17%Z ∧ Protocol hi = "udp") ∧
     SrcPort hi = octets16 b (header_length b) ∧ DstPort hi = octets16 b (header_length b + 2) ∨
   b !!! 9%nat = 1%Z ∧ Protocol hi = "icmp" ∧ SrcPort hi = 0%Z ∧ DstPort hi = 0%Z).

(** What a successful call stores for the packet [b]. *)
Definition message_for (b : list Z) (m : DatagramMessage) : Prop :=
  dm_data m = b ∧ dm_owned m = true ∧ (Forall is_u8 b → header_of b (dm_hole m)).

(** The header conditions under which a packet is accepted, as a decidable
    predicate on the bytes. *)
Definition accepts (max : nat) (b : list Z) : bool :=
  bool_decide (20 <= length b)%nat &&
  bool_decide (Z.shiftr (b !!! 0%nat) 4 = 4%Z) &&
  bool_decide (length b <= max)%nat && accepts_l4 b.

(** An IPv4 packet without options for the flow [hi]: [tos] stands for the
    bytes 1 to 8 of the header, [chk] for the checksum. *)
Definition proto_number (p : string) : Z :=
  if decide (p = "tcp") then 6 else if decide (p = "udp") then 17 else 1.

(** The flows the parser can report: 32-bit addresses, 16-bit ports, one of the
    three protocols, no ports for ICMP. *)
Definition wf_hole (hi : HoleInfo) : Prop :=
  is_u32 (SrcIP hi) ∧ is_u32 (DstIP hi) ∧ is_u16 (SrcPort hi) ∧ is_u16 (DstPort hi) ∧
  (Protocol hi = "tcp" ∨ Protocol hi = "udp" ∨
   (Protocol hi = "icmp" ∧ SrcPort hi = 0%Z ∧ DstPort hi = 0%Z)).

Definition encode_packet (hi : HoleInfo) (tos chk payload : list Z) : list Z :=
  [69%Z] ++ tos ++ [proto_number (Protocol hi)] ++ chk ++ put32 (SrcIP hi) ++ put32 (DstIP hi)
  ++ put16 (SrcPort hi) ++ put16 (DstPort hi) ++ payload.

(** ** Lemmas *)

Lemma slice_be16 (b : list Z) i :
  (0 <= i)%Z → (i + 2 <= golen b)%Z →
  ∃ s v, go_slice b i (i + 2) = Ok s ∧ be16 s = Ok v.
Proof.
  intros Hi Hl. rewrite go_slice_ok by lia.
  replace (Z.to_nat (i + 2 - i)) with 2%nat by lia.
  destruct (drop (Z.to_nat i) b) as [|x [|y l]] eqn:E;
    apply (f_equal length) in E; rewrite length_drop in E; simpl in E; try lia.
  eexists _, _. split; [done|]. done.
Qed.

Lemma slice_be32 (b : list Z) i :
  (0 <= i)%Z → (i + 4 <= golen b)%Z →
  ∃ s v, go_slice b i (i + 4) = Ok s ∧ be32 s = Ok v.
Proof.
  intros Hi Hl. rewrite go_slice_ok by lia.
  replace (Z.to_nat (i + 4 - i)) with 4%nat by lia.
  destruct (drop (Z.to_nat i) b) as [|x0 [|x1 [|x2 [|x3 l]]]] eqn:E;
    apply (f_equal length) in E; rewrite length_drop in E; simpl in E; try lia.
  eexists _, _. split; [done|]. done.
Qed.

Lemma go_index_total (b : list Z) (i : nat) :
  (i < length b)%nat → go_index b (Z.of_nat i) = Ok (b !!! i).
Proof.
  intros Hi. destruct (go_index_ok b (Z.of_nat i)) as (x & Hx & Hl); [lia|].
  rewrite Nat2Z.id in Hl. rewrite Hx. by rewrite (list_lookup_total_correct _ _ _ Hl).
Qed.

Lemma go_index_first (b : list Z) : (20 <= length b)%nat → go_index b 0 = Ok (b !!! 0%nat).
Proof. intros. apply (go_index_total b 0). lia. Qed.

Lemma go_index_proto (b : list Z) : (20 <= length b)%nat → go_index b 9 = Ok (b !!! 9%nat).
Proof. intros. apply (go_index_total b 9). lia. Qed.

Lemma ihl_nonneg x : (0 <= Z.land x 15 * 4)%Z.
Proof. pose proof (Z.land_nonneg x 15) as [_ H]. specialize (H ltac:(lia)). lia. Qed.

Lemma parse_l4_spec b :
  (20 <= length b)%nat →
  if accepts_l4 b then is_ok (parse_l4 b) = true else ∃ e, parse_l4 b = Err e.
Proof.
  intros Hl. unfold parse_l4, accepts_l4.
  rewrite go_index_first, go_index_proto by done. cbn [gobind].
  pose proof (ihl_nonneg (b !!! 0%nat)) as Hn.
  set (ihl := (Z.land (b !!! 0%nat) 15 * 4)%Z) in *.
  assert (Hports : (ihl + 8 <= golen b)%Z → ∃ s1 v1 s2 v2,
    go_slice b ihl (ihl + 2) = Ok s1 ∧ be16 s1 = Ok v1 ∧
    go_slice b (ihl + 2) (ihl + 4) = Ok s2 ∧ be16 s2 = Ok v2).
  { intros H8. destruct (slice_be16 b ihl) as (s1 & v1 & E1 & F1); [lia..|].
    destruct (slice_be16 b (ihl + 2)) as (s2 & v2 & E2 & F2); [lia..|].
    replace (ihl + 2 + 2)%Z with (ihl + 4)%Z in E2 by lia. eauto 10. }
  repeat case_decide; simpl; repeat case_bool_decide; simpl; try lia; try congruence; eauto;
    destruct Hports as (s1 & v1 & s2 & v2 & E1 & F1 & E2 & F2); try lia;
    rewrite E1; simpl; rewrite F1; simpl; rewrite E2; simpl; rewrite F2; done.
Qed.

Lemma accepts_split max b :
  accepts max b = true ↔
  (20 <= length b)%nat ∧ Z.shiftr (b !!! 0%nat) 4 = 4%Z ∧ (length b <= max)%nat ∧
  accepts_l4 b = true.
Proof.
  unfold accepts. rewrite !andb_true_iff, !bool_decide_eq_true. tauto.
Qed.

Lemma pool_Get_spec pick p live id p' :
  pool_ok p live → pool_Get pick p = (id, p') →
  pool_ok p' ({[id]} ∪ live) ∧ id ∉ live ∧ maxSize p' = maxSize p ∧
  (∀ j, j ≠ id → pool_heap p' !! j = pool_heap p !! j).
Proof.
  intros [Hcap Hnext HN Hih Hlh Hd]. unfold pool_Get.
  destruct (pick ≫= _) as [[i x]|] eqn:E; intros [= <- <-]; simpl.
  - destruct pick as [k|]; simplify_eq/=. destruct (pool_items p !! k) eqn:Ek; simplify_eq/=.
    assert (Hx : x ∈ pool_items p) by eauto using list_elem_of_lookup_2.
    rewrite (delete_Permutation (pool_items p) i x) in HN by done.
    apply NoDup_cons in HN as [Hx' HN].
    split_and!; try done; [|by intros ?%Hd].
    constructor; simpl; try done.
    + intros j Hj. apply Hih. rewrite (delete_Permutation (pool_items p) i x) by done. set_solver.
    + intros j. set_unfold. intros [->|]; eauto.
    + intros j [->%elem_of_singleton|Hj]%elem_of_union; [done|].
      intros Hj'. apply (Hd j Hj). rewrite (delete_Permutation (pool_items p) i x) by done. set_solver.
  - assert (Hf : ∀ j, is_Some (pool_heap p !! j) → j ≠ pool_next p)
      by (intros j Hj ->; specialize (Hnext _ Hj); lia).
    split_and!; try done.
    + constructor; simpl.
      * intros j m. rewrite lookup_insert. case_decide; [intros [= <-]; apply length_replicate|eauto].
      * intros j. rewrite lookup_insert. case_decide; subst; [lia|]. intros Hj%Hnext. lia.
      * done.
      * intros j Hj%Hih. rewrite lookup_insert_ne by (symmetry; eauto). done.
      * intros j [->%elem_of_singleton|Hj%Hlh]%elem_of_union; [by rewrite lookup_insert_eq|].
        rewrite lookup_insert_ne by (symmetry; eauto). done.
      * intros j [->%elem_of_singleton|Hj]%elem_of_union; [|by apply Hd].
        intros Hj%Hih%Hf. done.
    + intros Hj%Hlh%Hf. done.
    + intros j Hj. by rewrite lookup_insert_ne.
Qed.

Lemma pool_ok_update p live id m :
  pool_ok p live → is_Some (pool_heap p !! id) → length (dm_buf m) = maxSize p →
  pool_ok (mkPool (maxSize p) (pool_items p) (<[id := m]> (pool_heap p)) (pool_next p)) live.
Proof.
  intros [Hcap Hnext HN Hih Hlh Hd] Hid Hm. constructor; simpl; try done.
  - intros j m'. rewrite lookup_insert. case_decide; [congruence|eauto].
  - intros j. rewrite lookup_insert. case_decide; [subst; auto|auto].
  - intros j Hj. rewrite lookup_insert. case_decide; eauto.
  - intros j Hj. rewrite lookup_insert. case_decide; eauto.
Qed.

(** The same through the readers of the words. *)
Definition decoded (b : list Z) (hi : HoleInfo) : Prop :=
  be32 (take 4 (drop 12 b)) = Ok (SrcIP hi) ∧ be32 (take 4 (drop 16 b)) = Ok (DstIP hi) ∧
  parse_l4 b = Ok (Protocol hi, SrcPort hi, DstPort hi).

Lemma two_octets b i :
  Forall is_u8 b → (i + 2 <= length b)%nat →
  ∃ x y, take 2 (drop i b) = [x; y] ∧ be16 [x; y] = Ok (octets16 b i).
Proof.
  intros Hb Hl. destruct (lookup_lt_is_Some_2 b i ltac:(lia)) as [x Hx]. destruct (lookup_lt_is_Some_2 b (S i) ltac:(lia)) as [y Hy].
  exists x, y. rewrite (drop_S _ _ _ Hx), (drop_S _ _ _ Hy). split; [done|].
  unfold octets16. rewrite (list_lookup_total_correct _ _ _ Hx), (list_lookup_total_correct _ _ _ Hy).
  apply be16_value; by eapply Forall_lookup_1.
Qed.

Lemma four_octets b i :
  Forall is_u8 b → (i + 4 <= length b)%nat → be32 (take 4 (drop i b)) = Ok (octets32 b i).
Proof.
  intros Hb Hl. destruct (lookup_lt_is_Some_2 b i ltac:(lia)) as [x Hx]. destruct (lookup_lt_is_Some_2 b (S i) ltac:(lia)) as [y Hy].
  destruct (lookup_lt_is_Some_2 b (S (S i)) ltac:(lia)) as [z Hz]. destruct (lookup_lt_is_Some_2 b (S (S (S i))) ltac:(lia)) as [t Ht].
  rewrite (drop_S _ _ _ Hx), (drop_S _ _ _ Hy), (drop_S _ _ _ Hz), (drop_S _ _ _ Ht). unfold octets32, octets16.
  rewrite (list_lookup_total_correct _ _ _ Hx), (list_lookup_total_correct _ _ _ Hy),
    (list_lookup_total_correct _ _ _ Hz), (list_lookup_total_correct _ _ _ Ht). cbn [take].
  rewrite be32_value by by eapply Forall_lookup_1. f_equal. lia.
Qed.

Lemma header_length_ihl b : (Z.land (b !!! 0%nat) 15 * 4)%Z = Z.of_nat (header_length b).
Proof.
  unfold header_length. change 15%Z with (Z.ones 4). rewrite Z.land_ones by lia. change (2 ^ 4)%Z with 16%Z.
  pose proof (Z.mod_pos_bound (b !!! 0%nat) 16 ltac:(lia)). lia.
Qed.

Lemma decoded_header b hi : (20 <= length b)%nat → decoded b hi → Forall is_u8 b → header_of b hi.
Proof.
  intros H20 (Es & Ed & El) Hb. rewrite !four_octets in Es, Ed by (done || lia). injection Es as Es. injection Ed as Ed.
  split; [done|]. split; [done|]. unfold parse_l4 in El. rewrite go_index_first, go_index_proto in El by done. cbn [gobind] in El.
  rewrite header_length_ihl in El.
  assert (Hports : (Z.of_nat (header_length b) + 8 <= golen b)%Z → ∀ (pr : string),
    (s <- go_slice b (Z.of_nat (header_length b)) (Z.of_nat (header_length b) + 2);; sp <- be16 s;;
     d <- go_slice b (Z.of_nat (header_length b) + 2) (Z.of_nat (header_length b) + 4);; dp <- be16 d;; Ok (pr, sp, dp)) =
    Ok (pr, octets16 b (header_length b), octets16 b (header_length b + 2))).
  { intros Hl pr. rewrite !go_slice_ok by lia.
    replace (Z.to_nat (Z.of_nat (header_length b) + 2 - Z.of_nat (header_length b))) with 2%nat by lia.
    replace (Z.to_nat (Z.of_nat (header_length b) + 4 - (Z.of_nat (header_length b) + 2))) with 2%nat by lia.
    replace (Z.to_nat (Z.of_nat (header_length b) + 2)) with (header_length b + 2)%nat by lia. rewrite Nat2Z.id.
    destruct (two_octets b (header_length b) Hb ltac:(lia)) as (x & y & -> & E1).
    destruct (two_octets b (header_length b + 2) Hb ltac:(lia)) as (x' & y' & -> & E2).
    cbn [gobind]. rewrite E1. cbn [gobind]. rewrite E2. done. }
  case_decide as H6; [case_decide; [done|]; rewrite Hports in El by lia; injection El as <- <- <-; left; auto|].
  case_decide as H17; [case_decide; [done|]; rewrite Hports in El by lia; injection El as <- <- <-; left; auto|].
  case_decide as H1; [|done]. injection El as <- <- <-. by right.
Qed.

Lemma NewMessageCopyFrom_decodes pick p live b :
  pool_ok p live → accepts (maxSize p) b = true →
  ∃ p' id m, NewMessageCopyFrom pick p b = Ok (p', id) ∧
    pool_ok p' ({[id]} ∪ live) ∧ id ∉ live ∧ maxSize p' = maxSize p ∧
    pool_heap p' !! id = Some m ∧ (dm_data m = b ∧ dm_owned m = true ∧ decoded b (dm_hole m)) ∧
    (∀ j, j ∈ live → pool_heap p' !! j = pool_heap p !! j).
Proof.
  intros Hp (H20 & Hv & Hmax & H4)%accepts_split. unfold NewMessageCopyFrom.
  rewrite decide_False by lia. rewrite go_index_first by lia. cbn [gobind].
  rewrite decide_False by (intros []; done). rewrite decide_False by lia.
  pose proof (parse_l4_spec b H20) as Hl4. rewrite H4 in Hl4.
  destruct (parse_l4 b) as [[[proto sp] dp]| |] eqn:El4; try done. cbn [gobind].
  destruct (pool_Get pick p) as [id p1] eqn:Eg.
  destruct (pool_Get_spec _ _ _ _ _ Hp Eg) as (Hp1 & Hid & Hms & Hfr).
  destruct (slice_be32 b 12) as (s & src & Es & Fs); [lia..|].
  destruct (slice_be32 b 16) as (d & dst & Ed & Fd); [lia..|].
  change (12 + 4)%Z with 16%Z in Es. change (16 + 4)%Z with 20%Z in Ed.
  rewrite Es. simpl. rewrite Fs. simpl. rewrite Ed. simpl. rewrite Fd. simpl.
  destruct (pok_live_heap _ _ Hp1 id) as [m0 Hm0]; [set_solver|]. rewrite Hm0.
  pose proof (pok_cap _ _ Hp1 _ _ Hm0) as Hcap. unfold fill_message.
  rewrite decide_True by lia. simpl.
  eexists _, _, _. split; [done|]. simpl. rewrite lookup_insert_eq. split_and!; try done.
  - apply pool_ok_update; [done|by eexists|]. simpl.
    rewrite length_app, length_drop. lia.
  - unfold dm_data; simpl. by rewrite take_app_length.
  - unfold decoded; simpl. rewrite go_slice_ok in Es, Ed by lia. by simplify_eq/=.
  - intros j Hj. rewrite lookup_insert_ne by set_solver. apply Hfr. set_solver.
Qed.

Lemma NewMessageCopyFrom_accept pick p live b :
  pool_ok p live → accepts (maxSize p) b = true →
  ∃ p' id m, NewMessageCopyFrom pick p b = Ok (p', id) ∧
    pool_ok p' ({[id]} ∪ live) ∧ id ∉ live ∧ maxSize p' = maxSize p ∧
    pool_heap p' !! id = Some m ∧ message_for b m ∧
    (∀ j, j ∈ live → pool_heap p' !! j = pool_heap p !! j).
Proof.
  intros Hp Ha. destruct (NewMessageCopyFrom_decodes pick p live b Hp Ha) as (p' & id & m & E & H1 & H2 & H3 & H4 & (Hd & Ho & Hh) & H5).
  apply accepts_split in Ha as (H20 & _). exists p', id, m. do 5 (split; [done|]). split; [|done].
  split; [done|]. split; [done|]. by apply decoded_header.
Qed.

Lemma NewMessageCopyFrom_reject pick p b :
  accepts (maxSize p) b = false → ∃ e, NewMessageCopyFrom pick p b = Err e.
Proof.
  intros Ha. unfold NewMessageCopyFrom. case_decide as H20; [eauto|].
  rewrite go_index_first by lia. cbn [gobind].
  case_decide as Hv; [eauto|]. case_decide as Hm; [eauto|].
  pose proof (parse_l4_spec b ltac:(lia)) as Hl4.
  destruct (accepts_l4 b) eqn:E4.
  - apply not_true_iff_false in Ha. destruct Ha. apply accepts_split.
    split_and!; [lia| |lia|done]. by destruct (decide (Z.shiftr (b !!! 0%nat) 4 = 4%Z)).
  - destruct Hl4 as [e ->]. simpl. eauto.
Qed.

(** ** Theorems *)


Lemma encode_packet_length hi tos chk payload :
  length tos = 8%nat → length chk = 2%nat →
  length (encode_packet hi tos chk payload) = (24 + length payload)%nat.
Proof. intros Ht Hc. unfold encode_packet, put32, put16. rewrite !length_app. simpl. lia. Qed.

Lemma encode_packet_fields hi tos chk payload b :
  length tos = 8%nat → length chk = 2%nat → b = encode_packet hi tos chk payload →
  b !!! 0%nat = 69%Z ∧ b !!! 9%nat = proto_number (Protocol hi) ∧
  take 4 (drop 12 b) = put32 (SrcIP hi) ∧ take 4 (drop 16 b) = put32 (DstIP hi) ∧
  go_slice b 20 22 = Ok (put16 (SrcPort hi)) ∧ go_slice b 22 24 = Ok (put16 (DstPort hi)).
Proof.
  intros Ht Hc ->. pose proof (encode_packet_length hi tos chk payload Ht Hc) as Hlen.
  rewrite !go_slice_ok by lia.
  do 9 (destruct tos as [|? tos]; simplify_eq/=). do 3 (destruct chk as [|? chk]; simplify_eq/=).
  done.
Qed.

Lemma parse_l4_encode hi tos chk payload :
  wf_hole hi → length tos = 8%nat → length chk = 2%nat → (10 <= length payload)%nat →
  parse_l4 (encode_packet hi tos chk payload) = Ok (Protocol hi, SrcPort hi, DstPort hi).
Proof.
  intros (Hs & Hd & Hsp & Hdp & Hp) Ht Hc Hl.
  pose proof (encode_packet_length hi tos chk payload Ht Hc) as Hlen.
  destruct (encode_packet_fields hi tos chk payload _ Ht Hc eq_refl) as (E0 & E9 & _ & _ & Es & Ed).
  set (b := encode_packet hi tos chk payload) in *. unfold parse_l4.
  rewrite go_index_first, go_index_proto by lia. cbn [gobind]. rewrite E0, E9.
  change (Z.land 69 15 * 4)%Z with 20%Z. change (20 + 2)%Z with 22%Z. change (20 + 4)%Z with 24%Z.
  rewrite Es, Ed. cbn [gobind].
  pose proof (put16_be16 _ [] Hsp) as Bs. pose proof (put16_be16 _ [] Hdp) as Bd.
  rewrite app_nil_r in Bs, Bd. rewrite Bs. cbn [gobind]. rewrite Bd. cbn [gobind].
  rewrite (decide_False (P := (golen b < 20 + 14)%Z)) by lia.
  rewrite (decide_False (P := (golen b < 20 + 8)%Z)) by lia.
  destruct hi as [? ? sp dp pr]; simpl in *. destruct Hp as [->|[->|(-> & -> & ->)]]; done.
Qed.

Lemma accepts_encode hi tos chk payload max :
  wf_hole hi → length tos = 8%nat → length chk = 2%nat → (10 <= length payload)%nat →
  (24 + length payload <= max)%nat →
  accepts max (encode_packet hi tos chk payload) = true.
Proof.
  intros Hw Ht Hc Hl Hm. pose proof (encode_packet_length hi tos chk payload Ht Hc) as Hlen.
  apply accepts_split. split_and!; [lia|done|lia|].
  pose proof (parse_l4_spec (encode_packet hi tos chk payload) ltac:(lia)) as Hs.
  destruct (accepts_l4 _); [done|]. destruct Hs as [e He].
  by rewrite (parse_l4_encode hi tos chk payload Hw Ht Hc Hl) in He.
Qed.

(** parsing inverts encoding.  An IPv4 packet built for a TCP, UDP or ICMP
    flow is accepted, and the flow record of the resulting message is the flow
    the packet was built for. *)
Theorem parse_encode_roundtrip pick p live hi tos chk payload :
  pool_ok p live → wf_hole hi → length tos = 8%nat → length chk = 2%nat →
  (10 <= length payload)%nat → (24 + length payload <= maxSize p)%nat →
  ∃ p' id m, NewMessageCopyFrom pick p (encode_packet hi tos chk payload) = Ok (p', id) ∧
    pool_heap p' !! id = Some m ∧ dm_hole m = hi.
Proof.
  intros Hp Hw Ht Hc Hl Hm.
  destruct (NewMessageCopyFrom_decodes pick p live (encode_packet hi tos chk payload) Hp)
    as (p' & id & m & E & _ & _ & _ & Em & (_ & _ & E1 & E2 & E3) & _);
    [by apply accepts_encode|].
  exists p', id, m. split_and!; [done|done|].
  destruct (encode_packet_fields hi tos chk payload _ Ht Hc eq_refl) as (_ & _ & F1 & F2 & _).
  pose proof Hw as (Hs & Hd & _). rewrite F1 in E1. rewrite F2 in E2.
  pose proof (put32_be32 _ [] Hs) as Bs. pose proof (put32_be32 _ [] Hd) as Bd.
  rewrite app_nil_r in Bs, Bd. rewrite parse_l4_encode in E3 by done.
  destruct hi as [h1 h2 h3 h4 h5], (dm_hole m) as [g1 g2 g3 g4 g5]; simpl in *. congruence.
Qed.

(** Releasing a message in use keeps the invariant and leaves the others alone. *)
Lemma Free_ok p live id :
  pool_ok p live → id ∈ live → (∀ m, pool_heap p !! id = Some m → dm_owned m = true) →
  pool_ok (Free p id) (live ∖ {[id]}) ∧
  (∀ j, j ≠ id → pool_heap (Free p id) !! j = pool_heap p !! j).
Proof.
  intros Hp Hid Ho. destruct (pok_live_heap _ _ Hp id Hid) as [m Hm].
  unfold Free. rewrite Hm, (Ho m Hm). simpl.
  pose proof (pool_ok_update p live id
    (mkMessage (dm_buf m) 0 (dm_ipversion m)
       (mkHoleInfo (SrcIP (dm_hole m)) (DstIP (dm_hole m)) (SrcPort (dm_hole m)) (DstPort (dm_hole m)) "")
       (dm_owned m)) Hp ltac:(by eexists) (pok_cap _ _ Hp _ _ Hm)) as [Hcap Hnext HN Hih Hlh Hd].
  simpl in *. rewrite (Ho m Hm) in *.
  pose proof (pok_disjoint _ _ Hp id Hid) as Hni. split.
  - constructor; simpl; try done.
    + apply NoDup_app. split_and!; [done| |apply NoDup_singleton]. set_solver.
    + intros j. rewrite elem_of_app. intros [Hj|Hj]; [by apply Hih|]. apply Hlh. set_solver.
    + intros j Hj. apply Hlh. set_solver.
    + intros j Hj. rewrite elem_of_app. set_solver.
  - intros j Hj. by rewrite lookup_insert_ne.
Qed.

(** the life cycle of a pooled message.  A message that is released once and
    only once goes back to the pool, stops being in use, and no other message
    changes; as the parser takes only messages that are not in use, the buffer of
    a message in use is never handed out a second time. *)
Theorem free_returns_message p live id m :
  pool_ok p live → id ∈ live → pool_heap p !! id = Some m → dm_owned m = true →
  pool_ok (Free p id) (live ∖ {[id]}) ∧ id ∈ pool_items (Free p id) ∧
  (∀ j, j ≠ id → pool_heap (Free p id) !! j = pool_heap p !! j).
Proof.
  intros Hp Hid Hm Ho. destruct (Free_ok p live id Hp Hid) as [H1 H2]; [by intros ? ?; simplify_eq|].
  split_and!; [done| |done]. unfold Free. rewrite Hm, Ho. simpl. set_solver.
Qed.

(** ** Witnesses *)

Definition demo_hole : HoleInfo := mkHoleInfo 167837954 167837955 5000 443 "tcp".
Definition demo_packet : list Z :=
  encode_packet demo_hole (replicate 8 0%Z) [0; 0]%Z (replicate 10 7%Z).

Lemma new_pool_ok n : pool_ok (NewDGMessagePool n) ∅.
Proof.
  constructor; simpl; try done; try set_solver; try apply NoDup_nil_2.
  by intros id [? ?].
Qed.


Lemma parse_encode_roundtrip_witness :
  ∃ p' id m, NewMessageCopyFrom None (NewDGMessagePool 64) demo_packet = Ok (p', id) ∧
    pool_heap p' !! id = Some m ∧ dm_hole m = demo_hole.
Proof.
  apply (parse_encode_roundtrip None (NewDGMessagePool 64) ∅);
    [apply new_pool_ok|repeat split; try (by vm_compute); by left|done|done|done|simpl; lia].
Defined.

Lemma free_returns_message_witness :
  ∃ p, pool_ok (Free p 0) (({[0%nat]} ∪ ∅) ∖ {[0%nat]}) ∧ 0%nat ∈ pool_items (Free p 0).
Proof.
  destruct (NewMessageCopyFrom_accept None (NewDGMessagePool 64) ∅ demo_packet (new_pool_ok 64) eq_refl)
    as (p' & id & m & E & Hp & _ & _ & Hm & Hf & _).
  assert (id = 0%nat) as -> by (vm_compute in E; congruence).
  exists p'. destruct (free_returns_message p' ({[0%nat]} ∪ ∅) 0 m Hp) as (A & B & _);
    [set_solver|done|apply Hf|by split].
Defined.

End DgMessage.
