(* ===== verification/Broker.v ===== *)
(** * Channels and subscriptions

    Go channels with a bounded buffer, and the subscription pattern that
    pkg/router/events.go (twice), pkg/mesh/topology/memory.go and
    pkg/mesh/session/registry.go share: a map of subscriber channels, a cancel
    function that removes and closes a channel once, and a notification that
    offers an event to every subscriber without blocking.  Channels are objects
    with an identity; sending on a closed channel and closing a channel twice
    panic. *)
From S2P Require Import Prelude.

Open Scope go_scope.

Module Broker.

Record chan (A : Type) := mkChan {
  ch_buf : list A;
  ch_cap : nat;
  ch_closed : bool }.
Arguments mkChan {A} _ _ _.
Arguments ch_buf {A} _.
Arguments ch_cap {A} _.
Arguments ch_closed {A} _.

Definition make_chan {A} (cap : nat) : chan A := mkChan [] cap false.

(** [select { case ch <- v: default: }] *)
Definition send_nb {A} (c : chan A) (v : A) : gores (chan A) :=
  if ch_closed c then Panic
  else if decide (length (ch_buf c) < ch_cap c)%nat
       then Ok (mkChan (ch_buf c ++ [v]) (ch_cap c) false)
       else Ok c.

(** [close(ch)] *)
Definition close_chan {A} (c : chan A) : gores (chan A) :=
  if ch_closed c then Panic else Ok (mkChan (ch_buf c) (ch_cap c) true).

Record broker (A : Type) := mkBroker {
  bk_chans : gmap nat (chan A);
  bk_subs : gmap nat ();
  bk_next : nat }.
Arguments mkBroker {A} _ _ _.
Arguments bk_chans {A} _.
Arguments bk_subs {A} _.
Arguments bk_next {A} _.

Definition empty_broker {A} : broker A := mkBroker ∅ ∅ 0.

(** A new channel with the events of [init] already in its buffer, registered. *)
Definition subscribe_with {A} (cap : nat) (init : list A) (b : broker A) : broker A * nat :=
  (mkBroker (<[bk_next b := mkChan init cap false]> (bk_chans b))
     (<[bk_next b := ()]> (bk_subs b)) (S (bk_next b)),
   bk_next b).

Definition subscribe {A} (cap : nat) (b : broker A) : broker A * nat :=
  subscribe_with cap [] b.

(** The cancel function of a subscription (run by the caller, or by the
    goroutine that waits for the context). *)
Definition cancel {A} (id : nat) (b : broker A) : gores (broker A) :=
  match bk_subs b !! id with
  | None => Ok b
  | Some _ =>
      match bk_chans b !! id with
      | None => Panic
      | Some c =>
          c' <- close_chan c;;
          Ok (mkBroker (<[id := c']> (bk_chans b)) (delete id (bk_subs b)) (bk_next b))
      end
  end.

Fixpoint notify_loop {A} (ev : A) (ids : list (nat * ())) (b : broker A) : gores (broker A) :=
  match ids with
  | [] => Ok b
  | (id, _) :: rest =>
      match bk_chans b !! id with
      | None => Panic
      | Some c =>
          c' <- send_nb c ev;;
          notify_loop ev rest (mkBroker (<[id := c']> (bk_chans b)) (bk_subs b) (bk_next b))
      end
  end.

Definition notify `{MapRange} {A} (ev : A) (b : broker A) : gores (broker A) :=
  notify_loop ev (map_range (bk_subs b)) b.

(** The closing loop of a registry that shuts down: every subscription is
    removed and its channel closed. *)
Fixpoint close_loop {A} (ids : list (nat * ())) (b : broker A) : gores (broker A) :=
  match ids with
  | [] => Ok b
  | (id, _) :: rest => b' <- cancel id b;; close_loop rest b'
  end.

Definition close_all `{MapRange} {A} (b : broker A) : gores (broker A) :=
  close_loop (map_range (bk_subs b)) b.

(** A receiver takes the oldest buffered event. *)
Definition receive {A} (id : nat) (b : broker A) : option A * broker A :=
  match bk_chans b !! id with
  | Some (mkChan (v :: buf) cap cl) =>
      (Some v, mkBroker (<[id := mkChan buf cap cl]> (bk_chans b)) (bk_subs b) (bk_next b))
  | _ => (None, b)
  end.

(** What one subscriber sees of an event: appended unless its buffer is full. *)
Definition deliver {A} (ev : A) (c : chan A) : chan A :=
  if decide (length (ch_buf c) < ch_cap c)%nat
  then mkChan (ch_buf c ++ [ev]) (ch_cap c) (ch_closed c) else c.

(** Every subscriber has an open channel whose buffer respects its capacity, and
    identities at or above [bk_next] are fresh. *)
Record broker_ok {A} (b : broker A) : Prop := {
  bok_open : ∀ id, is_Some (bk_subs b !! id) →
    ∃ c, bk_chans b !! id = Some c ∧ ch_closed c = false;
  bok_cap : ∀ id c, bk_chans b !! id = Some c → (length (ch_buf c) <= ch_cap c)%nat;
  bok_next : ∀ id, is_Some (bk_chans b !! id) → (id < bk_next b)%nat }.

(** Every subscription stays, with at most new events after those that wait. *)
Definition grown {A} (P : A → Prop) (b b' : broker A) : Prop :=
  broker_ok b' ∧ ∀ id ch, is_Some (bk_subs b !! id) → bk_chans b !! id = Some ch →
    is_Some (bk_subs b' !! id) ∧
    ∃ ch' evs, bk_chans b' !! id = Some ch' ∧ ch_buf ch' = ch_buf ch ++ evs ∧ Forall P evs.

Section Lemmas.
Context `{MR : MapRange} {A : Type}.
Implicit Types (b : broker A) (ev : A).

Lemma empty_broker_ok : broker_ok (empty_broker (A := A)).
Proof. constructor; simpl; intros *; rewrite ?lookup_empty; try done; by intros []. Qed.

Lemma subscribe_with_ok cap init b :
  broker_ok b → (length init <= cap)%nat → broker_ok (subscribe_with cap init b).1.
Proof.
  intros [Ho Hc Hn] Hi. constructor; simpl.
  - intros id. rewrite !lookup_insert. case_decide; [eauto|]. apply Ho.
  - intros id c. rewrite lookup_insert. case_decide; [by intros [= <-]|]. apply Hc.
  - intros id. rewrite lookup_insert. case_decide; [lia|]. intros ?%Hn. lia.
Qed.

Lemma subscribe_fresh cap b : broker_ok b → bk_subs b !! (subscribe cap b).2 = None.
Proof.
  intros [Ho _ Hn]. simpl. destruct (bk_subs b !! bk_next b) eqn:E; [|done].
  destruct (Ho (bk_next b)) as (c & Hc & _); [eauto|].
  specialize (Hn (bk_next b) ltac:(eauto)). lia.
Qed.

Lemma cancel_ok id b :
  broker_ok b → ∃ b', cancel id b = Ok b' ∧ broker_ok b' ∧ bk_subs b' = delete id (bk_subs b) ∧
    (∀ j, j ≠ id → bk_chans b' !! j = bk_chans b !! j).
Proof.
  intros [Ho Hc Hn]. unfold cancel. destruct (bk_subs b !! id) as [[]|] eqn:E.
  - destruct (Ho id ltac:(eauto)) as (c & Ec & Eo). rewrite Ec. unfold close_chan. rewrite Eo. simpl.
    eexists. split; [done|]. simpl. split_and!; [|done|by intros; rewrite lookup_insert_ne].
    constructor; simpl.
    + intros j. rewrite lookup_delete, lookup_insert. case_decide; [by intros []|]. apply Ho.
    + intros j c'. rewrite lookup_insert. case_decide; [intros [= <-]; simpl; eauto|]. apply Hc.
    + intros j. rewrite lookup_insert. case_decide; [subst; eauto|]. apply Hn.
  - eexists. split; [done|]. split_and!; [done| |done]. by rewrite delete_id.
Qed.

Lemma send_nb_deliver (c : chan A) ev : ch_closed c = false → send_nb c ev = Ok (deliver ev c).
Proof. intros E. unfold send_nb, deliver. rewrite E. by case_decide. Qed.

Lemma deliver_cap ev (c : chan A) :
  (length (ch_buf c) <= ch_cap c)%nat → (length (ch_buf (deliver ev c)) <= ch_cap (deliver ev c))%nat.
Proof. intros. unfold deliver. case_decide; simpl; [rewrite length_app; simpl; lia|done]. Qed.

Lemma deliver_closed ev (c : chan A) : ch_closed (deliver ev c) = ch_closed c.
Proof. unfold deliver. by case_decide. Qed.

(** A receiver takes from its own channel only. *)
Lemma receive_spec id b :
  broker_ok b → broker_ok (receive id b).2 ∧ bk_subs (receive id b).2 = bk_subs b ∧
  (∀ j, j ≠ id → bk_chans (receive id b).2 !! j = bk_chans b !! j) ∧
  ∀ c, bk_chans b !! id = Some c →
    (receive id b).1 = head (ch_buf c) ∧
    ∃ c', bk_chans (receive id b).2 !! id = Some c' ∧ ch_buf c' = tail (ch_buf c).
Proof.
  intros [Ho Hc Hn]. unfold receive. destruct (bk_chans b !! id) as [[[|v buf] cap cl]|] eqn:E.
  - split; [done|]. split; [done|]. split; [done|]. intros c [= <-]. split; [done|]. by eexists.
  - split; [|split; [done|split]].
    + constructor; simpl.
      * intros j Hj. destruct (Ho j Hj) as (c & Ec & Hcl). rewrite lookup_insert. case_decide; [|by exists c].
        subst j. rewrite E in Ec. injection Ec as <-. by eexists.
      * intros j c. rewrite lookup_insert. case_decide; [|apply Hc]. intros [= <-]. specialize (Hc id _ E). simpl in *. lia.
      * intros j. rewrite lookup_insert. case_decide; [subst j; intros _; apply Hn; by eexists|apply Hn].
    + intros j Hj. simpl. by rewrite lookup_insert_ne.
    + intros c [= <-]. split; [done|]. eexists. simpl. by rewrite lookup_insert_eq.
  - by split_and!.
Qed.

Lemma notify_loop_spec ev ids b :
  broker_ok b → NoDup ids.*1 → (∀ p, p ∈ ids → is_Some (bk_subs b !! p.1)) →
  ∃ b', notify_loop ev ids b = Ok b' ∧ broker_ok b' ∧ bk_subs b' = bk_subs b ∧
    bk_next b' = bk_next b ∧
    (∀ j, bk_chans b' !! j =
       if decide (j ∈ ids.*1) then deliver ev <$> bk_chans b !! j else bk_chans b !! j).
Proof.
  revert b. induction ids as [|[id []] ids IH]; intros b Hb HN Hs; simpl.
  { eexists. split; [done|]. by split_and!. }
  apply NoDup_cons in HN as [Hid HN].
  destruct (bok_open _ Hb id) as (c & Ec & Eo); [apply (Hs (id, ())); set_solver|].
  rewrite Ec, send_nb_deliver by done. simpl.
  destruct (IH (mkBroker (<[id := deliver ev c]> (bk_chans b)) (bk_subs b) (bk_next b)))
    as (b' & E & Hb' & E1 & E2 & E3).
  - destruct Hb as [Ho Hc Hn]. constructor; simpl.
    + intros j Hj. rewrite lookup_insert. case_decide; [|by apply Ho].
      eexists. split; [done|]. by rewrite deliver_closed.
    + intros j c'. rewrite lookup_insert. case_decide; [|by apply Hc].
      intros [= <-]. apply deliver_cap. eauto.
    + intros j. rewrite lookup_insert. case_decide; [subst; eauto|]. apply Hn.
  - done.
  - intros p Hp. apply Hs. set_solver.
  - exists b'. rewrite E. split; [done|]. split_and!; try done. simpl in *. intros j. rewrite E3.
    rewrite lookup_insert. destruct (decide (id = j)) as [->|Hne].
    + rewrite decide_False by done. rewrite decide_True by set_solver. by rewrite Ec.
    + destruct (decide (j ∈ ids.*1)); [rewrite decide_True by set_solver|rewrite decide_False by set_solver]; done.
Qed.

Lemma elem_of_map_range_fst (m : gmap nat ()) j : j ∈ (map_range m).*1 ↔ is_Some (m !! j).
Proof.
  rewrite list_elem_of_fmap. split.
  - intros ([? ?] & -> & ?%elem_of_map_range). eauto.
  - intros [x ?]. exists (j, x). split; [done|]. by apply elem_of_map_range.
Qed.

(** A notification never panics; it reaches exactly the subscribers, in the
    order of the notifications, and is lost only for a full buffer. *)
Lemma notify_spec ev b :
  broker_ok b →
  ∃ b', notify ev b = Ok b' ∧ broker_ok b' ∧ bk_subs b' = bk_subs b ∧
    (∀ j, is_Some (bk_subs b !! j) → bk_chans b' !! j = deliver ev <$> bk_chans b !! j) ∧
    (∀ j, bk_subs b !! j = None → bk_chans b' !! j = bk_chans b !! j).
Proof.
  intros Hb. destruct (notify_loop_spec ev (map_range (bk_subs b)) b Hb) as (b' & E & Hb' & E1 & E2 & E3).
  - apply map_range_NoDup.
  - intros [j []] Hp%elem_of_map_range. simpl. eauto.
  - exists b'. split_and!; try done; intros j Hj; rewrite E3.
    + by rewrite decide_True by by apply elem_of_map_range_fst.
    + rewrite decide_False; [done|]. intros [? ?]%elem_of_map_range_fst. congruence.
Qed.

Lemma grown_refl P b : broker_ok b → grown P b b.
Proof.
  intros Hb. split; [done|]. intros id ch Hi Hc. split; [done|]. exists ch, []. by rewrite app_nil_r.
Qed.

Lemma grown_trans P b1 b2 b3 : grown P b1 b2 → grown P b2 b3 → grown P b1 b3.
Proof.
  intros [_ H1] [Hb H2]. split; [done|]. intros id ch Hi Hc. destruct (H1 id ch Hi Hc) as (Hi' & ch' & evs & Hc' & E1 & F1).
  destruct (H2 id ch' Hi' Hc') as (Hi'' & ch'' & evs' & Hc'' & E2 & F2). split; [done|]. exists ch'', (evs ++ evs').
  split; [done|]. split; [by rewrite E2, E1, app_assoc|]. by apply Forall_app.
Qed.

Lemma grown_weaken (P Q : A → Prop) b b' : (∀ ev, P ev → Q ev) → grown P b b' → grown Q b b'.
Proof.
  intros HPQ [Hb H]. split; [done|]. intros id ch Hi Hc. destruct (H id ch Hi Hc) as (? & ch' & evs & ? & ? & HF).
  split; [done|]. exists ch', evs. split; [done|]. split; [done|]. by eapply Forall_impl.
Qed.

Lemma notify_grown (P : A → Prop) ev b : broker_ok b → P ev → ∃ b', notify ev b = Ok b' ∧ grown P b b'.
Proof.
  intros Hb Hev. destruct (notify_spec ev b Hb) as (b' & E & Hb' & Es & Ed & _). exists b'. split; [done|]. split; [done|].
  intros id ch Hi Hc. rewrite Es. split; [done|]. exists (deliver ev ch).
  assert (bk_chans b' !! id = Some (deliver ev ch)) as -> by (rewrite Ed by done; by rewrite Hc). unfold deliver. destruct (decide _); [exists [ev]|exists []]; simpl; rewrite ?app_nil_r; do 2 (split; [done|]); auto using Forall_nil, Forall_cons_2.
Qed.

Lemma close_loop_ok ids b :
  broker_ok b → ∃ b', close_loop ids b = Ok b' ∧ broker_ok b' ∧
    (∀ j, bk_subs b' !! j = if decide (j ∈ ids.*1) then None else bk_subs b !! j).
Proof.
  revert b. induction ids as [|[id []] ids IH]; intros b Hb; simpl.
  { exists b. split_and!; try done. }
  destruct (cancel_ok id b Hb) as (b1 & -> & Hb1 & E1 & _). simpl.
  destruct (IH b1 Hb1) as (b2 & -> & Hb2 & E2). exists b2. split_and!; try done.
  intros j. rewrite E2, E1, lookup_delete. repeat case_decide; set_solver.
Qed.

Lemma close_all_ok b : broker_ok b → ∃ b', close_all b = Ok b' ∧ broker_ok b' ∧ bk_subs b' = ∅.
Proof.
  intros Hb. destruct (close_loop_ok (map_range (bk_subs b)) b Hb) as (b' & E & Hb' & E2).
  exists b'. split_and!; try done. apply map_eq. intros j. rewrite E2, lookup_empty.
  case_decide as Hj; [done|]. destruct (bk_subs b !! j) as [[]|] eqn:Ej; [|done].
  destruct Hj. apply elem_of_map_range_fst. eauto.
Qed.

End Lemmas.

#[export] Hint Resolve empty_broker_ok subscribe_with_ok : node.

End Broker.
