(* ===== verification/Streams.v ===== *)
(** * Subscription streams between nodes

    The gRPC streams with which a node follows another one have one shape, three
    times: the loop of the server between the subscription of a local component
    and the connection (peerssync/server.go: SubscribeClientsRules and
    SubscribeClients, discovery/server.go: SubscribePeers), the loop of the client
    that applies what arrives (peerssync/syncer.go, discovery/syncer.go), and
    [RunWhileConnected] (session/session.go), which opens a broken stream again.
    The shape is modelled once; [Served] says what a server takes from its
    component and each service is an instance.  gRPC delivers the messages of a
    stream in order until it breaks. *)
From S2P Require Import Prelude Broker.
Import Broker.

Open Scope go_scope.

(** What the loop of the server uses: the subscriptions of the component, its
    [Subscribe] method, the message of the moment's state, the message for an
    event. *)
Class Served (S E M : Type) := {
  sv_subs : S → broker E;
  sv_with_subs : S → broker E → S;
  sv_subscribe : S → S * nat;
  sv_sync : S → M;
  sv_message : E → M }.

(** [Subscribe] opens a channel and changes nothing else. *)
Class ServedLaws (S E M : Type) `{Served S E M} := {
  sv_subs_with s b : sv_subs (sv_with_subs s b) = b;
  sv_subscribe_law s : ∃ cap,
    sv_subscribe s = (sv_with_subs s (subscribe cap (sv_subs s)).1, (subscribe cap (sv_subs s)).2) }.

Module Streams.

(** One stream: [st_sub] is the subscription of the server's loop while it runs,
    [st_wire] what is under way, [st_connected] whether the client's loop runs. *)
Record Stream (S M C : Type) := mkStream {
  st_server : S; st_sub : option nat; st_wire : list M; st_connected : bool; st_client : C }.
Arguments mkStream {S M C} _ _ _ _ _.
Arguments st_server {S M C} _.
Arguments st_sub {S M C} _.
Arguments st_wire {S M C} _.
Arguments st_connected {S M C} _.
Arguments st_client {S M C} _.

(** The cases of the server's [select]. *)
Inductive serve_case := CtxDone | Tick | Update.

Section Loops.
Context {S E M C : Type} `{SV : Served S E M} (apply : C → M → gores C).
Notation stream := (Stream S M C).

(** The return of the handler: the deferred [unsubscribe]. *)
Definition finish (s : stream) : gores stream :=
  match st_sub s with
  | None => Ok s
  | Some id =>
      b <- cancel id (sv_subs (st_server s));;
      Ok (mkStream (sv_with_subs (st_server s) b) None (st_wire s) (st_connected s) (st_client s))
  end.

(** [stream.Send]; [sent] is false when it returns an error.  What is sent to a
    client that has gone is lost. *)
Definition send (sent : bool) (m : M) (s : stream) : gores stream :=
  if sent then
    Ok (mkStream (st_server s) (st_sub s) (if st_connected s then st_wire s ++ [m] else st_wire s)
          (st_connected s) (st_client s))
  else finish s.

(** The handler up to its loop: the subscription and the first message. *)
Definition serve_start (sent : bool) (s : stream) : gores stream :=
  let '(srv, id) := sv_subscribe (st_server s) in
  send sent (sv_sync srv) (mkStream srv (Some id) [] true (st_client s)).

(** One iteration of the loop: the context, the ticker, or the channel of the
    subscription, on which a closed channel ends the handler and an empty one
    waits. *)
Definition serve (c : serve_case) (sent : bool) (s : stream) : gores stream :=
  match st_sub s with
  | None => Ok s
  | Some id =>
      match c with
      | CtxDone => finish s
      | Tick => send sent (sv_sync (st_server s)) s
      | Update =>
          match receive id (sv_subs (st_server s)) with
          | (Some upd, b) =>
              send sent (sv_message upd)
                (mkStream (sv_with_subs (st_server s) b) (st_sub s) (st_wire s) (st_connected s) (st_client s))
          | (None, _) =>
              match bk_chans (sv_subs (st_server s)) !! id with
              | Some ch => if ch_closed ch then finish s else Ok s
              | None => Ok s
              end
          end
      end
  end.

(** One iteration of the client: [stream.Recv] yields the next message, or fails
    and ends the loop; the rest of the stream is lost. *)
Definition recv (ok : bool) (s : stream) : gores stream :=
  if negb (st_connected s) then Ok s else
  if ok then
    match st_wire s with
    | [] => Ok s
    | m :: rest => c <- apply (st_client s) m;; Ok (mkStream (st_server s) (st_sub s) rest true c)
    end
  else Ok (mkStream (st_server s) (st_sub s) [] false (st_client s)).

(** A round of [RunWhileConnected] after the stream ended: unless the context or
    the connection is done, it is opened again.  The handler of the old stream
    may still run; its subscription is then one among the others. *)
Definition RunWhileConnected (ctx_done conn_done sent : bool) (s : stream) : gores stream :=
  if st_connected s || ctx_done || conn_done then Ok s else serve_start sent s.

(** ** Runs

    Besides the two loops: the component behind the server and the client's state
    change, and other streams of the same server subscribe, read and leave. *)
Inductive act :=
| Server (f : S → gores S)
| Client (g : C → gores C)
| OtherSubscribes
| OtherCancels (id : nat)
| OtherReceives (id : nat)
| Serve (c : serve_case) (sent : bool)
| Recv (ok : bool)
| Renew (ctx_done conn_done sent : bool).

Definition with_server (s : stream) (srv : S) : stream :=
  mkStream srv (st_sub s) (st_wire s) (st_connected s) (st_client s).
Definition with_client (s : stream) (c : C) : stream :=
  mkStream (st_server s) (st_sub s) (st_wire s) (st_connected s) c.
Definition with_broker (s : stream) (b : broker E) : stream := with_server s (sv_with_subs (st_server s) b).

Definition step (x : act) (s : stream) : gores stream :=
  match x with
  | Server f => srv <- f (st_server s);; Ok (with_server s srv)
  | Client g => c <- g (st_client s);; Ok (with_client s c)
  | OtherSubscribes => Ok (with_server s (sv_subscribe (st_server s)).1)
  | OtherCancels id =>
      if decide (st_sub s = Some id) then Ok s else
      b <- cancel id (sv_subs (st_server s));; Ok (with_broker s b)
  | OtherReceives id =>
      if decide (st_sub s = Some id) then Ok s else Ok (with_broker s (receive id (sv_subs (st_server s))).2)
  | Serve c sent => serve c sent s
  | Recv ok => recv ok s
  | Renew ctx_done conn_done sent => RunWhileConnected ctx_done conn_done sent s
  end.

Fixpoint run (xs : list act) (s : stream) : gores stream :=
  match xs with
  | [] => Ok s
  | x :: rest => s1 <- step x s;; run rest s1
  end.

Lemma run_app xs ys s : run (xs ++ ys) s = (s1 <- run xs s;; run ys s1).
Proof.
  revert s. induction xs as [|x xs IH]; intros s; [done|]. simpl. destruct (step x s); [|done..]. apply IH.
Qed.

End Loops.
Arguments act : clear implicits.

(** * What a service promises

    [sc_same]: nothing that the stream tells has changed.  A message that
    [sc_tells] a state brings the client into agreement with it. *)
Class Contract {S E M C : Type} `{Served S E M} (apply : C → M → gores C) := {
  sc_inv : S → Prop;
  sc_client : C → Prop;
  sc_msg : M → Prop;
  sc_same : relation S;
  sc_tells : S → M → Prop;
  sc_agree : S → C → Prop;
  sc_same_pre :: PreOrder sc_same;
  sc_subs s b : sc_inv s → broker_ok b → sc_inv (sv_with_subs s b) ∧ sc_same s (sv_with_subs s b);
  sc_sync s : sc_inv s → sc_msg (sv_sync s) ∧ sc_tells s (sv_sync s);
  sc_tells_same s s' m : sc_same s s' → sc_tells s m → sc_tells s' m;
  sc_agree_same s s' c : sc_same s s' → sc_agree s c → sc_agree s' c;
  sc_apply c m : sc_client c → sc_msg m →
    ∃ c', apply c m = Ok c' ∧ sc_client c' ∧ ∀ s, sc_inv s → sc_tells s m → sc_agree s c' }.

Section Facts.
Context {S E M C : Type} `{SL : ServedLaws S E M} (apply : C → M → gores C) `{!Contract apply}.
Notation stream := (Stream S M C).
Implicit Types (s : stream) (srv : S) (c : C) (b : broker E).

(** A change of the component keeps its invariant and adds events to the
    subscriptions; a quiet one adds none and changes nothing that is told. *)
Definition server_ok (quiet : bool) (f : S → gores S) : Prop :=
  ∀ srv, sc_inv srv → broker_ok (sv_subs srv) →
  ∃ srv', f srv = Ok srv' ∧ sc_inv srv' ∧
    grown (λ ev, quiet = false ∧ sc_msg (sv_message ev)) (sv_subs srv) (sv_subs srv') ∧
    (quiet = true → sc_same srv srv').

Definition client_ok (g : C → gores C) : Prop :=
  ∀ c, sc_client c → ∃ c', g c = Ok c' ∧ sc_client c' ∧ ∀ srv, sc_inv srv → sc_agree srv c → sc_agree srv c'.

Definition wf_act (quiet : bool) (x : act S C) : Prop :=
  match x with
  | Server f => server_ok quiet f
  | Client g => client_ok g
  | _ => True
  end.

Definition buffered s : list E :=
  match st_sub s with
  | Some id => match bk_chans (sv_subs (st_server s)) !! id with Some ch => ch_buf ch | None => [] end
  | None => []
  end.

Record stream_ok s : Prop := {
  so_inv : sc_inv (st_server s);
  so_subs : broker_ok (sv_subs (st_server s));
  so_sub id : st_sub s = Some id → is_Some (bk_subs (sv_subs (st_server s)) !! id);
  so_buf : Forall (λ ev, sc_msg (sv_message ev)) (buffered s);
  so_wire : Forall sc_msg (st_wire s);
  so_client : sc_client (st_client s) }.

(** Both loops run. *)
Definition up s : bool := st_connected s && bool_decide (is_Some (st_sub s)).

(** What is still to be read ends in the state of the moment. *)
Definition on_course s : Prop :=
  up s = true →
  (∃ pre m post, st_wire s = pre ++ m :: post ∧ Forall (sc_tells (st_server s)) (m :: post)) ∨
  (Forall (sc_tells (st_server s)) (st_wire s) ∧ sc_agree (st_server s) (st_client s)).

(** A step at rest. *)
Record calm s s' : Prop := {
  cm_buf : buffered s' = [];
  cm_same : sc_same (st_server s) (st_server s');
  cm_course : on_course s → on_course s' }.

Definition stepped (m : gores stream) s : Prop :=
  ∃ s', m = Ok s' ∧ stream_ok s' ∧ (buffered s = [] → calm s s').

Lemma calm_refl s : buffered s = [] → calm s s.
Proof. by constructor. Qed.

Lemma calm_trans s1 s2 s3 : calm s1 s2 → calm s2 s3 → calm s1 s3.
Proof. intros [] []. constructor; [done|by etrans|by auto]. Qed.

Lemma stepped_stay s : stream_ok s → stepped (Ok s) s.
Proof. intros Hs. exists s. do 2 (split; [done|]). apply calm_refl. Qed.

Lemma up_spec s : up s = true ↔ st_connected s = true ∧ is_Some (st_sub s).
Proof. unfold up. by rewrite andb_true_iff, bool_decide_eq_true. Qed.

(** Where the wire and the client stay, so does the course. *)
Lemma on_course_same s s' :
  st_wire s' = st_wire s → (up s' = true → up s = true) → st_client s' = st_client s →
  sc_same (st_server s) (st_server s') → on_course s → on_course s'.
Proof.
  intros Ew Eu Ecl He Hs Hc. rewrite Ew, Ecl.
  assert (Ht : ∀ l, Forall (sc_tells (st_server s)) l → Forall (sc_tells (st_server s')) l).
  { intros l H'. eapply Forall_impl; [exact H'|]. intros m. by apply sc_tells_same. }
  destruct (Hs (Eu Hc)) as [(pre & m & post & E' & Hm)|[H1 H2]]; [left|right].
  - exists pre, m, post. auto.
  - split; [by auto|]. by eapply sc_agree_same.
Qed.

(** Only the subscriptions have moved, and the one of the stream as said. *)
Lemma broker_moves s b id' evs :
  stream_ok s → broker_ok b → (id' = st_sub s ∨ id' = None) →
  (∀ id, id' = Some id → is_Some (bk_subs b !! id) ∧
     ∃ ch ch', bk_chans (sv_subs (st_server s)) !! id = Some ch ∧ bk_chans b !! id = Some ch' ∧ ch_buf ch = evs ++ ch_buf ch') →
  let s' := mkStream (sv_with_subs (st_server s) b) id' (st_wire s) (st_connected s) (st_client s) in
  stream_ok s' ∧ (buffered s = [] → calm s s').
Proof.
  intros [H1 H2 H3 H4 H5 H6] Hb Hid Hch s'. destruct (sc_subs _ b H1 Hb) as [Hi Hs].
  assert (Hbuf : buffered s' = [] ∨ buffered s = evs ++ buffered s').
  { unfold buffered, s'. simpl. rewrite sv_subs_with. destruct id' as [id|]; [right|by left].
    destruct Hid as [<-|?]; [|done]. destruct (Hch id eq_refl) as (_ & ch & ch' & -> & -> & ->). done. }
  split.
  - constructor; simpl; rewrite ?sv_subs_with; try done.
    + intros id E'. by apply Hch.
    + destruct Hbuf as [->|Hbuf]; [done|]. rewrite Hbuf in H4. by apply Forall_app in H4 as [_ ?].
  - intros E'. constructor; [|done|apply on_course_same; try done].
    2: { rewrite !up_spec. simpl. destruct Hid as [->| ->]; [done|]. by intros [_ []]. }
    destruct Hbuf as [?|Hbuf]; [done|]. rewrite E' in Hbuf. symmetry in Hbuf. by apply app_nil in Hbuf as [_ ?].
Qed.

Lemma own_channel s id :
  stream_ok s → st_sub s = Some id → ∃ ch, bk_chans (sv_subs (st_server s)) !! id = Some ch ∧ ch_closed ch = false.
Proof. intros Hs E'. destruct (bok_open _ (so_subs _ Hs) id (so_sub _ Hs id E')) as (ch & ? & ?). eauto. Qed.

(** A subscription other than the stream's. *)
Lemma other_moves s b :
  stream_ok s → broker_ok b →
  (∀ id, st_sub s = Some id → is_Some (bk_subs b !! id) ∧ bk_chans b !! id = bk_chans (sv_subs (st_server s)) !! id) →
  stepped (Ok (with_broker s b)) s.
Proof.
  intros Hs Hb Hid. eexists. split; [reflexivity|]. apply (broker_moves s b (st_sub s) []); [done|done|by left|].
  intros id E'. destruct (Hid id E') as [? Hc]. destruct (own_channel s id Hs E') as (ch & Ech & _).
  split; [done|]. exists ch, ch. by rewrite Hc.
Qed.

(** ** The steps *)

Lemma finish_step s : stream_ok s → stepped (finish s) s.
Proof.
  intros Hs. unfold finish. destruct (st_sub s) as [id|] eqn:Eid; [|by apply stepped_stay].
  destruct (cancel_ok id _ (so_subs _ Hs)) as (b & -> & Hb & _). cbn [gobind].
  eexists. split; [reflexivity|]. apply (broker_moves s b None []); [done|done|by right|done].
Qed.

Lemma send_step sent m s : stream_ok s → sc_msg m → sc_tells (st_server s) m ∨ sent = false → stepped (send sent m s) s.
Proof.
  intros Hs Hm Ht. unfold send. destruct sent; [|by apply finish_step].
  destruct Ht as [Ht|]; [|done]. eexists. split; [reflexivity|]. split.
  - destruct Hs. constructor; try done. simpl. destruct (st_connected s); [|done]. apply Forall_app. by split; [|constructor].
  - intros E'. constructor; [exact E'|done|]. intros _ [Hc _]%up_spec. simpl in *. left.
    rewrite Hc. exists (st_wire s), m, []. split; [done|]. by constructor.
Qed.

Lemma tick_step sent s : stream_ok s → stepped (serve Tick sent s) s.
Proof.
  intros Hs. unfold serve. destruct (st_sub s); [|by apply stepped_stay].
  destruct (sc_sync _ (so_inv _ Hs)) as [Hm Ht]. apply send_step; [done|done|by left].
Qed.

(** Sending an event moves it from the buffer to the wire: no step at rest. *)
Lemma event_sent sent m s : stream_ok s → sc_msg m → ∃ s', send sent m s = Ok s' ∧ stream_ok s'.
Proof.
  intros Hs Hm. unfold send. destruct sent.
  - eexists. split; [reflexivity|]. destruct Hs. constructor; try done. simpl.
    destruct (st_connected s); [|done]. apply Forall_app. by split; [|constructor].
  - destruct (finish_step s Hs) as (s' & ? & ? & _). eauto.
Qed.

Lemma update_step sent s : stream_ok s → stepped (serve Update sent s) s.
Proof.
  intros Hs. unfold serve. destruct (st_sub s) as [id|] eqn:Eid; [|by apply stepped_stay].
  destruct (own_channel s id Hs Eid) as (ch & Ech & Eo).
  destruct (receive_spec id _ (so_subs _ Hs)) as (Hb & Es & _ & Hr). destruct (Hr ch Ech) as (Eh & ch' & Ech' & Et).
  assert (Hbuf : buffered s = ch_buf ch) by (unfold buffered; by rewrite Eid, Ech).
  destruct (receive id (sv_subs (st_server s))) as [res b]. simpl in *. subst res.
  destruct (ch_buf ch) as [|ev buf] eqn:Eb; simpl; [rewrite Ech, Eo; by apply stepped_stay|].
  destruct (broker_moves s b (st_sub s) [ev] Hs Hb) as [Hs' _]; [by left| |].
  { intros id0 E0. assert (id0 = id) as -> by congruence. split; [rewrite Es; by apply Hs|].
    exists ch, ch'. split; [done|]. split; [done|]. by rewrite Eb, Et. }
  rewrite Eid in Hs'. pose proof (so_buf _ Hs) as HF. rewrite Hbuf in HF. apply Forall_cons in HF as [Hev _].
  destruct (event_sent sent _ _ Hs' Hev) as (s' & E' & Hok). exists s'. split; [exact E'|]. split; [done|].
  intros Hz. by rewrite Hbuf in Hz.
Qed.

Lemma serve_step cs sent s : stream_ok s → stepped (serve cs sent s) s.
Proof.
  intros Hs. destruct cs; [|by apply tick_step|by apply update_step].
  unfold serve. destruct (st_sub s) eqn:E'; [by apply finish_step|by apply stepped_stay].
Qed.

Lemma recv_step ok s : stream_ok s → stepped (recv apply ok s) s.
Proof.
  intros Hs. unfold recv. destruct (st_connected s) eqn:Ec; [|by apply stepped_stay]. cbn [negb].
  destruct ok; [|].
  2: { eexists. split; [reflexivity|]. split; [destruct Hs; by constructor|]. intros E'. constructor; [done|done|].
       by intros _ [? _]%up_spec. }
  destruct (st_wire s) as [|m rest] eqn:Ew; [by apply stepped_stay|].
  pose proof (so_wire _ Hs) as HF. rewrite Ew in HF. apply Forall_cons in HF as [Hm HF].
  destruct (sc_apply _ m (so_client _ Hs) Hm) as (c' & -> & Hc' & Ha). cbn [gobind].
  eexists. split; [reflexivity|]. split; [destruct Hs; by constructor|]. intros E'. constructor; [done|done|].
  intros Hon Hup. assert (Hup' : up s = true) by (apply up_spec in Hup as [_ ?]; by apply up_spec).
  destruct (Hon Hup') as [(pre & m' & post & Ep & Hp)|[HF' _]]; rewrite Ew in *.
  - destruct pre as [|p pre]; simpl in Ep; injection Ep as -> ->.
    + apply Forall_cons in Hp as [Hm' Hp]. right. split; [done|]. by apply Ha; [apply Hs|].
    + left. by exists pre, m', post.
  - apply Forall_cons in HF' as [Hm' Hp]. right. split; [done|]. by apply Ha; [apply Hs|].
Qed.

Lemma subscribed s :
  stream_ok s → ∃ b id, sv_subscribe (st_server s) = (sv_with_subs (st_server s) b, id) ∧ broker_ok b ∧
    is_Some (bk_subs b !! id) ∧ (∃ ch, bk_chans b !! id = Some ch ∧ ch_buf ch = []) ∧
    (∀ j, st_sub s = Some j → is_Some (bk_subs b !! j) ∧ bk_chans b !! j = bk_chans (sv_subs (st_server s)) !! j).
Proof.
  intros Hs. destruct (sv_subscribe_law (st_server s)) as [cap ->]. eexists _, _. split; [reflexivity|].
  split; [apply subscribe_with_ok; [apply Hs|simpl; lia]|]. simpl. rewrite !lookup_insert_eq.
  split; [by eexists|]. split; [by eexists|]. intros j Ej. destruct (own_channel s j Hs Ej) as (ch & Ech & _).
  assert (j < bk_next (sv_subs (st_server s)))%nat by (apply (bok_next _ (so_subs _ Hs)); by eexists).
  rewrite !lookup_insert_ne by lia. split; [by apply Hs|done].
Qed.

(** A stream that is opened starts on its course. *)
Lemma start_step sent s :
  stream_ok s → ∃ s', serve_start sent s = Ok s' ∧ stream_ok s' ∧ buffered s' = [] ∧ on_course s' ∧
    sc_same (st_server s) (st_server s') ∧ (sent = true → up s' = true).
Proof.
  intros Hs. destruct (subscribed s Hs) as (b & id & E' & Hb & Hid & (ch & Ech & Eb) & _). unfold serve_start. rewrite E'.
  destruct (sc_subs _ b (so_inv _ Hs) Hb) as [Hi Hsame]. set (s0 := mkStream _ _ _ _ _).
  assert (Hbuf : buffered s0 = []) by (unfold buffered; simpl; by rewrite sv_subs_with, Ech).
  assert (H0 : stream_ok s0).
  { constructor; simpl; rewrite ?sv_subs_with; try done; [by intros ? [= <-]|by rewrite Hbuf|apply Hs]. }
  destruct (sc_sync _ Hi) as [Hm Ht]. destruct (send_step sent (sv_sync (sv_with_subs (st_server s) b)) s0 H0 Hm ltac:(by left)) as (s' & Es & Hok & Hc).
  destruct (Hc Hbuf) as [Hb' Hs' _]. exists s'. split; [exact Es|]. split; [done|]. split; [done|].
  unfold send in Es. destruct sent; simpl in Es.
  - injection Es as <-. split; [|split; [done|by intros _; apply up_spec]]. intros _. left. exists [], (sv_sync (sv_with_subs (st_server s) b)), [].
    split; [done|]. by constructor.
  - split; [|split; [by etrans|done]]. unfold finish in Es. simpl in Es. rewrite sv_subs_with in Es.
    destruct (cancel_ok id b Hb) as (b' & E2 & _). rewrite E2 in Es. injection Es as <-. intros [_ []%is_Some_None]%up_spec.
Qed.

Lemma renew_step ctx_done conn_done sent s : stream_ok s → stepped (RunWhileConnected ctx_done conn_done sent s) s.
Proof.
  intros Hs. unfold RunWhileConnected. destruct (_ || _); [by apply stepped_stay|].
  destruct (start_step sent s Hs) as (s' & -> & Hok & Hb & Hc & Hsame & _). exists s'. do 2 (split; [done|]). by constructor.
Qed.

Lemma server_step quiet f s :
  stream_ok s → server_ok quiet f →
  ∃ s', step apply (Server f) s = Ok s' ∧ stream_ok s' ∧ (quiet = true → buffered s = [] → calm s s').
Proof.
  intros Hs Hf. destruct (Hf _ (so_inv _ Hs) (so_subs _ Hs)) as (srv & E' & Hi & (Hb & Hch) & Hq).
  eexists. simpl. rewrite E'. split; [reflexivity|]. set (s' := with_server s srv).
  assert (Hbuf : ∃ evs, buffered s' = buffered s ++ evs ∧ Forall (λ ev, sc_msg (sv_message ev)) evs ∧ (quiet = true → evs = [])).
  { unfold buffered. simpl. destruct (st_sub s) as [id|] eqn:Eid; [|by exists []].
    destruct (own_channel s id Hs Eid) as (ch & Ech & _). destruct (Hch id ch (so_sub _ Hs id Eid) Ech) as (_ & ch' & evs & Ech' & Ea & HF).
    exists evs. rewrite Ech, Ech'. split; [done|]. split; [eapply Forall_impl; [exact HF|]; by intros ? [_ ?]|].
    intros ->. destruct evs as [|ev evs]; [done|]. by apply Forall_cons in HF as [[? _] _]. }
  destruct Hbuf as (evs & Ebuf & HF & Hz). split.
  - destruct Hs. constructor; try done; [|rewrite Ebuf; by apply Forall_app].
    intros id Eid. simpl in *. destruct (bok_open _ so_subs0 id) as (ch & Ech & _); [by auto|]. by apply (Hch id ch); [auto|].
  - intros Hquiet E0. constructor; [by rewrite Ebuf, E0, Hz|by apply Hq|apply on_course_same; try done; by apply Hq].
Qed.

Lemma client_step g s : stream_ok s → client_ok g → stepped (step apply (Client g) s) s.
Proof.
  intros Hs Hg. destruct (Hg _ (so_client _ Hs)) as (c & E' & Hc & Ha). unfold stepped. simpl. rewrite E'.
  eexists. split; [reflexivity|]. split; [destruct Hs; by constructor|]. intros E0. constructor; [done|done|].
  intros Hon Hup. destruct (Hon Hup) as [?|[? ?]]; [by left|right]. split; [done|]. apply Ha; [apply Hs|done].
Qed.

Lemma other_step x s :
  stream_ok s → match x with OtherSubscribes | OtherCancels _ | OtherReceives _ => True | _ => False end → stepped (step apply x s) s.
Proof.
  intros Hs Hx. destruct x as [| | |id|id| | |]; try done; cbn [step].
  - destruct (subscribed s Hs) as (b & id & -> & Hb & _ & _ & Hj). by apply (other_moves s b Hs Hb).
  - case_decide as Hne; [by apply stepped_stay|]. destruct (cancel_ok id _ (so_subs _ Hs)) as (b & -> & Hb & Es & Ec).
    cbn [gobind]. apply (other_moves s b Hs Hb). intros j Ej. rewrite Es, lookup_delete_ne by congruence.
    split; [by apply Hs|apply Ec; congruence].
  - case_decide as Hne; [by apply stepped_stay|]. destruct (receive_spec id _ (so_subs _ Hs)) as (Hb & Es & Ec & _).
    apply (other_moves s _ Hs Hb). intros j Ej. rewrite Es. split; [by apply Hs|apply Ec; congruence].
Qed.

Lemma stream_step quiet x s :
  stream_ok s → wf_act quiet x →
  ∃ s', step apply x s = Ok s' ∧ stream_ok s' ∧ (quiet = true → buffered s = [] → calm s s').
Proof.
  intros Hs Hx. assert (Hst : stepped (step apply x s) s →
    ∃ s', step apply x s = Ok s' ∧ stream_ok s' ∧ (quiet = true → buffered s = [] → calm s s')).
  { intros (s' & ? & ? & ?). exists s'. by auto. }
  destruct x as [f|g| |id|id|cs sent|ok|cd nd sent].
  - by apply server_step.
  - by apply Hst, client_step.
  - by apply Hst, other_step.
  - by apply Hst, other_step.
  - by apply Hst, other_step.
  - by apply Hst, serve_step.
  - by apply Hst, recv_step.
  - by apply Hst, renew_step.
Qed.

Lemma stream_run quiet xs s :
  stream_ok s → Forall (wf_act quiet) xs →
  ∃ s', run apply xs s = Ok s' ∧ stream_ok s' ∧ (quiet = true → buffered s = [] → calm s s').
Proof.
  revert s. induction xs as [|x xs IH]; intros s Hs HF.
  { exists s. do 2 (split; [done|]). intros _. apply calm_refl. }
  apply Forall_cons in HF as [Hx HF]. destruct (stream_step quiet x s Hs Hx) as (s1 & E1 & Hs1 & Hc1).
  destruct (IH s1 Hs1 HF) as (s2 & E2 & Hs2 & Hc2). exists s2. cbn [run]. rewrite E1. split; [done|]. split; [done|].
  intros Hq E0. pose proof (Hc1 Hq E0) as C1. eapply calm_trans; [exact C1|]. apply Hc2; [done|apply C1].
Qed.

(** The client reads what is under way. *)
Lemma recv_all n s :
  stream_ok s → up s = true → (length (st_wire s) ≤ n)%nat →
  ∃ s', run apply (replicate n (Recv true)) s = Ok s' ∧ st_wire s' = [] ∧ up s' = true ∧ st_server s' = st_server s.
Proof.
  revert s. induction n as [|n IH]; intros s Hs Hup Hn; cbn [replicate run].
  { exists s. by destruct (st_wire s); [|simpl in Hn; lia]. }
  destruct (recv_step true s Hs) as (s1 & E1 & Hs1 & _). cbn [step]. rewrite E1. cbn [gobind].
  assert (Hx : up s1 = true ∧ st_server s1 = st_server s ∧ length (st_wire s1) = pred (length (st_wire s))).
  { unfold recv in E1. pose proof Hup as [Ec Eu]%up_spec. rewrite Ec in E1. cbn [negb] in E1.
    destruct (st_wire s) as [|m rest] eqn:Ew; [injection E1 as <-; by rewrite Ew|].
    destruct (apply (st_client s) m); try done. injection E1 as <-. split; [by apply up_spec|done]. }
  destruct Hx as (Hu1 & <- & Hl). apply IH; [done|done|lia].
Qed.

(** From any state at rest: after a round of the ticker, whatever happens at rest,
    a client that is connected and has read what is under way agrees with the
    server. *)
Lemma stream_settles s rest :
  stream_ok s → buffered s = [] → Forall (wf_act true) rest →
  ∃ s1, run apply (Serve Tick true :: rest) s = Ok s1 ∧ sc_same (st_server s) (st_server s1) ∧
    (up s1 = true → ∀ n, (length (st_wire s1) ≤ n)%nat →
       ∃ s2, run apply (replicate n (Recv true)) s1 = Ok s2 ∧ st_server s2 = st_server s1 ∧
         sc_agree (st_server s2) (st_client s2)).
Proof.
  intros Hs Hb HF. destruct (tick_step true s Hs) as (s0 & E0 & Hs0 & Hc0). pose proof (Hc0 Hb) as C0.
  destruct (stream_run true rest s0 Hs0 HF) as (s1 & E1 & Hs1 & Hc1). pose proof (Hc1 eq_refl (cm_buf _ _ C0)) as C1.
  exists s1. cbn [run step]. rewrite E0. split; [exact E1|]. split; [etrans; [apply C0|apply C1]|]. intros Hup n Hn.
  assert (Hon : on_course s0).
  { intros [Hc [id Hid]]%up_spec. unfold serve in E0. destruct (st_sub s) as [id'|] eqn:Es; [|by injection E0 as <-; rewrite Es in Hid].
    unfold send in E0. injection E0 as <-. simpl in *. rewrite Hc. left. exists (st_wire s), (sv_sync (st_server s)), [].
    split; [done|]. constructor; [by apply sc_sync, Hs|constructor]. }
  destruct (recv_all n s1 Hs1 Hup Hn) as (s2 & E2 & Ew & Hu2 & Esrv). exists s2. split; [done|]. split; [done|].
  destruct (stream_run true (replicate n (Recv true)) s1 Hs1) as (s2' & E2' & Hs2 & Hc2); [by apply Forall_replicate|].
  rewrite E2 in E2'. injection E2' as <-. pose proof (Hc2 eq_refl (cm_buf _ _ C1)) as C2.
  destruct (cm_course _ _ C2 (cm_course _ _ C1 Hon) Hu2) as [(pre & m & post & Ep & _)|[_ Ha]]; [|done].
  rewrite Ew in Ep. by destruct pre.
Qed.

(** ** Several streams of one server

    What a stream does to its server leaves the subscriptions of others alone, and
    it never takes one of theirs. *)
Definition kept s s' : Prop :=
  ∀ id, is_Some (bk_subs (sv_subs (st_server s)) !! id) → st_sub s ≠ Some id →
    is_Some (bk_subs (sv_subs (st_server s')) !! id) ∧
    bk_chans (sv_subs (st_server s')) !! id = bk_chans (sv_subs (st_server s)) !! id ∧ st_sub s' ≠ Some id.

Lemma kept_same s s' : sv_subs (st_server s') = sv_subs (st_server s) → st_sub s' = st_sub s → kept s s'.
Proof. intros E1 E2 id Hid Hne. by rewrite E1, E2. Qed.

Lemma kept_trans s1 s2 s3 : kept s1 s2 → kept s2 s3 → kept s1 s3.
Proof.
  intros H1 H2 id Hid Hne. destruct (H1 id Hid Hne) as (I1 & E1 & N1). destruct (H2 id I1 N1) as (I2 & E2 & N2).
  split; [done|]. split; [congruence|done].
Qed.

Lemma finish_kept s s' : broker_ok (sv_subs (st_server s)) → finish s = Ok s' → kept s s'.
Proof.
  intros Hb. unfold finish. destruct (st_sub s) as [id|] eqn:Eid; [|intros [= <-]; by apply kept_same].
  destruct (cancel_ok id _ Hb) as (b & -> & _ & Es & Ec). cbn [gobind]. intros [= <-] j Hj Hne. rewrite Eid in Hne. simpl.
  rewrite sv_subs_with, Es, lookup_delete_ne, Ec by congruence. done.
Qed.

Lemma send_kept sent m s s' : broker_ok (sv_subs (st_server s)) → send sent m s = Ok s' → kept s s'.
Proof. intros Hb. unfold send. destruct sent; [intros [= <-]; by apply kept_same|by apply finish_kept]. Qed.

Lemma serve_kept cs sent s s' : broker_ok (sv_subs (st_server s)) → serve cs sent s = Ok s' → kept s s'.
Proof.
  intros Hb. unfold serve. destruct (st_sub s) as [id|] eqn:Eid; [|intros [= <-]; by apply kept_same].
  destruct cs; [by apply finish_kept|by apply send_kept|].
  destruct (receive_spec id _ Hb) as (Hb' & Es & Ec & _). destruct (receive id _) as [[upd|] b]; simpl in Hb', Es, Ec.
  - intros E'. eapply kept_trans; [|eapply send_kept; [|exact E']; simpl; by rewrite sv_subs_with].
    intros j Hj Hne. rewrite Eid in Hne. simpl. rewrite sv_subs_with, Es, Ec by congruence. done.
  - destruct (bk_chans _ !! id) as [ch|]; [destruct (ch_closed ch)|]; [by apply finish_kept|intros [= <-]; by apply kept_same..].
Qed.

Lemma recv_kept ok s s' : recv apply ok s = Ok s' → kept s s'.
Proof.
  unfold recv. destruct (negb _); [intros [= <-]; by apply kept_same|]. destruct ok; [|intros [= <-]; by apply kept_same].
  destruct (st_wire s); [intros [= <-]; by apply kept_same|]. destruct (apply _ _); try done. intros [= <-]. by apply kept_same.
Qed.

Lemma renew_kept cd nd sent s s' :
  broker_ok (sv_subs (st_server s)) → RunWhileConnected cd nd sent s = Ok s' → kept s s'.
Proof.
  intros Hb. unfold RunWhileConnected. destruct (_ || _); [intros [= <-]; by apply kept_same|].
  unfold serve_start. destruct (sv_subscribe_law (st_server s)) as [cap ->]. intros E'.
  eapply kept_trans; [|eapply send_kept; [|exact E']; simpl; rewrite sv_subs_with; apply subscribe_with_ok; [done|simpl; lia]].
  intros j Hj _. pose proof (subscribe_fresh cap _ Hb) as Hf. simpl. rewrite sv_subs_with. simpl in *.
  assert (Hne : bk_next (sv_subs (st_server s)) ≠ j) by (intros <-; rewrite Hf in Hj; by destruct Hj).
  rewrite !lookup_insert_ne by done. split; [done|]. split; [done|]. congruence.
Qed.

(** The client only changes by messages. *)
Lemma finish_client s s' : finish s = Ok s' → st_client s' = st_client s.
Proof. unfold finish. destruct (st_sub s); [destruct (cancel _ _); try done|]; by intros [= <-]. Qed.

Lemma send_client sent m s s' : send sent m s = Ok s' → st_client s' = st_client s.
Proof. unfold send. destruct sent; [by intros [= <-]|apply finish_client]. Qed.

Lemma serve_client cs sent s s' : serve cs sent s = Ok s' → st_client s' = st_client s.
Proof.
  unfold serve. destruct (st_sub s) as [id|]; [|by intros [= <-]]. destruct cs; [apply finish_client|apply send_client|].
  destruct (receive id _) as [[upd|] b]; [intros E'; by apply send_client in E'|].
  destruct (bk_chans _ !! id) as [ch|]; [destruct (ch_closed ch); [apply finish_client|]|]; by intros [= <-].
Qed.

Lemma renew_client cd nd sent s s' : RunWhileConnected cd nd sent s = Ok s' → st_client s' = st_client s.
Proof.
  unfold RunWhileConnected. destruct (_ || _); [by intros [= <-]|]. unfold serve_start. destruct (sv_subscribe _).
  intros E'. by apply send_client in E'.
Qed.

End Facts.
End Streams.
