(* ===== verification/MeshNet.v ===== *)
(** * A mesh of nodes that follow each other

    Any number of nodes, one state per node, and between any two of them a stream of
    Streams.v with its loops; what holds of every service is proved once and used
    for rules (MeshRules.v) and clients (MeshClients.v).  A server's message may
    list what the node learned from others, so a node that missed something can
    spread it again: the question is when that ends. *)
From stdpp Require Import functions.
From S2P Require Import Prelude Broker Streams.
Import Broker Streams.

Open Scope go_scope.

Module MeshNet.

Section Mesh.
Context {N E M Op : Type} `{SL : ServedLaws N E M}.
Context (apply : string → string → N → M → gores N) (exec : Op → N → gores N).

(** The stream from a node to another, without the states at its ends. *)
Record link := mkLink { lk_sub : option nat; lk_wire : list M; lk_up : bool }.
Record mesh := mkMesh { nodes : string → N; links : string * string → link }.

Definition view (m : mesh) (c b : string) : Stream N M N :=
  let l := links m (c, b) in mkStream (nodes m c) (lk_sub l) (lk_wire l) (lk_up l) (nodes m b).

Definition put (m : mesh) (c b : string) (s : Stream N M N) : mesh :=
  mkMesh (<[b := st_client s]> (<[c := st_server s]> (nodes m)))
    (<[(c, b) := mkLink (st_sub s) (st_wire s) (st_connected s)]> (links m)).

(** A turn of one of the loops of a stream. *)
Inductive loop :=
| LServe (cs : serve_case) (sent : bool)
| LRecv (ok : bool)
| LRenew (ctx_done conn_done sent : bool).
Definition act_of (l : loop) : Streams.act N N :=
  match l with
  | LServe cs sent => Serve cs sent
  | LRecv ok => Recv ok
  | LRenew cd nd sent => Renew cd nd sent
  end.

(** An operation on a node, or a turn of the stream from [c] to [b]. *)
Inductive mesh_act := Node (n : string) (op : Op) | Pair (c b : string) (l : loop).

Definition net_step (x : mesh_act) (m : mesh) : gores mesh :=
  match x with
  | Node n op => r <- exec op (nodes m n);; Ok (mkMesh (<[n := r]> (nodes m)) (links m))
  | Pair c b l => s <- step (apply c b) (act_of l) (view m c b);; Ok (put m c b s)
  end.

Fixpoint net_run (xs : list mesh_act) (m : mesh) : gores mesh :=
  match xs with
  | [] => Ok m
  | x :: rest => m1 <- net_step x m;; net_run rest m1
  end.

(** A stream is opened, and its first message read. *)
Definition open_stream (c b : string) : list mesh_act := [Pair c b (LRenew false false true); Pair c b (LRecv true)].

Lemma net_run_app xs ys m : net_run (xs ++ ys) m = (m1 <- net_run xs m;; net_run ys m1).
Proof.
  revert m. induction xs as [|x xs IH]; intros m; [done|]. simpl. destruct (net_step x m); [|done..]. apply IH.
Qed.

End Mesh.
Arguments mesh : clear implicits.
Arguments link : clear implicits.
Arguments mesh_act : clear implicits.

(** ** A round of the owner

    [p]: the nodes that have not heard the owner yet, each with the messages that it
    still has to read since the owner's ticker fired for it, if it did. *)
Definition unheard (l : list string) : gmap string (option nat) := gset_to_gmap None (list_to_set l).
Definition has_read (b : string) (n : nat) (p : gmap string (option nat)) : gmap string (option nat) :=
  match n with O => delete b p | S _ => <[b := Some n]> p end.

(** What may happen meanwhile: anything at any node, and any turn of a stream but those
    of a node that has not heard the owner, and those of the owner to such a node. *)
Definition meanwhile {Op} (a : string) (p : gmap string (option nat)) (x : mesh_act Op) : Prop :=
  match x with Node _ _ => True | Pair c b _ => p !! c = None ∧ (c = a → p !! b = None) end.

(** The owner's ticker fires for every node, which reads [counts] messages after that;
    the turns of different nodes, and what happens meanwhile, are mixed in any way. *)
Inductive round {Op} (a : string) (counts : string → nat) : gmap string (option nat) → list (mesh_act Op) → Prop :=
| round_over : round a counts ∅ []
| round_tick b p xs :
    p !! b = Some None → round a counts (<[b := Some (counts b)]> p) xs → round a counts p (Pair a b (LServe Tick true) :: xs)
| round_read b n p xs :
    p !! b = Some (Some (S n)) → round a counts (has_read b n p) xs → round a counts p (Pair a b (LRecv true) :: xs)
| round_meanwhile x p xs : meanwhile a p x → round a counts p xs → round a counts p (x :: xs).

(** No stream between any two nodes. *)
Definition no_streams {M} (p : string * string) : link M := mkLink None [] false.

(** * What a service promises to a mesh

    [clean] states of a node and [silent] messages do not show the thing in
    question; a silent message keeps a clean node clean, and what the node then
    tells its own subscribers is silent. *)
Class MeshLaws {N E M Op : Type} `{Served N E M} (apply : string → string → N → M → gores N) (exec : Op → N → gores N)
    (good : string → N → Prop) (clean : N → Prop) (silent : M → Prop) (op_ok : string → Op → Prop) := {
  ml_subs n s : good n s → broker_ok (sv_subs s);
  ml_with n s b : good n s → broker_ok b → good n (sv_with_subs s b);
  ml_with_clean s b : clean s → clean (sv_with_subs s b);
  ml_sync n s : good n s → clean s → silent (sv_sync s);
  ml_apply c b s m : c ≠ b → good b s → silent m →
    ∃ s', apply c b s m = Ok s' ∧ good b s' ∧ (clean s → clean s') ∧
      grown (λ ev, silent (sv_message ev)) (sv_subs s) (sv_subs s');
  ml_op n op s : good n s → op_ok n op →
    ∃ s', exec op s = Ok s' ∧ good n s' ∧ (clean s → clean s') ∧
      grown (λ ev, silent (sv_message ev)) (sv_subs s) (sv_subs s') }.

(** A [telling] message of the owner [a] cleans its reader, and the owner's dumps
    are telling. *)
Class MeshOwner {N E M : Type} `{Served N E M} (apply : string → string → N → M → gores N)
    (good : string → N → Prop) (clean : N → Prop) (silent telling : M → Prop) (a : string) := {
  mw_sync s : good a s → clean s → telling (sv_sync s);
  mw_apply b s m s' : a ≠ b → good b s → silent m → telling m → apply a b s m = Ok s' → clean s' }.

Section Facts.
Context {N E M Op : Type} `{SL : ServedLaws N E M}.
Context (apply : string → string → N → M → gores N) (exec : Op → N → gores N).
Context (good : string → N → Prop) (clean : N → Prop) (silent : M → Prop) (op_ok : string → Op → Prop).
Context `{ML : !MeshLaws apply exec good clean silent op_ok}.
Notation mesh := (mesh N M).
Implicit Types m : mesh.

Definition act_ok (x : mesh_act Op) : Prop :=
  match x with Node n op => op_ok n op | Pair c b _ => c ≠ b end.

(** [may]: the client need not be clean. *)
Definition silence (c b : string) (may : Prop) (Hcb : c ≠ b) : Contract (apply c b).
Proof.
  refine {| sc_inv r := good c r ∧ clean r; sc_client r := good b r ∧ (¬ may → clean r); sc_msg := silent;
    sc_same _ _ := True; sc_tells _ _ := True; sc_agree _ _ := True |}; try done.
  - intros r bk [Hr Hg] Hb. split; [|done]. split; [by apply (ml_with (MeshLaws := ML) c r bk)|by apply (ml_with_clean (MeshLaws := ML) r bk)].
  - intros r [Hr Hg]. split; [|done]. by apply (ml_sync (MeshLaws := ML) _ _ Hr Hg).
  - intros r m [Hr Hg] Hm. destruct (ml_apply (MeshLaws := ML) c b r m Hcb Hr Hm) as (r' & E' & G1 & G2 & _). exists r'.
    split; [done|]. split; [|done]. split; [done|]. intros Hn. by apply G2, Hg.
Defined.

(** The nodes outside [l] are clean, and so is what is under way. *)
Record mesh_ok (l : list string) (m : mesh) : Prop := {
  mo_node n : good n (nodes m n);
  mo_clean n : n ∉ l → clean (nodes m n);
  mo_sub c b id : lk_sub (links m (c, b)) = Some id → is_Some (bk_subs (sv_subs (nodes m c)) !! id);
  mo_apart c b b' id : lk_sub (links m (c, b)) = Some id → lk_sub (links m (c, b')) = Some id → b = b';
  mo_buf c b : Forall (λ ev, silent (sv_message ev)) (buffered (view m c b));
  mo_wire c b : Forall silent (lk_wire (links m (c, b))) }.

(** A mesh before any stream. *)
Lemma idle_mesh_ok l (f : string → N) :
  (∀ n, good n (f n)) → (∀ n, n ∉ l → clean (f n)) → mesh_ok l (mkMesh f no_streams).
Proof. intros H1 H2. by constructor. Qed.

Lemma view_ok l m c b (Hcb : c ≠ b) :
  mesh_ok l m → c ∉ l → stream_ok (apply c b) (Contract0 := silence c b (b ∈ l) Hcb) (view m c b).
Proof.
  intros Hm Hc. constructor.
  - split; [apply Hm|by apply Hm].
  - apply (ml_subs (MeshLaws := ML) c), Hm.
  - intros id. apply Hm.
  - apply Hm.
  - apply Hm.
  - split; [apply Hm|]. simpl. intros Hb. by apply Hm.
Qed.

Definition subs_of (m : mesh) (n : string) : broker E := sv_subs (nodes m n).

Lemma put_nodes m c b s n :
  nodes (put m c b s) n = if decide (n = b) then st_client s else if decide (n = c) then st_server s else nodes m n.
Proof.
  simpl. destruct (decide (n = b)) as [->|Hb]; [by rewrite fn_lookup_insert|]. rewrite fn_lookup_insert_ne by done.
  destruct (decide (n = c)) as [->|Hc]; [by rewrite fn_lookup_insert|by rewrite fn_lookup_insert_ne].
Qed.

Lemma put_links m c b s p :
  links (put m c b s) p = if decide (p = (c, b)) then mkLink (st_sub s) (st_wire s) (st_connected s) else links m p.
Proof. simpl. destruct (decide (p = (c, b))) as [->|Hp]; [by rewrite fn_lookup_insert|by rewrite fn_lookup_insert_ne]. Qed.

Lemma buffered_view m c b : buffered (view m c b) =
  match lk_sub (links m (c, b)) with
  | Some id => match bk_chans (subs_of m c) !! id with Some ch => ch_buf ch | None => [] end
  | None => []
  end.
Proof. done. Qed.

(** The turn of one stream leaves the mesh in order. *)
Lemma put_ok l m c b s (Hcb : c ≠ b) :
  mesh_ok l m → kept (view m c b) s → stream_ok (apply c b) (Contract0 := silence c b (b ∈ l) Hcb) s →
  grown (λ ev, silent (sv_message ev)) (subs_of m b) (sv_subs (st_client s)) → mesh_ok l (put m c b s).
Proof.
  intros Hm Hkept Hs [_ Hcl]. destruct Hs as [[Hnode Hg] _ Hsub Hbuf Hwire [Hcnode Hcg]].
  assert (Hkeep : ∀ x y id, (x, y) ≠ (c, b) → lk_sub (links m (x, y)) = Some id →
    is_Some (bk_subs (subs_of (put m c b s) x) !! id) ∧ (x = c → st_sub s ≠ Some id) ∧
    ∃ ch ch' evs, bk_chans (subs_of m x) !! id = Some ch ∧ bk_chans (subs_of (put m c b s) x) !! id = Some ch' ∧
      ch_buf ch' = ch_buf ch ++ evs ∧ Forall (λ ev, silent (sv_message ev)) evs).
  { intros x y id Hxy Hid. pose proof (mo_sub _ _ Hm x y id Hid) as Hi. unfold subs_of at 1 3. rewrite put_nodes.
    destruct (bok_open _ (ml_subs (MeshLaws := ML) x _ (mo_node _ _ Hm x)) id Hi) as (ch & Hch & _).
    destruct (decide (x = b)) as [->|Hxb].
    { destruct (Hcl id ch Hi Hch) as (H1 & ch' & evs & H2 & H3 & H4). split; [exact H1|]. split; [congruence|]. by exists ch, ch', evs. }
    destruct (decide (x = c)) as [->|Hxc]; [|split; [done|]; split; [done|]; exists ch, ch, []; by rewrite app_nil_r].
    destruct (Hkept id Hi) as (K1 & K2 & K3); [intros Hv; apply Hxy; by rewrite (mo_apart _ _ Hm c b y id Hv Hid)|].
    split; [exact K1|]. split; [done|]. exists ch, ch, []. rewrite K2. by rewrite app_nil_r. }
  assert (Hcs : subs_of (put m c b s) c = sv_subs (st_server s)).
  { unfold subs_of. rewrite put_nodes. rewrite decide_False, decide_True by done. done. }
  constructor.
  - intros n. rewrite put_nodes. repeat case_decide; subst; [done|done|apply Hm].
  - intros n Hn. rewrite put_nodes. destruct (decide (n = b)) as [->|]; [by apply Hcg|]. case_decide; [done|by apply Hm].
  - intros x y id. rewrite put_links. change (sv_subs (nodes (put m c b s) x)) with (subs_of (put m c b s) x).
    destruct (decide _) as [[= -> ->]|Hxy]; [|by intros Hid; apply (Hkeep x y)]. rewrite Hcs. apply Hsub.
  - intros x y y' id. rewrite !put_links. destruct (decide _) as [[= -> ->]|H1], (decide _) as [H2|H2]; simpl.
    + by injection H2 as ->.
    + intros E1 E2. by destruct (Hkeep _ _ _ H2 E2) as (_ & [] & _).
    + injection H2 as -> ->. intros E1 E2. by destruct (Hkeep _ _ _ H1 E1) as (_ & [] & _).
    + apply Hm.
  - intros x y. rewrite buffered_view, put_links. destruct (decide _) as [[= -> ->]|Hxy]; [rewrite Hcs; exact Hbuf|].
    pose proof (mo_buf _ _ Hm x y) as Hb. rewrite buffered_view in Hb.
    destruct (lk_sub (links m (x, y))) as [id|] eqn:Eid; [|done].
    destruct (Hkeep x y id Hxy Eid) as (_ & _ & ch & ch' & evs & Ech & -> & -> & HF). rewrite Ech in Hb. by apply Forall_app.
  - intros x y. rewrite put_links. case_decide; [done|apply Hm].
Qed.

Lemma recv_subs l m c b ok s :
  c ≠ b → mesh_ok l m → recv (apply c b) ok (view m c b) = Ok s →
  grown (λ ev, silent (sv_message ev)) (subs_of m b) (sv_subs (st_client s)).
Proof.
  intros Hcb Hm. pose proof (ml_subs (MeshLaws := ML) b _ (mo_node _ _ Hm b)) as Hbr.
  unfold recv. destruct (negb _); [intros [= <-]; by apply grown_refl|]. destruct ok; [|intros [= <-]; by apply grown_refl].
  pose proof (mo_wire _ _ Hm c b) as HF. unfold view. simpl.
  destruct (lk_wire (links m (c, b))) as [|x rest]; [intros [= <-]; by apply grown_refl|]. apply Forall_cons in HF as [Hx _].
  destruct (ml_apply (MeshLaws := ML) c b (nodes m b) x Hcb (mo_node _ _ Hm b) Hx) as (r & -> & _ & _ & Es). by intros [= <-].
Qed.

Lemma pair_step l m c b lp :
  mesh_ok l m → c ∉ l → c ≠ b →
  ∃ s, step (apply c b) (act_of lp) (view m c b) = Ok s ∧ mesh_ok l (put m c b s) ∧ kept (view m c b) s.
Proof.
  intros Hm Hc Hcb. pose proof (view_ok l m c b Hcb Hm Hc) as Hv. pose proof (ml_subs c _ (mo_node _ _ Hm c)) as Hbr.
  destruct (stream_step (apply c b) (Contract0 := silence c b (b ∈ l) Hcb) false (act_of lp) (view m c b) Hv) as (s & E' & Hs & _);
    [by destruct lp|].
  exists s. split; [exact E'|].
  pose proof (ml_subs (MeshLaws := ML) b _ (mo_node _ _ Hm b)) as Hbr'.
  assert (Hx : kept (view m c b) s ∧ grown (λ ev, silent (sv_message ev)) (subs_of m b) (sv_subs (st_client s))).
  { destruct lp as [cs sent|ok|cd nd sent]; simpl in E'.
    - split; [by eapply serve_kept|]. rewrite (serve_client _ _ _ _ E'). by apply grown_refl.
    - split; [by eapply recv_kept|]. by apply (recv_subs l m c b ok s Hcb Hm E').
    - split; [by eapply renew_kept|]. rewrite (renew_client _ _ _ _ _ E'). by apply grown_refl. }
  destruct Hx as [Hx1 Hx2]. split; [|done]. by apply (put_ok l m c b s Hcb).
Qed.

Lemma node_step l m n op :
  mesh_ok l m → op_ok n op → ∃ m', net_step apply exec (Node n op) m = Ok m' ∧ mesh_ok l m'.
Proof.
  intros Hm Ho. pose proof (ml_subs n _ (mo_node _ _ Hm n)) as Hbr.
  destruct (ml_op n op _ (mo_node _ _ Hm n) Ho) as (r & E' & Hr & Hg & Hb & Hgrow).
  simpl. rewrite E'. eexists. split; [reflexivity|].
  assert (Hn : ∀ x, nodes (mkMesh (<[n := r]> (nodes m)) (links m)) x = if decide (x = n) then r else nodes m x).
  { intros x. simpl. destruct (decide (x = n)) as [->|]; [by rewrite fn_lookup_insert|by rewrite fn_lookup_insert_ne]. }
  assert (Hin : ∀ y id, lk_sub (links m (n, y)) = Some id → ∃ ch, bk_chans (subs_of m n) !! id = Some ch ∧
    is_Some (bk_subs (subs_of m n) !! id)).
  { intros y id Hid. pose proof (mo_sub _ _ Hm n y id Hid) as Hi. destruct (bok_open _ Hbr id Hi) as (ch & Hch & _). by exists ch. }
  constructor.
  - intros x. rewrite Hn. case_decide; [by subst x|apply Hm].
  - intros x Hx. rewrite Hn. case_decide as Hxn; [subst x; by apply Hg, Hm|by apply Hm].
  - intros x y id Hid. rewrite Hn. case_decide as Hxn; [|by apply (mo_sub _ _ Hm x y)]. subst x.
    destruct (Hin y id Hid) as (ch & Hch & Hi). by apply (Hgrow id ch).
  - intros x y y' id. apply Hm.
  - intros x y. rewrite buffered_view. unfold subs_of. rewrite Hn. pose proof (mo_buf _ _ Hm x y) as Hbf. rewrite buffered_view in Hbf.
    simpl. destruct (decide (x = n)) as [->|]; [|done]. destruct (lk_sub (links m (n, y))) as [id|] eqn:Eid; [|done].
    destruct (Hin y id Eid) as (ch & Hch & Hi). destruct (Hgrow id ch Hi Hch) as (_ & ch' & evs & -> & -> & HF).
    rewrite Hch in Hbf. by apply Forall_app.
  - apply Hm.
Qed.

(** A clean mesh stays clean, whatever happens. *)
Lemma silent_run xs m :
  mesh_ok [] m → Forall act_ok xs → ∃ m', net_run apply exec xs m = Ok m' ∧ mesh_ok [] m'.
Proof.
  revert m. induction xs as [|x xs IH]; intros m Hm HF; [by exists m|]. apply Forall_cons in HF as [Hx HF].
  assert (H1 : ∃ m1, net_step apply exec x m = Ok m1 ∧ mesh_ok [] m1).
  { destruct x as [n op|c b lp]; [by apply node_step|].
    destruct (pair_step [] m c b lp Hm (not_elem_of_nil _) Hx) as (s & E' & Hs & _). eexists. cbn [net_step]. by rewrite E'. }
  destruct H1 as (m1 & E1 & Hm1). destruct (IH m1 Hm1 HF) as (m2 & E2 & Hm2). exists m2. cbn [net_run]. by rewrite E1.
Qed.

(** ** The owner speaks *)

Context (telling : M → Prop) (a : string) `{MW : !MeshOwner apply good clean silent telling a}.

Definition tells_soon (b : string) m : Prop := clean (nodes m b) ∨ Exists telling (lk_wire (links m (a, b))).

(** One message read. *)
Lemma read_one l m b :
  mesh_ok l m → a ∉ l → a ≠ b → lk_up (links m (a, b)) = true → tells_soon b m →
  ∃ m', net_step apply exec (Pair a b (LRecv true)) m = Ok m' ∧ mesh_ok l m' ∧
    lk_up (links m' (a, b)) = true ∧ lk_wire (links m' (a, b)) = tail (lk_wire (links m (a, b))) ∧
    tells_soon b m' ∧ ∀ p, p ≠ (a, b) → links m' p = links m p.
Proof.
  intros Hm Ha Hab Hup Hd. destruct (pair_step l m a b (LRecv true) Hm Ha Hab) as (s & E' & Hs & _).
  exists (put m a b s). cbn [net_step]. rewrite E'. split; [done|]. split; [done|]. unfold tells_soon.
  rewrite put_links, decide_True, put_nodes, decide_True by done.
  assert (Hx : st_connected s = true ∧ st_wire s = tail (lk_wire (links m (a, b))) ∧ (clean (st_client s) ∨ Exists telling (st_wire s))).
  { cbn [act_of step] in E'. unfold recv, view in E'. cbn [st_connected] in E'. rewrite Hup in E'. cbn [negb st_wire] in E'.
    pose proof (mo_wire _ _ Hm a b) as HF. unfold tells_soon in Hd. destruct (lk_wire (links m (a, b))) as [|x rest] eqn:Ew.
    - injection E' as <-. simpl. rewrite ?Ew. done.
    - cbn [st_client] in E'. apply Forall_cons in HF as [Hx _].
      destruct (ml_apply (MeshLaws := ML) a b (nodes m b) x Hab (mo_node _ _ Hm b) Hx) as (r & Er & _ & G2 & _). rewrite Er in E'.
      injection E' as <-. cbn [st_connected st_wire st_client tail].
      split; [done|]. split; [done|]. destruct Hd as [Hg|[Hsync|Hd]%Exists_cons]; [left; by apply G2|left|by right].
      by apply (mw_apply (MeshOwner := MW) b (nodes m b) x r Hab (mo_node _ _ Hm b) Hx Hsync). }
  destruct Hx as (H1 & H2 & H3). split; [exact H1|]. split; [exact H2|]. split; [exact H3|].
  intros p Hp. rewrite put_links. by rewrite decide_False.
Qed.

(** The nodes of [p] may be unclean; each has heard the owner when it has read what is
    left for it. *)
Record hearing (counts : string → nat) (p : gmap string (option nat)) m : Prop := {
  hr_ok : mesh_ok (elements (dom p)) m;
  hr_owner : p !! a = None;
  hr_up b o : p !! b = Some o → lk_up (links m (a, b)) = true ∧ is_Some (lk_sub (links m (a, b)));
  hr_tick b : p !! b = Some None → (length (lk_wire (links m (a, b))) < counts b)%nat;
  hr_read b n : p !! b = Some (Some n) → (length (lk_wire (links m (a, b))) ≤ n)%nat ∧ tells_soon b m }.

Lemma not_in_dom (p : gmap string (option nat)) n : p !! n = None ↔ n ∉ elements (dom p).
Proof. by rewrite elem_of_elements, not_elem_of_dom. Qed.

(** Fewer nodes may be unclean than before. *)
Lemma mesh_ok_sub l l' m : mesh_ok l m → (∀ n, n ∉ l' → n ∉ l ∨ clean (nodes m n)) → mesh_ok l' m.
Proof. intros [H1 H2 H3 H4 H5 H6] Hl. constructor; try done. intros n Hn. destruct (Hl n Hn); [by apply H2|done]. Qed.

(** A step that does not come from an unclean node. *)
Lemma clean_step l m x :
  mesh_ok l m → act_ok x → (∀ c b lp, x = Pair c b lp → c ∉ l) → ∃ m', net_step apply exec x m = Ok m' ∧ mesh_ok l m' ∧
    ∀ q, (∀ c b lp, x = Pair c b lp → q ≠ (c, b)) → links m' q = links m q.
Proof.
  intros Hm Hx Hc. destruct x as [n op|c b lp].
  - destruct (node_step l m n op Hm Hx) as (m' & Er & Hm'). exists m'. split; [done|]. split; [done|]. intros q _.
    cbn [net_step] in Er. destruct (exec op (nodes m n)); [|done..]. by injection Er as <-.
  - destruct (pair_step l m c b lp Hm (Hc c b lp eq_refl) Hx) as (s & Er & Hs & _). exists (put m c b s). cbn [net_step]. rewrite Er.
    split; [done|]. split; [done|]. intros q Hq. rewrite put_links, decide_False; [done|]. by apply (Hq c b lp).
Qed.

Lemma meanwhile_step counts p m x :
  hearing counts p m → act_ok x → meanwhile a p x → ∃ m', net_step apply exec x m = Ok m' ∧ hearing counts p m'.
Proof.
  intros [H1 H2 H3 H4 H5] Hx Hw.
  assert (Hc : ∀ l : list string, (∀ n, n ∈ l → is_Some (p !! n)) → ∀ c b lp, x = Pair c b lp → c ∉ l).
  { intros l Hl c b lp -> Hin. destruct Hw as [Hn _], (Hl c Hin) as [? Er]. congruence. }
  assert (Hd : ∀ n, n ∈ elements (dom p) → is_Some (p !! n)) by (intros n; by rewrite elem_of_elements, elem_of_dom).
  destruct (clean_step _ m x H1 Hx (Hc _ Hd)) as (m' & Er & Hm' & Hl). exists m'. split; [done|].
  assert (El : ∀ b o, p !! b = Some o → links m' (a, b) = links m (a, b)).
  { intros b o Hb. apply Hl. intros c b' lp -> [= <- <-]. destruct Hw as [_ Hw]. by rewrite (Hw eq_refl) in Hb. }
  constructor; [done|done|..].
  - intros b o Hb. rewrite (El b o Hb). by eapply H3.
  - intros b Hb. rewrite (El b _ Hb). by apply H4.
  - intros b n Hb. unfold tells_soon. rewrite (El b _ Hb). destruct (H5 b n Hb) as [Hn [Hcl|Ht]]; (split; [done|]); [left|by right].
    set (l' := filter (λ n, n ≠ b) (elements (dom p))).
    assert (Hin : ∀ n, n ∈ l' ↔ n ≠ b ∧ n ∈ elements (dom p)) by (intros n'; unfold l'; by rewrite list_elem_of_filter).
    destruct (clean_step l' m x) as (m2 & E2 & Hm2 & _); [|done| |].
    + apply (mesh_ok_sub _ _ _ H1). intros n' Hn'. destruct (decide (n' = b)) as [Heq|Hne]; [right; by rewrite Heq|left; intros Hx'; apply Hn', Hin; by split].
    + apply Hc. intros n' [_ Hn']%Hin. by apply Hd.
    + rewrite Er in E2. injection E2 as <-. apply (mo_clean _ _ Hm2). intros [[] _]%Hin. done.
Qed.

Lemma other_node (p : gmap string (option nat)) b o : p !! a = None → p !! b = Some o → a ≠ b.
Proof. intros Ha Hb ->. congruence. Qed.

Lemma owner_ticks counts p m b :
  hearing counts p m → p !! b = Some None →
  ∃ m', net_step apply exec (Pair a b (LServe Tick true)) m = Ok m' ∧ hearing counts (<[b := Some (counts b)]> p) m'.
Proof.
  intros [H1 H2 H3 H4 H5] Hb. pose proof (other_node p b _ H2 Hb) as Hab. destruct (H3 b _ Hb) as [Hup [id Hid]].
  destruct (pair_step _ m a b (LServe Tick true) H1 (proj1 (not_in_dom p a) H2) Hab) as (s & Er & Hs & _).
  exists (put m a b s). cbn [net_step]. rewrite Er. split; [done|].
  assert (Ex : st_connected s = true ∧ st_sub s = Some id ∧ st_wire s = lk_wire (links m (a, b)) ++ [sv_sync (nodes m a)] ∧
    st_client s = nodes m b ∧ st_server s = nodes m a).
  { cbn [act_of step] in Er. unfold serve in Er. change (st_sub (view m a b)) with (lk_sub (links m (a, b))) in Er. rewrite Hid in Er.
    unfold send in Er. change (st_connected (view m a b)) with (lk_up (links m (a, b))) in Er. rewrite Hup in Er. by injection Er as <-. }
  destruct Ex as (Ec & Es & Ew & Ecl & Esv).
  assert (El : ∀ b', links (put m a b s) (a, b') = if decide (b' = b) then mkLink (st_sub s) (st_wire s) (st_connected s) else links m (a, b')).
  { intros b'. rewrite put_links. repeat case_decide; congruence. }
  assert (Edom : ∀ n, n ∉ elements (dom (<[b := Some (counts b)]> p)) ↔ n ∉ elements (dom p)).
  { intros n. rewrite <- !not_in_dom, lookup_insert. case_decide; [subst n; naive_solver|done]. }
  constructor.
  - apply (mesh_ok_sub _ _ _ Hs). intros n Hn. left. by apply Edom.
  - by rewrite lookup_insert_ne.
  - intros b' o. rewrite lookup_insert, El. case_decide as Hd; [subst b'; rewrite decide_True by done; simpl; by eauto|].
    rewrite decide_False by congruence. apply H3.
  - intros b'. rewrite lookup_insert, El. case_decide as Hd; [done|]. rewrite decide_False by congruence. apply H4.
  - intros b' n. unfold tells_soon. rewrite lookup_insert, El, put_nodes. case_decide as Hd.
    + subst b'. rewrite !decide_True by done. intros [= <-]. simpl. rewrite Ew, length_app. simpl. split; [specialize (H4 b Hb); lia|].
      right. apply Exists_app. right. apply Exists_cons_hd.
      apply (mw_sync (MeshOwner := MW) _ (mo_node _ _ H1 a)), (mo_clean _ _ H1), not_in_dom, H2.
    + rewrite !decide_False by congruence. intros Hn. destruct (H5 b' n Hn) as [? ?]. split; [done|]. case_decide as Hba; [|done].
      subst b'. by rewrite H2 in Hn.
Qed.

Lemma read_step counts p m b n :
  hearing counts p m → p !! b = Some (Some (S n)) →
  ∃ m', net_step apply exec (Pair a b (LRecv true)) m = Ok m' ∧ hearing counts (has_read b n p) m'.
Proof.
  intros [H1 H2 H3 H4 H5] Hb. pose proof (other_node p b _ H2 Hb) as Hab. destruct (H3 b _ Hb) as [Hup Hid], (H5 b _ Hb) as [Hn Ht].
  destruct (read_one _ m b H1 (proj1 (not_in_dom p a) H2) Hab Hup Ht) as (m' & Er & Hm' & Hup' & Ew & Ht' & Ho).
  exists m'. split; [done|].
  assert (Eo : ∀ b', b' ≠ b → links m' (a, b') = links m (a, b') ∧ nodes m' b' = nodes m b').
  { intros b' Hne. split; [apply Ho; congruence|]. cbn [net_step] in Er. destruct (step (apply a b) _ _) as [s| |] eqn:Es; [|done..].
    injection Er as <-. rewrite put_nodes, decide_False by done. case_decide as Hd; [|done]. subst b'. cbn [act_of step] in Es. unfold recv in Es.
    destruct (negb _); [by injection Es as <-|]. destruct (st_wire _) as [|x rest]; [by injection Es as <-|].
    destruct (apply a b _ x); [|done..]. by injection Es as <-. }
  assert (Esub : lk_sub (links m' (a, b)) = lk_sub (links m (a, b))).
  { cbn [net_step] in Er. destruct (step (apply a b) _ _) as [s| |] eqn:Es; [|done..]. injection Er as <-. rewrite put_links, decide_True by done.
    simpl. cbn [act_of step] in Es. unfold recv in Es. destruct (negb _); [by injection Es as <-|].
    destruct (st_wire _) as [|x rest]; [by injection Es as <-|]. destruct (apply a b _ x); [|done..]. by injection Es as <-. }
  assert (Hl : (length (lk_wire (links m' (a, b))) ≤ n)%nat) by (rewrite Ew; destruct (lk_wire (links m (a, b))); simpl in *; lia).
  assert (Hlook : ∀ b', has_read b n p !! b' = if decide (b' = b) then (match n with O => None | S _ => Some (Some n) end) else p !! b').
  { intros b'. unfold has_read. destruct n; [rewrite lookup_delete|rewrite lookup_insert]; repeat case_decide; congruence. }
  constructor.
  - apply (mesh_ok_sub _ _ _ Hm'). intros x Hx. rewrite <- not_in_dom, Hlook in Hx. case_decide as Hd; [|left; by apply not_in_dom].
    subst x. destruct n; [|done]. right. destruct Ht' as [?|Ht']; [done|]. destruct (lk_wire (links m' (a, b))); [by inversion Ht'|simpl in Hl; lia].
  - by rewrite Hlook, decide_False.
  - intros b' o. rewrite Hlook. case_decide as Hd; [subst b'; intros _; split; [done|by rewrite Esub]|]. rewrite (proj1 (Eo b' Hd)). apply H3.
  - intros b'. rewrite Hlook. case_decide as Hd; [by destruct n|]. rewrite (proj1 (Eo b' Hd)). apply H4.
  - intros b' k. rewrite Hlook. unfold tells_soon. case_decide as Hd; [subst b'; destruct n; [done|]; intros [= <-]; by split|].
    destruct (Eo b' Hd) as [-> ->]. apply H5.
Qed.

Lemma round_ok counts p xs m :
  round a counts p xs → Forall act_ok xs → hearing counts p m → ∃ m', net_run apply exec xs m = Ok m' ∧ mesh_ok [] m'.
Proof.
  intros Hr. revert m. induction Hr as [|b p xs Hb Hr IH|b n p xs Hb Hr IH|x p xs Hx Hr IH]; intros m HF Hm.
  { exists m. split; [done|]. apply (mesh_ok_sub _ _ _ (hr_ok _ _ _ Hm)). intros n _. left. by apply not_in_dom. }
  all: apply Forall_cons in HF as [Ha HF]; cbn [net_run].
  - destruct (owner_ticks counts p m b Hm Hb) as (m1 & -> & Hm1). by apply IH.
  - destruct (read_step counts p m b n Hm Hb) as (m1 & -> & Hm1). by apply IH.
  - destruct (meanwhile_step counts p m x Hm Ha Hx) as (m1 & -> & Hm1). by apply IH.
Qed.

(** Once every node of [l] has heard the owner, the mesh is clean for good. *)
Lemma mesh_settles counts l m ys xs :
  mesh_ok l m → a ∉ l → (∀ b, b ∈ l → up (view m a b) = true ∧ (length (lk_wire (links m (a, b))) < counts b)%nat) →
  round a counts (unheard l) ys → Forall act_ok ys → Forall act_ok xs →
  ∃ m1 m2, net_run apply exec ys m = Ok m1 ∧ mesh_ok [] m1 ∧ net_run apply exec xs m1 = Ok m2 ∧ mesh_ok [] m2.
Proof.
  intros Hm Ha Hl Hr HF1 HF2.
  assert (Hu : ∀ b o, unheard l !! b = Some o ↔ b ∈ l ∧ o = None).
  { intros b o. unfold unheard. rewrite lookup_gset_to_gmap_Some, elem_of_list_to_set. naive_solver. }
  assert (Hh : hearing counts (unheard l) m).
  { constructor.
    - apply (mesh_ok_sub _ _ _ Hm). intros n Hn. left. intros Hin. rewrite <- not_in_dom in Hn.
      assert (Er : unheard l !! n = Some None) by by apply Hu. by rewrite Hn in Er.
    - destruct (unheard l !! a) eqn:Er; [|done]. by apply Hu in Er as [? _].
    - intros b o [Hb _]%Hu. destruct (Hl b Hb) as [[? ?]%up_spec _]. by split.
    - intros b [Hb _]%Hu. by apply Hl.
    - intros b n [_ ?]%Hu. done. }
  destruct (round_ok _ _ _ _ Hr HF1 Hh) as (m1 & E1 & Hm1). destruct (silent_run xs m1 Hm1 HF2) as (m2 & E2 & Hm2). by exists m1, m2.
Qed.

End Facts.
End MeshNet.
