(* ===== verification/NetUtils.v ===== *)
(** * IPv4 addresses and prefixes (internal/utils/netutils/ip.go)

    The conversions between [net.IP], dotted-decimal text and [uint32], and the
    prefix test [NativeIPNet].  The parts of Go's package net they call are
    modelled from its documented algorithm: [net.ParseIP], [net.ParseCIDR],
    [net.CIDRMask], [IP.To4], [IP.Mask] and [IP.String].  The textual IPv6 parser
    behind them is the argument [parse6] (it yields the 16 bytes of an address
    without zone); nothing is assumed about it.  A [net.IP] is its bytes, and
    [nil] is the empty list. *)
From S2P Require Import Prelude.

Open Scope go_scope.

Module NetUtils.

Notation IP := (list Z).

(** ** Package net *)

Definition v4InV6Prefix : list Z := [0; 0; 0; 0; 0; 0; 0; 0; 0; 0; 255; 255]%Z.

(** [IP.To4]: the last four bytes of a mapped address; [[]] is [nil]. *)
Definition To4 (ip : IP) : IP :=
  if decide (length ip = 4%nat) then ip
  else if decide (length ip = 16%nat ∧ take 12 ip = v4InV6Prefix) then drop 12 ip
  else [].

(** The state of netip's [parseIPv4Fields]: value and number of digits of the
    current field, and the fields that are complete. *)
Record fields_state := mkFields { fs_val : Z; fs_dig : nat; fs_done : list Z }.

Definition digit_val (c : ascii) : option Z :=
  let n := Z.of_nat (nat_of_ascii c) in
  if decide (48 <= n ∧ n <= 57)%Z then Some (n - 48)%Z else None.

Definition digit_step (st : fields_state) (d : Z) : option fields_state :=
  if decide (fs_dig st = 1%nat ∧ fs_val st = 0%Z) then None
  else let v := (fs_val st * 10 + d)%Z in
       if decide (255 < v)%Z then None
       else Some (mkFields v (S (fs_dig st)) (fs_done st)).

Fixpoint parse_fields (st : fields_state) (s : list ascii) : option (list Z) :=
  match s with
  | [] => if decide (length (fs_done st) < 3)%nat then None
          else Some (fs_done st ++ [u8 (fs_val st)])
  | c :: s' =>
      match digit_val c with
      | Some d => match digit_step st d with
                  | Some st' => parse_fields st' s'
                  | None => None
                  end
      | None =>
          if decide (c = "."%char) then
            if decide (fs_dig st = 0%nat ∨ s' = []) then None
            else if decide (length (fs_done st) = 3%nat) then None
            else parse_fields (mkFields 0 0 (fs_done st ++ [u8 (fs_val st)])) s'
          else None
      end
  end.

Definition parseIPv4 (s : list ascii) : option (list Z) := parse_fields (mkFields 0 0 []) s.

(** The result of [netip.ParseAddr]: the bit length and the 16 bytes. *)
Record addr := mkAddr { BitLen : nat; As16 : list Z }.

Section WithIPv6.
Context (parse6 : list ascii → option (list Z)).

Fixpoint ParseAddr_scan (whole s : list ascii) : option addr :=
  match s with
  | [] => None
  | c :: s' =>
      if decide (c = "."%char) then
        b ← parseIPv4 whole; Some (mkAddr 32 (v4InV6Prefix ++ b))
      else if decide (c = ":"%char) then
        b ← parse6 whole; Some (mkAddr 128 b)
      else if decide (c = "%"%char) then None
      else ParseAddr_scan whole s'
  end.

Definition ParseAddr (s : list ascii) : option addr := ParseAddr_scan s s.

Definition ParseIP (s : string) : IP :=
  match ParseAddr (String.list_ascii_of_string s) with
  | Some a => As16 a
  | None => []
  end.

(** [net.dtoi]: the number, how much text it took, and success. *)
Fixpoint dtoi_loop (n : Z) (i : nat) (s : list ascii) : Z * nat * bool :=
  match s with
  | [] => (n, i, negb (bool_decide (i = 0%nat)))
  | c :: s' =>
      match digit_val c with
      | Some d =>
          let n' := (n * 10 + d)%Z in
          if decide (16777215 <= n')%Z then (16777215%Z, i, false) else dtoi_loop n' (S i) s'
      | None => if decide (i = 0%nat) then (0%Z, 0%nat, false) else (n, i, true)
      end
  end.

Definition dtoi (s : list ascii) : Z * nat * bool := dtoi_loop 0 0 s.

(** [net.CIDRMask]: [ones] leading one bits in [bits / 8] bytes. *)
Fixpoint mask_bytes (n : nat) (len : nat) : list Z :=
  match len with
  | O => []
  | S len' =>
      if decide (8 <= n)%nat then 255%Z :: mask_bytes (n - 8) len'
      else u8 (Z.lnot (Z.shiftr 255 (Z.of_nat n))) :: mask_bytes 0 len'
  end.

Definition CIDRMask (ones bits : nat) : list Z := mask_bytes ones (Nat.div bits 8).

Definition allFF (b : list Z) : bool := bool_decide (Forall (λ x, x = 255%Z) b).

(** [IP.Mask] *)
Definition Mask (ip : IP) (mask : list Z) : IP :=
  let mask := if decide (length mask = 16%nat ∧ length ip = 4%nat ∧ allFF (take 12 mask) = true)
              then drop 12 mask else mask in
  let ip := if decide (length mask = 4%nat ∧ length ip = 16%nat ∧ take 12 ip = v4InV6Prefix)
            then drop 12 ip else ip in
  if decide (length ip = length mask) then zip_with Z.land ip mask else [].

(** The text before and after the first ['/']. *)
Fixpoint cut_slash (s : list ascii) : option (list ascii * list ascii) :=
  match s with
  | [] => None
  | c :: s' =>
      if decide (c = "/"%char) then Some ([], s')
      else '(a, b) ← cut_slash s'; Some (c :: a, b)
  end.

Record IPNet := mkIPNet { NetIP : IP; NetMask : list Z }.

Definition ParseCIDR (s : string) : gores (IP * IPNet) :=
  match cut_slash (String.list_ascii_of_string s) with
  | None => Err "invalid CIDR address"
  | Some (a, mask) =>
      match ParseAddr a with
      | None => Err "invalid CIDR address"
      | Some ipAddr =>
          let '(n, i, ok) := dtoi mask in
          if decide (ok = false ∨ i ≠ length mask ∨ (Z.of_nat (BitLen ipAddr) < n)%Z)
          then Err "invalid CIDR address"
          else let m := CIDRMask (Z.to_nat n) (BitLen ipAddr) in
               Ok (As16 ipAddr, mkIPNet (Mask (As16 ipAddr) m) m)
      end
  end.

(** [IP.String] of a four-byte address. *)
Definition ip4_string (b0 b1 b2 b3 : Z) : string :=
  pretty b0 +:+ "." +:+ pretty b1 +:+ "." +:+ pretty b2 +:+ "." +:+ pretty b3.

(** ** netutils *)

Definition IPToUint32 (ip : IP) : gores Z :=
  if decide (ip = []) then Ok 0%Z else
  let ipv4 := To4 ip in
  if decide (ipv4 = []) then Ok 0%Z else be32 ipv4.

Definition Uint32ToIPString (nn : Z) : string :=
  match put32 nn with
  | [b0; b1; b2; b3] => ip4_string b0 b1 b2 b3
  | _ => "?"
  end.

Definition IPStringToUint32 (ipStr : string) : gores Z :=
  let ip := ParseIP ipStr in
  if decide (ip = []) then Ok 0%Z else
  let ipv4 := To4 ip in
  if decide (ipv4 = []) then Ok 0%Z else be32 ipv4.

Record NativeIPNet := mkNet { Base : Z; NMask : Z }.

Definition Contains (n : NativeIPNet) (ip : Z) : bool := bool_decide (Z.land ip (NMask n) = Base n).

Definition NewNativeIPNet (cidrStr : string) : gores (Z * NativeIPNet) :=
  match ParseCIDR cidrStr with
  | Err _ => Err "invalid CIDR"
  | Panic => Panic
  | Ok (a, ipNet) =>
      let ipv4 := To4 (NetIP ipNet) in
      if decide (ipv4 = []) then Err "only IPv4 is supported" else
      baseInt <- be32 ipv4;;
      let maskBytes := if decide (length (NetMask ipNet) = 16%nat)
                       then drop 12 (NetMask ipNet) else NetMask ipNet in
      maskInt <- be32 maskBytes;;
      ip <- IPToUint32 a;;
      Ok (ip, mkNet baseInt maskInt)
  end.

End WithIPv6.

(** ** Specification: a prefix is the set of addresses that share its leading
    [p] bits. *)
Definition same_prefix (p : nat) (a b : Z) : bool :=
  bool_decide (a / 2 ^ (32 - Z.of_nat p) = b / 2 ^ (32 - Z.of_nat p))%Z.

Definition cidr_string (a : Z) (p : nat) : string :=
  Uint32ToIPString a +:+ "/" +:+ pretty (Z.of_nat p).

(** ** Text of numbers *)

Notation chars := String.list_ascii_of_string.

Lemma chars_app s t : chars (s +:+ t) = chars s ++ chars t.
Proof. induction s as [|c s IH]; [done|]. simpl. by f_equal. Qed.

(** A run of digits acts on the parser state alone, whatever follows it. *)
Fixpoint eat_digits (st : fields_state) (s : list ascii) : option fields_state :=
  match s with
  | [] => Some st
  | c :: s' => d ← digit_val c; st' ← digit_step st d; eat_digits st' s'
  end.

Lemma parse_fields_digits st s rest st' :
  eat_digits st s = Some st' → parse_fields st (s ++ rest) = parse_fields st' rest.
Proof.
  revert st. induction s as [|c s IH]; intros st E; simpl in *; [by simplify_eq|].
  destruct (digit_val c) as [d|]; simplify_eq/=. destruct (digit_step st d); simplify_eq/=. eauto.
Qed.

Fixpoint eat_number (n : Z) (i : nat) (s : list ascii) : option (Z * nat) :=
  match s with
  | [] => Some (n, i)
  | c :: s' => d ← digit_val c;
      (if decide (16777215 <= n * 10 + d)%Z then None else eat_number (n * 10 + d) (S i) s')
  end.

Lemma dtoi_number n i s m j : eat_number n i s = Some (m, S j) → dtoi_loop n i s = (m, S j, true).
Proof.
  revert n i. induction s as [|c s IH]; intros n i E; simpl in *; [by simplify_eq|].
  destruct (digit_val c) as [d|]; simplify_eq/=. case_decide; [done|]. eauto.
Qed.

#[export] Instance fields_state_eq_dec : EqDecision fields_state.
Proof. solve_decision. Defined.

(** The decimal text of an octet, checked for all 256 values. *)
Definition octet_ok (b : nat) : bool :=
  bool_decide (eat_digits (mkFields 0 0 []) (chars (pretty (Z.of_nat b))) =
    Some (mkFields (Z.of_nat b) (length (chars (pretty (Z.of_nat b)))) [])) &&
  negb (bool_decide (chars (pretty (Z.of_nat b)) = [])) &&
  bool_decide (Forall (λ c, is_Some (digit_val c)) (chars (pretty (Z.of_nat b)))).

Lemma octets_ok : forallb octet_ok (seq 0 256) = true.
Proof. vm_compute. reflexivity. Qed.

Lemma octet_facts b :
  is_u8 b →
  eat_digits (mkFields 0 0 []) (chars (pretty b)) =
    Some (mkFields b (length (chars (pretty b))) []) ∧
  chars (pretty b) ≠ [] ∧ Forall (λ c, is_Some (digit_val c)) (chars (pretty b)).
Proof.
  intros Hb. assert (Hin : In (Z.to_nat b) (seq 0 256)) by (apply in_seq; word_lia).
  pose proof (proj1 (forallb_forall _ _) octets_ok _ Hin) as Ho. unfold octet_ok in Ho.
  rewrite Z2Nat.id in Ho by word_lia.
  apply andb_prop in Ho as [[H1 H2]%andb_prop H3]. apply bool_decide_eq_true in H1, H3.
  apply negb_true_iff, bool_decide_eq_false in H2. done.
Qed.

Lemma digit_step_done st d done' st' :
  digit_step st d = Some st' →
  digit_step (mkFields (fs_val st) (fs_dig st) done') d =
    Some (mkFields (fs_val st') (fs_dig st') done').
Proof. unfold digit_step. simpl. repeat case_decide; naive_solver. Qed.

Lemma eat_digits_done st s done' st' :
  eat_digits st s = Some st' →
  eat_digits (mkFields (fs_val st) (fs_dig st) done') s =
    Some (mkFields (fs_val st') (fs_dig st') done').
Proof.
  revert st. induction s as [|c s IH]; intros st E; simpl in *; [by simplify_eq|].
  destruct (digit_val c) as [d|]; simplify_eq/=.
  destruct (digit_step st d) as [st1|] eqn:E1; simplify_eq/=.
  rewrite (digit_step_done _ _ done' _ E1). simpl. by apply IH.
Qed.

Lemma parse_octet b done' rest :
  is_u8 b →
  parse_fields (mkFields 0 0 done') (chars (pretty b) ++ rest) =
  parse_fields (mkFields b (length (chars (pretty b))) done') rest.
Proof.
  intros Hb. destruct (octet_facts b Hb) as (E & _ & _).
  apply parse_fields_digits. by apply (eat_digits_done _ _ done') in E.
Qed.

Lemma parse_octet_dot b done' rest :
  is_u8 b → rest ≠ [] → (length done' < 3)%nat →
  parse_fields (mkFields 0 0 done') (chars (pretty b) ++ "."%char :: rest) =
  parse_fields (mkFields 0 0 (done' ++ [b])) rest.
Proof.
  intros Hb Hr Hd. rewrite parse_octet by done. destruct (octet_facts b Hb) as (_ & Hne & _).
  destruct (chars (pretty b)) as [|c l]; [done|]. simpl.
  rewrite decide_False by naive_solver. rewrite decide_False by lia. by rewrite u8_small.
Qed.

Lemma parseIPv4_string b0 b1 b2 b3 :
  is_u8 b0 → is_u8 b1 → is_u8 b2 → is_u8 b3 →
  parseIPv4 (chars (ip4_string b0 b1 b2 b3)) = Some [b0; b1; b2; b3].
Proof.
  intros H0 H1 H2 H3. unfold parseIPv4, ip4_string. rewrite !chars_app. simpl.
  rewrite !parse_octet_dot
    by first [done | simpl; lia | apply (octet_facts b3 H3) | by destruct (chars _)]. simpl.
  rewrite <- (app_nil_r (chars (pretty b3))), parse_octet by done. simpl. by rewrite u8_small.
Qed.

(** The scan of [ParseAddr] passes the digits of the first octet. *)
Lemma scan_digits parse6 whole s rest :
  Forall (λ c, is_Some (digit_val c)) s →
  ParseAddr_scan parse6 whole (s ++ rest) = ParseAddr_scan parse6 whole rest.
Proof.
  induction 1 as [|c s Hc _ IH]; [done|]. simpl.
  rewrite !decide_False; [done|..]; intros ->; by destruct Hc.
Qed.

Lemma ParseAddr_string parse6 b0 b1 b2 b3 :
  is_u8 b0 → is_u8 b1 → is_u8 b2 → is_u8 b3 →
  ParseAddr parse6 (chars (ip4_string b0 b1 b2 b3)) =
    Some (mkAddr 32 (v4InV6Prefix ++ [b0; b1; b2; b3])).
Proof.
  intros H0 H1 H2 H3. unfold ParseAddr.
  assert (∃ rest, chars (ip4_string b0 b1 b2 b3) = chars (pretty b0) ++ "."%char :: rest) as [rest E].
  { eexists. unfold ip4_string. rewrite chars_app. f_equal. }
  rewrite E at 2. rewrite scan_digits by apply (octet_facts b0 H0). simpl.
  by rewrite parseIPv4_string.
Qed.

Lemma To4_mapped b : length b = 4%nat → To4 (v4InV6Prefix ++ b) = b.
Proof.
  intros Hl. unfold To4. rewrite decide_False by (rewrite length_app, Hl; simpl; lia).
  rewrite decide_True by (rewrite length_app, Hl; done). done.
Qed.

Lemma put32_bytes n : ∃ b0 b1 b2 b3, put32 n = [b0; b1; b2; b3] ∧
  is_u8 b0 ∧ is_u8 b1 ∧ is_u8 b2 ∧ is_u8 b3.
Proof. unfold put32. repeat eexists; try done; apply u8_range. Qed.

Lemma chars_no_slash s : Forall (λ c, is_Some (digit_val c)) s → "/"%char ∉ s.
Proof. rewrite Forall_forall. intros Hs Hin. by destruct (Hs _ Hin). Qed.

Lemma cut_slash_app s t : "/"%char ∉ s → cut_slash (s ++ "/"%char :: t) = Some (s, t).
Proof.
  induction s as [|c s IH]; intros Hs; simpl; [done|].
  rewrite decide_False by set_solver. rewrite IH by set_solver. done.
Qed.

(** ** Masks *)

Lemma land_concat a b c d n :
  (0 <= n → 0 <= b < 2 ^ n → 0 <= d < 2 ^ n →
   Z.land (a * 2 ^ n + b) (c * 2 ^ n + d) = Z.land a c * 2 ^ n + Z.land b d)%Z.
Proof.
  intros Hn Hb Hd.
  assert (Hbd : (0 <= Z.land b d < 2 ^ n)%Z).
  { split; [apply Z.land_nonneg; lia|]. destruct (decide (Z.land b d = 0)%Z) as [->|Hz]; [lia|].
    assert (0 <= Z.land b d)%Z by (apply Z.land_nonneg; lia).
    apply Z.log2_lt_pow2; [lia|]. eapply Z.le_lt_trans; [apply Z.log2_land; lia|].
    assert (b ≠ 0)%Z by (intros ->; by rewrite Z.land_0_l in Hz).
    eapply Z.le_lt_trans; [apply Z.le_min_l|]. apply Z.log2_lt_pow2; lia. }
  rewrite <- !(lor_shiftl_add _ _ n) by lia. rewrite !Z.land_lor_distr_l, !Z.land_lor_distr_r.
  rewrite <- Z.shiftl_land, land_shiftl_low by lia.
  rewrite (Z.land_comm b), land_shiftl_low by lia. by rewrite Z.lor_0_r, Z.lor_0_l.
Qed.

Definition word4 (b0 b1 b2 b3 : Z) : Z := (b0 * 16777216 + b1 * 65536 + b2 * 256 + b3)%Z.

Lemma word4_land b0 b1 b2 b3 m0 m1 m2 m3 :
  is_u8 b0 → is_u8 b1 → is_u8 b2 → is_u8 b3 → is_u8 m0 → is_u8 m1 → is_u8 m2 → is_u8 m3 →
  Z.land (word4 b0 b1 b2 b3) (word4 m0 m1 m2 m3) =
  word4 (Z.land b0 m0) (Z.land b1 m1) (Z.land b2 m2) (Z.land b3 m3).
Proof.
  intros. unfold word4.
  replace (b0 * 16777216 + b1 * 65536 + b2 * 256 + b3)%Z
    with (((b0 * 2 ^ 8 + b1) * 2 ^ 8 + b2) * 2 ^ 8 + b3)%Z by lia.
  replace (m0 * 16777216 + m1 * 65536 + m2 * 256 + m3)%Z
    with (((m0 * 2 ^ 8 + m1) * 2 ^ 8 + m2) * 2 ^ 8 + m3)%Z by lia.
  rewrite !land_concat by (word_lia || lia). lia.
Qed.

Lemma land_u8 a b : is_u8 a → is_u8 b → is_u8 (Z.land a b).
Proof.
  intros Ha Hb. pose proof (Z.land_ones b 8 ltac:(lia)) as E. change (Z.ones 8) with 255%Z in E.
  change (b mod 2 ^ 8)%Z with (u8 b) in E. rewrite u8_small in E by done.
  rewrite <- E, Z.land_assoc. change 255%Z with (Z.ones 8). rewrite Z.land_ones by lia. apply u8_range.
Qed.

(** The mask of a prefix, for all 33 lengths. *)
Definition mask_ok (p : nat) : bool :=
  match CIDRMask p 32 with
  | [m0; m1; m2; m3] =>
      bool_decide (is_u8 m0 ∧ is_u8 m1 ∧ is_u8 m2 ∧ is_u8 m3 ∧
        word4 m0 m1 m2 m3 = Z.shiftl (Z.ones (Z.of_nat p)) (32 - Z.of_nat p))
  | _ => false
  end &&
  bool_decide (dtoi (chars (pretty (Z.of_nat p))) =
               (Z.of_nat p, length (chars (pretty (Z.of_nat p))), true)).

Lemma masks_ok : forallb mask_ok (seq 0 33) = true.
Proof. vm_compute. reflexivity. Qed.

Lemma mask_facts p :
  (p <= 32)%nat →
  (∃ m0 m1 m2 m3, CIDRMask p 32 = [m0; m1; m2; m3] ∧
     is_u8 m0 ∧ is_u8 m1 ∧ is_u8 m2 ∧ is_u8 m3 ∧
     word4 m0 m1 m2 m3 = Z.shiftl (Z.ones (Z.of_nat p)) (32 - Z.of_nat p)) ∧
  dtoi (chars (pretty (Z.of_nat p))) = (Z.of_nat p, length (chars (pretty (Z.of_nat p))), true).
Proof.
  intros Hp. assert (Hin : In p (seq 0 33)) by (apply in_seq; lia).
  pose proof (proj1 (forallb_forall _ _) masks_ok _ Hin) as Ho. unfold mask_ok in Ho.
  apply andb_prop in Ho as [H1 H2%bool_decide_eq_true]. split; [|done].
  destruct (CIDRMask p 32) as [|m0 [|m1 [|m2 [|m3 [|]]]]]; try done.
  apply bool_decide_eq_true in H1. by exists m0, m1, m2, m3.
Qed.

(** Masking keeps the leading bits: two masked addresses agree when their
    prefixes do. *)
Lemma land_prefix_mask p x :
  (p <= 32)%nat → is_u32 x →
  Z.land x (Z.shiftl (Z.ones (Z.of_nat p)) (32 - Z.of_nat p)) =
  (x / 2 ^ (32 - Z.of_nat p) * 2 ^ (32 - Z.of_nat p))%Z.
Proof.
  intros Hp Hx. set (k := (32 - Z.of_nat p)%Z). assert (0 <= k)%Z by lia.
  rewrite (Z.div_mod x (2 ^ k)) at 1 by lia.
  pose proof (Z.mod_pos_bound x (2 ^ k) ltac:(lia)) as Hm.
  rewrite Z.mul_comm, Z.shiftl_mul_pow2 by lia.
  replace (Z.ones (Z.of_nat p) * 2 ^ k)%Z with (Z.ones (Z.of_nat p) * 2 ^ k + 0)%Z by lia.
  rewrite land_concat by lia. rewrite Z.land_0_r, Z.land_ones by lia.
  rewrite Z.mod_small; [lia|]. split; [apply Z.div_pos; word_lia|].
  apply Z.div_lt_upper_bound; [lia|]. rewrite <- Z.pow_add_r by lia.
  replace (k + Z.of_nat p)%Z with 32%Z by lia. word_lia.
Qed.

Lemma be32_word4 b0 b1 b2 b3 :
  is_u8 b0 → is_u8 b1 → is_u8 b2 → is_u8 b3 → be32 [b0; b1; b2; b3] = Ok (word4 b0 b1 b2 b3).
Proof. intros. by rewrite be32_value. Qed.

Lemma lor_word4 b0 b1 b2 b3 :
  is_u8 b0 → is_u8 b1 → is_u8 b2 → is_u8 b3 →
  Z.lor (Z.lor (Z.lor (Z.shiftl b0 24) (Z.shiftl b1 16)) (Z.shiftl b2 8)) b3 = word4 b0 b1 b2 b3.
Proof. intros. pose proof (be32_word4 b0 b1 b2 b3). naive_solver. Qed.

Lemma put32_word4 n b0 b1 b2 b3 :
  is_u32 n → put32 n = [b0; b1; b2; b3] → word4 b0 b1 b2 b3 = n.
Proof.
  intros Hn E. pose proof (put32_be32 n [] Hn) as H. rewrite app_nil_r, E in H.
  destruct (put32_bytes n) as (c0 & c1 & c2 & c3 & E' & ? & ? & ? & ?). rewrite E in E'. simplify_eq.
  rewrite be32_word4 in H by done. by simplify_eq.
Qed.

Lemma IPToUint32_mapped b0 b1 b2 b3 :
  is_u8 b0 → is_u8 b1 → is_u8 b2 → is_u8 b3 →
  IPToUint32 (v4InV6Prefix ++ [b0; b1; b2; b3]) = Ok (word4 b0 b1 b2 b3).
Proof.
  intros. unfold IPToUint32. rewrite decide_False by done. rewrite To4_mapped by done.
  rewrite decide_False by done. by apply be32_word4.
Qed.

Lemma Mask_mapped b m :
  length b = 4%nat → length m = 4%nat → Mask (v4InV6Prefix ++ b) m = zip_with Z.land b m.
Proof.
  intros Hb Hm. unfold Mask. rewrite (decide_False (P := length m = 16 ∧ _)) by lia.
  rewrite (decide_True (P := length m = 4 ∧ _)) by (rewrite length_app, Hb; done).
  change (drop 12 (v4InV6Prefix ++ b)) with b. by rewrite decide_True by lia.
Qed.

Lemma ParseCIDR_string parse6 b0 b1 b2 b3 p :
  is_u8 b0 → is_u8 b1 → is_u8 b2 → is_u8 b3 → (p <= 32)%nat →
  ParseCIDR parse6 (ip4_string b0 b1 b2 b3 +:+ "/" +:+ pretty (Z.of_nat p)) =
  Ok (v4InV6Prefix ++ [b0; b1; b2; b3],
      mkIPNet (zip_with Z.land [b0; b1; b2; b3] (CIDRMask p 32)) (CIDRMask p 32)).
Proof.
  intros H0 H1 H2 H3 Hp. unfold ParseCIDR. rewrite !chars_app. simpl app.
  assert (Hs : "/"%char ∉ chars (ip4_string b0 b1 b2 b3)).
  { unfold ip4_string. rewrite !chars_app.
    rewrite !elem_of_app. intros Hin. simpl in Hin.
    destruct Hin as [Hin|[Hin|[Hin|[Hin|[Hin|[Hin|Hin]]]]]];
      try (eapply chars_no_slash; [|exact Hin]; by apply octet_facts); set_solver. }
  rewrite cut_slash_app by done. rewrite ParseAddr_string by done.
  destruct (mask_facts p Hp) as [(m0 & m1 & m2 & m3 & Em & _) Ed]. rewrite Ed.
  rewrite decide_False by (simpl; intuition lia). cbn [BitLen As16].
  rewrite Nat2Z.id, Em, Mask_mapped by done. done.
Qed.

(** Text of an address and back. *)
Lemma IPString_parse parse6 n :
  is_u32 n → IPStringToUint32 parse6 (Uint32ToIPString n) = Ok n.
Proof.
  intros Hn. unfold IPStringToUint32, Uint32ToIPString, ParseIP.
  destruct (put32_bytes n) as (b0 & b1 & b2 & b3 & E & ? & ? & ? & ?). rewrite E.
  rewrite ParseAddr_string by done. cbn [As16]. rewrite decide_False by done.
  rewrite To4_mapped by done. rewrite decide_False by done. rewrite be32_word4 by done.
  f_equal. by apply put32_word4.
Qed.

(** ** Theorems *)

(** printing an address and parsing it back is the identity on all 2^32
    addresses, for any IPv6 parser. *)
Theorem ip_string_roundtrip parse6 n :
  is_u32 n → IPStringToUint32 parse6 (Uint32ToIPString n) = Ok n.
Proof. apply IPString_parse. Qed.

(** The functional result of [NewNativeIPNet] on a prefix in CIDR notation. *)
Lemma NewNativeIPNet_cidr parse6 a p :
  is_u32 a → (p <= 32)%nat →
  NewNativeIPNet parse6 (cidr_string a p) =
  Ok (a, mkNet (a / 2 ^ (32 - Z.of_nat p) * 2 ^ (32 - Z.of_nat p))
               (Z.shiftl (Z.ones (Z.of_nat p)) (32 - Z.of_nat p))).
Proof.
  intros Ha Hp. unfold NewNativeIPNet, cidr_string, Uint32ToIPString.
  destruct (put32_bytes a) as (b0 & b1 & b2 & b3 & E & ? & ? & ? & ?). rewrite E.
  pose proof (put32_word4 _ _ _ _ _ Ha E) as Ew.
  rewrite ParseCIDR_string by done.
  destruct (mask_facts p Hp) as [(m0 & m1 & m2 & m3 & -> & ? & ? & ? & ? & Em) _]. simpl.
  rewrite !lor_word4 by auto using land_u8. rewrite <- word4_land, Em, Ew by done. by rewrite land_prefix_mask.
Qed.

Lemma Contains_prefix p a ip :
  (p <= 32)%nat → is_u32 ip →
  Contains (mkNet (a / 2 ^ (32 - Z.of_nat p) * 2 ^ (32 - Z.of_nat p))
                  (Z.shiftl (Z.ones (Z.of_nat p)) (32 - Z.of_nat p))) ip = same_prefix p ip a.
Proof.
  intros Hp Hi. unfold Contains, same_prefix. simpl. rewrite land_prefix_mask by done.
  apply bool_decide_ext. pose proof (Z.pow_pos_nonneg 2 (32 - Z.of_nat p)). nia.
Qed.

(** [NewNativeIPNet] accepts every IPv4 prefix written in CIDR notation,
    returns its host address, and the mask test it builds contains exactly the
    addresses that share the leading bits of the prefix; /0 and /32 included. *)
Theorem native_ip_net_contains parse6 a p :
  is_u32 a → (p <= 32)%nat →
  ∃ net, NewNativeIPNet parse6 (cidr_string a p) = Ok (a, net) ∧
    ∀ ip, is_u32 ip → Contains net ip = same_prefix p ip a.
Proof.
  intros Ha Hp. eexists. split; [by apply NewNativeIPNet_cidr|]. intros ip Hip. by apply Contains_prefix.
Qed.

(** ** Witnesses *)

Lemma ip_string_roundtrip_witness :
  IPStringToUint32 (λ _, None) (Uint32ToIPString 167772415) = Ok 167772415%Z.
Proof. apply (ip_string_roundtrip (λ _, None) 167772415). split; vm_compute; congruence. Defined.

Lemma native_ip_net_contains_witness :
  ∃ net, NewNativeIPNet (λ _, None) (cidr_string 168297223 21) = Ok (168297223%Z, net) ∧
    ∀ ip, is_u32 ip → Contains net ip = same_prefix 21 ip 168297223.
Proof.
  apply (native_ip_net_contains (λ _, None) 168297223 21); [split; vm_compute; congruence|lia].
Defined.

End NetUtils.
