(* ===== verification/IpAlloc.v ===== *)
(** * The address allocator (internal/utils/ipalloc/apalloc.go)

    A pool of the host addresses of a subnet: fresh addresses are taken in
    ascending order from [next], returned ones are reused last-in first-out, and
    reserved ones are skipped.  Every method holds the mutex, so one call is one
    step. *)
From S2P Require Import Prelude NetUtils.
Import NetUtils.

Open Scope go_scope.

Module IpAlloc.

Record IPAllocator := mkAlloc {
  start : Z; end_ : Z; next : Z; freed : list Z; reserved : list Z }.

Definition set_next (a : IPAllocator) n := mkAlloc (start a) (end_ a) n (freed a) (reserved a).
Definition set_freed (a : IPAllocator) f := mkAlloc (start a) (end_ a) (next a) f (reserved a).
Definition set_reserved (a : IPAllocator) r := mkAlloc (start a) (end_ a) (next a) (freed a) r.

(** [ipToU32]; indexing a four-byte slice does not fail. *)
Definition ipToU32 (ip : IP) : Z :=
  match To4 ip with
  | [b0; b1; b2; b3] =>
      Z.lor (Z.lor (Z.lor (Z.shiftl b0 24) (Z.shiftl b1 16)) (Z.shiftl b2 8)) b3
  | _ => 0
  end%Z.

(** [u32ToIP]: [net.IPv4] builds the 16-byte form. *)
Definition u32ToIP (n : Z) : IP :=
  v4InV6Prefix ++ [u8 (Z.shiftr n 24); u8 (Z.shiftr n 16); u8 (Z.shiftr n 8); u8 n].

Definition New (parse6 : list ascii → option (list Z)) (cidr : string) : gores IPAllocator :=
  match ParseCIDR parse6 cidr with
  | Err e => Err e
  | Panic => Panic
  | Ok (_, ipnet) =>
      if decide (length (NetIP ipnet) ≠ 4%nat) then Err "only IPv4 is supported" else
      if decide (8 * length (NetMask ipnet) ≠ 32)%nat then Err "only IPv4 is supported" else
      let network := ipToU32 (Mask (NetIP ipnet) (NetMask ipnet)) in
      let broadcast := Z.lor network (u32 (Z.lnot (ipToU32 (NetMask ipnet)))) in
      let s := u32 (network + 1) in
      let e := u32 (broadcast - 1) in
      if decide (e < s)%Z then Err "no available addresses in subnet"
      else Ok (mkAlloc s e s [] [])
  end.

Definition isReserved (a : IPAllocator) (addr : Z) : bool := bool_decide (addr ∈ reserved a).

Definition removeFromFreed (a : IPAllocator) (addr : Z) : IPAllocator :=
  set_freed a (remove_first addr (freed a)).

Definition out_of_range (a : IPAllocator) (addr : Z) : bool :=
  bool_decide (addr < start a ∨ end_ a < addr)%Z.

(** The allocator is mutated on the error path too: [removeFromFreed] runs
    before the check that refuses the address. *)
Definition Reserve (a : IPAllocator) (ip : IP) : gores () * IPAllocator :=
  let addr := ipToU32 ip in
  if out_of_range a addr then (Err "address out of range", a) else
  if isReserved a addr then (Err "address already reserved", a) else
  let a1 := removeFromFreed a addr in
  if decide (addr < next a1)%Z then
    let foundInFreed := bool_decide (addr ∈ freed a1) in
    if foundInFreed then (Ok (), set_reserved a1 (reserved a1 ++ [addr]))
    else (Err "address already allocated, cannot reserve", a1)
  else (Ok (), set_reserved a1 (reserved a1 ++ [addr])).

(** The first loop of [Get], on the freed list from its end. *)
Fixpoint pop_freed (a : IPAllocator) (rfreed : list Z) : option Z * list Z :=
  match rfreed with
  | [] => (None, [])
  | addr :: rest => if isReserved a addr then pop_freed a rest else (Some addr, rest)
  end.

(** The second loop of [Get]; [None] is reserved for a fuel that is too small. *)
Fixpoint take_next (fuel : nat) (a : IPAllocator) : option (gores Z * IPAllocator) :=
  match fuel with
  | O => None
  | S fuel' =>
      if decide (next a <= end_ a)%Z then
        let a' := set_next a (u32 (next a + 1)) in
        if isReserved a (next a) then take_next fuel' a' else Some (Ok (next a), a')
      else Some (Err "no free IP addresses", a)
  end.

(** Each round of the second loop but the last skips a reserved address. *)
Definition get_fuel (a : IPAllocator) : nat := S (S (length (reserved a))).

Definition Get (a : IPAllocator) : option (gores IP * IPAllocator) :=
  let '(hit, rest) := pop_freed a (reverse (freed a)) in
  let a1 := set_freed a (reverse rest) in
  match hit with
  | Some addr => Some (Ok (u32ToIP addr), a1)
  | None =>
      match take_next (get_fuel a1) a1 with
      | None => None
      | Some (Ok addr, a2) => Some (Ok (u32ToIP addr), a2)
      | Some (Err e, a2) => Some (Err e, a2)
      | Some (Panic, a2) => Some (Panic, a2)
      end
  end.

Definition Free (a : IPAllocator) (ip : IP) : gores () * IPAllocator :=
  let addr := ipToU32 ip in
  if out_of_range a addr then (Err "address out of range", a) else
  if isReserved a addr then (Err "address is reserved, cannot free", a) else
  if decide (addr ∈ freed a) then (Err "address already free", a)
  else (Ok (), set_freed a (freed a ++ [addr])).

(** ** Specification

    [live] are the addresses handed out and not returned. *)
Record alloc_ok (a : IPAllocator) (live : gset Z) : Prop := {
  al_bounds : (0 <= start a ∧ start a <= end_ a ∧ end_ a < 2 ^ 32 - 1)%Z;
  al_next : (start a <= next a <= end_ a + 1)%Z;
  al_reserved : NoDup (reserved a);
  al_freed : NoDup (freed a);
  al_freed_in : ∀ x, x ∈ freed a → (start a <= x < next a)%Z ∧ x ∉ reserved a ∧ x ∉ live;
  al_live_in : ∀ x, x ∈ live → (start a <= x < next a)%Z ∧ x ∉ reserved a }.

(** A client that returns only what it holds. *)
Inductive alloc_step : IPAllocator * gset Z → IPAllocator * gset Z → Prop :=
| step_get a live ip a' :
    Get a = Some (Ok ip, a') → alloc_step (a, live) (a', {[ipToU32 ip]} ∪ live)
| step_get_fail a live e a' :
    Get a = Some (Err e, a') → alloc_step (a, live) (a', live)
| step_free a live ip r a' :
    ipToU32 ip ∈ live → Free a ip = (r, a') → alloc_step (a, live) (a', live ∖ {[ipToU32 ip]})
| step_reserve a live ip r a' :
    Reserve a ip = (r, a') → alloc_step (a, live) (a', live).

(** ** Lemmas *)

Lemma u32ToIP_value n : is_u32 n → ipToU32 (u32ToIP n) = n.
Proof.
  intros Hn. unfold ipToU32, u32ToIP. rewrite To4_mapped by done.
  rewrite lor_word4 by apply u8_range. by apply put32_word4.
Qed.

Lemma isReserved_true a x : isReserved a x = true ↔ x ∈ reserved a.
Proof. apply bool_decide_eq_true. Qed.
Lemma isReserved_false a x : isReserved a x = false ↔ x ∉ reserved a.
Proof. apply bool_decide_eq_false. Qed.

Lemma pop_freed_free a l :
  (∀ x, x ∈ l → x ∉ reserved a) → pop_freed a l = (head l, tail l).
Proof.
  destruct l as [|x l]; [done|]. intros Hl. simpl.
  by rewrite (proj2 (isReserved_false a x)) by (apply Hl; set_solver).
Qed.

(** The second loop finds the least unreserved address, or fails when every
    remaining address is reserved. *)
Lemma take_next_spec fuel a (R : gset Z) :
  (0 <= next a <= end_ a + 1)%Z → (end_ a < 2 ^ 32 - 1)%Z →
  (∀ x, x ∈ R ↔ x ∈ reserved a ∧ (next a <= x)%Z) → (S (size R) < fuel)%nat →
  (∃ x, take_next fuel a = Some (Ok x, set_next a (x + 1)) ∧ (next a <= x <= end_ a)%Z ∧
        x ∉ reserved a) ∨
  (∃ e, take_next fuel a = Some (Err e, set_next a (end_ a + 1)) ∧
        ∀ x, (next a <= x <= end_ a)%Z → x ∈ reserved a).
Proof.
  revert a R. induction fuel as [|fuel IH]; intros a R Hn He HR Hf; [lia|]. simpl.
  case_decide as Hle; [|right; eexists; split; [repeat f_equal; destruct a; simpl in *; unfold set_next; simpl; repeat f_equal; lia|lia]].
  rewrite u32_small by word_lia.
  destruct (isReserved a (next a)) eqn:Er.
  - apply isReserved_true in Er.
    assert (Hin : next a ∈ R) by (apply HR; split; [done|lia]).
    destruct (IH (set_next a (next a + 1)) (R ∖ {[next a]})) as [(x & Ex & Hx & Hr)|(e & Ex & Hx)];
      simpl; [lia|lia| | |left|right].
    + intros x. rewrite elem_of_difference, elem_of_singleton, HR. intuition lia.
    + assert (size R ≠ 0%nat) by (apply size_non_empty_iff; set_solver).
      rewrite size_difference by set_solver. rewrite size_singleton. lia.
    + exists x. split_and!; [by rewrite Ex|simpl in Hx; lia..|done].
    + exists e. split; [by rewrite Ex|]. intros x Hin'. destruct (decide (x = next a)) as [->|]; [done|].
      apply Hx. simpl. lia.
  - left. exists (next a). apply isReserved_false in Er. split_and!; [done|lia..|done].
Qed.

#[local] Arguments get_fuel : simpl never.
#[local] Opaque get_fuel.

Lemma get_fuel_eq a : get_fuel a = S (S (length (reserved a))).
Proof. done. Qed.

Lemma Get_spec a live :
  alloc_ok a live →
  (∃ x a', Get a = Some (Ok (u32ToIP x), a') ∧ is_u32 x ∧ (start a <= x <= end_ a)%Z ∧ x ∉ live ∧
     x ∉ reserved a ∧ alloc_ok a' ({[x]} ∪ live) ∧ reserved a' = reserved a ∧
     (∀ f, last (freed a) = Some f → x = f)) ∨
  (∃ e a', Get a = Some (Err e, a') ∧ freed a = [] ∧ alloc_ok a' live ∧
     (∀ x, (start a <= x <= end_ a)%Z → x ∉ reserved a → (x < next a)%Z)).
Proof.
  intros [Hb Hn Hr HF Hf Hl]. unfold Get.
  rewrite pop_freed_free by (intros x Hx; apply Hf; by apply elem_of_reverse).
  destruct (reverse (freed a)) as [|x l] eqn:Erev; simpl.
  - change (reverse (@nil Z)) with (@nil Z). assert (Ef : freed a = []) by (rewrite <- (reverse_involutive (freed a)), Erev; done).
    destruct (take_next_spec (get_fuel (set_freed a [])) (set_freed a [])
      (list_to_set (filter (λ x, next a <= x)%Z (reserved a)))) as [(x & Ex & Hx & Hxr)|(e & Ex & Hx)];
      simpl in *; [lia|lia|..].
    + intros x. rewrite elem_of_list_to_set, list_elem_of_filter. tauto.
    + rewrite get_fuel_eq. simpl. rewrite size_list_to_set by by apply NoDup_filter.
      pose proof (length_filter (λ x, (next a <= x)%Z) (reserved a)). lia.
    + left. exists x. eexists. rewrite Ex. split; [done|].
      assert (x ∉ live) by (intros Hin; destruct (Hl _ Hin); lia).
      rewrite Ef. split_and!; try done; try word_lia.
      constructor; simpl; try done; [lia|constructor|set_solver|].
      intros y [->%elem_of_singleton|Hy]%elem_of_union; [split; [lia|done]|].
      destruct (Hl y Hy). split; [lia|done].
    + right. exists e. eexists. rewrite Ex. split; [done|]. split_and!; [done| |].
      * constructor; simpl; try done; [lia|constructor|set_solver|].
        intros y Hy. destruct (Hl y Hy). split; [lia|done].
      * intros x Hin Hxr. destruct (decide (x < next a)%Z); [done|]. destruct Hxr. apply Hx. lia.
  - left. exists x. eexists. split; [done|].
    assert (Ea : freed a = reverse l ++ [x]) by (rewrite <- (reverse_involutive (freed a)), Erev; apply reverse_cons).
    rewrite Ea in HF. apply NoDup_app in HF as (HF1 & HF2 & _).
    destruct (Hf x) as (? & ? & ?); [rewrite Ea; set_solver|].
    split_and!; try done; try word_lia.
    + constructor; simpl; try done.
      * intros y Hy. destruct (Hf y) as (? & ? & ?); [rewrite Ea; set_solver|]. split_and!; [lia..|done|].
        assert (y ≠ x) by (intros ->; by eapply HF2; [|apply list_elem_of_singleton]). set_solver.
      * intros y [->%elem_of_singleton|Hy]%elem_of_union; [split; [lia|done]|eauto].
    + intros f. rewrite Ea, last_snoc. by intros [= ->].
Qed.

Lemma out_of_range_false a x : out_of_range a x = false ↔ (start a <= x <= end_ a)%Z.
Proof. unfold out_of_range. rewrite bool_decide_eq_false. lia. Qed.

(** A returned address goes to the end of the free list. *)
Lemma Free_spec a live ip r a' :
  alloc_ok a live → ipToU32 ip ∈ live → Free a ip = (r, a') →
  r = Ok () ∧ a' = set_freed a (freed a ++ [ipToU32 ip]) ∧ alloc_ok a' (live ∖ {[ipToU32 ip]}).
Proof.
  intros [Hb Hn Hr HF Hf Hl] Hin. destruct (Hl _ Hin) as [Hrange Hres]. unfold Free.
  rewrite (proj2 (out_of_range_false _ _)) by lia. rewrite (proj2 (isReserved_false _ _)) by done.
  rewrite decide_False by (intros Hx; by apply Hf in Hx as (_ & _ & ?)).
  intros E; injection E as <- <-. split_and!; try done. constructor; simpl; try done.
  - apply NoDup_app. split_and!; [done| |apply NoDup_singleton].
    intros x Hx ->%list_elem_of_singleton. by apply Hf in Hx as (_ & _ & ?).
  - intros x [Hx| ->%list_elem_of_singleton]%elem_of_app; [|set_solver].
    apply Hf in Hx as (? & ? & ?). split_and!; [lia..|done|set_solver].
  - intros x [Hx _]%elem_of_difference. eauto.
Qed.

Lemma Reserve_spec a live ip r a' :
  alloc_ok a live → Reserve a ip = (r, a') →
  alloc_ok a' live ∧
  (r = Ok () → reserved a' = reserved a ++ [ipToU32 ip] ∧ freed a' = freed a) ∧
  (r ≠ Ok () → reserved a' = reserved a).
Proof.
  intros Hk. pose proof Hk as [Hb Hn Hr HF Hf Hl]. unfold Reserve.
  destruct (out_of_range a (ipToU32 ip)) eqn:Eo; [by intros E; injection E as <- <-|].
  destruct (isReserved a (ipToU32 ip)) eqn:Er; [by intros E; injection E as <- <-|].
  apply out_of_range_false in Eo. apply isReserved_false in Er.
  assert (Hsub : ∀ x, x ∈ remove_first (ipToU32 ip) (freed a) → x ∈ freed a)
    by eauto using remove_first_subseteq.
  case_decide as Hx.
  - rewrite bool_decide_eq_false_2 by (simpl; rewrite elem_of_remove_first by done; tauto).
    intros E; injection E as <- <-. split_and!; try done. constructor; simpl; try done; eauto using remove_first_NoDup.
  - simpl in Hx. intros E; injection E as <- <-. simpl. split_and!; try done.
    + assert (Hnew : ipToU32 ip ∉ live) by (intros Hin; destruct (Hl _ Hin); lia).
      constructor; simpl; try done; eauto using remove_first_NoDup.
      * apply NoDup_app. split_and!; [done|set_solver|apply NoDup_singleton].
      * intros x Hin%Hsub. destruct (Hf _ Hin) as (? & ? & ?). split_and!; [lia..| |done].
        rewrite not_elem_of_app, list_elem_of_singleton. split; [done|]. intros ->. lia.
      * intros x Hin. destruct (Hl _ Hin). split; [lia|].
        rewrite not_elem_of_app, list_elem_of_singleton. split; [done|]. intros ->. lia.
    + rewrite remove_first_not_in; [done|]. intros Hin. destruct (Hf _ Hin) as (? & _). lia.
Qed.

Lemma alloc_steps_ok a live a' live' :
  rtc alloc_step (a, live) (a', live') → alloc_ok a live → alloc_ok a' live'.
Proof.
  intros Hs Hk. remember (a', live') as p eqn:Ep. revert a' live' Ep.
  assert (Hall : ∀ q, rtc alloc_step (a, live) q → alloc_ok q.1 q.2).
  { apply (rtc_ind_r (λ q, alloc_ok q.1 q.2)); [done|]. intros x y _ Hstep IH.
    destruct Hstep as [b l ip b' E|b l e b' E|b l ip r b' Hin E|b l ip r b' E]; simpl in *.
    - destruct (Get_spec _ _ IH) as [(x & c & E' & Hu & _ & _ & _ & Hok & _)|(e & c & E' & _)];
        rewrite E in E'; simplify_eq. by rewrite u32ToIP_value.
    - destruct (Get_spec _ _ IH) as [(x & c & E' & _)|(e' & c & E' & _ & Hok & _)];
        rewrite E in E'; by simplify_eq.
    - by destruct (Free_spec _ _ _ _ _ IH Hin E) as (_ & _ & ?).
    - by destruct (Reserve_spec _ _ _ _ _ IH E) as (? & _). }
  intros a' live' ->. by apply (Hall _ Hs).
Qed.

(** The allocator of a prefix of at most 30 bits. *)
Lemma ParseCIDR_cidr parse6 n p b0 b1 b2 b3 :
  put32 n = [b0; b1; b2; b3] → is_u8 b0 → is_u8 b1 → is_u8 b2 → is_u8 b3 → (p <= 32)%nat →
  ParseCIDR parse6 (cidr_string n p) =
  Ok (v4InV6Prefix ++ [b0; b1; b2; b3],
      mkIPNet (zip_with Z.land [b0; b1; b2; b3] (CIDRMask p 32)) (CIDRMask p 32)).
Proof.
  intros E ? ? ? ? ?. unfold cidr_string, Uint32ToIPString. rewrite E. by apply ParseCIDR_string.
Qed.

Lemma ipToU32_word4 b0 b1 b2 b3 :
  is_u8 b0 → is_u8 b1 → is_u8 b2 → is_u8 b3 → ipToU32 [b0; b1; b2; b3] = word4 b0 b1 b2 b3.
Proof. intros. unfold ipToU32. simpl. by apply lor_word4. Qed.

Lemma Mask_4 b0 b1 b2 b3 m0 m1 m2 m3 :
  Mask [b0; b1; b2; b3] [m0; m1; m2; m3] =
  [Z.land b0 m0; Z.land b1 m1; Z.land b2 m2; Z.land b3 m3].
Proof. unfold Mask. simpl. by repeat (rewrite decide_False by (simpl; intros (? & ? & ?); congruence)). Qed.

Lemma prefix_mask_value p :
  (p <= 32)%nat →
  Z.shiftl (Z.ones (Z.of_nat p)) (32 - Z.of_nat p) = (2 ^ 32 - 2 ^ (32 - Z.of_nat p))%Z.
Proof.
  intros Hp. rewrite Z.shiftl_mul_pow2, Z.ones_equiv by lia.
  replace (2 ^ 32)%Z with (2 ^ Z.of_nat p * 2 ^ (32 - Z.of_nat p))%Z
    by (rewrite <- Z.pow_add_r by lia; f_equal; lia). lia.
Qed.

(** The subnet of a prefix, as the constructor computes it. *)
Lemma New_value parse6 n p :
  is_u32 n → (p <= 30)%nat →
  let size := (2 ^ (32 - Z.of_nat p))%Z in
  let base := (n / size * size)%Z in
  New parse6 (cidr_string n p) = Ok (mkAlloc (base + 1) (base + size - 2) (base + 1) [] []) ∧
  (0 <= base ∧ base + size <= 2 ^ 32 ∧ 4 <= size)%Z.
Proof.
  intros Hn Hp size base.
  assert (Hsz : (4 <= size)%Z) by (change 4%Z with (2 ^ 2)%Z; apply Z.pow_le_mono_r; lia).
  assert (Hdiv : (2 ^ 32 = size * 2 ^ Z.of_nat p)%Z) by (unfold size; rewrite <- Z.pow_add_r by lia; f_equal; lia).
  assert (Hq : (0 <= n / size < 2 ^ Z.of_nat p)%Z).
  { split; [apply Z.div_pos; word_lia|]. apply Z.div_lt_upper_bound; [lia|]. rewrite <- Hdiv. word_lia. }
  assert (Hbase : (0 <= base ∧ base + size <= 2 ^ 32)%Z) by (unfold base; rewrite Hdiv; nia).
  split; [|tauto]. unfold New.
  destruct (put32_bytes n) as (b0 & b1 & b2 & b3 & E & ? & ? & ? & ?).
  rewrite (ParseCIDR_cidr _ n p b0 b1 b2 b3) by (done || lia).
  destruct (mask_facts p ltac:(lia)) as [(m0 & m1 & m2 & m3 & -> & ? & ? & ? & ? & Em) _].
  cbn [NetIP NetMask zip_with length]. rewrite decide_False by (intros Hx; by apply Hx).
  rewrite decide_False by lia. rewrite Mask_4, !ipToU32_word4 by auto using land_u8.
  assert (En : word4 (Z.land (Z.land b0 m0) m0) (Z.land (Z.land b1 m1) m1)
    (Z.land (Z.land b2 m2) m2) (Z.land (Z.land b3 m3) m3) = base).
  { rewrite <- !Z.land_assoc, !Z.land_diag. rewrite <- word4_land by done.
    rewrite (put32_word4 n), Em by done. apply land_prefix_mask; [lia|done]. }
  rewrite En, Em, prefix_mask_value by lia. fold size.
  replace (u32 (Z.lnot (2 ^ 32 - size))) with (size - 1)%Z by (unfold Z.lnot; word_lia).
  assert (Eb : Z.lor base (size - 1) = (base + size - 1)%Z).
  { change base with (n / size * 2 ^ (32 - Z.of_nat p))%Z. rewrite <- Z.shiftl_mul_pow2 by lia.
    rewrite lor_shiftl_add by (fold size; lia). rewrite Z.shiftl_mul_pow2 by lia. ring. }
  rewrite Eb, !u32_small by word_lia. replace (base + size - 1 - 1)%Z with (base + size - 2)%Z by lia.
  by rewrite decide_False by lia.
Qed.

Lemma New_alloc_ok parse6 n p a :
  is_u32 n → (p <= 30)%nat → New parse6 (cidr_string n p) = Ok a → alloc_ok a ∅.
Proof.
  intros Hn Hp E. destruct (New_value parse6 n p Hn Hp) as (E' & ?).
  rewrite E in E'. injection E' as ->. revert H. generalize (n / 2 ^ (32 - Z.of_nat p))%Z.
  generalize (2 ^ (32 - Z.of_nat p))%Z. intros size q H.
  constructor; simpl; solve [lia | constructor | set_solver].
Qed.

(** ** Theorems *)

(** no address is handed out twice.  For the allocator of any IPv4 prefix of
    at most 30 bits, after any sequence of [Get], [Reserve] and [Free] of held
    addresses, [Get] terminates and either returns a host address of the subnet
    that is neither held nor reserved, or fails with an empty free list and no
    unreserved address left above the frontier. *)
Theorem get_hands_out_free_address parse6 n p a0 a live :
  is_u32 n → (p <= 30)%nat → New parse6 (cidr_string n p) = Ok a0 →
  rtc alloc_step (a0, ∅) (a, live) →
  (∃ x a', Get a = Some (Ok (u32ToIP x), a') ∧ (start a <= x <= end_ a)%Z ∧
     x ∉ live ∧ x ∉ reserved a) ∨
  (∃ e a', Get a = Some (Err e, a') ∧ freed a = [] ∧
     (∀ x, (start a <= x <= end_ a)%Z → x ∉ reserved a → (x < next a)%Z)).
Proof.
  intros Hn Hp E Hs. pose proof (alloc_steps_ok _ _ _ _ Hs (New_alloc_ok _ _ _ _ Hn Hp E)) as Hk.
  destruct (Get_spec _ _ Hk) as [(x & a' & ? & ? & ? & ? & ? & _)|(e & a' & ? & ? & _ & ?)]; eauto 10.
Qed.

(** a returned address is the next one handed out. *)
Theorem free_then_get a live ip :
  alloc_ok a live → ipToU32 ip ∈ live →
  ∃ a1 a2, Free a ip = (Ok (), a1) ∧ Get a1 = Some (Ok (u32ToIP (ipToU32 ip)), a2).
Proof.
  intros Hk Hin. destruct (Free a ip) as [r a1] eqn:E.
  destruct (Free_spec _ _ _ _ _ Hk Hin E) as (-> & Ea & Hk1).
  assert (Elast : last (freed a1) = Some (ipToU32 ip)) by (rewrite Ea; simpl; apply last_snoc).
  destruct (Get_spec _ _ Hk1) as [(x & a2 & E2 & _ & _ & _ & _ & _ & _ & Hl)|(e & a2 & E2 & Ef & _)].
  - exists a1, a2. split; [done|]. by rewrite (Hl _ Elast) in E2.
  - by rewrite Ef in Elast.
Qed.

(** reserving a returned address loses it.  [Reserve] of an address on the
    free list takes it off the list, refuses it as already allocated and does not
    record it as reserved: the address is neither free, nor reserved, nor held. *)
Theorem reserve_of_freed_leaks a live ip :
  alloc_ok a live → ipToU32 ip ∈ freed a →
  ∃ a', Reserve a ip = (Err "address already allocated, cannot reserve", a') ∧
    ipToU32 ip ∉ freed a' ∧ ipToU32 ip ∉ reserved a' ∧ ipToU32 ip ∉ live ∧
    (ipToU32 ip < next a')%Z.
Proof.
  intros [Hb Hn Hr HF Hf Hl] Hin. destruct (Hf _ Hin) as (Hrange & Hres & Hlive). unfold Reserve.
  rewrite (proj2 (out_of_range_false _ _)) by lia. rewrite (proj2 (isReserved_false _ _)) by done.
  rewrite decide_True by (simpl; lia).
  assert (Hgone : ipToU32 ip ∉ remove_first (ipToU32 ip) (freed a)) by (rewrite elem_of_remove_first by done; tauto).
  rewrite bool_decide_eq_false_2 by done. eexists. split; [done|]. simpl. split_and!; try done. lia.
Qed.

(** A /30 with two hosts. *)
Definition demo_alloc : IPAllocator := mkAlloc 167772161 167772162 167772161 [] [].
Definition demo_host : IP := u32ToIP 167772161.

(** returning an address that was never handed out is accepted, and the
    allocator then hands it out twice. *)
Theorem free_of_unallocated_duplicates :
  New (λ _, None) "10.0.0.0/30" = Ok demo_alloc ∧
  ∃ a1 a2 a3, Free demo_alloc demo_host = (Ok (), a1) ∧
    Get a1 = Some (Ok demo_host, a2) ∧ Get a2 = Some (Ok demo_host, a3).
Proof.
  split; [by vm_compute|].
  exists (mkAlloc 167772161 167772162 167772161 [167772161%Z] []), demo_alloc,
    (mkAlloc 167772161 167772162 167772162 [] []).
  split_and!; by vm_compute.
Qed.

(** ** Witnesses *)

Lemma demo_alloc_ok : alloc_ok demo_alloc ∅.
Proof.
  constructor; cbn [start end_ next freed reserved demo_alloc]; [lia|lia|constructor|constructor|..];
    intros x Hx; by apply not_elem_of_nil in Hx || apply not_elem_of_empty in Hx.
Qed.

Definition demo_alloc1 : IPAllocator := mkAlloc 167772161 167772162 167772162 [] [].
Definition demo_alloc2 : IPAllocator := mkAlloc 167772161 167772162 167772162 [167772161%Z] [].

Lemma demo_alloc1_ok : alloc_ok demo_alloc1 {[167772161%Z]}.
Proof.
  constructor; cbn [start end_ next freed reserved demo_alloc1]; [lia|lia|constructor|constructor|..].
  - intros x Hx. by apply not_elem_of_nil in Hx.
  - intros x ->%elem_of_singleton. split; [lia|apply not_elem_of_nil].
Qed.

Lemma demo_alloc2_ok : alloc_ok demo_alloc2 ∅.
Proof.
  constructor; cbn [start end_ next freed reserved demo_alloc2];
    [lia|lia|constructor|apply NoDup_singleton|..].
  - intros x ->%list_elem_of_singleton.
    split_and!; [lia|lia|apply not_elem_of_nil|apply not_elem_of_empty].
  - intros x Hx. by apply not_elem_of_empty in Hx.
Qed.

Lemma get_hands_out_free_address_witness :
  (∃ x a', Get demo_alloc = Some (Ok (u32ToIP x), a') ∧
     (start demo_alloc <= x <= end_ demo_alloc)%Z ∧ x ∉ (∅ : gset Z) ∧ x ∉ reserved demo_alloc) ∨
  (∃ e a', Get demo_alloc = Some (Err e, a') ∧ freed demo_alloc = [] ∧
     (∀ x, (start demo_alloc <= x <= end_ demo_alloc)%Z → x ∉ reserved demo_alloc →
       (x < next demo_alloc)%Z)).
Proof.
  apply (get_hands_out_free_address (λ _, None) 167772160 30 demo_alloc demo_alloc ∅).
  - split; vm_compute; congruence.
  - lia.
  - by vm_compute.
  - apply rtc_refl.
Defined.

Lemma free_then_get_witness :
  ∃ a1 a2, Free demo_alloc1 demo_host = (Ok (), a1) ∧
    Get a1 = Some (Ok (u32ToIP (ipToU32 demo_host)), a2).
Proof.
  apply (free_then_get demo_alloc1 {[167772161%Z]} demo_host demo_alloc1_ok).
  apply elem_of_singleton. by vm_compute.
Defined.

Lemma reserve_of_freed_leaks_witness :
  ∃ a', Reserve demo_alloc2 demo_host = (Err "address already allocated, cannot reserve", a') ∧
    ipToU32 demo_host ∉ freed a' ∧ ipToU32 demo_host ∉ reserved a' ∧
    ipToU32 demo_host ∉ (∅ : gset Z) ∧ (ipToU32 demo_host < next a')%Z.
Proof.
  apply (reserve_of_freed_leaks demo_alloc2 ∅ demo_host demo_alloc2_ok).
  apply list_elem_of_singleton. by vm_compute.
Defined.

End IpAlloc.
