(* ===== verification/SafeMap.v ===== *)
(** * The thread-safe map (internal/utils/safemap/safemap.go)

    A map object behind a mutex: every method is one atomic step on the object.
    Objects live in a store, so that [Clone] visibly creates a second object and
    [From] copies the caller's map. *)
From S2P Require Import Prelude.

Module SafeMap.

Section SafeMap.
Context {K V : Type} `{Countable K}.

(** The objects by identity. *)
Record store := mkStore { objs : gmap nat (gmap K V); next_obj : nat }.

Definition data (s : store) (h : nat) : gmap K V := default ∅ (objs s !! h).
Definition set_data (s : store) (h : nat) (m : gmap K V) : store :=
  mkStore (<[h := m]> (objs s)) (next_obj s).
Definition alloc (s : store) (m : gmap K V) : nat * store :=
  (next_obj s, mkStore (<[next_obj s := m]> (objs s)) (S (next_obj s))).

Definition From (s : store) (m : gmap K V) : nat * store := alloc s m.
Definition New (s : store) : nat * store := alloc s ∅.
Definition Get (s : store) (h : nat) (key : K) : option V := data s h !! key.
Definition Set_ (s : store) (h : nat) (key : K) (val : V) : store := set_data s h (<[key := val]> (data s h)).
Definition Exists (s : store) (h : nat) (key : K) : bool := bool_decide (is_Some (data s h !! key)).
Definition Delete (s : store) (h : nat) (key : K) : store := set_data s h (delete key (data s h)).
Definition Count (s : store) (h : nat) : nat := size (data s h).
Definition Clone (s : store) (h : nat) : nat * store := alloc s (data s h).
Definition CloneRaw (s : store) (h : nat) : gmap K V := data s h.

(** The callbacks thread a state of the caller; they run under the read lock and
    do not touch the map. *)
Definition Foreach `{MapRange} {S} (s : store) (h : nat) (it : S → K → V → S) (st : S) : S :=
  foldl (λ st kv, it st kv.1 kv.2) st (map_range (data s h)).

Fixpoint foreach_cond {S} (it : S → K → V → bool * S) (l : list (K * V)) (st : S) : S :=
  match l with
  | [] => st
  | (k, v) :: l' => let '(more, st') := it st k v in if more then foreach_cond it l' st' else st'
  end.
Definition ForeachCond `{MapRange} {S} (s : store) (h : nat) (it : S → K → V → bool * S) (st : S) : S :=
  foreach_cond it (map_range (data s h)) st.

(** Handles in use are below the allocation counter. *)
Definition store_ok (s : store) : Prop := ∀ h, is_Some (objs s !! h) → (h < next_obj s)%nat.

Lemma data_set_data s h m h' : data (set_data s h m) h' = if decide (h = h') then m else data s h'.
Proof. unfold data. simpl. rewrite lookup_insert. by case_decide. Qed.

(** a clone is a snapshot.  [Clone] returns a new object with the entries of
    the original, and later writes and deletions on either object are invisible
    through the other. *)
Theorem clone_is_snapshot s h :
  store_ok s → is_Some (objs s !! h) →
  let '(c, s1) := Clone s h in
  store_ok s1 ∧ c ≠ h ∧ (∀ k, Get s1 c k = Get s h k) ∧ (∀ k, Get s1 h k = Get s h k) ∧
  (∀ k v k', Get (Set_ s1 h k v) c k' = Get s h k' ∧ Get (Delete s1 h k) c k' = Get s h k') ∧
  (∀ k v k', Get (Set_ s1 c k v) h k' = Get s h k' ∧ Get (Delete s1 c k) h k' = Get s h k').
Proof.
  intros Hs Hh. unfold Clone, alloc. pose proof (Hs h Hh) as Hlt.
  assert (Hd : ∀ m, data (mkStore (<[next_obj s := m]> (objs s)) (S (next_obj s))) h = data s h).
  { intros m. unfold data. simpl. rewrite lookup_insert_ne; [done|]. lia. }
  assert (Hc : ∀ m, data (mkStore (<[next_obj s := m]> (objs s)) (S (next_obj s))) (next_obj s) = m).
  { intros m. unfold data. simpl. by rewrite lookup_insert_eq. }
  unfold Get, Set_, Delete. split_and!.
  - intros h'. simpl. rewrite lookup_insert. case_decide; [lia|]. intros ?%Hs. lia.
  - lia.
  - intros k. by rewrite Hc.
  - intros k. by rewrite Hd.
  - intros k v k'. rewrite !data_set_data, !decide_False by lia. by rewrite Hc.
  - intros k v k'. rewrite !data_set_data, !decide_False by lia. by rewrite Hd.
Qed.

End SafeMap.

Definition demo_store : store (K := Z) (V := string) := (From (mkStore ∅ 0) {[1%Z := "a"]}).2.

Lemma clone_is_snapshot_witness :
  (∀ k, Get (Clone demo_store 0).2 1 k = Get demo_store 0 k) ∧ Count demo_store 0 = 1%nat.
Proof.
  split; [|by vm_compute].
  assert (Hok : store_ok demo_store).
  { intros h. simpl. rewrite lookup_insert. case_decide; [lia|]. rewrite lookup_empty. by intros []. }
  pose proof (clone_is_snapshot demo_store 0 Hok ltac:(eexists; reflexivity)) as Hc.
  apply Hc.
Defined.

End SafeMap.
