(* ===== verification/RoutingTable.v ===== *)
(** * The routing table and shaped routes (pkg/routingtable)

    The table of routing objects by virtual address (table.go) and the wrapper
    that limits speed and traffic of a client (shaped.go).  What an object's
    [SendDatagram] does with a packet is the interface [Link]; the token bucket
    of golang.org/x/time/rate is the interface [Limiter]. *)
From S2P Require Import Prelude DgMessage Broker.
Import DgMessage Broker.

Open Scope go_scope.

(** [send_datagram obj msg data w]: object [obj] is asked to send [data], a slice
    of the buffer of message [msg]; the result is the error, if any, and the
    state of the links. *)
Class Link := {
  link : Type;
  send_datagram : nat → nat → list Z → link → option string * link }.

(** A limiter is created with a rate and a burst; [AllowN] takes tokens at a
    time or refuses; [WaitN] blocks until the tokens are there and fails when the
    context ends. *)
Class Limiter := {
  limiter : Type;
  NewLimiter : Z → Z → limiter;
  AllowN : Z → limiter → Z → bool * limiter;
  WaitN : bool → limiter → Z → option string * limiter }.

Module RoutingTable.

(** ** The table *)

(** A routing object: its identity, its node and address, and the shaped state
    behind it when it is a [*ShapedRoute] (the outcome of the type assertion). *)
Record RoutingObject := mkObj {
  ro_ref : nat;
  GetNodeID : string;
  GetVirtualIP : Z;
  ro_shaped : option nat }.

#[export] Instance RoutingObject_eq_dec : EqDecision RoutingObject.
Proof. solve_decision. Defined.

Notation routingTable := (gmap Z RoutingObject).

Definition New : routingTable := ∅.

Definition Add (r : routingTable) (obj : RoutingObject) : gores routingTable :=
  match r !! GetVirtualIP obj with
  | Some _ => Err "record for ip already exists"
  | None => Ok (<[GetVirtualIP obj := obj]> r)
  end.

Definition Delete (r : routingTable) (ip : Z) : routingTable :=
  match r !! ip with
  | None => r
  | Some _ => delete ip r
  end.

Definition GetByIP (r : routingTable) (ip : Z) : option RoutingObject := r !! ip.

Record RoutingTableRecordDump := mkRecord { RecNodeID : string; RecVirtualIP : Z }.

Definition Dump `{MapRange} (r : routingTable) : list RoutingTableRecordDump :=
  (λ kv, mkRecord (GetNodeID kv.2) (GetVirtualIP kv.2)) <$> map_range r.

(** ** Shaped routes *)

Section Shaped.
Context `{LK : Link} `{LM : Limiter}.

(** [sr_done] is the state of the context, [sr_queue] the channel ([None] is a nil
    channel) and [sr_running] says whether the worker goroutine lives. *)
Record ShapedRoute := mkShaped {
  sr_done : bool;
  sr_underlying : nat;
  sr_queue : option (chan nat);
  sr_limiter : option limiter;
  sr_speedLimited : bool;
  sr_totalLimit : Z;
  sr_trafficLimited : bool;
  sr_running : bool }.

Definition set_total (sr : ShapedRoute) (n : Z) : ShapedRoute :=
  mkShaped (sr_done sr) (sr_underlying sr) (sr_queue sr) (sr_limiter sr) (sr_speedLimited sr)
    n (sr_trafficLimited sr) (sr_running sr).
Definition set_queue (sr : ShapedRoute) (q : chan nat) : ShapedRoute :=
  mkShaped (sr_done sr) (sr_underlying sr) (Some q) (sr_limiter sr) (sr_speedLimited sr)
    (sr_totalLimit sr) (sr_trafficLimited sr) (sr_running sr).
Definition set_limiter (sr : ShapedRoute) (l : limiter) : ShapedRoute :=
  mkShaped (sr_done sr) (sr_underlying sr) (sr_queue sr) (Some l) (sr_speedLimited sr)
    (sr_totalLimit sr) (sr_trafficLimited sr) (sr_running sr).
Definition set_done (sr : ShapedRoute) : ShapedRoute :=
  mkShaped true (sr_underlying sr) (sr_queue sr) (sr_limiter sr) (sr_speedLimited sr)
    (sr_totalLimit sr) (sr_trafficLimited sr) (sr_running sr).
Definition set_stopped (sr : ShapedRoute) : ShapedRoute :=
  mkShaped (sr_done sr) (sr_underlying sr) (sr_queue sr) (sr_limiter sr) (sr_speedLimited sr)
    (sr_totalLimit sr) (sr_trafficLimited sr) false.

Definition NewShapedRoute (obj : nat) (done : bool) (speedLimit trafficLimit : option Z)
    : ShapedRoute :=
  mkShaped done obj
    (match speedLimit with Some _ => Some (make_chan 500) | None => None end)
    (match speedLimit with Some s => Some (NewLimiter s (256 * 1500)) | None => None end)
    (bool_decide (is_Some speedLimit))
    (match trafficLimit with Some l => i64 l | None => 0%Z end)
    (bool_decide (is_Some trafficLimit))
    (bool_decide (is_Some speedLimit)).

(** [remains := sr.totalLimit.Add(-int64(n)); remains < 0]: the common start of
    [PushLimited] and [IsAllowed]; [false] means that the packet is refused. *)
Definition charge (sr : ShapedRoute) (n : Z) : bool * ShapedRoute :=
  if sr_trafficLimited sr then
    let remains := i64 (sr_totalLimit sr - i64 n) in
    (negb (bool_decide (remains < 0)%Z), set_total sr remains)
  else (true, sr).

(** The select statement of [PushLimited].  When the context is done and the
    queue could take the packet, the runtime chooses: [pick_send].  A closed
    queue is a case that is ready, and choosing it panics. *)
Definition push_select (pick_send : bool) (sr : ShapedRoute) (id : nat)
    : gores (option string * ShapedRoute) :=
  let send_ready := match sr_queue sr with
                    | None => false
                    | Some c => ch_closed c || bool_decide (length (ch_buf c) < ch_cap c)%nat
                    end in
  if sr_done sr && (negb send_ready || negb pick_send) then Ok (Some "context canceled", sr)
  else if send_ready then
    match sr_queue sr with
    | Some c => c' <- send_nb c id;; Ok (None, set_queue sr c')
    | None => Ok (None, sr)
    end
  else Ok (None, sr).

Definition PushLimited (pick_send : bool) (sr : ShapedRoute) (id : nat) (p : dgPool) (w : link)
    : gores (option string * ShapedRoute * dgPool * link) :=
  match pool_heap p !! id with
  | None => Panic
  | Some packet =>
      let '(ok, sr1) := charge sr (golen (dm_data packet)) in
      if negb ok then Ok (None, sr1, p, w) else
      if negb (sr_speedLimited sr1) then
        match send_datagram (sr_underlying sr1) id (dm_data packet) w with
        | (Some e, w1) => Ok (Some e, sr1, Free p id, w1)
        | (None, w1) =>
            r <- push_select pick_send sr1 id;;
            let '(e, sr2) := r in Ok (e, sr2, Free p id, w1)
        end
      else
        r <- push_select pick_send sr1 id;;
        let '(e, sr2) := r in Ok (e, sr2, p, w)
  end.

Definition IsAllowed (now : Z) (sr : ShapedRoute) (packetSize : Z) : gores (bool * ShapedRoute) :=
  let '(ok, sr1) := charge sr packetSize in
  if negb ok then Ok (false, sr1) else
  if sr_speedLimited sr1 then
    match sr_limiter sr1 with
    | None => Panic
    | Some l => let '(r, l') := AllowN now l (i64 packetSize) in Ok (r, set_limiter sr1 l')
    end
  else Ok (true, sr1).

(** One round of the worker goroutine; [None] means that it waits or has ended.
    The deferred [close] runs when it returns. *)
Definition worker_stop (sr : ShapedRoute) (p : dgPool) (w : link)
    : gores (ShapedRoute * dgPool * link) :=
  match sr_queue sr with
  | None => Panic
  | Some c => c' <- close_chan c;; Ok (set_stopped (set_queue sr c'), p, w)
  end.

Definition startWorker (pick_done : bool) (sr : ShapedRoute) (p : dgPool) (w : link)
    : option (gores (ShapedRoute * dgPool * link)) :=
  if negb (sr_running sr) then None else
  match sr_queue sr with
  | None => None
  | Some c =>
      match ch_buf c with
      | [] => if sr_done sr || ch_closed c then Some (worker_stop sr p w) else None
      | id :: buf =>
          if sr_done sr && pick_done then Some (worker_stop sr p w) else
          let sr1 := set_queue sr (mkChan buf (ch_cap c) (ch_closed c)) in
          match pool_heap p !! id, sr_limiter sr1 with
          | Some packet, Some l =>
              match WaitN (sr_done sr1) l (golen (dm_data packet)) with
              | (Some _, l') => Some (worker_stop (set_limiter sr1 l') (Free p id) w)
              | (None, l') =>
                  let '(_, w1) := send_datagram (sr_underlying sr1) id (dm_data packet) w in
                  Some (Ok (set_limiter sr1 l', Free p id, w1))
              end
          | _, _ => Some Panic
          end
      end
  end.

(** ** Invariants *)

(** The queue and the limiter exist exactly for a speed-limited route; the worker
    alone closes the queue, when it ends. *)
Record shaped_ok (sr : ShapedRoute) : Prop := {
  sh_queue : sr_speedLimited sr = true → ∃ c, sr_queue sr = Some c ∧
    ch_cap c = 500%nat ∧ (length (ch_buf c) <= 500)%nat ∧ ch_closed c = negb (sr_running sr);
  sh_limiter : sr_speedLimited sr = true → is_Some (sr_limiter sr);
  sh_none : sr_speedLimited sr = false → sr_queue sr = None ∧ sr_running sr = false }.

Definition table_ok (r : routingTable) : Prop := ∀ ip o, r !! ip = Some o → GetVirtualIP o = ip.

(** The packets a route lets pass, charged one after the other. *)
Fixpoint run_charges (sr : ShapedRoute) (sizes : list Z) : list bool * ShapedRoute :=
  match sizes with
  | [] => ([], sr)
  | n :: rest =>
      let '(ok, sr1) := charge sr n in
      let '(oks, sr2) := run_charges sr1 rest in (ok :: oks, sr2)
  end.

Fixpoint passed_bytes (sizes : list Z) (oks : list bool) : Z :=
  match sizes, oks with
  | n :: s, ok :: o => ((if ok then n else 0) + passed_bytes s o)%Z
  | _, _ => 0%Z
  end.

(** ** Lemmas *)

Lemma set_total_ok sr n : shaped_ok sr → shaped_ok (set_total sr n).
Proof. by intros [H1 H2 H3]. Qed.

Lemma charge_ok sr n : shaped_ok sr → shaped_ok (charge sr n).2.
Proof. intros Hs. unfold charge. destruct (sr_trafficLimited sr); [by apply set_total_ok|done]. Qed.

Lemma charge_same sr n :
  sr_speedLimited (charge sr n).2 = sr_speedLimited sr ∧ sr_queue (charge sr n).2 = sr_queue sr ∧
  sr_done (charge sr n).2 = sr_done sr ∧ sr_underlying (charge sr n).2 = sr_underlying sr ∧
  sr_running (charge sr n).2 = sr_running sr ∧ sr_limiter (charge sr n).2 = sr_limiter sr.
Proof. unfold charge. by destruct (sr_trafficLimited sr). Qed.

Lemma NewShapedRoute_ok obj done s t : shaped_ok (NewShapedRoute obj done s t).
Proof.
  constructor; simpl; destruct s; simpl; try done.
  intros _. eexists. split; [done|]. split_and!; simpl; [done|lia|done].
Qed.

Lemma Add_spec r obj :
  (∀ o, r !! GetVirtualIP obj = Some o → Add r obj = Err "record for ip already exists") ∧
  (r !! GetVirtualIP obj = None → Add r obj = Ok (<[GetVirtualIP obj := obj]> r)).
Proof. unfold Add. split; [intros o ->|intros ->]; done. Qed.

Lemma Delete_lookup r ip j : Delete r ip !! j = if decide (j = ip) then None else r !! j.
Proof.
  unfold Delete. destruct (r !! ip) eqn:E.
  - rewrite lookup_delete. repeat case_decide; naive_solver.
  - case_decide; naive_solver.
Qed.

Lemma Add_table_ok r obj r' : table_ok r → Add r obj = Ok r' → table_ok r'.
Proof.
  unfold Add. destruct (r !! _) eqn:E; [done|]. intros Hr [= <-] ip o.
  rewrite lookup_insert. case_decide; [by intros [= <-]|]. apply Hr.
Qed.

Lemma Delete_table_ok r ip : table_ok r → table_ok (Delete r ip).
Proof. intros Hr j o. rewrite Delete_lookup. case_decide; [done|]. apply Hr. Qed.

Lemma elem_of_Dump `{MapRange} r rec :
  table_ok r → rec ∈ Dump r ↔
  ∃ o, r !! RecVirtualIP rec = Some o ∧ GetNodeID o = RecNodeID rec.
Proof.
  intros Hr. unfold Dump. rewrite list_elem_of_fmap. split.
  - intros ([ip o] & -> & Hin%elem_of_map_range). simpl. exists o. by rewrite (Hr _ _ Hin).
  - intros (o & Ho & Hn). exists (RecVirtualIP rec, o). simpl. rewrite (Hr _ _ Ho), Hn.
    split; [by destruct rec|]. by apply elem_of_map_range.
Qed.

(** The accounting of one packet while the counter is far from the ends of the
    64-bit range. *)
Lemma charge_value sr n :
  sr_trafficLimited sr = true → is_i64 (sr_totalLimit sr - n) → is_i64 n →
  charge sr n = (bool_decide (n <= sr_totalLimit sr)%Z, set_total sr (sr_totalLimit sr - n)).
Proof.
  intros Ht Hr Hn. unfold charge. rewrite Ht, (i64_small n), i64_small by done. f_equal.
  rewrite <- bool_decide_not. apply bool_decide_ext. lia.
Qed.

Lemma run_charges_bound sizes sr :
  sr_trafficLimited sr = true → Forall (λ n, 0 <= n < 2 ^ 16)%Z sizes →
  (- 2 ^ 63 + golen sizes * 2 ^ 16 <= sr_totalLimit sr < 2 ^ 63)%Z →
  (passed_bytes sizes (run_charges sr sizes).1 <= Z.max 0 (sr_totalLimit sr))%Z.
Proof.
  revert sr. induction sizes as [|n sizes IH]; intros sr Ht HF Hb; simpl; [lia|].
  apply Forall_cons in HF as [Hn HF]. simpl length in Hb.
  rewrite charge_value by (done || word_lia).
  specialize (IH (set_total sr (sr_totalLimit sr - n)) Ht HF). simpl in IH.
  destruct (run_charges _ sizes) as [oks sr2]. simpl in *.
  specialize (IH ltac:(lia)). case_bool_decide; lia.
Qed.

Lemma run_charges_after_refusal sizes sr :
  sr_trafficLimited sr = true → Forall (λ n, 0 <= n < 2 ^ 16)%Z sizes →
  (- 2 ^ 63 + golen sizes * 2 ^ 16 <= sr_totalLimit sr < 0)%Z →
  Forall (λ ok, ok = false) (run_charges sr sizes).1.
Proof.
  revert sr. induction sizes as [|n sizes IH]; intros sr Ht HF Hb; simpl; [constructor|].
  apply Forall_cons in HF as [Hn HF]. simpl length in Hb.
  rewrite charge_value by (done || word_lia).
  specialize (IH (set_total sr (sr_totalLimit sr - n)) Ht HF). simpl in IH.
  destruct (run_charges _ sizes) as [oks sr2]. simpl in *.
  constructor; [apply bool_decide_eq_false; lia|]. apply IH. lia.
Qed.

Lemma run_charges_length sizes sr : length (run_charges sr sizes).1 = length sizes.
Proof.
  revert sr. induction sizes as [|n sizes IH]; intros sr; simpl; [done|].
  destruct (charge sr n) as [ok sr1]. specialize (IH sr1).
  destruct (run_charges sr1 sizes). simpl in *. by rewrite IH.
Qed.

Lemma run_charges_refusal sizes1 n sizes2 sr :
  sr_trafficLimited sr = true → Forall (λ n, 0 <= n < 2 ^ 16)%Z (sizes1 ++ n :: sizes2) →
  (- 2 ^ 63 + golen (sizes1 ++ n :: sizes2) * 2 ^ 16 <= sr_totalLimit sr < 2 ^ 63)%Z →
  (run_charges sr (sizes1 ++ n :: sizes2)).1 !! length sizes1 = Some false →
  Forall (λ ok, ok = false) (drop (length sizes1) (run_charges sr (sizes1 ++ n :: sizes2)).1).
Proof.
  revert sr. induction sizes1 as [|m sizes1 IH]; intros sr Ht HF Hb; simpl in *.
  - apply Forall_cons in HF as [Hn HF]. rewrite charge_value by (done || word_lia).
    pose proof (run_charges_after_refusal sizes2 (set_total sr (sr_totalLimit sr - n)) Ht HF) as H0.
    destruct (run_charges _ sizes2) as [oks sr2]. simpl in *. intros [= Hk].
    rewrite Hk. apply bool_decide_eq_false in Hk. constructor; [done|]. apply H0. lia.
  - apply Forall_cons in HF as [Hn HF]. rewrite charge_value by (done || word_lia).
    specialize (IH (set_total sr (sr_totalLimit sr - m)) Ht HF). simpl in IH.
    destruct (run_charges _ (sizes1 ++ _)) as [oks sr2]. simpl in *. apply IH. lia.
Qed.

(** ** Theorems *)

(** the table is a partial map from addresses to objects.  [Add] refuses an
    address in use and otherwise adds exactly one record; [Delete] removes
    exactly one; both keep every record under its own address, and [Dump] lists
    exactly the records of the table, in whatever order the map is visited. *)
Theorem table_operations `{MapRange} r obj ip :
  table_ok r →
  (Add r obj = Err "record for ip already exists" ↔ is_Some (GetByIP r (GetVirtualIP obj))) ∧
  (∀ r', Add r obj = Ok r' → table_ok r' ∧
     ∀ j, GetByIP r' j = if decide (j = GetVirtualIP obj) then Some obj else GetByIP r j) ∧
  (table_ok (Delete r ip) ∧
     ∀ j, GetByIP (Delete r ip) j = if decide (j = ip) then None else GetByIP r j) ∧
  (∀ rec, rec ∈ Dump r ↔
     ∃ o, GetByIP r (RecVirtualIP rec) = Some o ∧ GetNodeID o = RecNodeID rec) ∧
  length (Dump r) = size r.
Proof.
  intros Hr. unfold GetByIP. split_and!.
  - unfold Add. destruct (r !! _); split; [eauto|done|done|by intros []].
  - intros r' E. split; [by eapply Add_table_ok|]. intros j. unfold Add in E.
    destruct (r !! _); [done|]. injection E as <-. rewrite lookup_insert.
    repeat case_decide; congruence.
  - by apply Delete_table_ok.
  - intros j. apply Delete_lookup.
  - intros rec. by apply elem_of_Dump.
  - unfold Dump. by rewrite length_fmap, map_range_length.
Qed.

(** the traffic limit holds.  A route created with a limit of [L] bytes lets
    packets of at most [L] bytes in total pass, in any order and number short of
    2^40 packets; and once it has refused a packet it refuses every later one. *)
Theorem traffic_limit_bounds obj done s L sizes :
  (0 <= L < 2 ^ 63)%Z → Forall (λ n, 0 <= n < 2 ^ 16)%Z sizes → (golen sizes <= 2 ^ 40)%Z →
  let oks := (run_charges (NewShapedRoute obj done s (Some L)) sizes).1 in
  (passed_bytes sizes oks <= L)%Z ∧
  (∀ i, oks !! i = Some false → Forall (λ ok, ok = false) (drop i oks)).
Proof.
  intros HL HF Hlen oks. assert (Hi : i64 L = L) by (apply i64_small; word_lia).
  assert (Ht : sr_trafficLimited (NewShapedRoute obj done s (Some L)) = true) by done.
  assert (Htot : sr_totalLimit (NewShapedRoute obj done s (Some L)) = L) by done.
  split.
  - pose proof (run_charges_bound sizes _ Ht HF) as Hb. rewrite Htot in Hb. fold oks in Hb. lia.
  - intros i Hi'. pose proof Hi' as Hlt%lookup_lt_Some. unfold oks in Hlt. rewrite run_charges_length in Hlt.
    destruct (lookup_lt_is_Some_2 sizes i Hlt) as [n Hn].
    pose proof (take_drop_middle _ _ _ Hn) as Esz.
    pose proof (run_charges_refusal (take i sizes) n (drop (S i) sizes) _ Ht) as Hr.
    rewrite Esz, length_take_le in Hr by lia. rewrite Htot in Hr. apply Hr; [done|lia|done].
Qed.

(** what [PushLimited] does with a packet, on every branch, while the worker
    has not ended: a packet over the traffic limit is dropped without an error; a
    route without speed limit sends it at once and releases it; a speed-limited
    route queues it when there is room and drops it otherwise.  It never
    panics. *)
Theorem push_limited_cases pick sr id m p w :
  shaped_ok sr → pool_heap p !! id = Some m →
  (sr_speedLimited sr = true → sr_running sr = true) →
  let n := golen (dm_data m) in
  let sr1 := (charge sr n).2 in
  if negb (charge sr n).1 then PushLimited pick sr id p w = Ok (None, sr1, p, w)
  else if negb (sr_speedLimited sr) then
    let '(e, w1) := send_datagram (sr_underlying sr) id (dm_data m) w in
    PushLimited pick sr id p w =
      Ok (match e with Some e => Some e
          | None => if sr_done sr then Some "context canceled"%string else None end,
          sr1, Free p id, w1)
  else ∃ c, sr_queue sr = Some c ∧
    PushLimited pick sr id p w =
      Ok (if decide (length (ch_buf c) < 500)%nat
          then if sr_done sr && negb pick then (Some "context canceled"%string, sr1, p, w)
               else (None, set_queue sr1 (mkChan (ch_buf c ++ [id]) 500 false), p, w)
          else if sr_done sr then (Some "context canceled"%string, sr1, p, w) else (None, sr1, p, w)).
Proof.
  intros Hs Hm Hrun n sr1. unfold PushLimited. rewrite Hm. fold n.
  destruct (charge_same sr n) as (E1 & E2 & E3 & E4 & E5 & _). subst sr1.
  destruct (charge sr n) as [ok sr1]. simpl in *. destruct ok; simpl; [|done].
  rewrite E1, E4. destruct (sr_speedLimited sr) eqn:Esp; simpl.
  - destruct (sh_queue _ Hs Esp) as (c & Ec & Hcap & _ & Hcl). rewrite Hrun in Hcl by done. simpl in Hcl.
    exists c. split; [done|]. unfold push_select. rewrite E2, E3, Ec, Hcl, Hcap. simpl.
    unfold send_nb. rewrite Hcl, Hcap. case_bool_decide; case_decide; try done;
      destruct (sr_done sr), pick; done.
  - destruct (sh_none _ Hs Esp) as [Eq _]. destruct (send_datagram _ _ _ _) as [[e|] w1]; [done|].
    unfold push_select. rewrite E2, E3, Eq. simpl. by destruct (sr_done sr).
Qed.

(** the worker sends queued packets in the order they were queued, and
    releases each of them exactly once, sent or not; the pool stays consistent
    and the released message leaves the set of messages in use. *)
Theorem worker_serves_head pick sr id m buf cap p live w l :
  pool_ok p live → id ∈ live → pool_heap p !! id = Some m → dm_owned m = true →
  shaped_ok sr → sr_running sr = true → sr_limiter sr = Some l →
  sr_queue sr = Some (mkChan (id :: buf) cap false) → (sr_done sr && pick) = false →
  ∃ sr' w', startWorker pick sr p w = Some (Ok (sr', Free p id, w')) ∧
    pool_ok (Free p id) (live ∖ {[id]}) ∧
    (∃ c', sr_queue sr' = Some c' ∧ ch_buf c' = buf ∧ ch_closed c' = negb (sr_running sr')) ∧
    match (WaitN (sr_done sr) l (golen (dm_data m))).1 with
    | None => w' = (send_datagram (sr_underlying sr) id (dm_data m) w).2 ∧ sr_running sr' = true
    | Some _ => w' = w ∧ sr_running sr' = false
    end.
Proof.
  intros Hp Hid Hm Ho Hs Hrun Hl Hq Hd. unfold startWorker. rewrite Hrun, Hq. simpl.
  rewrite Hd, Hm, Hl. destruct (Free_ok p live id Hp Hid) as [Hf _]; [by intros ? ?; simplify_eq|].
  destruct (WaitN _ l _) as [[e|] l'].
  - unfold worker_stop. simpl. do 2 eexists. split; [done|]. split; [done|]. simpl.
    split; [by eexists|done].
  - destruct (send_datagram _ _ _ w) as [e w1] eqn:Es. do 2 eexists. split; [done|].
    split; [done|]. simpl. rewrite Hrun. split; [by eexists|done].
Qed.

(** the end of the worker leaves a trap.  When the context of a speed-limited
    route is done and its worker has ended, the select of [PushLimited] has two
    ready cases, and the runtime may choose the send on the closed queue, which
    panics. *)
Theorem push_after_worker_end_can_panic sr id m p w :
  shaped_ok sr → sr_speedLimited sr = true → sr_running sr = false → sr_done sr = true →
  pool_heap p !! id = Some m → (charge sr (golen (dm_data m))).1 = true →
  PushLimited true sr id p w = Panic ∧
  PushLimited false sr id p w =
    Ok (Some "context canceled"%string, (charge sr (golen (dm_data m))).2, p, w).
Proof.
  intros Hs Hsp Hrun Hd Hm Hc. unfold PushLimited. rewrite Hm.
  destruct (charge_same sr (golen (dm_data m))) as (E1 & E2 & E3 & _).
  destruct (charge sr _) as [ok sr1]. simpl in *. subst ok. simpl. rewrite E1, Hsp. simpl.
  destruct (sh_queue _ Hs Hsp) as (c & Ec & _ & _ & Hcl). rewrite Hrun in Hcl. simpl in Hcl.
  unfold push_select. rewrite E2, E3, Ec, Hd, Hcl. simpl. unfold send_nb. by rewrite Hcl.
Qed.

End Shaped.

(** ** Concrete instances *)

(** A link that records what it is asked to send, and a limiter that always has
    tokens and waits forever for none. *)
#[export] Instance trace_link : Link | 100 := {|
  link := list (nat * list Z);
  send_datagram := λ obj _ data w, (None, w ++ [(obj, data)]) |}.
#[export] Instance free_limiter : Limiter | 100 := {|
  limiter := Z;
  NewLimiter := λ r _, r;
  AllowN := λ _ l _, (true, l);
  WaitN := λ done l _, (if done then Some "context canceled"%string else None, l) |}.

Definition no_sends : @link trace_link := [].

Definition demo_msg : DatagramMessage :=
  mkMessage (demo_packet ++ replicate (100 - length demo_packet) 0%Z) (length demo_packet) 4 demo_hole true.
Definition demo_pool : dgPool := mkPool 100 [] {[0%nat := demo_msg]} 1.
Definition demo_route : ShapedRoute := NewShapedRoute 7 false (Some 1000%Z) (Some 5000%Z).
Definition demo_busy : ShapedRoute := set_queue demo_route (mkChan [0%nat] 500 false).
Definition demo_ended : ShapedRoute :=
  set_stopped (set_queue (set_done demo_route) (mkChan [] 500 true)).

(** ** Witnesses *)

Lemma demo_pool_ok : pool_ok demo_pool {[0%nat]}.
Proof.
  constructor; simpl.
  - intros id m. rewrite lookup_singleton. case_decide; [intros [= <-]|done]. by vm_compute.
  - intros id [m]. rewrite lookup_singleton in H. case_decide; [lia|done].
  - constructor.
  - intros id Hid. by apply not_elem_of_nil in Hid.
  - intros id ->%elem_of_singleton. eexists. apply lookup_singleton_eq.
  - intros id _. apply not_elem_of_nil.
Qed.

Lemma demo_lookup : pool_heap demo_pool !! 0%nat = Some demo_msg.
Proof. done. Qed.

Definition demo_obj : RoutingObject := mkObj 1 "n" 5 None.

Lemma table_operations_witness :
  Add ∅ demo_obj = Ok {[5%Z := demo_obj]} ∧ GetByIP {[5%Z := demo_obj]} 5 = Some demo_obj.
Proof.
  destruct (table_operations ∅ demo_obj 5) as (_ & H & _).
  - intros ip x. by rewrite lookup_empty.
  - split; [done|]. destruct (H {[5%Z := demo_obj]} eq_refl) as [_ Hl]. rewrite Hl. by rewrite decide_True.
Defined.

Lemma traffic_limit_bounds_witness :
  (run_charges (NewShapedRoute 7 false None (Some 2000%Z)) [1500; 600; 100]%Z).1 = [true; false; false] ∧
  (passed_bytes [1500; 600; 100]%Z
     (run_charges (NewShapedRoute 7 false None (Some 2000%Z)) [1500; 600; 100]%Z).1 <= 2000)%Z.
Proof.
  split; [by vm_compute|].
  apply (traffic_limit_bounds 7 false None 2000 [1500; 600; 100]%Z).
  - split; vm_compute; congruence.
  - repeat constructor; vm_compute; congruence.
  - vm_compute; congruence.
Defined.

Lemma demo_route_ok : shaped_ok demo_route.
Proof. apply NewShapedRoute_ok. Qed.

Lemma push_limited_cases_witness : is_ok (PushLimited true demo_route 0 demo_pool no_sends) = true.
Proof.
  destruct (push_limited_cases true demo_route 0 demo_msg demo_pool no_sends demo_route_ok demo_lookup (λ _, eq_refl))
    as (c & _ & ->). vm_compute. reflexivity.
Defined.

Lemma demo_busy_ok : shaped_ok demo_busy.
Proof.
  constructor; simpl; try done.
  intros _. eexists. split; [done|]. simpl. split_and!; [done|lia|done].
Qed.

Lemma worker_serves_head_witness :
  ∃ sr' w', startWorker true demo_busy demo_pool no_sends = Some (Ok (sr', Free demo_pool 0, w')).
Proof.
  destruct (worker_serves_head true demo_busy 0 demo_msg [] 500 demo_pool {[0%nat]} no_sends 1000%Z
    demo_pool_ok (proj2 (elem_of_singleton 0%nat 0%nat) eq_refl) demo_lookup eq_refl demo_busy_ok
    eq_refl eq_refl eq_refl eq_refl) as (sr' & w' & E & _).
  exists sr', w'. exact E.
Defined.

Lemma demo_ended_ok : shaped_ok demo_ended.
Proof.
  constructor; simpl; try done.
  intros _. eexists. split; [done|]. simpl. split_and!; [done|lia|done].
Qed.

Lemma push_after_worker_end_can_panic_witness : PushLimited true demo_ended 0 demo_pool no_sends = Panic.
Proof.
  apply (push_after_worker_end_can_panic demo_ended 0 demo_msg demo_pool no_sends demo_ended_ok eq_refl eq_refl
    eq_refl demo_lookup). by vm_compute.
Defined.

End RoutingTable.
