(* ===== verification/Firewall.v ===== *)
(** * The firewall engine (pkg/firewall/firewall.go)

    Rules indexed by a 64-bit global key and by destination address, the table
    of short node identifiers behind the keys, and the stateful holes (allowed
    flows).  [time.Now()] is the argument [now], in nanoseconds.  The exported
    methods are functions of the engine; the sections between which other calls
    can run, two locks in [AddRule] and [RemoveRule], every hole of a sweep, the
    parts of [RuleCheck], are the steps of [Interleaving] below. *)
From S2P Require Import Prelude DgMessage.
Import DgMessage.

Module Firewall.

(** ** Data *)

Record PortRuleIndex := mkIndex { NodeID : string; RuleID : Z }.

Record PortRule := mkRule {
  index : PortRuleIndex;
  Address : Z;
  TargetAddress : option Z;
  RuleProtocol : string;
  PortRangeStart : Z;
  PortRangeEnd : option Z }.

Record RuleDump := mkDump {
  DumpNodeID : string;
  DumpRuleID : Z;
  DumpAddress : Z;
  DumpTargetAddress : option Z;
  DumpProtocol : string;
  DumpPortRangeStart : Z;
  DumpPortRangeEnd : option Z }.

Record hole := mkHole { expire : Z; info : HoleInfo }.

Record engine := mkEngine {
  rulesByAddr : gmap Z (list Z);
  rulesByID : gmap Z PortRule;
  shortIdByNodeId : gmap string Z;
  nextShortID : Z;
  holes : gmap string hole }.

#[export] Instance PortRuleIndex_eq_dec : EqDecision PortRuleIndex.
Proof. solve_decision. Defined.
#[export] Instance PortRule_eq_dec : EqDecision PortRule.
Proof. solve_decision. Defined.

(** The zero value of [PortRule], which a Go map lookup yields for a key that is
    not in the map. *)
Definition zero_rule : PortRule := mkRule (mkIndex "" 0) 0 None "" 0 None.

Definition set_rules (fw : engine) byAddr byID : engine :=
  mkEngine byAddr byID (shortIdByNodeId fw) (nextShortID fw) (holes fw).
Definition set_holes (fw : engine) h : engine :=
  mkEngine (rulesByAddr fw) (rulesByID fw) (shortIdByNodeId fw) (nextShortID fw) h.

(** ** Keys *)

Definition makeGlobalKey (shortID localRuleID : Z) : Z :=
  Z.lor (u64 (Z.shiftl shortID 48)) (Z.land localRuleID 281474976710655).

(** [fmt.Sprintf] with [%d] for unsigned integers is [pretty]. *)
Definition makeFlowKey (srcIP dstIP srcPort dstPort : Z) (protocol : string) : string :=
  if decide (protocol = "icmp") then
    if decide (srcIP < dstIP)%Z
    then pretty srcIP +:+ "|" +:+ pretty dstIP +:+ "|" +:+ "icmp"
    else pretty dstIP +:+ "|" +:+ pretty srcIP +:+ "|" +:+ "icmp"
  else if decide (srcIP < dstIP ∨ (srcIP = dstIP ∧ srcPort < dstPort))%Z
  then pretty srcIP +:+ "|" +:+ pretty dstIP +:+ "|" +:+ pretty srcPort +:+ "|" +:+
       pretty dstPort +:+ "|" +:+ protocol
  else pretty dstIP +:+ "|" +:+ pretty srcIP +:+ "|" +:+ pretty dstPort +:+ "|" +:+
       pretty srcPort +:+ "|" +:+ protocol.

Definition flowKey (hi : HoleInfo) : string :=
  makeFlowKey (SrcIP hi) (DstIP hi) (SrcPort hi) (DstPort hi) (Protocol hi).

(** ** Operations *)

Definition New : engine := mkEngine ∅ ∅ ∅ 0 ∅.

Definition getShortID (fw : engine) (nodeHash : string) : option Z :=
  shortIdByNodeId fw !! nodeHash.

Definition getOrCreateShortID (fw : engine) (nodeHash : string) : Z * engine :=
  match shortIdByNodeId fw !! nodeHash with
  | Some id => (id, fw)
  | None =>
      let next := u16 (nextShortID fw + 1) in
      (next, mkEngine (rulesByAddr fw) (rulesByID fw)
               (<[nodeHash := next]> (shortIdByNodeId fw)) next (holes fw))
  end.

(** [rule.index = index]: the stored copy of a rule. *)
Definition with_index (idx : PortRuleIndex) (r : PortRule) : PortRule :=
  mkRule idx (Address r) (TargetAddress r) (RuleProtocol r) (PortRangeStart r) (PortRangeEnd r).

(** [AddRule] under [rulesMu]. *)
Definition insertRule (fw : engine) (shortNodeID : Z) (idx : PortRuleIndex) (rule : PortRule) : bool * engine :=
  let ruleID := makeGlobalKey shortNodeID (RuleID idx) in
  match rulesByID fw !! ruleID with
  | Some _ => (false, fw)
  | None =>
      let rule' := with_index idx rule in
      (true, set_rules fw
         (<[Address rule' := default [] (rulesByAddr fw !! Address rule') ++ [ruleID]]>
            (rulesByAddr fw))
         (<[ruleID := rule']> (rulesByID fw)))
  end.

Definition AddRule (fw : engine) (idx : PortRuleIndex) (rule : PortRule) : bool * engine :=
  if decide (NodeID idx = "") then (false, fw) else
  let '(shortNodeID, fw1) := getOrCreateShortID fw (NodeID idx) in
  insertRule fw1 shortNodeID idx rule.

Definition ExistsRule (fw : engine) (idx : PortRuleIndex) : bool :=
  match getShortID fw (NodeID idx) with
  | None => false
  | Some s => bool_decide (is_Some (rulesByID fw !! makeGlobalKey s (RuleID idx)))
  end.

Definition dump_of (rule : PortRule) : RuleDump :=
  mkDump (NodeID (index rule)) (RuleID (index rule)) (Address rule) (TargetAddress rule)
    (RuleProtocol rule) (PortRangeStart rule) (PortRangeEnd rule).

Definition DumpRules `{MapRange} (fw : engine) : list RuleDump :=
  (λ kr, dump_of kr.2) <$> map_range (rulesByID fw).

(** The rule scan: [fw.rulesByID[ruleId]] yields the zero rule for a dangling
    identifier. *)
Definition icmp_match (fw : engine) (hi : HoleInfo) (ruleId : Z) : bool :=
  let rule := default zero_rule (rulesByID fw !! ruleId) in
  match TargetAddress rule with
  | None => true
  | Some t => bool_decide (t = SrcIP hi)
  end.

Definition port_match (fw : engine) (hi : HoleInfo) (ruleId : Z) : bool :=
  let rule := default zero_rule (rulesByID fw !! ruleId) in
  match TargetAddress rule with
  | Some t => if decide (t ≠ SrcIP hi) then false else true
  | None => true
  end &&
  (if decide (RuleProtocol rule ≠ "both" ∧ RuleProtocol rule ≠ Protocol hi) then false else true) &&
  match PortRangeEnd rule with
  | None => bool_decide (u16 (PortRangeStart rule) = DstPort hi)
  | Some e => bool_decide (u16 (PortRangeStart rule) <= DstPort hi ∧ DstPort hi <= u16 e)%Z
  end.

Definition rulesAllow (fw : engine) (hi : HoleInfo) : bool :=
  match rulesByAddr fw !! DstIP hi with
  | None => false
  | Some rulesIds =>
      if decide (Protocol hi = "icmp")
      then existsb (icmp_match fw hi) rulesIds
      else existsb (port_match fw hi) rulesIds
  end.

(** [sync.Map.Range] with a [Delete] in the callback. *)
Definition dropUnauthorizedHoles `{MapRange} (fw : engine) : engine :=
  set_holes fw
    (foldl (λ hs kv, if rulesAllow fw (info kv.2) then hs else delete kv.1 hs)
       (holes fw) (map_range (holes fw))).

(** [RemoveRule] under [rulesMu], and up to its release. *)
Definition deleteRule (fw : engine) (shortNodeID : Z) (idx : PortRuleIndex) : bool * engine :=
  let ruleID := makeGlobalKey shortNodeID (RuleID idx) in
  match rulesByID fw !! ruleID with
  | None => (false, fw)
  | Some rule =>
      let ids := default [] (rulesByAddr fw !! Address rule) in
      let ids' := remove_first ruleID ids in
      (true, set_rules fw
         (if decide (ids' = []) then delete (Address rule) (rulesByAddr fw)
          else <[Address rule := ids']> (rulesByAddr fw))
         (delete ruleID (rulesByID fw)))
  end.

Definition RemoveRule_locked (fw : engine) (idx : PortRuleIndex) : bool * engine :=
  match getShortID fw (NodeID idx) with
  | None => (false, fw)
  | Some s => deleteRule fw s idx
  end.

Definition RemoveRule `{MapRange} (fw : engine) (idx : PortRuleIndex) : bool * engine :=
  let '(ok, fw1) := RemoveRule_locked fw idx in
  if ok then (true, dropUnauthorizedHoles fw1) else (false, fw1).

Definition RuleCheck (now : Z) (fw : engine) (hi : HoleInfo) : bool * engine :=
  match holes fw !! flowKey hi with
  | Some h =>
      if decide (now < expire h)%Z then (true, fw)
      else let fw1 := set_holes fw (delete (flowKey hi) (holes fw)) in
           (rulesAllow fw1 hi, fw1)
  | None => (rulesAllow fw hi, fw)
  end.

Definition Holepunch (now : Z) (fw : engine) (hi : HoleInfo) (duration : Z) : engine :=
  set_holes fw (<[flowKey hi := mkHole (now + duration) hi]> (holes fw)).

(** ** Abstract specification

    A rule base is a partial map from rule indices to rules; a rule permits a
    flow by destination, sender, protocol and destination port. *)

Definition rule_at (fw : engine) (idx : PortRuleIndex) : option PortRule :=
  s ← shortIdByNodeId fw !! NodeID idx; rulesByID fw !! makeGlobalKey s (RuleID idx).

Definition permits (r : PortRule) (hi : HoleInfo) : bool :=
  bool_decide (Address r = DstIP hi) &&
  match TargetAddress r with None => true | Some t => bool_decide (t = SrcIP hi) end &&
  (bool_decide (Protocol hi = "icmp") ||
   bool_decide (RuleProtocol r = "both" ∨ RuleProtocol r = Protocol hi) &&
   match PortRangeEnd r with
   | None => bool_decide (u16 (PortRangeStart r) = DstPort hi)
   | Some e => bool_decide (u16 (PortRangeStart r) <= DstPort hi ∧ DstPort hi <= u16 e)%Z
   end).

Definition reverse (hi : HoleInfo) : HoleInfo :=
  mkHoleInfo (DstIP hi) (SrcIP hi) (DstPort hi) (SrcPort hi) (Protocol hi).

(** The sender of a rule's owner: the index is usable as a key when its rule
    number fits the 48 bits of the global key. *)
Definition wf_index (idx : PortRuleIndex) : Prop :=
  NodeID idx ≠ "" ∧ (0 <= RuleID idx < 2 ^ 48)%Z.

(** ** Invariant *)

Record engine_ok (fw : engine) : Prop := {
  ek_addr : ∀ a ids, rulesByAddr fw !! a = Some ids →
    ids ≠ [] ∧ NoDup ids ∧ ∀ k, k ∈ ids → ∃ r, rulesByID fw !! k = Some r ∧ Address r = a;
  ek_id : ∀ k r, rulesByID fw !! k = Some r →
    ∃ ids, rulesByAddr fw !! Address r = Some ids ∧ k ∈ ids;
  ek_key : ∀ k r, rulesByID fw !! k = Some r →
    ∃ s, shortIdByNodeId fw !! NodeID (index r) = Some s ∧ k = makeGlobalKey s (RuleID (index r));
  ek_short : ∀ n s, shortIdByNodeId fw !! n = Some s → (1 <= s <= nextShortID fw)%Z;
  ek_inj : ∀ n1 n2 s, shortIdByNodeId fw !! n1 = Some s → shortIdByNodeId fw !! n2 = Some s → n1 = n2;
  ek_count : nextShortID fw = Z.of_nat (size (shortIdByNodeId fw));
  ek_u16 : is_u16 (nextShortID fw);
  ek_hole : ∀ k h, holes fw !! k = Some h → k = flowKey (info h) }.

(** A node can still be registered: it is known, or fewer than 65535 nodes are. *)
Definition has_room (fw : engine) (n : string) : Prop :=
  is_Some (shortIdByNodeId fw !! n) ∨ (Z.of_nat (size (shortIdByNodeId fw)) < 65535)%Z.

(** The recorded flows are flows the packet parser produces. *)
Definition holes_wf (fw : engine) : Prop := ∀ k h, holes fw !! k = Some h → wf_hole (info h).

(** ** Interleaving

    The calls of several goroutines, section by section.  [AddRule] and
    [RemoveRule] look up the node under [nodeIDMu] and change the rules under
    [rulesMu]; a removal then ranges over the holes, which takes, checks and drops
    them one at a time while other calls run; [RuleCheck] loads the hole, drops an
    expired one and scans the rules; and a packet that passes, or comes from the
    mesh with a known protocol, punches its hole later (pkg/router/router.go).
    [ExistsRule] and [DumpRules] change nothing. *)
Inductive thread :=
| Adding (s : Z) (idx : PortRuleIndex) (r : PortRule)
| Removing (s : Z) (idx : PortRuleIndex)
| Unlocked
| Sweeping (seen todo : gset string)
| Judging (seen todo : gset string) (k : string) (h : hole)
| Dropping (seen todo : gset string) (k : string)
| Expired (hi : HoleInfo)
| Scanning (hi : HoleInfo)
| Allowed (hi : HoleInfo).

(** A change of the rules, with its answer. *)
Inductive change := Added (idx : PortRuleIndex) (r : PortRule) (ok : bool) | Removed (idx : PortRuleIndex) (ok : bool).

(** [holes.Load] of [RuleCheck]. *)
Definition loaded (now : Z) (fw : engine) (hi : HoleInfo) : thread :=
  match holes fw !! flowKey hi with
  | Some h => if decide (now < expire h)%Z then Allowed hi else Expired hi
  | None => Scanning hi
  end.

(** The first section of a call. *)
Inductive starts (fw : engine) : engine → list thread → list change → Prop :=
| start_add idx r s fw' :
    has_room fw (NodeID idx) → wf_index idx → getOrCreateShortID fw (NodeID idx) = (s, fw') →
    starts fw fw' [Adding s idx r] []
| start_remove idx s : wf_index idx → getShortID fw (NodeID idx) = Some s → starts fw fw [Removing s idx] []
| start_unknown idx : wf_index idx → getShortID fw (NodeID idx) = None → starts fw fw [] [Removed idx false]
| start_check now hi : starts fw fw [loaded now fw hi] []
| start_mesh hi : Protocol hi ≠ "" → starts fw fw [Allowed hi] [].

(** The next section of a call.  A range visits each of the keys that it finds at
    its start, unless the hole is gone by then, perhaps others, none twice. *)
Inductive advances (fw : engine) : thread → engine → list thread → list change → Prop :=
| adv_add s idx r ok fw' : insertRule fw s idx r = (ok, fw') → advances fw (Adding s idx r) fw' [] [Added idx r ok]
| adv_remove s idx ok fw' :
    deleteRule fw s idx = (ok, fw') →
    advances fw (Removing s idx) fw' (if ok then [Unlocked] else []) [Removed idx ok]
| adv_range : advances fw Unlocked fw [Sweeping ∅ (dom (holes fw))] []
| adv_visit seen todo k h :
    k ∉ seen → holes fw !! k = Some h →
    advances fw (Sweeping seen todo) fw [Judging ({[k]} ∪ seen) (todo ∖ {[k]}) k h] []
| adv_gone seen todo k : holes fw !! k = None → advances fw (Sweeping seen todo) fw [Sweeping seen (todo ∖ {[k]})] []
| adv_swept seen : advances fw (Sweeping seen ∅) fw [] []
| adv_judge seen todo k h :
    advances fw (Judging seen todo k h) fw [if rulesAllow fw (info h) then Sweeping seen todo else Dropping seen todo k] []
| adv_drop seen todo k :
    advances fw (Dropping seen todo k) (set_holes fw (delete k (holes fw))) [Sweeping seen todo] []
| adv_expired hi : advances fw (Expired hi) (set_holes fw (delete (flowKey hi) (holes fw))) [Scanning hi] []
| adv_scan hi : advances fw (Scanning hi) fw (if rulesAllow fw hi then [Allowed hi] else []) []
| adv_punch now hi d : advances fw (Allowed hi) (Holepunch now fw hi d) [] [].

(** The engine, the calls under way, and the changes of the rules, newest first. *)
Record shared := mkShared { sh_fw : engine; sh_threads : list thread; sh_log : list change }.

Inductive fw_step : shared → shared → Prop :=
| step_start fw T l fw' ts cs : starts fw fw' ts cs → fw_step (mkShared fw T l) (mkShared fw' (ts ++ T) (cs ++ l))
| step_thread fw T1 t T2 l fw' ts cs :
    advances fw t fw' ts cs → fw_step (mkShared fw (T1 ++ t :: T2) l) (mkShared fw' (T1 ++ ts ++ T2) (cs ++ l)).

(** The abstract rule base: the changes one after the other. *)
Fixpoint rules_after (l : list change) (j : PortRuleIndex) : option PortRule :=
  match l with
  | Added idx r true :: l => if decide (j = idx) then Some (with_index idx r) else rules_after l j
  | Removed idx true :: l => if decide (j = idx) then None else rules_after l j
  | _ :: l => rules_after l j
  | [] => None
  end.
(** Every call was answered as in that order. *)
Fixpoint answers_ok (l : list change) : Prop :=
  match l with
  | Added idx r ok :: l => ok = bool_decide (rules_after l idx = None) ∧ answers_ok l
  | Removed idx ok :: l => ok = bool_decide (is_Some (rules_after l idx)) ∧ answers_ok l
  | [] => True
  end.

(** Every live hole belongs to a flow some rule permits. *)
Definition holes_authorized (fw : engine) : Prop :=
  ∀ k h, holes fw !! k = Some h → rulesAllow fw (info h) = true.

(** ** Keys: arithmetic and text *)

Lemma makeGlobalKey_value s r :
  is_u16 s → makeGlobalKey s r = (s * 2 ^ 48 + r mod 2 ^ 48)%Z.
Proof.
  intros Hs. unfold makeGlobalKey.
  rewrite u64_small by (rewrite Z.shiftl_mul_pow2 by lia; word_lia).
  change 281474976710655%Z with (Z.ones 48). rewrite Z.land_ones by lia.
  apply lor_shiftl_add; [lia|]. apply Z.mod_pos_bound. lia.
Qed.

Lemma makeGlobalKey_inj s1 r1 s2 r2 :
  is_u16 s1 → is_u16 s2 → makeGlobalKey s1 r1 = makeGlobalKey s2 r2 →
  s1 = s2 ∧ (r1 mod 2 ^ 48 = r2 mod 2 ^ 48)%Z.
Proof.
  intros H1 H2. rewrite !makeGlobalKey_value by done.
  pose proof (Z.mod_pos_bound r1 (2 ^ 48) ltac:(lia)).
  pose proof (Z.mod_pos_bound r2 (2 ^ 48) ltac:(lia)). intros. words. lia.
Qed.

(** The key keeps 48 bits of the rule number. *)
Definition low_index (idx : PortRuleIndex) : PortRuleIndex := mkIndex (NodeID idx) (RuleID idx mod 2 ^ 48).

Lemma low_index_wf idx : NodeID idx ≠ "" → wf_index (low_index idx).
Proof. intros Hn. split; [done|]. apply Z.mod_pos_bound. lia. Qed.

Lemma low_index_id idx : wf_index idx → low_index idx = idx.
Proof. destruct idx. intros [_ H]. unfold low_index. by rewrite Z.mod_small. Qed.

Lemma makeGlobalKey_low s r : makeGlobalKey s (r mod 2 ^ 48) = makeGlobalKey s r.
Proof.
  unfold makeGlobalKey. f_equal. change 281474976710655%Z with (Z.ones 48).
  rewrite !Z.land_ones by lia. by rewrite Z.mod_mod.
Qed.

(** Text without the separator. *)
Fixpoint no_bar (s : string) : bool :=
  match s with
  | "" => true
  | String c s' => negb (bool_decide (c = "|"%char)) && no_bar s'
  end.

Lemma no_bar_cut a b s t :
  no_bar a = true → no_bar b = true → a +:+ "|" +:+ s = b +:+ "|" +:+ t → a = b ∧ s = t.
Proof.
  revert b. induction a as [|c a IH]; intros [|d b]; simpl; intros Ha Hb E; simplify_eq/=; try done.
  apply andb_true_iff in Ha as [_ Ha], Hb as [_ Hb]. by destruct (IH b Ha Hb) as [-> ->].
Qed.

Lemma no_bar_pretty_go n s : no_bar s = true → no_bar (pretty_N_go n s) = true.
Proof.
  revert s. induction (N.lt_wf_0 n) as [n _ IH]; intros s Hs.
  assert (n = 0 ∨ 0 < n)%N as [->|Hn] by lia; [done|].
  rewrite pretty_N_go_step by done. apply IH; [apply N.div_lt; lia|]. simpl. rewrite Hs, andb_true_r.
  unfold pretty_N_char. repeat case_match; done.
Qed.

Lemma no_bar_pretty (z : Z) : (0 <= z)%Z → no_bar (pretty z) = true.
Proof.
  intros Hz. destruct z as [|p|p]; [done| |lia].
  change (pretty (Z.pos p)) with (pretty (N.pos p)). unfold pretty, pretty_N. case_decide; [done|].
  by apply no_bar_pretty_go.
Qed.

Lemma pretty_Z_pos_inj (x y : Z) : pretty x = pretty y → x = y.
Proof. apply (inj pretty). Qed.

Lemma no_bar_app_bar a s : no_bar (a +:+ "|" +:+ s) = false.
Proof. induction a as [|c a IH]; simpl; [done|]. by rewrite IH, andb_false_r. Qed.

Lemma flowKey_reverse hi : flowKey (reverse hi) = flowKey hi.
Proof.
  destruct hi as [si di sp dp pr]. unfold flowKey, makeFlowKey; simpl.
  repeat case_decide; try done; try lia;
    (assert (si = di) as -> by lia); try done; (assert (sp = dp) as -> by lia); done.
Qed.

(** [cut_bars] peels equal texts field by field. *)
Ltac cut_bars :=
  repeat match goal with
  | H : pretty ?x +:+ "|" +:+ _ = pretty ?y +:+ "|" +:+ _ |- _ =>
      apply no_bar_cut in H as [?%pretty_Z_pos_inj H];
      [|apply no_bar_pretty; word_lia|apply no_bar_pretty; word_lia]
  end.

Lemma flowKey_inj h1 h2 :
  wf_hole h1 → wf_hole h2 → flowKey h1 = flowKey h2 → h1 = h2 ∨ h1 = reverse h2.
Proof.
  destruct h1 as [s1 d1 sp1 dp1 p1], h2 as [s2 d2 sp2 dp2 p2].
  intros (? & ? & ? & ? & Hp1) (? & ? & ? & ? & Hp2). simpl in *.
  unfold flowKey, makeFlowKey, reverse; simpl. intros E.
  destruct (decide (p1 = "icmp")) as [->|N1], (decide (p2 = "icmp")) as [->|N2].
  - destruct Hp1 as [|[|(_ & -> & ->)]]; try done. destruct Hp2 as [|[|(_ & -> & ->)]]; try done.
    repeat case_decide; cut_bars; simplify_eq/=; auto.
  - exfalso. repeat case_decide; cut_bars; apply (f_equal no_bar) in E;
      by rewrite no_bar_app_bar in E.
  - exfalso. repeat case_decide; cut_bars; apply (f_equal no_bar) in E;
      by rewrite no_bar_app_bar in E.
  - repeat case_decide; cut_bars; simplify_eq/=; auto.
Qed.

(** ** The rule base *)

Lemma New_ok : engine_ok New.
Proof. constructor; simpl; intros *; rewrite ?lookup_empty; try done. Qed.

Lemma short_u16 fw n s : engine_ok fw → shortIdByNodeId fw !! n = Some s → is_u16 s.
Proof. intros Hk Hs. pose proof (ek_short _ Hk _ _ Hs). pose proof (ek_u16 _ Hk). word_lia. Qed.

Lemma key_inj fw i j s t :
  engine_ok fw → wf_index i → wf_index j →
  shortIdByNodeId fw !! NodeID i = Some s → shortIdByNodeId fw !! NodeID j = Some t →
  makeGlobalKey s (RuleID i) = makeGlobalKey t (RuleID j) → i = j.
Proof.
  intros Hk [_ Hi] [_ Hj] Hs Ht E.
  apply makeGlobalKey_inj in E as [-> E]; eauto using short_u16.
  rewrite !Z.mod_small in E by done. pose proof (ek_inj _ Hk _ _ _ Hs Ht).
  destruct i, j; simpl in *; congruence.
Qed.

Lemma match_permits fw hi k r :
  rulesByID fw !! k = Some r → Address r = DstIP hi →
  (if decide (Protocol hi = "icmp") then icmp_match fw hi k else port_match fw hi k) = permits r hi.
Proof.
  intros Hr Ha. unfold icmp_match, port_match, permits. rewrite Hr. simpl.
  rewrite (bool_decide_eq_true_2 _ Ha). simpl.
  destruct (decide (Protocol hi = "icmp")) as [Hi|Hi].
  - rewrite (bool_decide_eq_true_2 _ Hi). simpl. by rewrite andb_true_r.
  - rewrite (bool_decide_eq_false_2 _ Hi). simpl.
    destruct (TargetAddress r); repeat case_decide; repeat case_bool_decide; simpl; try tauto; congruence.
Qed.

Lemma rulesAllow_iff fw hi :
  engine_ok fw →
  rulesAllow fw hi = true ↔ ∃ k r, rulesByID fw !! k = Some r ∧ permits r hi = true.
Proof.
  intros Hk. unfold rulesAllow. split.
  - destruct (rulesByAddr fw !! DstIP hi) as [ids|] eqn:Ea; [|done]. intros H.
    destruct (ek_addr _ Hk _ _ Ea) as (_ & _ & Hids).
    assert (∃ k, k ∈ ids ∧ (if decide (Protocol hi = "icmp") then icmp_match fw hi k
                            else port_match fw hi k) = true) as (k & Hin & Hm).
    { case_decide; apply existsb_exists in H as (k & Hin%list_elem_of_In & Hm); eauto. }
    destruct (Hids k Hin) as (r & Hr & Har). exists k, r. by rewrite <- (match_permits fw hi k r).
  - intros (k & r & Hr & Hp). destruct (ek_id _ Hk _ _ Hr) as (ids & Ea & Hin).
    assert (Har : Address r = DstIP hi).
    { unfold permits in Hp. destruct (bool_decide (Address r = DstIP hi)) eqn:E; [|done].
      by apply bool_decide_eq_true in E. }
    rewrite Har in Ea. rewrite Ea. rewrite <- (match_permits fw hi k r) in Hp by done.
    case_decide; apply existsb_exists; exists k; by rewrite <- list_elem_of_In.
Qed.

Lemma rule_at_ids fw k r :
  engine_ok fw → rulesByID fw !! k = Some r → rule_at fw (index r) = Some r.
Proof. intros Hk Hr. destruct (ek_key _ Hk _ _ Hr) as (s & Hs & ->). unfold rule_at. by rewrite Hs. Qed.

Lemma getOrCreateShortID_spec fw n s fw1 :
  engine_ok fw → has_room fw n → getOrCreateShortID fw n = (s, fw1) →
  engine_ok fw1 ∧ shortIdByNodeId fw1 !! n = Some s ∧ rulesByID fw1 = rulesByID fw ∧
  rulesByAddr fw1 = rulesByAddr fw ∧ holes fw1 = holes fw ∧
  (∀ j, rule_at fw1 j = rule_at fw j).
Proof.
  intros Hk Hroom. unfold getOrCreateShortID.
  destruct (shortIdByNodeId fw !! n) as [s0|] eqn:En; intros [= <- <-]; [done|].
  destruct Hroom as [[? ?]|Hroom]; [congruence|].
  pose proof (ek_count _ Hk) as Hc. pose proof (ek_u16 _ Hk) as Hu.
  assert (En1 : u16 (nextShortID fw + 1) = (nextShortID fw + 1)%Z) by (apply u16_small; word_lia).
  rewrite En1. simpl. rewrite lookup_insert_eq. split_and!; try done.
  - constructor; simpl; try apply Hk.
    + intros k r Hr. destruct (ek_key _ Hk k r Hr) as (t & Ht & ->). exists t. split; [|done].
      by rewrite lookup_insert_ne by congruence.
    + intros m t. rewrite lookup_insert. case_decide; [intros [= <-]; word_lia|].
      intros Hm%(ek_short _ Hk). lia.
    + intros n1 n2 t. rewrite !lookup_insert. repeat case_decide; try congruence.
      * intros [= <-] H2%(ek_short _ Hk). lia.
      * intros H2%(ek_short _ Hk) [= <-]. lia.
      * apply (ek_inj _ Hk).
    + rewrite map_size_insert_None by done. lia.
    + word_lia.
  - intros j. unfold rule_at. simpl. rewrite lookup_insert. case_decide as Hj; [|done].
    rewrite <- Hj, En. simpl. destruct (rulesByID fw !! _) as [r|] eqn:Er; [|done]. exfalso.
    destruct (ek_key _ Hk _ _ Er) as (t & Ht & E). pose proof (ek_short _ Hk _ _ Ht).
    apply makeGlobalKey_inj in E as [E _]; [lia|word_lia|by eapply short_u16].
Qed.

Lemma insert_rule_ok fw k idx s r :
  engine_ok fw → rulesByID fw !! k = None → shortIdByNodeId fw !! NodeID idx = Some s →
  k = makeGlobalKey s (RuleID idx) → index r = idx →
  engine_ok (set_rules fw
    (<[Address r := default [] (rulesByAddr fw !! Address r) ++ [k]]> (rulesByAddr fw))
    (<[k := r]> (rulesByID fw))).
Proof.
  intros Hk Hn Hs Ek Ei. constructor; simpl; try apply Hk.
  - intros a ids. rewrite lookup_insert. case_decide as Ha.
    + intros [= <-]. subst a. split; [by destruct (default _ _)|].
      destruct (rulesByAddr fw !! Address r) as [l|] eqn:El; simpl.
      * destruct (ek_addr _ Hk _ _ El) as (_ & HN & Hl). split.
        -- apply NoDup_app. split_and!; [done| |apply NoDup_singleton].
           intros x Hx ->%list_elem_of_singleton. destruct (Hl k Hx) as (r' & Hr' & _). congruence.
        -- intros x [Hx| ->%list_elem_of_singleton]%elem_of_app; [|rewrite lookup_insert_eq; eauto].
           destruct (Hl x Hx) as (r' & Hr' & Ha'). exists r'. split; [|done].
           by rewrite lookup_insert_ne by congruence.
      * split; [apply NoDup_singleton|]. intros x ->%list_elem_of_singleton.
        rewrite lookup_insert_eq. eauto.
    + intros Hl. destruct (ek_addr _ Hk _ _ Hl) as (Hne & HN & Hx). split_and!; [done..|].
      intros x Hin. destruct (Hx x Hin) as (r' & Hr' & Ha'). exists r'.
      by rewrite lookup_insert_ne by congruence.
  - intros k' r'. rewrite lookup_insert. case_decide as Hkk.
    + intros [= <-]. rewrite lookup_insert_eq. eexists. split; [done|]. subst k'. set_solver.
    + intros Hr'. destruct (ek_id _ Hk _ _ Hr') as (ids & Hi & Hin).
      rewrite lookup_insert. case_decide as Ha; [|eauto]. eexists. split; [done|].
      rewrite Ha, Hi. simpl. set_solver.
  - intros k' r'. rewrite lookup_insert. case_decide as Hkk; [|apply (ek_key _ Hk)].
    intros [= <-]. rewrite Ei. exists s. split; congruence.
Qed.

Lemma insertRule_spec fw s idx r ok fw' :
  engine_ok fw → wf_index idx → shortIdByNodeId fw !! NodeID idx = Some s → insertRule fw s idx r = (ok, fw') →
  engine_ok fw' ∧ holes fw' = holes fw ∧ shortIdByNodeId fw' = shortIdByNodeId fw ∧ ok = bool_decide (rule_at fw idx = None) ∧
  (∀ j, wf_index j →
     rule_at fw' j = if decide (j = idx ∧ ok = true) then Some (with_index idx r) else rule_at fw j).
Proof.
  intros Hk Hi Hs. unfold insertRule.
  assert (Hat : rulesByID fw !! makeGlobalKey s (RuleID idx) = rule_at fw idx) by (unfold rule_at; by rewrite Hs).
  rewrite Hat. destruct (rule_at fw idx) as [r0|] eqn:E0; intros [= <- <-].
  - split_and!; [done..|by rewrite bool_decide_eq_false_2 by done|].
    intros j Hj. rewrite decide_False by naive_solver. done.
  - split_and!; [|done..|by rewrite bool_decide_eq_true_2 by done|].
    + eapply (insert_rule_ok fw _ idx s (with_index idx r)); eauto.
    + intros j Hj. unfold rule_at. simpl.
      destruct (shortIdByNodeId fw !! NodeID j) as [t|] eqn:Et; simpl.
      * rewrite lookup_insert. case_decide as Ek.
        -- rewrite decide_True; [done|]. split; [|done]. symmetry. by eapply key_inj.
        -- rewrite decide_False; [done|]. intros [-> _]. congruence.
      * rewrite decide_False; [done|]. intros [-> _]. congruence.
Qed.

Lemma AddRule_spec fw idx r ok fw' :
  engine_ok fw → has_room fw (NodeID idx) → wf_index idx → AddRule fw idx r = (ok, fw') →
  engine_ok fw' ∧ holes fw' = holes fw ∧ ok = bool_decide (rule_at fw idx = None) ∧
  (∀ j, wf_index j →
     rule_at fw' j = if decide (j = idx ∧ ok = true) then Some (with_index idx r) else rule_at fw j).
Proof.
  intros Hk Hroom Hi. unfold AddRule. rewrite decide_False by apply Hi.
  destruct (getOrCreateShortID fw (NodeID idx)) as [s fw1] eqn:Eg. intros E.
  destruct (getOrCreateShortID_spec _ _ _ _ Hk Hroom Eg) as (Hk1 & Hs & _ & _ & Hh & Hra).
  destruct (insertRule_spec fw1 s idx r ok fw' Hk1 Hi Hs E) as (Hk' & Hh' & _ & Hok & Hr).
  split_and!; [done|congruence|by rewrite Hok, Hra|]. intros j Hj. by rewrite Hr, Hra.
Qed.

Lemma remove_rule_ok fw k r :
  engine_ok fw → rulesByID fw !! k = Some r →
  engine_ok (set_rules fw
    (if decide (remove_first k (default [] (rulesByAddr fw !! Address r)) = [])
     then delete (Address r) (rulesByAddr fw)
     else <[Address r := remove_first k (default [] (rulesByAddr fw !! Address r))]> (rulesByAddr fw))
    (delete k (rulesByID fw))).
Proof.
  intros Hk Hr. destruct (ek_id _ Hk _ _ Hr) as (ids & Hi & Hin). rewrite Hi. simpl.
  destruct (ek_addr _ Hk _ _ Hi) as (_ & HN & Hids).
  assert (Hother : ∀ a l, a ≠ Address r → rulesByAddr fw !! a = Some l →
    l ≠ [] ∧ NoDup l ∧ ∀ x, x ∈ l → ∃ r', delete k (rulesByID fw) !! x = Some r' ∧ Address r' = a).
  { intros a l Ha Hl. destruct (ek_addr _ Hk _ _ Hl) as (? & ? & Hx). split_and!; [done..|].
    intros x Hxin. destruct (Hx x Hxin) as (r' & Hr' & Ha'). exists r'. split; [|done].
    rewrite lookup_delete_ne; [done|]. congruence. }
  constructor; simpl; try apply Hk.
  - intros a l. case_decide as Hl; [rewrite lookup_delete|rewrite lookup_insert];
      case_decide as Ha; try done; try (intros ?; apply Hother; congruence).
    intros [= <-]. subst a. split_and!; [done|by apply remove_first_NoDup|].
    intros x [Hx Hxk]%elem_of_remove_first; [|done]. destruct (Hids x Hx) as (r' & Hr' & Ha').
    exists r'. by rewrite lookup_delete_ne.
  - intros k' r'. rewrite lookup_delete. case_decide as Hkk; [done|]. intros Hr'.
    destruct (ek_id _ Hk _ _ Hr') as (l & Hl & Hlin).
    assert (Address r' = Address r → k' ∈ remove_first k ids).
    { intros E. rewrite E, Hi in Hl. simplify_eq. by apply elem_of_remove_first. }
    case_decide as Hl0; [rewrite lookup_delete|rewrite lookup_insert]; case_decide; eauto.
    exfalso. rewrite Hl0 in *. set_solver.
  - intros k' r'. rewrite lookup_delete. case_decide; [done|]. apply (ek_key _ Hk).
Qed.

Lemma deleteRule_spec fw s idx ok fw' :
  engine_ok fw → wf_index idx → shortIdByNodeId fw !! NodeID idx = Some s → deleteRule fw s idx = (ok, fw') →
  engine_ok fw' ∧ holes fw' = holes fw ∧ shortIdByNodeId fw' = shortIdByNodeId fw ∧ ok = bool_decide (is_Some (rule_at fw idx)) ∧
  (∀ j, wf_index j → rule_at fw' j = if decide (j = idx) then None else rule_at fw j).
Proof.
  intros Hk Hi Es. unfold deleteRule.
  assert (Hat : rulesByID fw !! makeGlobalKey s (RuleID idx) = rule_at fw idx)
    by (unfold rule_at; by rewrite Es).
  rewrite Hat. destruct (rule_at fw idx) as [r|] eqn:Er; intros [= <- <-].
  2:{ split_and!; try done. intros j _. case_decide; congruence. }
  split_and!; [by apply remove_rule_ok|done..|by rewrite bool_decide_eq_true_2 by eauto|].
  intros j Hj. unfold rule_at. simpl.
  destruct (shortIdByNodeId fw !! NodeID j) as [t|] eqn:Et; simpl; [|by case_decide].
  rewrite lookup_delete. case_decide as Ek.
  - rewrite decide_True; [done|]. symmetry. by eapply key_inj.
  - rewrite decide_False; [done|]. intros ->. congruence.
Qed.

Lemma unknown_node fw idx : getShortID fw (NodeID idx) = None → rule_at fw idx = None.
Proof. unfold getShortID, rule_at. by intros ->. Qed.

Lemma RemoveRule_locked_spec fw idx ok fw' :
  engine_ok fw → wf_index idx → RemoveRule_locked fw idx = (ok, fw') →
  engine_ok fw' ∧ holes fw' = holes fw ∧ ok = bool_decide (is_Some (rule_at fw idx)) ∧
  (∀ j, wf_index j → rule_at fw' j = if decide (j = idx) then None else rule_at fw j).
Proof.
  intros Hk Hi. unfold RemoveRule_locked. destruct (getShortID fw (NodeID idx)) as [s|] eqn:Es.
  - intros E. by destruct (deleteRule_spec fw s idx ok fw' Hk Hi Es E) as (? & ? & _ & ? & ?).
  - intros [= <- <-]. rewrite (unknown_node _ _ Es). split_and!; try done. intros j _. case_decide as Hj; [|done].
    rewrite Hj. by apply unknown_node.
Qed.

(** ** Holes *)

Lemma foldl_delete_lookup {A} (f : string * A → bool) l (m : gmap string A) k :
  foldl (λ hs kv, if f kv then hs else delete kv.1 hs) m l !! k =
  if existsb (λ kv, bool_decide (kv.1 = k) && negb (f kv)) l then None else m !! k.
Proof.
  revert m. induction l as [|[k' v] l IH]; intros m; simpl; [done|]. rewrite IH.
  destruct (f (k', v)); simpl; [by rewrite andb_false_r|]. rewrite andb_true_r, lookup_delete.
  case_bool_decide; subst; simpl; [rewrite decide_True by done|rewrite decide_False by done];
    by case_match.
Qed.

Lemma rulesAllow_set_holes fw h hi : rulesAllow (set_holes fw h) hi = rulesAllow fw hi.
Proof. done. Qed.

Lemma dropUnauthorizedHoles_lookup `{MapRange} fw k :
  holes (dropUnauthorizedHoles fw) !! k =
  h ← holes fw !! k; if rulesAllow fw (info h) then Some h else None.
Proof.
  simpl. rewrite (foldl_delete_lookup (λ kv, rulesAllow fw (info kv.2))).
  destruct (existsb _ _) eqn:E.
  - apply existsb_exists in E as ([k' h] & Hin%list_elem_of_In%elem_of_map_range & Hb).
    simpl in Hb. apply andb_true_iff in Hb as [->%bool_decide_eq_true Hb]. rewrite Hin. simpl.
    by destruct (rulesAllow fw (info h)).
  - destruct (holes fw !! k) as [h|] eqn:Eh; [|done]. simpl.
    destruct (rulesAllow fw (info h)) eqn:Ea; [done|]. exfalso.
    apply not_true_iff_false in E. destruct E. apply existsb_exists. exists (k, h).
    split; [by apply list_elem_of_In, elem_of_map_range|]. simpl.
    by rewrite bool_decide_eq_true_2, Ea by done.
Qed.

Lemma engine_ok_set_holes fw h :
  engine_ok fw → (∀ k x, h !! k = Some x → k = flowKey (info x)) → engine_ok (set_holes fw h).
Proof. intros [] ?. by constructor. Qed.

Lemma dropUnauthorizedHoles_ok `{MapRange} fw :
  engine_ok fw →
  engine_ok (dropUnauthorizedHoles fw) ∧ holes_authorized (dropUnauthorizedHoles fw) ∧
  (∀ j, rule_at (dropUnauthorizedHoles fw) j = rule_at fw j).
Proof.
  intros Hk. split_and!; [|intros k x Hx|done].
  - apply engine_ok_set_holes; [done|]. intros k x Hx.
    pose proof (dropUnauthorizedHoles_lookup fw k) as E. simpl in E. rewrite E in Hx.
    destruct (holes fw !! k) as [h|] eqn:Eh; simplify_eq/=. case_match; simplify_eq.
    by apply (ek_hole _ Hk).
  - rewrite dropUnauthorizedHoles_lookup in Hx. destruct (holes fw !! k) as [h|]; simplify_eq/=.
    destruct (rulesAllow fw (info h)) eqn:Ea; by simplify_eq/=.
Qed.

Lemma RuleCheck_ok now fw hi : engine_ok fw → engine_ok (RuleCheck now fw hi).2.
Proof.
  intros Hk. unfold RuleCheck. destruct (holes fw !! flowKey hi); [case_decide|]; simpl; try done.
  apply engine_ok_set_holes; [done|]. intros k x [_ Hx]%lookup_delete_Some. by apply (ek_hole _ Hk).
Qed.

Lemma Holepunch_ok now fw hi d : engine_ok fw → engine_ok (Holepunch now fw hi d).
Proof.
  intros Hk. apply engine_ok_set_holes; [done|]. intros k x. rewrite lookup_insert.
  case_decide; [by intros [= <-]|]. apply (ek_hole _ Hk).
Qed.

Lemma RemoveRule_spec `{MapRange} fw idx ok fw' :
  engine_ok fw → wf_index idx → RemoveRule fw idx = (ok, fw') →
  engine_ok fw' ∧ ok = bool_decide (is_Some (rule_at fw idx)) ∧
  (∀ j, wf_index j → rule_at fw' j = if decide (j = idx) then None else rule_at fw j) ∧
  (ok = true → holes_authorized fw') ∧
  (∀ k h, holes fw' !! k = Some h → holes fw !! k = Some h).
Proof.
  intros Hk Hi. unfold RemoveRule. destruct (RemoveRule_locked fw idx) as [b fw1] eqn:El.
  destruct (RemoveRule_locked_spec _ _ _ _ Hk Hi El) as (Hk1 & Hh & Hb & Hra).
  destruct b; intros [= <- <-]; [|split_and!; try done; congruence].
  destruct (dropUnauthorizedHoles_ok fw1 Hk1) as (Hk2 & Hau & Hra2).
  split_and!; try done. intros k h. rewrite dropUnauthorizedHoles_lookup, Hh.
  destruct (holes fw !! k); simpl; [case_match; naive_solver|done].
Qed.

(** A removal goes by the low bits of the number, whatever the number is. *)
Lemma RemoveRule_low `{MapRange} fw idx : RemoveRule fw idx = RemoveRule fw (low_index idx).
Proof.
  unfold RemoveRule, RemoveRule_locked, deleteRule, low_index. cbn [NodeID RuleID].
  destruct (getShortID fw (NodeID idx)); [by rewrite makeGlobalKey_low|done].
Qed.

(** ** Theorems *)

(** C33: [AddRule] implements insertion into the abstract rule base.  From a
    consistent engine, with a usable index and room for its node, the call keeps
    the engine consistent, answers [true] exactly when no rule had the index,
    stores the rule under its index only then, and changes no other rule and no
    hole. *)
Theorem add_rule_refines fw idx r ok fw' :
  engine_ok fw → has_room fw (NodeID idx) → wf_index idx → AddRule fw idx r = (ok, fw') →
  engine_ok fw' ∧ holes fw' = holes fw ∧ (ok = true ↔ rule_at fw idx = None) ∧
  (∀ j, wf_index j →
     rule_at fw' j = if decide (j = idx ∧ ok = true) then Some (with_index idx r) else rule_at fw j).
Proof.
  intros Hk Hr Hi E. destruct (AddRule_spec _ _ _ _ _ Hk Hr Hi E) as (? & ? & -> & ?).
  split_and!; try done. apply bool_decide_eq_true.
Qed.

(** [RemoveRule] implements deletion from the abstract rule base, and a
    successful removal leaves only holes whose recorded flow some remaining rule
    permits. *)
Theorem remove_rule_refines `{MapRange} fw idx ok fw' :
  engine_ok fw → wf_index idx → RemoveRule fw idx = (ok, fw') →
  engine_ok fw' ∧ (ok = true ↔ is_Some (rule_at fw idx)) ∧
  (∀ j, wf_index j → rule_at fw' j = if decide (j = idx) then None else rule_at fw j) ∧
  (ok = true → holes_authorized fw').
Proof.
  intros Hk Hi E. destruct (RemoveRule_spec _ _ _ _ Hk Hi E) as (? & -> & ? & ? & _).
  split_and!; try done. apply bool_decide_eq_true.
Qed.

(** C18: the indexed rule scan decides the declarative rule semantics: a packet is
    allowed by the rules exactly when some stored rule permits it (destination
    address, sender, protocol and destination port range; ICMP by addresses
    only). *)
Theorem rules_allow_iff_permitted fw hi :
  engine_ok fw →
  rulesAllow fw hi = true ↔ ∃ idx r, rule_at fw idx = Some r ∧ permits r hi = true.
Proof.
  intros Hk. rewrite rulesAllow_iff by done. split.
  - intros (k & r & Hr & Hp). exists (index r), r. eauto using rule_at_ids.
  - intros (idx & r & Hr & Hp). unfold rule_at in Hr.
    destruct (shortIdByNodeId fw !! NodeID idx) as [s|]; simplify_eq/=. eauto.
Qed.

(** the stateful check.  [RuleCheck] accepts a packet exactly when an
    unexpired hole exists for its flow or the rules allow it; it changes nothing
    but the removal of an expired hole of that flow. *)
Theorem rule_check_decides now fw hi :
  ((RuleCheck now fw hi).1 = true ↔
     (∃ h, holes fw !! flowKey hi = Some h ∧ (now < expire h)%Z) ∨ rulesAllow fw hi = true) ∧
  (∀ k, holes (RuleCheck now fw hi).2 !! k =
     h ← holes fw !! k;
     if decide (k = flowKey hi ∧ expire h <= now)%Z then None else Some h).
Proof.
  unfold RuleCheck. destruct (holes fw !! flowKey hi) as [h|] eqn:Eh.
  - case_decide as Hx; simpl.
    + split; [naive_solver|]. intros k. destruct (holes fw !! k) as [h'|] eqn:Ek; [|done]. simpl.
      rewrite decide_False; [done|]. intros [-> ?]. simplify_eq. lia.
    + rewrite rulesAllow_set_holes. split.
      { split; [by right|]. intros [(h' & ? & ?)|?]; [simplify_eq; lia|done]. }
      intros k. rewrite lookup_delete. case_decide as Hk; subst.
      * rewrite Eh. simpl. rewrite decide_True; [done|]. split; [done|lia].
      * destruct (holes fw !! k); simpl; [|done]. rewrite decide_False by naive_solver. done.
  - simpl. split; [naive_solver|]. intros k. destruct (holes fw !! k) as [h'|] eqn:Ek; [|done].
    simpl. rewrite decide_False; [done|]. intros [-> ?]. congruence.
Qed.

(** flow keys identify flows.  The textual key of a flow is the key of the
    reverse flow, and two flows of the packet parser with the same key are equal
    or reverses of each other: no two unrelated flows share a hole. *)
Theorem flow_key_identifies_flow h1 h2 :
  wf_hole h1 → wf_hole h2 → flowKey h1 = flowKey h2 ↔ h1 = h2 ∨ h1 = reverse h2.
Proof.
  intros H1 H2. split; [by apply flowKey_inj|].
  intros [->| ->]; [done|apply flowKey_reverse].
Qed.

(** C5: removing a rule revokes it.  After a successful [RemoveRule] with no
    packet in flight, a packet passes [RuleCheck] only if a remaining rule permits
    it or permits its reverse direction: no hole outlives the rules that
    justified it. *)
Theorem remove_rule_revokes `{MapRange} now fw idx fw' hi :
  engine_ok fw → holes_wf fw → wf_index idx → wf_hole hi →
  RemoveRule fw idx = (true, fw') → (RuleCheck now fw' hi).1 = true →
  ∃ j r, rule_at fw' j = Some r ∧ (permits r hi = true ∨ permits r (reverse hi) = true).
Proof.
  intros Hk Hw Hi Hhi E Hc.
  destruct (RemoveRule_spec _ _ _ _ Hk Hi E) as (Hk' & _ & _ & Hau & Hsub).
  specialize (Hau eq_refl).
  assert (Hcase : rulesAllow fw' hi = true ∨ rulesAllow fw' (reverse hi) = true).
  { unfold RuleCheck in Hc. destruct (holes fw' !! flowKey hi) as [h|] eqn:Eh; [|by left].
    case_decide; [|by left]. pose proof (Hau _ _ Eh) as Ha. pose proof (ek_hole _ Hk' _ _ Eh) as Ek.
    apply flowKey_inj in Ek as [-> | ->]; [by left| |done|by eapply Hw, Hsub].
    right. by destruct (info h). }
  destruct Hcase as [Ha|Ha]; apply (rulesAllow_iff _ _ Hk') in Ha as (k & r & Hr & Hp);
    exists (index r), r; split; eauto using rule_at_ids.
Qed.

(** an accepted flow is open in both directions until its hole expires. *)
Theorem holepunch_opens_both_ways now fw hi d now' :
  (now' < now + d)%Z →
  (RuleCheck now' (Holepunch now fw hi d) hi).1 = true ∧
  (RuleCheck now' (Holepunch now fw hi d) (reverse hi)).1 = true.
Proof.
  intros Hd. unfold RuleCheck. rewrite flowKey_reverse. simpl. rewrite lookup_insert_eq. simpl.
  destruct (decide (now' < now + d)%Z); [done|lia].
Qed.

(** What the calls under way know of the engine. *)
Definition thread_ok (fw : engine) (t : thread) : Prop :=
  match t with
  | Adding s idx _ | Removing s idx => wf_index idx ∧ shortIdByNodeId fw !! NodeID idx = Some s
  | _ => True
  end.

Record shared_ok (st : shared) : Prop := {
  sk_fw : engine_ok (sh_fw st);
  sk_threads : Forall (thread_ok (sh_fw st)) (sh_threads st);
  sk_rules j : wf_index j → rule_at (sh_fw st) j = rules_after (sh_log st) j;
  sk_wf k r : rulesByID (sh_fw st) !! k = Some r → wf_index (index r);
  sk_answers : answers_ok (sh_log st) }.

(** One section: the engine stays consistent, its nodes only grow, and the rules
    change as the log says. *)
Record section_ok (fw fw' : engine) (ts : list thread) (cs l : list change) : Prop := {
  se_fw : engine_ok fw';
  se_nodes : shortIdByNodeId fw ⊆ shortIdByNodeId fw';
  se_threads : Forall (thread_ok fw') ts;
  se_rules j : wf_index j → rule_at fw' j = rules_after (cs ++ l) j;
  se_wf k r : rulesByID fw' !! k = Some r → wf_index (index r);
  se_answers : answers_ok (cs ++ l) }.

Lemma thread_ok_mono fw fw' t : shortIdByNodeId fw ⊆ shortIdByNodeId fw' → thread_ok fw t → thread_ok fw' t.
Proof. intros Hs. destruct t; simpl; try done; intros [Hi Hn]; (split; [done|by eapply lookup_weaken]). Qed.

(** A section that leaves the rules and the nodes alone. *)
Lemma section_holes st ts h :
  shared_ok st → (∀ k x, h !! k = Some x → k = flowKey (info x)) → Forall (thread_ok (sh_fw st)) ts →
  section_ok (sh_fw st) (set_holes (sh_fw st) h) ts [] (sh_log st).
Proof. intros Hst Hh Ht. constructor; [by apply engine_ok_set_holes; [apply Hst|]|done|done|apply Hst|apply Hst|apply Hst]. Qed.

Lemma section_same st ts :
  shared_ok st → Forall (thread_ok (sh_fw st)) ts → section_ok (sh_fw st) (sh_fw st) ts [] (sh_log st).
Proof. intros Hst Ht. constructor; [apply Hst|done|done|apply Hst|apply Hst|apply Hst]. Qed.

Lemma starts_ok st fw' ts cs : shared_ok st → starts (sh_fw st) fw' ts cs → section_ok (sh_fw st) fw' ts cs (sh_log st).
Proof.
  intros Hst. pose proof (sk_fw _ Hst) as Hk. intros [idx r s fw1 Hroom Hi E|idx s Hi E|idx Hi E|now hi|hi _].
  - destruct (getOrCreateShortID_spec _ _ _ _ Hk Hroom E) as (Hk1 & Hs & Er & _ & _ & Hra).
    constructor; [done| |by apply Forall_singleton|intros j Hj; rewrite Hra; by apply Hst|rewrite Er; apply Hst|apply Hst].
    unfold getOrCreateShortID in E. destruct (shortIdByNodeId (sh_fw st) !! NodeID idx) eqn:En; injection E as _ <-; [done|].
    by apply insert_subseteq.
  - apply section_same; [done|]. by apply Forall_singleton.
  - constructor; [done|done|done|apply Hst|apply Hst|]. simpl. split; [|apply Hst].
    rewrite <- (sk_rules _ Hst) by done. by rewrite unknown_node.
  - apply section_same; [done|]. apply Forall_singleton. unfold loaded. destruct (_ !! _); [|done]. by case_decide.
  - apply section_same; [done|]. by apply Forall_singleton.
Qed.

Lemma advances_ok st t fw' ts cs :
  shared_ok st → thread_ok (sh_fw st) t → advances (sh_fw st) t fw' ts cs → section_ok (sh_fw st) fw' ts cs (sh_log st).
Proof.
  intros Hst Ht Hadv. pose proof (sk_fw _ Hst) as Hk.
  assert (Hdel : ∀ k j x, delete k (holes (sh_fw st)) !! j = Some x → j = flowKey (info x)).
  { intros k j x [_ Hx]%lookup_delete_Some. by apply (ek_hole _ Hk). }
  revert Ht. destruct Hadv as [s idx r ok fw1 E|s idx ok fw1 E| |seen todo k h _ _|seen todo k _|seen|seen todo k h|seen todo k|hi|hi|now hi d];
    intros Ht.
  - destruct Ht as [Hi Hs]. destruct (insertRule_spec _ _ _ _ _ _ Hk Hi Hs E) as (Hk1 & _ & En & Hok & Hra).
    constructor; [done|by rewrite En|done| | |].
    + intros j Hj. rewrite Hra by done. simpl. destruct ok.
      * destruct (decide (j = idx)) as [->|Hne]; [by rewrite decide_True|]. rewrite decide_False by (by intros []). by apply Hst.
      * rewrite decide_False by (by intros [_ ?]). by apply Hst.
    + intros k x. unfold insertRule in E. destruct (rulesByID (sh_fw st) !! _); injection E as _ <-; [apply Hst|].
      simpl. intros [[_ <-]|[_ Hx]]%lookup_insert_Some; [exact Hi|by eapply (sk_wf _ Hst)].
    + simpl. split; [|apply Hst]. by rewrite Hok, (sk_rules _ Hst).
  - destruct Ht as [Hi Hs]. destruct (deleteRule_spec _ _ _ _ _ Hk Hi Hs E) as (Hk1 & _ & En & Hok & Hra).
    constructor; [done|by rewrite En|by destruct ok; [apply Forall_singleton|]| | |].
    + intros j Hj. rewrite Hra by done. simpl. destruct ok.
      * case_decide; [done|]. by apply Hst.
      * symmetry in Hok. apply bool_decide_eq_false, eq_None_not_Some in Hok. case_decide as Hc; [|by apply Hst].
        rewrite Hc. by rewrite <- (sk_rules _ Hst).
    + intros k x. unfold deleteRule in E. destruct (rulesByID (sh_fw st) !! _); injection E as _ <-; [|apply Hst].
      simpl. intros [_ Hx]%lookup_delete_Some. by eapply (sk_wf _ Hst).
    + simpl. split; [|apply Hst]. by rewrite Hok, (sk_rules _ Hst).
  - apply section_same; [done|]. by apply Forall_singleton.
  - apply section_same; [done|]. by apply Forall_singleton.
  - apply section_same; [done|]. by apply Forall_singleton.
  - by apply section_same.
  - apply section_same; [done|]. apply Forall_singleton. by destruct (rulesAllow _ _).
  - apply section_holes; [done|apply Hdel|]. by apply Forall_singleton.
  - apply section_holes; [done|apply Hdel|]. by apply Forall_singleton.
  - apply section_same; [done|]. destruct (rulesAllow _ _); [by apply Forall_singleton|done].
  - apply section_holes; [done| |done]. intros k x. rewrite lookup_insert. case_decide; [by intros [= <-]|]. apply (ek_hole _ Hk).
Qed.

Lemma fw_step_ok x y : fw_step x y → shared_ok x → shared_ok y.
Proof.
  intros [fw T l fw' ts cs H|fw T1 t T2 l fw' ts cs H] Hx; pose proof (sk_threads _ Hx) as HT; simpl in HT.
  - destruct (starts_ok _ _ _ _ Hx H) as [H1 H2 H3 H4 H5 H6]. constructor; simpl in *; try done.
    apply Forall_app. split; [done|]. eapply Forall_impl; [exact HT|]. intros t. by apply thread_ok_mono.
  - apply Forall_app in HT as [HT1 [Ht HT2]%Forall_cons].
    destruct (advances_ok _ _ _ _ _ Hx Ht H) as [H1 H2 H3 H4 H5 H6]. constructor; simpl in *; try done.
    rewrite !Forall_app. split; [|split; [done|]]; (eapply Forall_impl; [eassumption|]; intros t'; by apply thread_ok_mono).
Qed.

(** C32: the engine under concurrency.  Let any number of [AddRule], [RemoveRule],
    [RuleCheck] and [Holepunch] calls run at the same time, section by section in any
    order: the two locks of a change, the sweep of a removal hole by hole, packets
    between their check and their punch, packets of the mesh (rule numbers below 2^48
    and at most 65535 nodes).  Then the index structures stay consistent; the changes
    of the rules are linearizable, in the order in which they held the rule lock: the
    rules are those that the changes leave when they run one after the other, and each
    call was answered as in that order; and the scan of the rules that a check or a
    sweep makes allows a flow exactly when a rule of that moment permits it. *)
Theorem firewall_interleaving_ok st :
  rtc fw_step (mkShared New [] []) st →
  engine_ok (sh_fw st) ∧ answers_ok (sh_log st) ∧
  (∀ j, wf_index j → rule_at (sh_fw st) j = rules_after (sh_log st) j) ∧
  ∀ hi, rulesAllow (sh_fw st) hi = true ↔ ∃ j r, wf_index j ∧ rules_after (sh_log st) j = Some r ∧ permits r hi = true.
Proof.
  intros Hs. assert (H : shared_ok st).
  { revert Hs. apply (rtc_ind_r shared_ok); [|intros x y _ Hxy Hx; by eapply fw_step_ok].
    constructor; simpl; [apply New_ok|done|done|by intros k r; rewrite lookup_empty|done]. }
  destruct H as [H1 _ H3 H4 H5]. split_and!; [done..|]. intros hi. rewrite rulesAllow_iff by done. split.
  - intros (k & r & Hr & Hp). exists (index r), r. split; [by eapply H4|]. split; [|done]. rewrite <- H3 by by eapply H4.
    by eapply rule_at_ids.
  - intros (j & r & Hj & Hr & Hp). rewrite <- H3 in Hr by done. unfold rule_at in Hr.
    destruct (shortIdByNodeId (sh_fw st) !! NodeID j) as [s|]; simplify_eq/=. eauto.
Qed.

(** A flow and two rules for concrete runs. *)
Definition demo_flow : HoleInfo := mkHoleInfo 100 200 5000 443 "tcp".
Definition demo_keep : PortRuleIndex := mkIndex "node" 1.
Definition demo_drop : PortRuleIndex := mkIndex "node" 2.
Definition demo_rule_keep : PortRule := mkRule demo_keep 200 None "tcp" 443 None.
Definition demo_rule_drop : PortRule := mkRule demo_drop 201 None "tcp" 80 None.
Definition demo_fw1 : engine := (AddRule New demo_keep demo_rule_keep).2.
Definition demo_fw2 : engine := (AddRule demo_fw1 demo_drop demo_rule_drop).2.

(** the window between check and punch.  A packet that passes [RuleCheck]
    before its only rule is removed and punches its hole after the sweep leaves a
    hole no rule justifies: the flow stays open although the rule base is
    empty. *)
Theorem removal_can_miss_packet_in_flight :
  ∃ st, rtc fw_step (mkShared New [] []) st ∧ sh_threads st = [] ∧
    rulesByID (sh_fw st) = ∅ ∧ (RuleCheck 2 (sh_fw st) demo_flow).1 = true.
Proof.
  set (fw0 := (getOrCreateShortID New "node").2). set (fw2 := (deleteRule demo_fw1 1 demo_keep).2).
  exists (mkShared (Holepunch 1 fw2 demo_flow 60) [] [Removed demo_keep true; Added demo_keep demo_rule_keep true]).
  split; [|vm_compute; by split_and!].
  eapply rtc_l; [apply (step_start New [] [] fw0 [Adding 1 demo_keep demo_rule_keep] [])|].
  { apply start_add; [right; vm_compute; reflexivity|by vm_compute|by vm_compute]. }
  eapply rtc_l; [apply (step_thread fw0 [] _ [] [] demo_fw1 []), adv_add; by vm_compute|].
  eapply rtc_l; [apply step_start, (start_check _ 0 demo_flow)|].
  eapply rtc_l; [apply (step_thread _ [] (Scanning demo_flow) []), adv_scan|].
  eapply rtc_l; [apply step_start, (start_remove _ demo_keep 1); by vm_compute|].
  eapply rtc_l; [apply (step_thread _ [] _ [Allowed demo_flow]), (adv_remove _ _ _ true fw2); by vm_compute|].
  eapply rtc_l; [apply (step_thread _ [] Unlocked [Allowed demo_flow]), adv_range|].
  eapply rtc_l; [apply (step_thread _ [] (Sweeping ∅ ∅) [Allowed demo_flow]), adv_swept|].
  eapply rtc_l; [apply (step_thread _ [] (Allowed demo_flow) []), (adv_punch _ 1 demo_flow 60)|].
  apply rtc_refl.
Qed.

(** a reply decides the fate of a hole.  The hole records the direction of
    the packet that refreshed it last; when that was a reply, removing a rule
    that has nothing to do with the flow closes it for replies although the rule
    that opened the flow is still there. *)
Theorem unrelated_removal_closes_answered_flow :
  let fw3 := Holepunch 0 demo_fw2 demo_flow 60 in
  let fw4 := Holepunch 1 fw3 (reverse demo_flow) 60 in
  let fw5 := (RemoveRule fw4 demo_drop).2 in
  (RuleCheck 1 fw3 (reverse demo_flow)).1 = true ∧
  rule_at fw5 demo_keep = Some demo_rule_keep ∧
  (RuleCheck 2 fw5 (reverse demo_flow)).1 = false ∧
  (RuleCheck 2 (RemoveRule fw3 demo_drop).2 (reverse demo_flow)).1 = true.
Proof. vm_compute. by split_and!. Qed.

(** ** Witnesses *)

Lemma demo_keep_wf : wf_index demo_keep.
Proof. by vm_compute. Qed.

Lemma demo_flow_wf : wf_hole demo_flow.
Proof. repeat split; try (by vm_compute). by left. Qed.

Lemma demo_fw1_ok : engine_ok demo_fw1.
Proof.
  destruct (AddRule_spec New demo_keep demo_rule_keep true demo_fw1) as (? & _);
    [apply New_ok|right; vm_compute; reflexivity|apply demo_keep_wf|reflexivity|done].
Qed.

Lemma add_rule_refines_witness : rule_at demo_fw1 demo_keep = Some demo_rule_keep.
Proof.
  destruct (add_rule_refines New demo_keep demo_rule_keep true demo_fw1) as (_ & _ & _ & H);
    [apply New_ok|right; vm_compute; reflexivity|apply demo_keep_wf|reflexivity|].
  exact (H demo_keep demo_keep_wf).
Defined.

Lemma remove_rule_refines_witness : rule_at (RemoveRule demo_fw1 demo_keep).2 demo_keep = None.
Proof.
  destruct (remove_rule_refines demo_fw1 demo_keep true (RemoveRule demo_fw1 demo_keep).2)
    as (_ & _ & H & _); [apply demo_fw1_ok|apply demo_keep_wf|vm_compute; reflexivity|].
  exact (H demo_keep demo_keep_wf).
Defined.

Lemma rules_allow_iff_permitted_witness :
  rulesAllow demo_fw1 demo_flow = true ∧
  ∃ idx r, rule_at demo_fw1 idx = Some r ∧ permits r demo_flow = true.
Proof.
  assert (rulesAllow demo_fw1 demo_flow = true) as H by reflexivity.
  split; [exact H|]. exact (proj1 (rules_allow_iff_permitted demo_fw1 demo_flow demo_fw1_ok) H).
Defined.

Lemma flow_key_identifies_flow_witness : flowKey demo_flow = flowKey (reverse demo_flow).
Proof.
  apply flow_key_identifies_flow;
    [apply demo_flow_wf|repeat split; try (by vm_compute); by left|by right].
Defined.

Lemma demo_fw2_ok : engine_ok demo_fw2.
Proof.
  destruct (AddRule_spec demo_fw1 demo_drop demo_rule_drop true demo_fw2) as (H & _);
    [apply demo_fw1_ok|right; vm_compute; reflexivity|by vm_compute|reflexivity|exact H].
Qed.

Definition demo_fw3 : engine := (RemoveRule demo_fw2 demo_drop).2.

Lemma remove_rule_revokes_witness :
  ∃ j r, rule_at demo_fw3 j = Some r ∧
    (permits r demo_flow = true ∨ permits r (reverse demo_flow) = true).
Proof.
  assert (E : RemoveRule demo_fw2 demo_drop = (true, demo_fw3)) by (vm_compute; reflexivity).
  assert (C : (RuleCheck 0 demo_fw3 demo_flow).1 = true) by (vm_compute; reflexivity).
  assert (W : holes_wf demo_fw2) by (intros k h Hh; vm_compute in Hh; discriminate Hh).
  assert (I : wf_index demo_drop) by (by vm_compute).
  exact (remove_rule_revokes 0 demo_fw2 demo_drop demo_fw3 demo_flow demo_fw2_ok W I demo_flow_wf E C).
Defined.

Lemma holepunch_opens_both_ways_witness :
  (RuleCheck 5 (Holepunch 1 New demo_flow 60) demo_flow).1 = true.
Proof. apply (holepunch_opens_both_ways 1 New demo_flow 60 5). lia. Defined.

Lemma firewall_interleaving_ok_witness :
  rule_at demo_fw1 demo_keep = rules_after [Added demo_keep demo_rule_keep true] demo_keep.
Proof.
  destruct (firewall_interleaving_ok (mkShared demo_fw1 [] [Added demo_keep demo_rule_keep true])) as (_ & _ & H & _).
  - eapply rtc_l; [apply (step_start New [] [] (getOrCreateShortID New "node").2 [Adding 1 demo_keep demo_rule_keep] [])|].
    { apply start_add; [right; vm_compute; reflexivity|by vm_compute|by vm_compute]. }
    eapply rtc_l; [apply (step_thread _ [] _ [] [] demo_fw1 []), adv_add; by vm_compute|]. apply rtc_refl.
  - apply (H demo_keep demo_keep_wf).
Defined.

End Firewall.
