(* ===== verification/Router.v ===== *)
(** * The router (pkg/router)

    The packet path of the node: dispatch to sharded workers, the three packet
    handlers, the egress policy, and the control plane that changes the routing
    table and the firewall and tells subscribers about local changes.

    A worker handles one packet at a time; a handler is one step of the model
    (the handlers of different workers touch shared state only through the
    atomic operations of the components).  A blocking send on a channel puts the
    packet at the end of the channel's queue, the capacity of which only decides
    how long the sender waits: Go keeps waiting senders in order. *)
From S2P Require Import Prelude DgMessage Broker Firewall NetUtils RoutingTable.
Import DgMessage Broker Firewall.Firewall RoutingTable.RoutingTable.

Open Scope go_scope.

Module Router.

(** ** Events *)

Inductive RouterEventType := ClientAdded | ClientRemoved.
Record RouterEvent := mkREvent { ev_type : RouterEventType; ev_ip : Z; ev_node : string }.

Inductive FirewallEventType := RuleAdded | RuleRemoved.
Record FirewallEvent := mkFEvent {
  fe_type : FirewallEventType; fe_node : string; fe_rule : Z;
  fe_addr : Z; fe_target : option Z; fe_proto : string; fe_start : Z; fe_end : option Z }.

(** ** State *)

Inductive fromType := fromTransport | fromTun | fromMesh.

Section Router.
Context `{LK : Link} `{LM : Limiter} `{MR : MapRange}.

Record Router := mkRouter {
  packetsPool : dgPool;
  table : gmap Z RoutingObject;
  shapes : gmap nat ShapedRoute;
  firewall : engine;
  toIface : list nat;
  gatewayAddr : Z;
  network : NetUtils.NativeIPNet;
  globalNetwork : NetUtils.NativeIPNet;
  shardedWorkers : list (list (nat * fromType));
  routingsubs : broker RouterEvent;
  firewallsubs : broker FirewallEvent;
  totalFromPeers : Z;
  totalFromIface : Z;
  totalFromMesh : Z;
  links : link }.

(** Field updates, grouped by what an operation changes. *)
Definition set_data (r : Router) p sh w : Router :=
  mkRouter p (table r) sh (firewall r) (toIface r) (gatewayAddr r) (network r) (globalNetwork r)
    (shardedWorkers r) (routingsubs r) (firewallsubs r)
    (totalFromPeers r) (totalFromIface r) (totalFromMesh r) w.
Definition set_firewall (r : Router) fw : Router :=
  mkRouter (packetsPool r) (table r) (shapes r) fw (toIface r) (gatewayAddr r) (network r)
    (globalNetwork r) (shardedWorkers r) (routingsubs r) (firewallsubs r)
    (totalFromPeers r) (totalFromIface r) (totalFromMesh r) (links r).
Definition set_iface (r : Router) q : Router :=
  mkRouter (packetsPool r) (table r) (shapes r) (firewall r) q (gatewayAddr r) (network r)
    (globalNetwork r) (shardedWorkers r) (routingsubs r) (firewallsubs r)
    (totalFromPeers r) (totalFromIface r) (totalFromMesh r) (links r).
Definition set_totals (r : Router) a b c : Router :=
  mkRouter (packetsPool r) (table r) (shapes r) (firewall r) (toIface r) (gatewayAddr r) (network r)
    (globalNetwork r) (shardedWorkers r) (routingsubs r) (firewallsubs r) a b c (links r).
Definition set_table (r : Router) t : Router :=
  mkRouter (packetsPool r) t (shapes r) (firewall r) (toIface r) (gatewayAddr r) (network r)
    (globalNetwork r) (shardedWorkers r) (routingsubs r) (firewallsubs r)
    (totalFromPeers r) (totalFromIface r) (totalFromMesh r) (links r).
Definition set_workers (r : Router) ws : Router :=
  mkRouter (packetsPool r) (table r) (shapes r) (firewall r) (toIface r) (gatewayAddr r) (network r)
    (globalNetwork r) ws (routingsubs r) (firewallsubs r)
    (totalFromPeers r) (totalFromIface r) (totalFromMesh r) (links r).
Definition set_subs (r : Router) rs fs : Router :=
  mkRouter (packetsPool r) (table r) (shapes r) (firewall r) (toIface r) (gatewayAddr r) (network r)
    (globalNetwork r) (shardedWorkers r) rs fs
    (totalFromPeers r) (totalFromIface r) (totalFromMesh r) (links r).

Definition New (parse6 : list ascii → option (list Z)) (workersNum : nat) (w : link)
    (nodeCIDR globalCIDR : string) : gores Router :=
  match NetUtils.NewNativeIPNet parse6 nodeCIDR with
  | Panic => Panic
  | Err _ => Err "invalid CIDR"
  | Ok (gw, net) =>
      match NetUtils.NewNativeIPNet parse6 globalCIDR with
      | Panic => Panic
      | Err _ => Err "invalid global CIDR"
      | Ok (_, gnet) =>
          Ok (mkRouter (NewDGMessagePool (Z.to_nat 65535)) RoutingTable.RoutingTable.New ∅
                Firewall.Firewall.New [] gw net gnet
                (replicate workersNum []) empty_broker empty_broker 0 0 0 w)
      end
  end.

(** ** Sharding *)

(** [getWorker]: the index of the worker of a flow. *)
Definition flow_hash (hi : HoleInfo) : Z :=
  let swap := bool_decide (DstIP hi < SrcIP hi ∨ (SrcIP hi = DstIP hi ∧ DstPort hi < SrcPort hi))%Z in
  let ip1 := if swap then DstIP hi else SrcIP hi in
  let ip2 := if swap then SrcIP hi else DstIP hi in
  let port1 := if swap then DstPort hi else SrcPort hi in
  let port2 := if swap then SrcPort hi else DstPort hi in
  let h := Z.lxor (u64 (Z.shiftl ip1 32)) ip2 in
  let h := u64 (u64 (u64 (h * 11400714819323198485) + u64 (Z.shiftl port1 16)) + port2) in
  let h := match Protocol hi with
           | EmptyString => h
           | String c _ => Z.lxor h (u64 (Z.shiftl (Z.of_nat (nat_of_ascii c)) 48))
           end in
  let hash := u32 (Z.lxor h (Z.shiftr h 32)) in
  let hash := Z.lxor hash (Z.shiftr hash 16) in
  let hash := u32 (hash * 2246822507) in
  let hash := Z.lxor hash (Z.shiftr hash 13) in
  let hash := u32 (hash * 3266489909) in
  Z.lxor hash (Z.shiftr hash 16).

(** [hash % uint32(len(workers))] panics without workers. *)
Definition getWorker (r : Router) (hi : HoleInfo) : gores nat :=
  let n := u32 (golen (shardedWorkers r)) in
  if decide (n = 0%Z) then Panic else
  let idx := Z.to_nat (flow_hash hi `mod` n) in
  if decide (idx < length (shardedWorkers r))%nat then Ok idx else Panic.

Definition enqueue (r : Router) (id : nat) (from : fromType) : gores Router :=
  match pool_heap (packetsPool r) !! id with
  | None => Panic
  | Some packet =>
      i <- getWorker r (dm_hole packet);;
      Ok (set_workers r (alter (λ q, q ++ [(id, from)]) i (shardedWorkers r)))
  end.

Definition HandleTunPacket (r : Router) (id : nat) : gores Router := enqueue r id fromTun.
Definition HandleMeshPacket (r : Router) (id : nat) : gores Router := enqueue r id fromMesh.
Definition HandleTransportPacket (r : Router) (id : nat) : gores Router := enqueue r id fromTransport.

(** ** Packet handlers *)

Definition free_packet (r : Router) (id : nat) : Router :=
  set_data r (Free (packetsPool r) id) (shapes r) (links r).

(** The common end of the TUN and mesh handlers. *)
Definition deliver (pick_send : bool) (r : Router) (id : nat) (packet : DatagramMessage) : gores Router :=
  match GetByIP (table r) (DstIP (dm_hole packet)) with
  | None => Ok (free_packet r id)
  | Some peer =>
      match ro_shaped peer with
      | Some s =>
          match shapes r !! s with
          | None => Panic
          | Some shaped =>
              x <- PushLimited pick_send shaped id (packetsPool r) (links r);;
              let '(err, shaped', p', w') := x in
              let r1 := set_data r p' (<[s := shaped']> (shapes r)) w' in
              Ok (match err with Some _ => free_packet r1 id | None => r1 end)
          end
      | None =>
          let '(_, w') := send_datagram (ro_ref peer) id (dm_data packet) (links r) in
          Ok (free_packet (set_data r (packetsPool r) (shapes r) w') id)
      end
  end.

Definition minute : Z := 60000000000.

Definition handleTunPacketInternal (pick_send : bool) (r : Router) (id : nat) : gores Router :=
  match pool_heap (packetsPool r) !! id with
  | None => Panic
  | Some packet =>
      let r1 := set_totals r (totalFromPeers r)
                  (u64 (totalFromIface r + golen (dm_data packet))) (totalFromMesh r) in
      deliver pick_send r1 id packet
  end.

Definition handleMeshPacketInternal (pick_send : bool) (now : Z) (r : Router) (id : nat) : gores Router :=
  match pool_heap (packetsPool r) !! id with
  | None => Panic
  | Some packet =>
      let r1 := set_totals r (totalFromPeers r) (totalFromIface r)
                  (u64 (totalFromMesh r + golen (dm_data packet))) in
      let r2 := if decide (Protocol (dm_hole packet) ≠ "")
                then set_firewall r1 (Holepunch now (firewall r1) (dm_hole packet) minute)
                else r1 in
      deliver pick_send r2 id packet
  end.

Definition isForbiddenEgress (ip : Z) : bool :=
  if decide (Z.shiftr ip 24 = 0)%Z then true
  else if decide (Z.shiftr ip 24 = 127)%Z then true
  else if decide (Z.shiftr ip 24 = 10)%Z then true
  else if decide (Z.shiftr ip 16 = 43518)%Z then true
  else if decide (Z.shiftr ip 16 = 49320)%Z then true
  else if decide (2886729728 <= ip ∧ ip <= 2887778303)%Z then true
  else if decide (3758096384 <= ip)%Z then true
  else false.

(** The check of the sender's limits. *)
Definition admit_sender (now : Z) (r : Router) (packet : DatagramMessage) : gores (bool * Router) :=
  match GetByIP (table r) (SrcIP (dm_hole packet)) with
  | None => Ok (true, r)
  | Some srcPeer =>
      match ro_shaped srcPeer with
      | None => Ok (true, r)
      | Some s =>
          match shapes r !! s with
          | None => Panic
          | Some shaped =>
              x <- IsAllowed now shaped (golen (dm_data packet));;
              let '(ok, shaped') := x in
              Ok (ok, set_data r (packetsPool r) (<[s := shaped']> (shapes r)) (links r))
          end
      end
  end.

Definition to_iface (r : Router) (id : nat) : Router := set_iface r (toIface r ++ [id]).

Definition handleTransportPacketInternal (now : Z) (r : Router) (id : nat) : gores Router :=
  match pool_heap (packetsPool r) !! id with
  | None => Panic
  | Some packet =>
      let r0 := set_totals r (u64 (totalFromPeers r + golen (dm_data packet)))
                  (totalFromIface r) (totalFromMesh r) in
      x <- admit_sender now r0 packet;;
      let '(allowed, r1) := x in
      if negb allowed then Ok (free_packet r1 id) else
      let hi := dm_hole packet in
      if decide (DstIP hi = gatewayAddr r1) then Ok (to_iface r1 id) else
      if negb (NetUtils.Contains (globalNetwork r1) (DstIP hi)) then
        if isForbiddenEgress (DstIP hi) then Ok (free_packet r1 id) else Ok (to_iface r1 id)
      else
      let '(pass, fw1) := RuleCheck now (firewall r1) hi in
      let r2 := set_firewall r1 fw1 in
      if negb pass then Ok (free_packet r2 id) else
      let r3 := set_firewall r2 (Holepunch now (firewall r2) hi minute) in
      match GetByIP (table r3) (DstIP hi) with
      | None => Ok (free_packet r3 id)
      | Some peer =>
          (** A [*ShapedRoute] hands the packet to the object it wraps. *)
          let obj := match ro_shaped peer with
                     | Some s => match shapes r3 !! s with
                                 | Some shaped => sr_underlying shaped
                                 | None => ro_ref peer
                                 end
                     | None => ro_ref peer
                     end in
          let '(_, w') := send_datagram obj id (dm_data packet) (links r3) in
          Ok (free_packet (set_data r3 (packetsPool r3) (shapes r3) w') id)
      end
  end.

(** One round of the worker of shard [i]; [None] means that it waits. *)
Definition Run (i : nat) (pick_send : bool) (now : Z) (r : Router) : option (gores Router) :=
  match shardedWorkers r !! i with
  | Some ((id, from) :: rest) =>
      let r1 := set_workers r (<[i := rest]> (shardedWorkers r)) in
      Some (match from with
            | fromTun => handleTunPacketInternal pick_send r1 id
            | fromMesh => handleMeshPacketInternal pick_send now r1 id
            | fromTransport => handleTransportPacketInternal now r1 id
            end)
  | _ => None
  end.

(** ** Control plane *)

Definition notifyRoutingEvent (r : Router) (ev : RouterEvent) : gores Router :=
  b <- notify ev (routingsubs r);; Ok (set_subs r b (firewallsubs r)).
Definition notifyFirewallEvent (r : Router) (ev : FirewallEvent) : gores Router :=
  b <- notify ev (firewallsubs r);; Ok (set_subs r (routingsubs r) b).

Definition SubscribeRoutingEvents (r : Router) : Router * nat :=
  let '(b, id) := subscribe 200 (routingsubs r) in (set_subs r b (firewallsubs r), id).
Definition SubscribeFirewallEvents (r : Router) : Router * nat :=
  let '(b, id) := subscribe 200 (firewallsubs r) in (set_subs r (routingsubs r) b, id).

Definition AddRule (r : Router) (idx : PortRuleIndex) (rule : PortRule) : gores (bool * Router) :=
  let '(ok, fw') := Firewall.Firewall.AddRule (firewall r) idx rule in
  let r1 := set_firewall r fw' in
  if negb ok then Ok (false, r1) else
  r2 <- notifyFirewallEvent r1
          (mkFEvent RuleAdded (NodeID idx) (RuleID idx) (Address rule) (TargetAddress rule)
             (RuleProtocol rule) (PortRangeStart rule) (PortRangeEnd rule));;
  Ok (true, r2).

Definition RemoveRule (r : Router) (idx : PortRuleIndex) : gores (bool * Router) :=
  let '(ok, fw') := Firewall.Firewall.RemoveRule (firewall r) idx in
  let r1 := set_firewall r fw' in
  if negb ok then Ok (false, r1) else
  r2 <- notifyFirewallEvent r1 (mkFEvent RuleRemoved (NodeID idx) (RuleID idx) 0 None "" 0 None);;
  Ok (true, r2).

Definition DumpRules (r : Router) : list RuleDump := Firewall.Firewall.DumpRules (firewall r).
Definition ExistsRule (r : Router) (idx : PortRuleIndex) : bool :=
  Firewall.Firewall.ExistsRule (firewall r) idx.
Definition AddRemoteRule (r : Router) (idx : PortRuleIndex) (rule : PortRule) : bool * Router :=
  let '(ok, fw') := Firewall.Firewall.AddRule (firewall r) idx rule in (ok, set_firewall r fw').
Definition RemoveRemoteRule (r : Router) (idx : PortRuleIndex) : bool * Router :=
  let '(ok, fw') := Firewall.Firewall.RemoveRule (firewall r) idx in (ok, set_firewall r fw').

(** Adding an object registers the shaped state behind it, if any. *)
Definition AddRoutingObject (r : Router) (obj : RoutingObject) : gores Router :=
  t <- Add (table r) obj;;
  notifyRoutingEvent (set_table r t) (mkREvent ClientAdded (GetVirtualIP obj) (GetNodeID obj)).

Definition DumpRoutingTable (r : Router) : list RoutingTableRecordDump := Dump (table r).

Definition DeleteRoutingObject (r : Router) (ip : Z) : gores Router :=
  match GetByIP (table r) ip with
  | None => Ok r
  | Some obj =>
      notifyRoutingEvent (set_table r (Delete (table r) ip)) (mkREvent ClientRemoved ip (GetNodeID obj))
  end.

Definition AddRemoteRoutingObject (r : Router) (obj : RoutingObject) : gores Router :=
  t <- Add (table r) obj;; Ok (set_table r t).
Definition DeleteRemoteRoutingObject (r : Router) (ip : Z) : Router :=
  set_table r (Delete (table r) ip).
Definition GetRemoteRoutingObject (r : Router) (ip : Z) : option RoutingObject :=
  GetByIP (table r) ip.

Definition NewMessageCopyFrom (pick : option nat) (r : Router) (data : list Z) : gores (Router * nat) :=
  x <- DgMessage.NewMessageCopyFrom pick (packetsPool r) data;;
  let '(p, id) := x in Ok (set_data r p (shapes r) (links r), id).

Record RouterStats := mkStats { TotalFromIface : Z; TotalFromMesh : Z; TotalFromPeers : Z }.
Definition GetStats (r : Router) : RouterStats :=
  mkStats (totalFromIface r) (totalFromMesh r) (totalFromPeers r).

(** ** Specification *)

(** The reserved ranges a client must not reach through the node. *)
Definition reserved_ranges : list (Z * nat) :=
  [(0, 8%nat);                 (* 0.0.0.0/8 *)
   (2130706432, 8%nat);        (* 127.0.0.0/8 *)
   (167772160, 8%nat);         (* 10.0.0.0/8 *)
   (2851995648, 16%nat);       (* 169.254.0.0/16 *)
   (3232235520, 16%nat);       (* 192.168.0.0/16 *)
   (2886729728, 12%nat);       (* 172.16.0.0/12 *)
   (3758096384, 4%nat);        (* 224.0.0.0/4 *)
   (4026531840, 4%nat)]%Z.     (* 240.0.0.0/4 *)

(** The object a packet for [peer] reaches when the shaping is bypassed. *)
Definition bare_object (r : Router) (peer : RoutingObject) : nat :=
  match ro_shaped peer with
  | Some s => match shapes r !! s with Some shaped => sr_underlying shaped | None => ro_ref peer end
  | None => ro_ref peer
  end.

(** Shaped objects of the table have their state, and it is consistent. *)
Definition shapes_ok (r : Router) : Prop :=
  ∀ ip o s, table r !! ip = Some o → ro_shaped o = Some s →
    ∃ sr, shapes r !! s = Some sr ∧ shaped_ok sr.

(** ** Lemmas *)

Lemma isForbiddenEgress_true ip :
  isForbiddenEgress ip = true ↔
  Z.shiftr ip 24 = 0%Z ∨ Z.shiftr ip 24 = 127%Z ∨ Z.shiftr ip 24 = 10%Z ∨
  Z.shiftr ip 16 = 43518%Z ∨ Z.shiftr ip 16 = 49320%Z ∨
  (2886729728 <= ip <= 2887778303)%Z ∨ (3758096384 <= ip)%Z.
Proof. unfold isForbiddenEgress. repeat case_decide; (split; [intros E; done || tauto|intros; done || tauto]). Qed.

Lemma div_interval x k c : (0 < k)%Z → (x / k = c ↔ c * k <= x < (c + 1) * k)%Z.
Proof.
  intros Hk. split; [intros <-; Z.div_mod_to_equations; nia|].
  intros ?. symmetry. apply (Z.div_unique_pos x k c (x - c * k)); nia.
Qed.

Lemma shiftr_range x n c lo hi :
  (2 ^ Z.of_nat n * c = lo)%Z → (lo + 2 ^ Z.of_nat n = hi)%Z →
  Z.shiftr x (Z.of_nat n) = c ↔ (lo <= x < hi)%Z.
Proof.
  intros <- <-. rewrite Z.shiftr_div_pow2, div_interval by lia.
  generalize (2 ^ Z.of_nat n)%Z. intros. nia.
Qed.

Lemma same_prefix_range p x a lo hi :
  (p <=? 32)%nat = true →
  (2 ^ (32 - Z.of_nat p) * (a / 2 ^ (32 - Z.of_nat p)) = lo)%Z → (lo + 2 ^ (32 - Z.of_nat p) = hi)%Z →
  NetUtils.same_prefix p x a = bool_decide (lo <= x < hi)%Z.
Proof.
  intros Hp%Nat.leb_le <- <-. unfold NetUtils.same_prefix. apply bool_decide_ext.
  rewrite div_interval by lia. generalize (a / 2 ^ (32 - Z.of_nat p))%Z.
  generalize (2 ^ (32 - Z.of_nat p))%Z. intros. nia.
Qed.

Lemma flow_hash_reverse hi : flow_hash (reverse hi) = flow_hash hi.
Proof.
  destruct hi as [a b p q pr]. unfold flow_hash, reverse. simpl.
  assert (Hc : (b < a ∨ (a = b ∧ q < p))%Z ∨ (a < b ∨ (b = a ∧ p < q))%Z ∨ (a = b ∧ p = q)) by lia.
  destruct Hc as [Hc|[Hc|[-> ->]]]; [| |done].
  - rewrite (bool_decide_eq_true_2 (b < a ∨ _)%Z), (bool_decide_eq_false_2 (a < b ∨ _)%Z) by lia. done.
  - rewrite (bool_decide_eq_false_2 (b < a ∨ _)%Z), (bool_decide_eq_true_2 (a < b ∨ _)%Z) by lia. done.
Qed.

Lemma getWorker_total r hi :
  (0 < golen (shardedWorkers r) < 2 ^ 32)%Z →
  ∃ i, getWorker r hi = Ok i ∧ (i < length (shardedWorkers r))%nat.
Proof.
  intros Hn. unfold getWorker. rewrite (u32_small (golen _)) by word_lia.
  rewrite decide_False by lia.
  pose proof (Z.mod_pos_bound (flow_hash hi) (golen (shardedWorkers r)) ltac:(lia)) as Hm.
  rewrite decide_True by lia. eexists. split; [done|]. lia.
Qed.

Lemma IsAllowed_ok now sr n :
  shaped_ok sr → ∃ ok sr', IsAllowed now sr n = Ok (ok, sr') ∧ shaped_ok sr' ∧
    sr_underlying sr' = sr_underlying sr.
Proof.
  intros Hs. unfold IsAllowed. pose proof (charge_ok sr n Hs) as Hs1.
  destruct (charge_same sr n) as (E1 & E2 & _ & E4 & E5 & E6).
  destruct (charge sr n) as [ok sr1]. simpl in *. destruct ok; simpl; [|by do 2 eexists].
  destruct (sr_speedLimited sr1) eqn:Esp; [|by do 2 eexists].
  destruct (sh_limiter _ Hs1 Esp) as [l Hl]. rewrite Hl. destruct (AllowN now l _) as [ok l'].
  do 2 eexists. split; [done|]. split; [|done].
  destruct Hs1 as [H1 H2 H3]. by constructor.
Qed.

(** What admission leaves alone. *)
Lemma admit_sender_spec now r m :
  shapes_ok r →
  ∃ ok r1, admit_sender now r m = Ok (ok, r1) ∧ shapes_ok r1 ∧ table r1 = table r ∧
    packetsPool r1 = packetsPool r ∧ links r1 = links r ∧ toIface r1 = toIface r ∧
    firewall r1 = firewall r ∧ gatewayAddr r1 = gatewayAddr r ∧ globalNetwork r1 = globalNetwork r ∧
    (∀ peer, bare_object r1 peer = bare_object r peer).
Proof.
  intros Hs. unfold admit_sender, GetByIP.
  destruct (table r !! SrcIP (dm_hole m)) as [o|] eqn:Eo; [|by do 2 eexists].
  destruct (ro_shaped o) as [s|] eqn:Es; [|by do 2 eexists].
  destruct (Hs _ _ _ Eo Es) as (sr & Esr & Hsr). rewrite Esr.
  destruct (IsAllowed_ok now sr (golen (dm_data m)) Hsr) as (ok & sr' & E & Hsr' & Eu). rewrite E. simpl.
  do 2 eexists. split; [done|]. split_and!; try done.
  - intros ip o' s' Ho Hs'. simpl in *. rewrite lookup_insert. case_decide; [eauto|]. by eapply Hs.
  - intros peer. unfold bare_object. simpl. destruct (ro_shaped peer) as [s'|]; [|done].
    rewrite lookup_insert. case_decide; [subst; by rewrite Esr, Eu|done].
Qed.

Lemma notify_sub `{A : Type} (ev : A) b id c :
  broker_ok b → is_Some (bk_subs b !! id) → bk_chans b !! id = Some c →
  ∃ b', notify ev b = Ok b' ∧ broker_ok b' ∧ bk_chans b' !! id = Some (Broker.deliver ev c).
Proof.
  intros Hb Hi Hc. destruct (notify_spec ev b Hb) as (b' & E & Hb' & _ & Hd & _).
  exists b'. split_and!; [done|done|]. by rewrite (Hd id Hi), Hc.
Qed.

(** ** Theorems *)

(** The two ends of a handler that does not forward. *)
Ltac dropped Et Ep El Ei :=
  eexists; split; [reflexivity|]; split; [exact Et|]; right; left;
  split; [exact Ei|]; split; [by cbn; rewrite Ep|exact El].
Ltac kept Et Ep El Ei Ef :=
  eexists; split; [reflexivity|]; split; [exact Et|]; left;
  split; [by cbn; rewrite Ei|]; split; [exact Ep|]; split; [exact El|]; split; [exact Ef|].

(** C1: the policy for packets of VPN clients.  Handling a client's packet never
    panics, and it ends in exactly one of three ways, with the message released
    exactly once or handed to the TUN queue and kept.  A packet goes to the TUN
    queue only when it is for the gateway, or leaves the mesh for an address
    outside the reserved ranges; it is sent to another client or node only when
    its destination is a mesh address with a route and the firewall accepts the
    flow, and then it is sent once, to the object of that route, and opens the
    flow for replies. *)
Theorem transport_policy now r id m :
  shapes_ok r → pool_heap (packetsPool r) !! id = Some m →
  let hi := dm_hole m in
  ∃ r', handleTransportPacketInternal now r id = Ok r' ∧ table r' = table r ∧
  ( (* kept for the TUN interface *)
    (toIface r' = toIface r ++ [id] ∧ packetsPool r' = packetsPool r ∧ links r' = links r ∧
      firewall r' = firewall r ∧
      (DstIP hi = gatewayAddr r ∨
       (NetUtils.Contains (globalNetwork r) (DstIP hi) = false ∧ isForbiddenEgress (DstIP hi) = false)))
  ∨ (* dropped *)
    (toIface r' = toIface r ∧ packetsPool r' = Free (packetsPool r) id ∧ links r' = links r)
  ∨ (* forwarded *)
    (toIface r' = toIface r ∧ packetsPool r' = Free (packetsPool r) id ∧
      NetUtils.Contains (globalNetwork r) (DstIP hi) = true ∧ DstIP hi ≠ gatewayAddr r ∧
      (RuleCheck now (firewall r) hi).1 = true ∧
      (∀ now', (now' < now + minute)%Z → (RuleCheck now' (firewall r') (reverse hi)).1 = true) ∧
      ∃ peer, table r !! DstIP hi = Some peer ∧
        links r' = (send_datagram (bare_object r peer) id (dm_data m) (links r)).2)).
Proof.
  intros Hs Hm hi. unfold handleTransportPacketInternal. rewrite Hm. fold hi.
  generalize (u64 (totalFromPeers r + golen (dm_data m))). intros total. cbv zeta.
  destruct (admit_sender_spec now (set_totals r total (totalFromIface r) (totalFromMesh r)) m Hs)
    as (ok & r1 & -> & _ & Et & Ep & El & Ei & Ef & Eg & En & Eb).
  cbn [gobind set_totals table packetsPool links toIface firewall gatewayAddr globalNetwork] in *.
  destruct ok; cbn [negb]; [|dropped Et Ep El Ei].
  rewrite Eg, En. case_decide as Hg; [kept Et Ep El Ei Ef; by left|].
  destruct (NetUtils.Contains (globalNetwork r) (DstIP hi)) eqn:Ec; cbn [negb].
  2: { destruct (isForbiddenEgress (DstIP hi)) eqn:Efb;
         [dropped Et Ep El Ei|kept Et Ep El Ei Ef; by right]. }
  rewrite Ef. destruct (RuleCheck now (firewall r) hi) as [pass fw1] eqn:Er.
  destruct pass; cbn [negb]; [|dropped Et Ep El Ei].
  unfold GetByIP. cbn [table set_firewall]. rewrite Et.
  destruct (table r !! DstIP hi) as [peer|] eqn:Epeer; [|dropped Et Ep El Ei].
  cbv zeta. cbn [shapes set_firewall links packetsPool firewall toIface].
  specialize (Eb peer). unfold bare_object in Eb at 1. rewrite Eb. cbn [shapes set_totals].
  change (bare_object (set_totals r total (totalFromIface r) (totalFromMesh r)) peer)
    with (bare_object r peer). rewrite El.
  destruct (send_datagram (bare_object r peer) id (dm_data m) (links r)) as [e w1] eqn:Es.
  eexists. split; [reflexivity|]. split; [exact Et|]. right. right.
  split; [exact Ei|]. split; [by cbn; rewrite Ep|]. split_and!; try done.
  - intros now' Hn. unfold RuleCheck. rewrite flowKey_reverse. cbn. rewrite lookup_insert_eq. cbn.
    by rewrite decide_True.
  - exists peer. by rewrite Es.
Qed.

(** the hard-coded comparisons of the egress filter are the reserved CIDR
    ranges, for every 32-bit address. *)
Theorem forbidden_egress_ranges ip :
  is_u32 ip →
  isForbiddenEgress ip = existsb (λ ap, NetUtils.same_prefix ap.2 ip ap.1) reserved_ranges.
Proof.
  intros Hip. apply eq_true_iff_eq. rewrite isForbiddenEgress_true.
  unfold reserved_ranges. cbn [existsb fst snd].
  rewrite (same_prefix_range 8 ip 0 0 16777216), (same_prefix_range 8 ip 2130706432 2130706432 2147483648),
    (same_prefix_range 8 ip 167772160 167772160 184549376),
    (same_prefix_range 16 ip 2851995648 2851995648 2852061184),
    (same_prefix_range 16 ip 3232235520 3232235520 3232301056),
    (same_prefix_range 12 ip 2886729728 2886729728 2887778304),
    (same_prefix_range 4 ip 3758096384 3758096384 4026531840),
    (same_prefix_range 4 ip 4026531840 4026531840 4294967296) by reflexivity.
  rewrite (shiftr_range ip 24 0 0 16777216), (shiftr_range ip 24 127 2130706432 2147483648),
    (shiftr_range ip 24 10 167772160 184549376), (shiftr_range ip 16 43518 2851995648 2852061184),
    (shiftr_range ip 16 49320 3232235520 3232301056) by reflexivity.
  rewrite !orb_true_iff, !bool_decide_eq_true. unfold is_u32 in Hip. lia.
Qed.

(** a flow stays on one worker.  The shard of a packet is a valid index, and
    a packet and its reply go to the same shard, so that the packets of a flow
    are handled one at a time in the order of arrival. *)
Theorem worker_of_flow r hi :
  (0 < golen (shardedWorkers r) < 2 ^ 32)%Z →
  ∃ i, getWorker r hi = Ok i ∧ getWorker r (reverse hi) = Ok i ∧ (i < length (shardedWorkers r))%nat.
Proof.
  intros Hn. destruct (getWorker_total r hi Hn) as (i & E & Hi). exists i. split_and!; try done.
  unfold getWorker. rewrite flow_hash_reverse. exact E.
Qed.

(** a packet from the mesh to a plain object opens the reverse flow for a
    minute, is sent once to the route of its destination, if there is one, and
    is released exactly once. *)
Theorem mesh_packet_opens_reply pick now r id m :
  pool_heap (packetsPool r) !! id = Some m → Protocol (dm_hole m) ≠ "" →
  (∀ peer, table r !! DstIP (dm_hole m) = Some peer → ro_shaped peer = None) →
  ∃ r', handleMeshPacketInternal pick now r id = Ok r' ∧
    packetsPool r' = Free (packetsPool r) id ∧ toIface r' = toIface r ∧
    (∀ now', (now' < now + minute)%Z →
       (RuleCheck now' (firewall r') (reverse (dm_hole m))).1 = true) ∧
    links r' = match table r !! DstIP (dm_hole m) with
               | Some peer => (send_datagram (ro_ref peer) id (dm_data m) (links r)).2
               | None => links r
               end.
Proof.
  intros Hm Hp Hplain. unfold handleMeshPacketInternal. rewrite Hm, decide_True by done.
  unfold deliver, GetByIP. simpl.
  assert (Hr : ∀ now', (now' < now + minute)%Z →
    (RuleCheck now' (Holepunch now (firewall r) (dm_hole m) minute) (reverse (dm_hole m))).1 = true).
  { intros now' Hn. unfold RuleCheck. rewrite flowKey_reverse. simpl. rewrite lookup_insert_eq. simpl.
    by rewrite decide_True. }
  destruct (table r !! DstIP (dm_hole m)) as [peer|] eqn:Ep.
  - rewrite (Hplain peer eq_refl). destruct (send_datagram (ro_ref peer) id (dm_data m) (links r)) as [e w1].
    eexists. by split_and!.
  - eexists. by split_and!.
Qed.

(** subscribers see exactly the local changes of the routing table.  A
    successful [AddRoutingObject] or [DeleteRoutingObject] offers one event to
    every subscriber (lost only when its 200-event buffer is full); a refused or
    empty change offers none; the operations for remote objects change the same
    table without an event. *)
Theorem routing_events_for_local_changes r obj ip sub c :
  broker_ok (routingsubs r) → is_Some (bk_subs (routingsubs r) !! sub) →
  bk_chans (routingsubs r) !! sub = Some c →
  match table r !! GetVirtualIP obj with
  | Some _ => AddRoutingObject r obj = Err "record for ip already exists"
  | None => ∃ r', AddRoutingObject r obj = Ok r' ∧ table r' = <[GetVirtualIP obj := obj]> (table r) ∧
      bk_chans (routingsubs r') !! sub =
        Some (Broker.deliver (mkREvent ClientAdded (GetVirtualIP obj) (GetNodeID obj)) c) ∧
      AddRemoteRoutingObject r obj = Ok (set_table r (table r'))
  end ∧
  match table r !! ip with
  | None => DeleteRoutingObject r ip = Ok r
  | Some o => ∃ r', DeleteRoutingObject r ip = Ok r' ∧ table r' = delete ip (table r) ∧
      bk_chans (routingsubs r') !! sub =
        Some (Broker.deliver (mkREvent ClientRemoved ip (GetNodeID o)) c) ∧
      DeleteRemoteRoutingObject r ip = set_table r (table r')
  end.
Proof.
  intros Hb Hsub Hc. split.
  - unfold AddRoutingObject, AddRemoteRoutingObject, Add.
    destruct (table r !! GetVirtualIP obj); [done|]. simpl. unfold notifyRoutingEvent. simpl.
    destruct (notify_sub (mkREvent ClientAdded (GetVirtualIP obj) (GetNodeID obj)) _ _ _ Hb Hsub Hc)
      as (b' & -> & _ & E). simpl. eexists. by split_and!.
  - unfold DeleteRoutingObject, DeleteRemoteRoutingObject, GetByIP, Delete.
    destruct (table r !! ip) as [o|] eqn:Eo; [|done]. unfold notifyRoutingEvent. simpl.
    destruct (notify_sub (mkREvent ClientRemoved ip (GetNodeID o)) _ _ _ Hb Hsub Hc)
      as (b' & -> & _ & E). simpl. eexists. by split_and!.
Qed.

(** the router's rule operations announce local changes only.  [AddRule] and
    [RemoveRule] change the firewall as the engine does and offer one event to
    every subscriber exactly when they succeed; the remote variants do the same
    change silently. *)
Theorem rule_events_for_local_changes r idx rule sub c :
  broker_ok (firewallsubs r) → is_Some (bk_subs (firewallsubs r) !! sub) →
  bk_chans (firewallsubs r) !! sub = Some c →
  (∃ r', AddRule r idx rule = Ok ((Firewall.Firewall.AddRule (firewall r) idx rule).1, r') ∧
     AddRemoteRule r idx rule =
       ((Firewall.Firewall.AddRule (firewall r) idx rule).1, set_firewall r (firewall r')) ∧
     bk_chans (firewallsubs r') !! sub = Some (
       if (Firewall.Firewall.AddRule (firewall r) idx rule).1 then
         Broker.deliver (mkFEvent RuleAdded (NodeID idx) (RuleID idx) (Address rule) (TargetAddress rule)
           (RuleProtocol rule) (PortRangeStart rule) (PortRangeEnd rule)) c
       else c)) ∧
  (∃ r', RemoveRule r idx = Ok ((Firewall.Firewall.RemoveRule (firewall r) idx).1, r') ∧
     RemoveRemoteRule r idx =
       ((Firewall.Firewall.RemoveRule (firewall r) idx).1, set_firewall r (firewall r')) ∧
     bk_chans (firewallsubs r') !! sub = Some (
       if (Firewall.Firewall.RemoveRule (firewall r) idx).1 then
         Broker.deliver (mkFEvent RuleRemoved (NodeID idx) (RuleID idx) 0 None "" 0 None) c
       else c)).
Proof.
  intros Hb Hsub Hc. split.
  - unfold AddRule, AddRemoteRule. destruct (Firewall.Firewall.AddRule (firewall r) idx rule) as [ok fw'].
    simpl. destruct ok; simpl; [|eexists; by split_and!].
    unfold notifyFirewallEvent. simpl.
    destruct (notify_sub (mkFEvent RuleAdded (NodeID idx) (RuleID idx) (Address rule) (TargetAddress rule)
      (RuleProtocol rule) (PortRangeStart rule) (PortRangeEnd rule)) _ _ _ Hb Hsub Hc) as (b' & -> & _ & E).
    eexists. by split_and!.
  - unfold RemoveRule, RemoveRemoteRule. destruct (Firewall.Firewall.RemoveRule (firewall r) idx) as [ok fw'].
    simpl. destruct ok; simpl; [|eexists; by split_and!].
    unfold notifyFirewallEvent. simpl.
    destruct (notify_sub (mkFEvent RuleRemoved (NodeID idx) (RuleID idx) 0 None "" 0 None) _ _ _ Hb Hsub Hc)
      as (b' & -> & _ & E).
    eexists. by split_and!.
Qed.

(** Two releases of one message put it into the pool twice. *)
Lemma double_free_items p id m :
  pool_heap p !! id = Some m → dm_owned m = true →
  pool_items (Free (Free p id) id) = pool_items p ++ [id; id].
Proof.
  intros Hm Ho. unfold Free at 2. rewrite Hm, Ho. unfold Free. simpl. rewrite lookup_insert_eq. simpl.
  by rewrite <- app_assoc.
Qed.

Lemma double_get p l id :
  pool_items p = l ++ [id; id] →
  let '(i1, p1) := pool_Get (Some (length l)) p in
  let '(i2, _) := pool_Get (Some (length l)) p1 in i1 = id ∧ i2 = id.
Proof.
  intros E. unfold pool_Get. simpl. rewrite E, list_lookup_middle by done. simpl.
  rewrite delete_middle. rewrite (list_lookup_middle l [] id) by done. done.
Qed.

(** a message is released twice when a traffic-limited route without speed
    limit loses its context.  [PushLimited] sends and releases the packet, falls
    through to the select, reports the ended context, and the handler releases
    the packet again: the pool then holds the message twice and hands it to two
    users at once. *)
Theorem cancelled_route_frees_twice pick r id m peer s sr :
  pool_heap (packetsPool r) !! id = Some m → dm_owned m = true →
  table r !! DstIP (dm_hole m) = Some peer → ro_shaped peer = Some s → shapes r !! s = Some sr →
  shaped_ok sr → sr_speedLimited sr = false → sr_done sr = true →
  (charge sr (golen (dm_data m))).1 = true →
  ∃ r', handleTunPacketInternal pick r id = Ok r' ∧
    packetsPool r' = Free (Free (packetsPool r) id) id ∧
    let n := length (pool_items (packetsPool r)) in
    let '(i1, p1) := pool_Get (Some n) (packetsPool r') in
    let '(i2, _) := pool_Get (Some n) p1 in i1 = id ∧ i2 = id.
Proof.
  intros Hm Ho Hp Hs Hsr Hok Hspeed Hdone Hc. unfold handleTunPacketInternal. rewrite Hm.
  unfold deliver, GetByIP. cbn [table set_totals]. rewrite Hp, Hs. cbn [shapes set_totals]. rewrite Hsr.
  cbn [packetsPool links set_totals].
  destruct (charge_same sr (golen (dm_data m))) as (E1 & E2 & E3 & E4 & _).
  destruct (sh_none _ Hok Hspeed) as [Hq _].
  assert (HP : ∃ sr' w', PushLimited pick sr id (packetsPool r) (links r) =
    Ok (Some "context canceled"%string, sr', Free (packetsPool r) id, w') ∨
    ∃ e, PushLimited pick sr id (packetsPool r) (links r) =
    Ok (Some e, sr', Free (packetsPool r) id, w')).
  { unfold PushLimited. rewrite Hm. destruct (charge sr _) as [ok sr1]. simpl in *. subst ok. simpl.
    rewrite E1, Hspeed. simpl. destruct (send_datagram _ _ _ _) as [[e|] w1]; [eauto|].
    unfold push_select. rewrite E2, E3, Hq, Hdone. simpl. eauto. }
  pose proof (double_get _ _ id (double_free_items _ _ _ Hm Ho)) as Hg.
  destruct HP as (sr' & w' & [-> |[e ->]]); (eexists; split; [reflexivity|]; split; [reflexivity|]; exact Hg).
Qed.

End Router.

(** ** Witnesses *)

Definition demo_router : Router := mkRouter demo_pool ∅ ∅ Firewall.Firewall.New [] 167837697
  (NetUtils.mkNet 167837696 4294901760) (NetUtils.mkNet 167837696 4294901760)
  [[]; []] empty_broker empty_broker 0 0 0 no_sends.
Definition demo_peer : RoutingObject := mkObj 7 "n" 167837955 (Some 3%nat).
Definition demo_shape : ShapedRoute := NewShapedRoute 7 true None (Some 5000%Z).
Definition demo_router2 : Router :=
  set_data (set_table demo_router {[167837955%Z := demo_peer]}) demo_pool {[3%nat := demo_shape]} no_sends.
Definition demo_router3 : Router := (SubscribeRoutingEvents demo_router).1.
Definition demo_router4 : Router := (SubscribeFirewallEvents demo_router).1.

Lemma transport_policy_witness :
  ∃ r', handleTransportPacketInternal 0 demo_router 0 = Ok r' ∧ table r' = ∅.
Proof.
  destruct (transport_policy 0 demo_router 0 demo_msg) as (r' & E & Et & _).
  - intros ip o s E. by rewrite (lookup_empty ip : table demo_router !! ip = None) in E.
  - exact demo_lookup.
  - exists r'. split; [exact E|exact Et].
Defined.

Lemma forbidden_egress_ranges_witness :
  isForbiddenEgress 2852039166 =
    existsb (λ ap, NetUtils.same_prefix ap.2 2852039166 ap.1) reserved_ranges.
Proof. apply (forbidden_egress_ranges 2852039166). split; vm_compute; congruence. Defined.

Lemma worker_of_flow_witness :
  ∃ i, getWorker demo_router demo_hole = Ok i ∧ getWorker demo_router (reverse demo_hole) = Ok i ∧
    (i < length (shardedWorkers demo_router))%nat.
Proof. apply (worker_of_flow demo_router demo_hole). split; vm_compute; reflexivity. Defined.

Lemma mesh_packet_opens_reply_witness :
  ∃ r', handleMeshPacketInternal true 0 demo_router 0 = Ok r' ∧
    packetsPool r' = Free demo_pool 0.
Proof.
  destruct (mesh_packet_opens_reply true 0 demo_router 0 demo_msg demo_lookup) as (r' & E & Ep & _).
  - by vm_compute.
  - intros peer E. vm_compute in E. done.
  - exists r'. split; [exact E|exact Ep].
Defined.

Lemma demo_sub_ok {A} : broker_ok (subscribe 200 (empty_broker (A := A))).1.
Proof. apply subscribe_with_ok; [apply empty_broker_ok|simpl; lia]. Qed.

Lemma routing_events_for_local_changes_witness :
  ∃ r', AddRoutingObject demo_router3 (mkObj 1 "n" 5 None) = Ok r' ∧
    bk_chans (routingsubs r') !! 0%nat =
      Some (Broker.deliver (mkREvent ClientAdded 5 "n") (make_chan 200)).
Proof.
  destruct (routing_events_for_local_changes demo_router3 (mkObj 1 "n" 5 None) 5 0 (make_chan 200))
    as [(r' & E & _ & Ec & _) _].
  - exact demo_sub_ok.
  - by eexists.
  - reflexivity.
  - exists r'. split; [exact E|exact Ec].
Defined.

Lemma rule_events_for_local_changes_witness :
  ∃ r', AddRule demo_router4 demo_keep demo_rule_keep = Ok (true, r').
Proof.
  destruct (rule_events_for_local_changes demo_router4 demo_keep demo_rule_keep 0 (make_chan 200))
    as [(r' & E & _) _].
  - exact demo_sub_ok.
  - by eexists.
  - reflexivity.
  - exists r'. exact E.
Defined.

Lemma cancelled_route_frees_twice_witness :
  ∃ r', handleTunPacketInternal true demo_router2 0 = Ok r' ∧ pool_items (packetsPool r') = [0; 0]%nat.
Proof.
  destruct (cancelled_route_frees_twice true demo_router2 0 demo_msg demo_peer 3 demo_shape
    demo_lookup eq_refl eq_refl eq_refl eq_refl (NewShapedRoute_ok _ _ _ _) eq_refl eq_refl
    ltac:(by vm_compute)) as (r' & E & Ep & _).
  exists r'. split; [exact E|]. rewrite Ep. by vm_compute.
Defined.

End Router.
