(* ===== verification/RouterOps.v ===== *)
(** * The control plane of a router, one operation at a time (pkg/router)

    What the operations on rules and routes, local and remote, do to the rules,
    the routing table and the two subscriptions of a router, stated once for the
    components that watch a router while it changes (MeshSync.v, ClientSync.v). *)
From S2P Require Import Prelude Broker Streams RoutingTable Firewall Router.
Import Broker Firewall.Firewall RoutingTable.RoutingTable.

Open Scope go_scope.

Module RouterOps.

Inductive router_op :=
| OpAddRule (idx : PortRuleIndex) (rule : PortRule)
| OpRemoveRule (idx : PortRuleIndex)
| OpAddRemoteRule (idx : PortRuleIndex) (rule : PortRule)
| OpRemoveRemoteRule (idx : PortRuleIndex)
| OpAddRoutingObject (obj : RoutingObject)
| OpDeleteRoutingObject (ip : Z)
| OpAddRemoteRoutingObject (obj : RoutingObject)
| OpDeleteRemoteRoutingObject (ip : Z).

Section Ops.
Context `{LK : Link} `{LM : Limiter} `{MR : MapRange}.

(** A refused operation leaves the router as it was. *)
Definition or_same (r : Router.Router) (m : gores Router.Router) : gores Router.Router :=
  match m with Err _ => Ok r | _ => m end.

Definition exec (op : router_op) (r : Router.Router) : gores Router.Router :=
  match op with
  | OpAddRule idx rule => p <- Router.AddRule r idx rule;; Ok p.2
  | OpRemoveRule idx => p <- Router.RemoveRule r idx;; Ok p.2
  | OpAddRemoteRule idx rule => Ok (Router.AddRemoteRule r idx rule).2
  | OpRemoveRemoteRule idx => Ok (Router.RemoveRemoteRule r idx).2
  | OpAddRoutingObject obj => or_same r (Router.AddRoutingObject r obj)
  | OpDeleteRoutingObject ip => Router.DeleteRoutingObject r ip
  | OpAddRemoteRoutingObject obj => or_same r (Router.AddRemoteRoutingObject r obj)
  | OpDeleteRemoteRoutingObject ip => Ok (Router.DeleteRemoteRoutingObject r ip)
  end.

(** ** Effects *)

Definition fw_after (op : router_op) (fw : engine) : engine :=
  match op with
  | OpAddRule idx rule | OpAddRemoteRule idx rule => (AddRule fw idx rule).2
  | OpRemoveRule idx | OpRemoveRemoteRule idx => (RemoveRule fw idx).2
  | _ => fw
  end.

Definition table_after (op : router_op) (t : gmap Z RoutingObject) : gmap Z RoutingObject :=
  match op with
  | OpAddRoutingObject obj | OpAddRemoteRoutingObject obj =>
      match t !! GetVirtualIP obj with Some _ => t | None => <[GetVirtualIP obj := obj]> t end
  | OpDeleteRoutingObject ip | OpDeleteRemoteRoutingObject ip => delete ip t
  | _ => t
  end.

(** The events that an operation offers to the subscribers. *)
Definition rule_event (op : router_op) (ev : Router.FirewallEvent) : Prop :=
  match op with
  | OpAddRule idx rule =>
      ev = Router.mkFEvent Router.RuleAdded (NodeID idx) (RuleID idx) (Address rule) (TargetAddress rule)
             (RuleProtocol rule) (PortRangeStart rule) (PortRangeEnd rule)
  | OpRemoveRule idx => ev = Router.mkFEvent Router.RuleRemoved (NodeID idx) (RuleID idx) 0 None "" 0 None
  | _ => False
  end.

Definition route_event (op : router_op) (t : gmap Z RoutingObject) (ev : Router.RouterEvent) : Prop :=
  match op with
  | OpAddRoutingObject obj => ev = Router.mkREvent Router.ClientAdded (GetVirtualIP obj) (GetNodeID obj)
  | OpDeleteRoutingObject ip => ∃ obj, t !! ip = Some obj ∧ ev = Router.mkREvent Router.ClientRemoved ip (GetNodeID obj)
  | _ => False
  end.

Definition subs_ok (r : Router.Router) : Prop :=
  broker_ok (Router.firewallsubs r) ∧ broker_ok (Router.routingsubs r).

Lemma Delete_delete (t : gmap Z RoutingObject) ip : Delete t ip = delete ip t.
Proof. unfold Delete. destruct (t !! ip) eqn:E; [done|]. by rewrite delete_id. Qed.

Lemma table_after_ok op t : table_ok t → table_ok (table_after op t).
Proof.
  intros Ht. destruct op as [| | | |obj|ip|obj|ip]; simpl; try done.
  1,3: destruct (t !! GetVirtualIP obj); [done|]; intros ip o; rewrite lookup_insert; case_decide;
    [by intros [= <-]|apply Ht].
  all: intros j o [_ Hj]%lookup_delete_Some; by apply Ht.
Qed.

(** No operation panics, and each has its effects and no others. *)
Lemma exec_spec op (r : Router.Router) :
  subs_ok r → ∃ r', exec op r = Ok r' ∧
    Router.firewall r' = fw_after op (Router.firewall r) ∧ Router.table r' = table_after op (Router.table r) ∧
    grown (rule_event op) (Router.firewallsubs r) (Router.firewallsubs r') ∧
    grown (route_event op (Router.table r)) (Router.routingsubs r) (Router.routingsubs r').
Proof.
  intros [Hf Hr]. pose proof (grown_refl (rule_event op) _ Hf) as Gf.
  pose proof (grown_refl (route_event op (Router.table r)) _ Hr) as Gr.
  destruct op as [idx rule|idx|idx rule|idx|obj|ip|obj|ip]; simpl exec; unfold fw_after, table_after.
  - unfold Router.AddRule. destruct (AddRule (Router.firewall r) idx rule) as [[] fw]; simpl; [|by eexists].
    unfold Router.notifyFirewallEvent.
    edestruct (notify_grown (rule_event (OpAddRule idx rule))) as (b & -> & Hb); [exact Hf|reflexivity|]. by eexists.
  - unfold Router.RemoveRule. destruct (RemoveRule (Router.firewall r) idx) as [[] fw]; simpl; [|by eexists].
    unfold Router.notifyFirewallEvent.
    edestruct (notify_grown (rule_event (OpRemoveRule idx))) as (b & -> & Hb); [exact Hf|reflexivity|]. by eexists.
  - unfold Router.AddRemoteRule. destruct (AddRule (Router.firewall r) idx rule); by eexists.
  - unfold Router.RemoveRemoteRule. destruct (RemoveRule (Router.firewall r) idx); by eexists.
  - unfold Router.AddRoutingObject, Add. destruct (Router.table r !! GetVirtualIP obj) eqn:E; simpl; [by eexists|].
    unfold Router.notifyRoutingEvent.
    edestruct (notify_grown (route_event (OpAddRoutingObject obj) (Router.table r))) as (b & Eb & Hb); [exact Hr|reflexivity|].
    simpl Router.routingsubs. rewrite Eb. by eexists.
  - unfold Router.DeleteRoutingObject, GetByIP. destruct (Router.table r !! ip) as [o|] eqn:E.
    + unfold Router.notifyRoutingEvent. rewrite Delete_delete.
      edestruct (notify_grown (route_event (OpDeleteRoutingObject ip) (Router.table r))) as (b & Eb & Hb); [exact Hr|by exists o|].
      simpl Router.routingsubs. rewrite Eb. by eexists.
    + rewrite delete_id by done. by eexists.
  - unfold Router.AddRemoteRoutingObject, Add. destruct (Router.table r !! GetVirtualIP obj) eqn:E; simpl; by eexists.
  - unfold Router.DeleteRemoteRoutingObject. rewrite Delete_delete. by eexists.
Qed.

(** What happens to a stream between two routers: operations of the one kind at
    the server, of the other at the client, and everything of the stream itself. *)
Inductive node_act (at_server at_client : router_op → Prop) : Streams.act Router.Router Router.Router → Prop :=
| na_server op : at_server op → node_act at_server at_client (Streams.Server (exec op))
| na_client op : at_client op → node_act at_server at_client (Streams.Client (exec op))
| na_subscribes : node_act at_server at_client Streams.OtherSubscribes
| na_cancels id : node_act at_server at_client (Streams.OtherCancels id)
| na_receives id : node_act at_server at_client (Streams.OtherReceives id)
| na_serve c sent : node_act at_server at_client (Streams.Serve c sent)
| na_recv ok : node_act at_server at_client (Streams.Recv ok)
| na_renew ctx_done conn_done sent : node_act at_server at_client (Streams.Renew ctx_done conn_done sent).

(** Two nodes before any stream between them. *)
Definition idle {M} (ra rb : Router.Router) : Streams.Stream Router.Router M Router.Router :=
  Streams.mkStream ra None [] false rb.

End Ops.
End RouterOps.
