(* ===== verification/Topology.v ===== *)
(** * The peer store (pkg/mesh/topology)

    The in-memory store of known mesh peers with its merge rule, its change
    events and subscriptions (memory.go), the JSON file behind it (disk.go) and
    the repository that combines the two (repository.go).  Times are nanoseconds
    since 1970.  The store keeps pointers but hands out clones, and changes
    records only under its lock, so records are values here. *)
From S2P Require Import Prelude Broker.
Import Broker.

Open Scope go_scope.

Module Topology.

(** ** Data *)

Record PeerInfo := mkPeer { ID : string; Address : string; LastSeen : Z }.

#[export] Instance PeerInfo_eq_dec : EqDecision PeerInfo.
Proof. solve_decision. Defined.

Definition Clone (p : PeerInfo) : PeerInfo := mkPeer (ID p) (Address p) (LastSeen p).

(** proto.PeerInfo and proto.PeerEvent. *)
Record ProtoPeer := mkProto { Id : string; Addr : string; ProtoLastSeen : Z }.
Inductive PeerEventType := SYNC | JOINED | UPDATED | LEFT.
Record PeerEvent := mkEvent { Type_ : PeerEventType; Update : option ProtoPeer; EvDump : list ProtoPeer }.

#[export] Instance PeerEventType_eq_dec : EqDecision PeerEventType.
Proof. solve_decision. Defined.

(** [peers] is [None] for a nil map, which reads as empty and panics on a write. *)
Record inMemoryState := mkState {
  peers : option (gmap string PeerInfo);
  subs : broker PeerEvent }.

Definition newInMemoryState : inMemoryState := mkState (Some ∅) empty_broker.

Definition peer_map (s : inMemoryState) : gmap string PeerInfo := default ∅ (peers s).
Definition set_peers (s : inMemoryState) (m : gmap string PeerInfo) : inMemoryState :=
  mkState (Some m) (subs s).

(** ** Reads *)

Definition Get (s : inMemoryState) (id : string) : option PeerInfo := Clone <$> peer_map s !! id.
Definition List_ `{MapRange} (s : inMemoryState) : list PeerInfo :=
  (λ kv, Clone kv.2) <$> map_range (peer_map s).
Definition Count (s : inMemoryState) : nat := size (peer_map s).

(** ** Writes *)

Definition peerInfoToProto (p : PeerInfo) : ProtoPeer := mkProto (ID p) (Address p) (i64 (LastSeen p)).

Definition notify_all `{MapRange} (s : inMemoryState) (evs : list PeerEvent) : gores inMemoryState :=
  foldl (λ r ev, s' <- r;; b <- notify ev (subs s');; Ok (mkState (peers s') b)) (Ok s) evs.

(** The scan of [resolveAddressConflict]. *)
Definition conflict_step (keep : PeerInfo) (acc : list PeerInfo * bool) (kv : string * PeerInfo)
    : list PeerInfo * bool :=
  let '(dropped, keepLost) := acc in
  let '(id, p) := kv in
  if decide (id = ID keep ∨ Address p ≠ Address keep) then acc else
  let keepLost := if decide (LastSeen keep < LastSeen p)%Z then true else keepLost in
  let dropped := if decide (LastSeen p < LastSeen keep)%Z then dropped ++ [p] else dropped in
  (dropped, keepLost).

Definition resolveAddressConflict `{MapRange} (m : gmap string PeerInfo) (keep : PeerInfo)
    : gmap string PeerInfo * list PeerInfo * bool :=
  if decide (Address keep = "") then (m, [], false) else
  let '(dropped, keepLost) := foldl (conflict_step keep) ([], false) (map_range m) in
  if keepLost then (m, [], true)
  else (foldl (λ m p, delete (ID p) m) m dropped, dropped, false).

(** The part of [InsertMerge] after the record [existing] has been stored in
    [m]: the new map, the result and the events to send. *)
Definition settle `{MapRange} (m : gmap string PeerInfo) (existing : PeerInfo) (isNew : bool)
    : gmap string PeerInfo * bool * list PeerEvent :=
  let '(m1, dropped, lost) := resolveAddressConflict m existing in
  let m2 := if lost then delete (ID existing) m1 else m1 in
  let upd ty := mkEvent ty (Some (peerInfoToProto existing)) [] in
  let left_ p := mkEvent LEFT (Some (peerInfoToProto p)) [] in
  if lost && isNew then (m2, false, [])
  else if lost then (m2, true, upd LEFT :: (left_ <$> dropped))
  else if isNew then (m2, true, upd JOINED :: (left_ <$> dropped))
  else (m2, true, upd UPDATED :: (left_ <$> dropped)).

(** The merge of an update into a stored record, and whether it changed. *)
Definition merge_record (existing update : PeerInfo) : PeerInfo * bool :=
  let '(seen, c1) := if decide (LastSeen existing < LastSeen update)%Z
                     then (LastSeen update, true) else (LastSeen existing, false) in
  let '(addr, c2) := if decide (Address update ≠ "" ∧ Address update ≠ Address existing)
                     then (Address update, true) else (Address existing, false) in
  (mkPeer (ID existing) addr seen, c1 || c2).

Definition InsertMerge `{MapRange} (s : inMemoryState) (update : PeerInfo) : gores (bool * inMemoryState) :=
  if decide (ID update = "") then Ok (false, s) else
  match peer_map s !! ID update with
  | None =>
      match peers s with
      | None => Panic
      | Some m =>
          let existing := Clone update in
          let '(m', res, evs) := settle (<[ID update := existing]> m) existing true in
          s' <- notify_all (set_peers s m') evs;; Ok (res, s')
      end
  | Some old =>
      let '(existing, changed) := merge_record old update in
      if negb changed then Ok (false, s) else
      let '(m', res, evs) := settle (<[ID update := existing]> (peer_map s)) existing false in
      s' <- notify_all (set_peers s m') evs;; Ok (res, s')
  end.

Definition Remove `{MapRange} (s : inMemoryState) (id : string) : gores inMemoryState :=
  if decide (id = "") then Ok s else
  match peer_map s !! id with
  | None => Ok s
  | Some existing =>
      notify_all (set_peers s (delete id (peer_map s)))
        [mkEvent LEFT (Some (peerInfoToProto existing)) []]
  end.

Definition Subscribe (s : inMemoryState) : inMemoryState * nat :=
  let '(b, id) := subscribe 200 (subs s) in (mkState (peers s) b, id).

(** ** The JSON file *)

(** A JSON document decodes to [null] or to an object whose values may be
    [null]. *)
Class JsonPeers := {
  json : Type;
  marshal : gmap string PeerInfo → json;
  unmarshal : json → option (option (gmap string (option PeerInfo))) }.

Section Disk.
Context `{JP : JsonPeers} `{MR : MapRange}.

(** The main file and the temporary file next to it. *)
Record disk := mkDisk { main_file : option json; tmp_file : option json }.

(** [Save]: the operating system decides which of its calls succeed. *)
Definition Save (filename : string) (write_ok rename_ok : bool) (d : disk) (ps : gmap string PeerInfo)
    : gores () * disk :=
  if decide (filename = "") then (Ok (), d) else
  if negb write_ok then (Err "failed to write temp file", d) else
  let d1 := mkDisk (main_file d) (Some (marshal ps)) in
  if negb rename_ok then (Err "failed to commit topology file", mkDisk (main_file d1) None)
  else (Ok (), mkDisk (tmp_file d1) None).

(** The loop of [Load] that deletes unusable entries. *)
Definition usable (id : string) (p : option PeerInfo) : option PeerInfo :=
  match p with
  | None => None
  | Some p => if decide (id = "" ∨ ID p = "") then None else Some p
  end.

Definition Load (filename : string) (read_ok : bool) (d : disk) : gores (option (gmap string PeerInfo)) :=
  if decide (filename = "") then Ok (Some ∅) else
  if negb read_ok then Err "failed to read topology file" else
  match main_file d with
  | None => Ok (Some ∅)
  | Some j =>
      match unmarshal j with
      | None => Err "failed to unmarshal topology file"
      | Some None => Ok None
      | Some (Some ps) => Ok (Some (map_imap usable ps))
      end
  end.

(** [NewPeerRepository] without its save loop. *)
Definition NewPeerRepository (filename : string) (read_ok : bool) (d : disk) : inMemoryState :=
  match Load filename read_ok d with
  | Ok loaded => mkState loaded empty_broker
  | _ => newInMemoryState
  end.

(** One round of [startSaveLoop]. *)
Definition flushToDisk (filename : string) (write_ok rename_ok : bool) (s : inMemoryState) (d : disk) : disk :=
  (Save filename write_ok rename_ok d (Clone <$> peer_map s)).2.

End Disk.

(** ** Specification *)

(** Records are stored under their own identity, and records that claim the same
    address are equally fresh. *)
Record topo_ok (s : inMemoryState) : Prop := {
  tk_map : is_Some (peers s);
  tk_key : ∀ k p, peer_map s !! k = Some p → ID p = k ∧ k ≠ "";
  tk_addr : ∀ j k p q, peer_map s !! j = Some p → peer_map s !! k = Some q →
    Address p = Address q → Address p ≠ "" → LastSeen p = LastSeen q;
  tk_subs : broker_ok (subs s) }.

(** A follower of the event stream. *)
Definition ofProto (p : ProtoPeer) : PeerInfo := mkPeer (Id p) (Addr p) (ProtoLastSeen p).
Definition apply_event (m : gmap string PeerInfo) (ev : PeerEvent) : gmap string PeerInfo :=
  match Type_ ev, Update ev with
  | JOINED, Some p | UPDATED, Some p => <[Id p := ofProto p]> m
  | LEFT, Some p => delete (Id p) m
  | _, _ => m
  end.

(** ** Lemmas *)

Section Lemmas.
Context `{MR : MapRange}.
Implicit Types (s : inMemoryState) (m : gmap string PeerInfo) (p q keep : PeerInfo).

Lemma notify_all_ok s evs :
  broker_ok (subs s) → ∃ b, notify_all s evs = Ok (mkState (peers s) b) ∧ broker_ok b ∧
    bk_subs b = bk_subs (subs s) ∧
    ∀ j, is_Some (bk_subs b !! j) →
      bk_chans b !! j = (λ c, foldl (λ c ev, deliver ev c) c evs) <$> bk_chans (subs s) !! j.
Proof.
  unfold notify_all. destruct s as [ps b0]. simpl. revert b0.
  induction evs as [|ev evs IH]; intros b0 Hb; simpl.
  { exists b0. split_and!; try done. intros j _. by destruct (bk_chans b0 !! j). }
  destruct (notify_spec ev b0 Hb) as (b1 & -> & Hb1 & Es & Hd & _). simpl.
  destruct (IH b1 Hb1) as (b2 & -> & Hb2 & Es2 & Hd2). exists b2. split_and!; try done; [congruence|].
  intros j Hj. rewrite Hd2 by done. rewrite Hd by (rewrite <- Es, <- Es2; done).
  by destruct (bk_chans b0 !! j).
Qed.

(** The scan collects the older records of the same address, in the order of the
    map, and reports whether one is fresher. *)
Definition rival (keep : PeerInfo) (kv : string * PeerInfo) : Prop :=
  kv.1 ≠ ID keep ∧ Address kv.2 = Address keep.
Definition older (keep : PeerInfo) (kv : string * PeerInfo) : Prop :=
  rival keep kv ∧ (LastSeen kv.2 < LastSeen keep)%Z.
Definition fresher (keep : PeerInfo) (kv : string * PeerInfo) : Prop :=
  rival keep kv ∧ (LastSeen keep < LastSeen kv.2)%Z.

#[local] Instance older_dec keep kv : Decision (older keep kv).
Proof. unfold older, rival. apply _. Defined.
#[local] Instance fresher_dec keep kv : Decision (fresher keep kv).
Proof. unfold fresher, rival. apply _. Defined.

Lemma conflict_scan keep l d b :
  foldl (conflict_step keep) (d, b) l =
  (d ++ (filter (older keep) l).*2, b || bool_decide (Exists (fresher keep) l)).
Proof.
  revert d b. induction l as [|[k q] l IH]; intros d b; cbn [foldl].
  { simpl. by rewrite app_nil_r, orb_false_r. }
  rewrite filter_cons. unfold conflict_step at 2.
  assert (Hex : bool_decide (Exists (fresher keep) ((k, q) :: l)) =
    bool_decide (fresher keep (k, q)) || bool_decide (Exists (fresher keep) l)).
  { rewrite <- bool_decide_or. apply bool_decide_ext, Exists_cons. }
  rewrite Hex. case_decide as Hc.
  - rewrite IH. rewrite decide_False by (unfold older, rival; simpl; tauto).
    by rewrite (bool_decide_eq_false_2 (fresher keep (k, q))) by (unfold fresher, rival; simpl; tauto).
  - assert (Hr : rival keep (k, q)) by (unfold rival; simpl; destruct (decide (k = ID keep)),
      (decide (Address q = Address keep)); tauto).
    rewrite IH. f_equal.
    + destruct (decide (LastSeen q < LastSeen keep)%Z).
      * rewrite decide_True by done. rewrite <- app_assoc. done.
      * rewrite decide_False by (unfold older; simpl; tauto). done.
    + destruct (decide (LastSeen keep < LastSeen q)%Z).
      * rewrite (bool_decide_eq_true_2 (fresher keep (k, q))) by done. by rewrite orb_true_r.
      * rewrite (bool_decide_eq_false_2 (fresher keep (k, q))) by (unfold fresher; simpl; tauto). done.
Qed.

(** Deleting the losers leaves exactly the other records. *)
Lemma delete_all_lookup l m k :
  foldl (λ m p, delete (ID p) m) m l !! k = if decide (k ∈ ID <$> l) then None else m !! k.
Proof.
  revert m. induction l as [|p l IH]; intros m; simpl; [done|].
  rewrite IH, lookup_delete. repeat case_decide; set_solver.
Qed.

(** What [settle] does to a map whose records are under their own names, with
    equally fresh records per address except possibly the one just stored. *)
Record pre_ok (m : gmap string PeerInfo) (e : PeerInfo) : Prop := {
  pr_self : m !! ID e = Some e;
  pr_key : ∀ k p, m !! k = Some p → ID p = k ∧ k ≠ "";
  pr_addr : ∀ j k p q, m !! j = Some p → m !! k = Some q → j ≠ ID e → k ≠ ID e →
    Address p = Address q → Address p ≠ "" → LastSeen p = LastSeen q }.

Lemma rival_lookup m e k p : pre_ok m e → (k, p) ∈ map_range m → m !! k = Some p ∧ ID p = k.
Proof. intros Hp Hin%elem_of_map_range. split; [done|]. by apply (pr_key _ _ Hp). Qed.

Lemma settle_spec m e isNew :
  pre_ok m e →
  let '(m', res, evs) := settle m e isNew in
  (∀ j, j ≠ ID e → m' !! j = m !! j ∨
     ∃ p, m !! j = Some p ∧ m' !! j = None ∧ m' !! ID e = Some e ∧
       Address p = Address e ∧ Address e ≠ "" ∧ (LastSeen p < LastSeen e)%Z) ∧
  (m' !! ID e = Some e ∨
     m' !! ID e = None ∧ Address e ≠ "" ∧
     ∃ j p, m !! j = Some p ∧ Address p = Address e ∧ (LastSeen e < LastSeen p)%Z) ∧
  (m' !! ID e = Some e → Address e ≠ "" →
     ∀ j p, j ≠ ID e → m' !! j = Some p → Address p = Address e → LastSeen p = LastSeen e) ∧
  (res = false ↔ isNew = true ∧ m' !! ID e = None).
Proof.
  intros Hp. unfold settle, resolveAddressConflict. pose proof (pr_self _ _ Hp) as He.
  case_decide as Ha.
  { simpl. destruct isNew; simpl; rewrite He; naive_solver. }
  rewrite conflict_scan. simpl. case_bool_decide as Hf; simpl.
  - assert (Hw : ∃ j p, m !! j = Some p ∧ Address p = Address e ∧ (LastSeen e < LastSeen p)%Z).
    { apply Exists_exists in Hf as ([j p] & Hin & [[_ Hap] Hl]). simpl in *.
      apply (rival_lookup _ _ _ _ Hp) in Hin as [? _]. eauto. }
    assert (Hd : ∀ j, j ≠ ID e → delete (ID e) m !! j = m !! j) by (intros; by rewrite lookup_delete_ne).
    destruct isNew; simpl; rewrite lookup_delete_eq; (split_and!; [by auto|right; by auto|done|naive_solver]).
  - set (drop := (filter (older e) (map_range m)).*2).
    assert (Hdrop : ∀ k, k ∈ ID <$> drop ↔ ∃ p, m !! k = Some p ∧ older e (k, p)).
    { intros k. unfold drop. rewrite list_elem_of_fmap. split.
      - intros (p & -> & ([k1 q] & -> & [Ho Hin]%list_elem_of_filter)%list_elem_of_fmap). simpl.
        apply (rival_lookup _ _ _ _ Hp) in Hin as [Hin <-]. eauto.
      - intros (p & Hk & Ho). exists p. split; [by destruct (pr_key _ _ Hp _ _ Hk) as [-> _]|].
        apply list_elem_of_fmap. exists (k, p). split; [done|]. apply list_elem_of_filter.
        split; [done|]. by apply elem_of_map_range. }
    assert (Hself : ID e ∉ ID <$> drop).
    { rewrite Hdrop. intros (p & _ & [[Hne _] _]). by simpl in Hne. }
    assert (Hle : ∀ j p, m !! j = Some p → j ≠ ID e → Address p = Address e →
      (LastSeen p <= LastSeen e)%Z).
    { intros j p Hj Hne Hap. destruct (decide (LastSeen e < LastSeen p)%Z); [|lia].
      destruct Hf. apply Exists_exists. exists (j, p). split; [by apply elem_of_map_range|done]. }
    assert (Hm : foldl (λ m p, delete (ID p) m) m drop !! ID e = Some e).
    { rewrite delete_all_lookup. by rewrite decide_False. }
    destruct isNew; simpl; rewrite Hm; (split_and!; [|by left| |naive_solver]).
    all: try (intros j Hj; rewrite delete_all_lookup; case_decide as Hin; [right|by left];
      apply Hdrop in Hin as (p & Hk & [[_ Hap] Hl]); simpl in *; eauto 10).
    all: intros _ _ j p Hj; rewrite delete_all_lookup; case_decide as Hin; [done|];
      intros Hk Hap; specialize (Hle j p Hk Hj Hap);
      destruct (decide (LastSeen p < LastSeen e)%Z); [|lia];
      destruct Hin; apply Hdrop; eauto; by exists p.
Qed.

Lemma peer_map_Some m b : peer_map (mkState (Some m) b) = m.
Proof. done. Qed.

(** A follower that applies the events of [settle] to the map before the change
    arrives at the map after it. *)
Lemma apply_left_all l m :
  foldl apply_event m ((λ p, mkEvent LEFT (Some (peerInfoToProto p)) []) <$> l) =
  foldl (λ m p, delete (ID p) m) m l.
Proof. revert m. induction l as [|p l IH]; intros m; simpl; [done|]. apply IH. Qed.

Lemma settle_events m0 e (isNew : bool) :
  is_i64 (LastSeen e) → (isNew = true → m0 !! ID e = None) →
  let '(m', _, evs) := settle (<[ID e := e]> m0) e isNew in foldl apply_event m0 evs = m'.
Proof.
  intros Hi Hnew. unfold settle. destruct (resolveAddressConflict _ e) as [[m1 dropped] lost] eqn:Er.
  assert (Hup : ofProto (peerInfoToProto e) = e).
  { unfold ofProto, peerInfoToProto. simpl. rewrite i64_small by done. by destruct e. }
  assert (Hres : if lost then m1 = <[ID e := e]> m0 ∧ dropped = []
                 else foldl (λ m p, delete (ID p) m) (<[ID e := e]> m0) dropped = m1).
  { unfold resolveAddressConflict in Er. case_decide; [by injection Er as <- <- <-|].
    destruct (foldl _ _ _) as [d []]; injection Er as <- <- <-; done. }
  assert (Hput : ∀ ty, ty = JOINED ∨ ty = UPDATED →
    apply_event m0 (mkEvent ty (Some (peerInfoToProto e)) []) = <[ID e := e]> m0).
  { intros ty Hty. rewrite <- Hup at 3. destruct Hty as [-> | ->]; done. }
  destruct lost; cbn [andb].
  - destruct Hres as [-> ->]. destruct isNew; cbn.
    + by rewrite delete_insert_id by auto.
    + by rewrite delete_insert_eq.
  - destruct isNew; cbn [foldl]; rewrite Hput, apply_left_all by auto; done.
Qed.

Lemma merge_record_spec old u :
  let '(e, changed) := merge_record old u in
  ID e = ID old ∧ LastSeen e = Z.max (LastSeen old) (LastSeen u) ∧
  Address e = (if decide (Address u = "") then Address old else Address u) ∧
  (changed = false → e = old).
Proof.
  unfold merge_record. destruct old as [i a t], u as [i' a' t']; simpl.
  assert (Ha : (if decide (a' ≠ "" ∧ a' ≠ a) then (a', true) else (a, false)) =
    (if decide (a' = "") then a else a', bool_decide (a' ≠ "" ∧ a' ≠ a))).
  { repeat case_decide; case_bool_decide; f_equal; try tauto;
      destruct (decide (a' = a)); (congruence || tauto). }
  rewrite Ha. case_bool_decide as Hb; destruct (decide (t < t')%Z); simpl; split_and!; try done; try lia.
  intros _. f_equal. clear Ha. case_decide; [done|]. destruct (decide (a' = a)); [done|tauto].
Qed.

Lemma pre_ok_insert s e :
  topo_ok s → ID e ≠ "" → pre_ok (<[ID e := e]> (peer_map s)) e.
Proof.
  intros [_ Hk Ha _] He. constructor.
  - by rewrite lookup_insert_eq.
  - intros k p. rewrite lookup_insert. case_decide; [naive_solver|]. apply Hk.
  - intros j k p q. rewrite !lookup_insert. intros Hj Hq ? ?.
    rewrite decide_False in Hj by done. rewrite decide_False in Hq by done. eauto.
Qed.

(** The merge of the stored record, if any, with the update. *)
Definition merged (s : inMemoryState) (u : PeerInfo) : PeerInfo :=
  match peer_map s !! ID u with
  | Some old => (merge_record old u).1
  | None => Clone u
  end.

Lemma merged_ID s u : topo_ok s → ID (merged s u) = ID u.
Proof.
  intros Hs. unfold merged. destruct (peer_map s !! ID u) as [old|] eqn:E; [|done].
  pose proof (merge_record_spec old u) as Hm. destruct (merge_record old u). simpl.
  destruct Hm as (-> & _). by apply (tk_key _ Hs).
Qed.

Lemma topo_ok_settled s e (isNew : bool) b :
  topo_ok s → ID e ≠ "" → broker_ok b →
  topo_ok (mkState (Some (settle (<[ID e := e]> (peer_map s)) e isNew).1.1) b).
Proof.
  intros Hs He Hb. pose proof (pre_ok_insert s e Hs He) as Hp.
  pose proof (settle_spec _ _ isNew Hp) as Hsp.
  destruct (settle _ e isNew) as [[m' res] evs]. simpl. destruct Hsp as (Hother & Hself & Huniq & _).
  assert (Hback : ∀ k p, m' !! k = Some p → <[ID e := e]> (peer_map s) !! k = Some p).
  { intros k p Hk. destruct (decide (k = ID e)) as [->|Hne].
    - destruct Hself as [Hself|[Hself _]]; [|congruence]. rewrite Hself in Hk. by rewrite lookup_insert_eq.
    - destruct (Hother k Hne) as [<-|(? & _ & Hx & _)]; [done|congruence]. }
  constructor; unfold peer_map in *; simpl; try done.
  - intros k p Hk. by apply (pr_key _ _ Hp), Hback.
  - intros j k p q Hj Hk Hap Hne.
    assert (Hcase : ∀ i x, m' !! i = Some x → i = ID e → x = e).
    { intros i x Hi ->. apply Hback in Hi. rewrite lookup_insert_eq in Hi. congruence. }
    destruct (decide (j = ID e)) as [Ej|Ej], (decide (k = ID e)) as [Ek|Ek].
    + rewrite (Hcase _ _ Hj Ej), (Hcase _ _ Hk Ek). done.
    + pose proof (Hcase _ _ Hj Ej). subst p. symmetry.
      apply (Huniq ltac:(by subst) ltac:(done) k q); done.
    + pose proof (Hcase _ _ Hk Ek). subst q.
      apply (Huniq ltac:(by subst) ltac:(congruence) j p); done.
    + apply (pr_addr _ _ Hp j k p q); auto.
Qed.

(** [InsertMerge] is the merge, the settlement and the notification. *)
Lemma InsertMerge_unfold s u :
  topo_ok s → ID u ≠ "" →
  (InsertMerge s u = Ok (false, s) ∧ peer_map s !! ID u = Some (merged s u)) ∨
  ∃ b, let isNew := bool_decide (peer_map s !! ID u = None) in
    let '(m', res, evs) := settle (<[ID (merged s u) := merged s u]> (peer_map s)) (merged s u) isNew in
    InsertMerge s u = Ok (res, mkState (Some m') b) ∧ broker_ok b ∧ bk_subs b = bk_subs (subs s) ∧
    ∀ j, is_Some (bk_subs b !! j) →
      bk_chans b !! j = (λ c, foldl (λ c ev, deliver ev c) c evs) <$> bk_chans (subs s) !! j.
Proof.
  intros Hs Hu. pose proof (merged_ID s u Hs) as Hid. unfold InsertMerge. rewrite decide_False by done.
  rewrite Hid. unfold merged in *. destruct (peer_map s !! ID u) as [old|] eqn:E.
  - pose proof (merge_record_spec old u) as Hm. destruct (merge_record old u) as [e changed]. simpl in *.
    destruct changed; simpl; [|left; destruct Hm as (_ & _ & _ & He); by rewrite He].
    right. destruct (settle (<[ID u := e]> (peer_map s)) e false) as [[m' res] evs] eqn:Es.
    destruct (notify_all_ok (set_peers s m') evs (tk_subs _ Hs)) as (b & Eb & ?).
    exists b. simpl. rewrite ?Es, Eb. by split.
  - right. destruct (tk_map _ Hs) as [m0 Em]. rewrite Em.
    assert (Epm : peer_map s = m0) by (unfold peer_map; by rewrite Em). rewrite Epm. simpl.
    destruct (settle (<[ID u := Clone u]> m0) (Clone u) true) as [[m' res] evs] eqn:Es.
    destruct (notify_all_ok (set_peers s m') evs (tk_subs _ Hs)) as (b & Eb & ?).
    exists b. simpl. rewrite ?Es, Eb. by split.
Qed.

(** Totality of the insertion, for the callers. *)
Lemma insert_merge_total s u :
  topo_ok s → ∃ res s', InsertMerge s u = Ok (res, s') ∧ topo_ok s'.
Proof.
  intros Hs. destruct (decide (ID u = "")) as [Hu|Hu].
  { exists false, s. unfold InsertMerge. by rewrite decide_True. }
  destruct (InsertMerge_unfold s u Hs Hu) as [[E _]|(b & E)]; [by exists false, s|].
  pose proof (topo_ok_settled s (merged s u) (bool_decide (peer_map s !! ID u = None)) b Hs
    ltac:(by rewrite (merged_ID s u Hs))) as Hok. cbn zeta in E.
  destruct (settle _ (merged s u) _) as [[m' res] evs]. destruct E as (E & Hb & _).
  exists res, (mkState (Some m') b). split; [done|]. by apply Hok.
Qed.

Lemma topo_ok_delete s id b : topo_ok s → broker_ok b → topo_ok (mkState (Some (delete id (peer_map s))) b).
Proof.
  intros [_ Hk Ha _] Hb. constructor; unfold peer_map in *; simpl; [eauto|..|done].
  - intros k p. rewrite lookup_delete_Some. intros [_ ?]. by apply Hk.
  - intros j k p q. rewrite !lookup_delete_Some. intros [_ ?] [_ ?]. by eapply Ha.
Qed.

Lemma no_empty_name s : topo_ok s → peer_map s !! "" = None.
Proof.
  intros Hs. destruct (peer_map s !! "") as [p|] eqn:E; [|done]. by destruct (tk_key _ Hs _ _ E).
Qed.

Lemma remove_total s id :
  topo_ok s → ∃ s', Remove s id = Ok s' ∧ topo_ok s' ∧ peer_map s' = delete id (peer_map s).
Proof.
  intros Hs. unfold Remove. case_decide as Hid.
  { exists s. subst. split_and!; [done|done|]. by rewrite delete_id by by apply no_empty_name. }
  destruct (peer_map s !! id) as [existing|] eqn:E; [|exists s; split_and!; [done|done|by rewrite delete_id]].
  destruct (notify_all_ok (set_peers s (delete id (peer_map s)))
    [mkEvent LEFT (Some (peerInfoToProto existing)) []] (tk_subs _ Hs)) as (b & -> & Hb & _).
  eexists. split; [done|]. split; [by apply topo_ok_delete|done].
Qed.

(** Inserting a new record that no stored record conflicts with adds exactly
    that record. *)
Lemma insert_new s u :
  topo_ok s → ID u ≠ "" → peer_map s !! ID u = None →
  (∀ j p, peer_map s !! j = Some p → Address p = Address u → Address u ≠ "" → LastSeen p = LastSeen u) →
  ∃ s', InsertMerge s u = Ok (true, s') ∧ topo_ok s' ∧ peer_map s' = <[ID u := u]> (peer_map s).
Proof.
  intros Hs Hu Hn Hc. assert (Hm : merged s u = u) by (unfold merged; rewrite Hn; by destruct u).
  destruct (InsertMerge_unfold s u Hs Hu) as [[_ E]|(b & E)]; [congruence|].
  rewrite Hm in E. pose proof (pre_ok_insert s u Hs Hu) as Hp.
  pose proof (settle_spec _ _ (bool_decide (peer_map s !! ID u = None)) Hp) as Hsp.
  pose proof (topo_ok_settled s u (bool_decide (peer_map s !! ID u = None)) b Hs Hu) as Hok.
  cbn zeta in E. destruct (settle _ u _) as [[m' res] evs]. destruct E as (E & Hb & _).
  destruct Hsp as (Hother & Hself & _ & Hres).
  assert (He : m' !! ID u = Some u).
  { destruct Hself as [?|(_ & Ha & j & p & Hj & Hap & Hl)]; [done|].
    rewrite lookup_insert in Hj. case_decide; [injection Hj as <-; lia|].
    specialize (Hc j p Hj Hap Ha). lia. }
  exists (mkState (Some m') b). split_and!; [|by apply Hok|].
  - rewrite E. repeat f_equal. destruct res; [done|]. destruct (proj1 Hres eq_refl). congruence.
  - rewrite peer_map_Some. apply map_eq. intros j. destruct (decide (j = ID u)) as [->|Hj].
    { by rewrite lookup_insert_eq. }
    destruct (Hother j Hj) as [->|(p & Hjp & _ & _ & Hap & Hne & Hl)]; [done|].
    rewrite lookup_insert_ne in Hjp by done. specialize (Hc j p Hjp Hap Hne). lia.
Qed.

(** ** Theorems *)

(** C7: the freshest claim to an address wins.  On a consistent store every
    [InsertMerge] of a named record terminates without a panic and leaves a
    consistent store (records under their own names, one address held only by
    equally fresh records).  The merged record has the later of the two times and
    the new address, if there is one; it is stored, unless a strictly fresher
    record holds its address; and any other record is unchanged, unless it held
    the same address and was strictly older, in which case it is removed. *)
Theorem insert_merge_keeps_freshest s u :
  topo_ok s → ID u ≠ "" →
  ∃ res s', InsertMerge s u = Ok (res, s') ∧ topo_ok s' ∧
    let e := merged s u in
    LastSeen e = match peer_map s !! ID u with
                 | Some old => Z.max (LastSeen old) (LastSeen u) | None => LastSeen u end ∧
    Address e = (if decide (Address u = "")
                 then match peer_map s !! ID u with Some old => Address old | None => "" end
                 else Address u) ∧
    (peer_map s' !! ID u = Some e ∨
     peer_map s' !! ID u = None ∧ Address e ≠ "" ∧
       ∃ j p, peer_map s' !! j = Some p ∧ Address p = Address e ∧ (LastSeen e < LastSeen p)%Z) ∧
    ∀ j, j ≠ ID u → peer_map s' !! j = peer_map s !! j ∨
      ∃ p, peer_map s !! j = Some p ∧ peer_map s' !! j = None ∧ peer_map s' !! ID u = Some e ∧
        Address p = Address e ∧ Address e ≠ "" ∧ (LastSeen p < LastSeen e)%Z.
Proof.
  intros Hs Hu. pose proof (merged_ID s u Hs) as Hid.
  assert (Hfields : LastSeen (merged s u) = match peer_map s !! ID u with
      | Some old => Z.max (LastSeen old) (LastSeen u) | None => LastSeen u end ∧
    Address (merged s u) = (if decide (Address u = "")
      then match peer_map s !! ID u with Some old => Address old | None => "" end else Address u)).
  { unfold merged. destruct (peer_map s !! ID u) as [old|]; simpl.
    - pose proof (merge_record_spec old u) as Hm. destruct (merge_record old u). naive_solver.
    - split; [done|]. by case_decide. }
  destruct Hfields as [Hseen Haddr].
  destruct (InsertMerge_unfold s u Hs Hu) as [[E Ee]|(b & E)].
  { exists false, s. split_and!; try done; auto. }
  pose proof (pre_ok_insert s (merged s u) Hs ltac:(by rewrite Hid)) as Hp.
  pose proof (settle_spec _ _ (bool_decide (peer_map s !! ID u = None)) Hp) as Hsp.
  pose proof (topo_ok_settled s (merged s u) (bool_decide (peer_map s !! ID u = None)) b Hs
    ltac:(by rewrite Hid)) as Hok. cbn zeta in E.
  destruct (settle _ (merged s u) _) as [[m' res] evs]. destruct E as (E & Hb & _).
  rewrite Hid in *. destruct Hsp as (Hother & Hself & _ & _).
  exists res, (mkState (Some m') b). split; [done|]. split; [by apply Hok|]. split_and!; try done.
  - destruct Hself as [?|(Hn & Ha & j & p & Hj & Hap & Hl)]; [by left|right].
    split_and!; try done. exists j, p. split; [|done]. change (m' !! j = Some p).
    assert (j ≠ ID u) by (intros ->; rewrite lookup_insert_eq in Hj; injection Hj as <-; lia).
    destruct (Hother j) as [->|(? & _ & _ & Hx & _)]; [done|done|congruence].
  - intros j Hj. destruct (Hother j Hj) as [Hsame|Hrem]; rewrite lookup_insert_ne in * by done; auto.
Qed.

(** the event stream mirrors the store.  Whatever [InsertMerge] or [Remove]
    changes, a follower that applies the events sent to every subscriber (a put
    for joined and updated, a deletion for left) to its copy of the store before
    the call has the store after the call; all subscribers get the same events in
    the same order, and lose one only when their buffer is full. *)
Theorem events_mirror_store s u id :
  topo_ok s → is_i64 (LastSeen (merged s u)) →
  (∃ res s' evs, InsertMerge s u = Ok (res, s') ∧ foldl apply_event (peer_map s) evs = peer_map s' ∧
     ∀ j, is_Some (bk_subs (subs s') !! j) →
       bk_chans (subs s') !! j = (λ c, foldl (λ c ev, deliver ev c) c evs) <$> bk_chans (subs s) !! j) ∧
  (∃ s' evs, Remove s id = Ok s' ∧ topo_ok s' ∧ foldl apply_event (peer_map s) evs = peer_map s' ∧
     peer_map s' = delete id (peer_map s) ∧
     ∀ j, is_Some (bk_subs (subs s') !! j) →
       bk_chans (subs s') !! j = (λ c, foldl (λ c ev, deliver ev c) c evs) <$> bk_chans (subs s) !! j).
Proof.
  intros Hs Hi.
  assert (Hnil : ∀ j, is_Some (bk_subs (subs s) !! j) → bk_chans (subs s) !! j =
    (λ c, foldl (λ c (ev : PeerEvent), deliver ev c) c []) <$> bk_chans (subs s) !! j).
  { intros j _. simpl. by destruct (bk_chans (subs s) !! j). }
  split.
  - destruct (decide (ID u = "")) as [Hu|Hu].
    { exists false, s, []. unfold InsertMerge. rewrite decide_True by done. by split_and!. }
    destruct (InsertMerge_unfold s u Hs Hu) as [[E _]|(b & E)].
    { exists false, s, []. by split_and!. }
    pose proof (settle_events (peer_map s) (merged s u) (bool_decide (peer_map s !! ID u = None)) Hi) as He.
    rewrite (merged_ID s u Hs) in *. cbn zeta in E.
    destruct (settle _ (merged s u) _) as [[m' res] evs]. destruct E as (E & Hb & Es & Hc).
    exists res, (mkState (Some m') b), evs. split; [done|]. split; [|done].
    apply He. by rewrite bool_decide_eq_true.
  - unfold Remove. case_decide as Hid; [subst id; exists s, []; split_and!; try done|].
    { symmetry. apply delete_id. by apply no_empty_name. }
    destruct (peer_map s !! id) as [existing|] eqn:E.
    + destruct (notify_all_ok (set_peers s (delete id (peer_map s)))
        [mkEvent LEFT (Some (peerInfoToProto existing)) []] (tk_subs _ Hs)) as (b & -> & Hb & _ & Hc).
      eexists _, _. split; [done|]. split; [by apply topo_ok_delete|]. split; [|split; [done|exact Hc]].
      cbn. by destruct (tk_key _ Hs _ _ E) as [-> _].
    + exists s, []. split_and!; try done. symmetry. by apply delete_id.
Qed.

(** the merge of addresses is not ordered by time.  A record that is older
    than the stored one still replaces its address: after the two updates the
    store holds the fresh time with the stale address, and the opposite order of
    the same updates gives a different store. *)
Theorem stale_update_replaces_address s i a1 a2 t1 t2 :
  topo_ok s → i ≠ "" → peer_map s = ∅ → a1 ≠ "" → a2 ≠ "" → a1 ≠ a2 → (t2 < t1)%Z →
  ∃ s1 s2 s3 s4,
    InsertMerge s (mkPeer i a1 t1) = Ok (true, s1) ∧
    InsertMerge s1 (mkPeer i a2 t2) = Ok (true, s2) ∧ peer_map s2 !! i = Some (mkPeer i a2 t1) ∧
    InsertMerge s (mkPeer i a2 t2) = Ok (true, s3) ∧
    InsertMerge s3 (mkPeer i a1 t1) = Ok (true, s4) ∧ peer_map s4 !! i = Some (mkPeer i a1 t1).
Proof.
  intros Hs Hi Hm Ha1 Ha2 Hne Ht.
  assert (Hset : ∀ e isNew, ID e = i → Address e ≠ "" →
    settle (<[i := e]> ∅) e isNew =
    (<[i := e]> ∅, true, [mkEvent (if isNew : bool then JOINED else UPDATED) (Some (peerInfoToProto e)) []])).
  { intros e isNew He Hae. unfold settle, resolveAddressConflict. rewrite decide_False by done.
    rewrite conflict_scan. simpl.
    assert (Hone : map_range (<[i := e]> (∅ : gmap string PeerInfo)) = [(i, e)]).
    { apply Permutation_singleton_r. rewrite map_range_perm. by rewrite insert_empty, map_to_list_singleton. }
    rewrite Hone. rewrite filter_cons, decide_False by (intros [[Hx _] _]; simpl in Hx; congruence).
    rewrite bool_decide_eq_false_2 by (rewrite Exists_cons, Exists_nil; intros [[[Hx _] _]|[]]; simpl in Hx; congruence).
    simpl. by destruct isNew. }
  assert (Hfirst : ∀ a t, a ≠ "" → ∃ b, InsertMerge s (mkPeer i a t) =
    Ok (true, mkState (Some (<[i := mkPeer i a t]> ∅)) b) ∧ broker_ok b).
  { intros a t Ha. unfold InsertMerge. cbn [ID]. rewrite decide_False by done. rewrite Hm, lookup_empty.
    destruct (tk_map _ Hs) as [m0 Em]. rewrite Em.
    assert (m0 = ∅) as -> by (revert Hm; unfold peer_map; rewrite Em; done).
    unfold Clone. cbn [ID Address LastSeen]. rewrite Hset by done.
    match goal with |- context [notify_all ?s1 ?l] =>
      destruct (notify_all_ok s1 l (tk_subs _ Hs)) as (b & -> & Hb & _) end.
    exists b. by split. }
  assert (Hsecond : ∀ a t a' t' b, a ≠ "" → a' ≠ "" → a' ≠ a → broker_ok b →
    ∃ b', InsertMerge (mkState (Some (<[i := mkPeer i a t]> ∅)) b) (mkPeer i a' t') =
      Ok (true, mkState (Some (<[i := mkPeer i a' (Z.max t t')]> ∅)) b')).
  { intros a t a' t' b Ha Ha' Hd Hb. unfold InsertMerge. cbn [ID]. rewrite decide_False by done.
    rewrite peer_map_Some, lookup_insert_eq. unfold merge_record.
    cbn [ID Address LastSeen]. rewrite (decide_True (P := a' ≠ "" ∧ _)) by done.
    assert (Hmax : (if decide (t < t')%Z then (t', true) else (t, false)) =
      (Z.max t t', bool_decide (t < t')%Z)).
    { case_decide; case_bool_decide; try lia; f_equal; lia. }
    rewrite Hmax, orb_true_r. cbn [negb]. rewrite insert_insert_eq, Hset by done.
    match goal with |- context [notify_all ?s1 ?l] =>
      destruct (notify_all_ok s1 l Hb) as (b' & -> & _) end.
    exists b'. done. }
  destruct (Hfirst a1 t1 Ha1) as (b1 & E1 & Hb1).
  destruct (Hsecond a1 t1 a2 t2 b1 Ha1 Ha2 ltac:(done) Hb1) as (b2 & E2).
  destruct (Hfirst a2 t2 Ha2) as (b3 & E3 & Hb3).
  destruct (Hsecond a2 t2 a1 t1 b3 Ha2 Ha1 ltac:(done) Hb3) as (b4 & E4).
  do 4 eexists. split_and!; [exact E1|exact E2| |exact E3|exact E4|].
  - rewrite peer_map_Some, lookup_insert_eq. repeat f_equal. lia.
  - rewrite peer_map_Some, lookup_insert_eq. repeat f_equal. lia.
Qed.

End Lemmas.

(** the file behind the store.  When marshalling and unmarshalling are
    inverse, a repository opened on the file of a successful flush has the
    records of the store that was flushed; a flush that fails at either system
    call leaves the file as it was. *)
Theorem repository_roundtrip `{JsonPeers} filename write_ok rename_ok s d :
  (∀ m, unmarshal (marshal m) = Some (Some (Some <$> m))) → topo_ok s → filename ≠ "" →
  let d' := flushToDisk filename write_ok rename_ok s d in
  if write_ok && rename_ok
  then peer_map (NewPeerRepository filename true d') = peer_map s ∧
       topo_ok (NewPeerRepository filename true d')
  else main_file d' = main_file d.
Proof.
  intros HJ Hs Hf. unfold flushToDisk, Save. rewrite decide_False by done.
  destruct write_ok, rename_ok; simpl; try done.
  unfold NewPeerRepository, Load. rewrite decide_False by done. simpl. rewrite HJ. simpl.
  assert (E : map_imap usable (Some <$> (Clone <$> peer_map s)) = peer_map s).
  { apply map_eq. intros k. rewrite map_lookup_imap, !lookup_fmap.
    destruct (peer_map s !! k) as [p|] eqn:Ep; simpl; [|done].
    destruct (tk_key _ Hs _ _ Ep) as [Hid Hk]. rewrite decide_False by (intros [?|?]; congruence).
    by destruct p. }
  rewrite E. split; [done|]. destruct Hs as [_ Hk Ha _].
  by constructor; simpl; try apply empty_broker_ok.
Qed.

(** a peers file that holds the JSON document [null] opens a store without a
    map: reading works, and the first insertion of a peer panics. *)
Theorem null_file_panics `{JsonPeers} `{MapRange} filename d j u :
  filename ≠ "" → main_file d = Some j → unmarshal j = Some None → ID u ≠ "" →
  Count (NewPeerRepository filename true d) = 0%nat ∧
  InsertMerge (NewPeerRepository filename true d) u = Panic.
Proof.
  intros Hf Hj Hn Hu. unfold NewPeerRepository, Load. rewrite decide_False by done. simpl.
  rewrite Hj, Hn. split; [done|]. unfold InsertMerge. by rewrite decide_False.
Qed.

(** ** Witnesses *)

Lemma new_state_ok : topo_ok newInMemoryState.
Proof.
  constructor; unfold peer_map; simpl; [eauto| | |apply empty_broker_ok].
  - intros k p. by rewrite lookup_empty.
  - intros j k p q. by rewrite lookup_empty.
Qed.

Definition demo_node : PeerInfo := mkPeer "a" "1.1.1.1:9000" 10.

Lemma insert_merge_keeps_freshest_witness :
  ∃ res s', InsertMerge newInMemoryState demo_node = Ok (res, s') ∧ topo_ok s'.
Proof.
  destruct (insert_merge_keeps_freshest newInMemoryState demo_node new_state_ok) as (res & s' & E & Hs & _);
    [done|]. exists res, s'. split; [exact E|exact Hs].
Defined.

Lemma events_mirror_store_witness :
  ∃ res s' evs, InsertMerge newInMemoryState demo_node = Ok (res, s') ∧
    foldl apply_event ∅ evs = peer_map s'.
Proof.
  destruct (events_mirror_store newInMemoryState demo_node "" new_state_ok) as [(res & s' & evs & E & Em & _) _].
  - split; vm_compute; congruence.
  - exists res, s', evs. split; [exact E|exact Em].
Defined.

Lemma stale_update_replaces_address_witness :
  ∃ s1 s2, InsertMerge newInMemoryState (mkPeer "a" "x" 10) = Ok (true, s1) ∧
    InsertMerge s1 (mkPeer "a" "y" 5) = Ok (true, s2) ∧ peer_map s2 !! "a" = Some (mkPeer "a" "y" 10).
Proof.
  destruct (stale_update_replaces_address newInMemoryState "a" "x" "y" 10 5 new_state_ok)
    as (s1 & s2 & _ & _ & E1 & E2 & Hl & _); try done.
  exists s1, s2. split; [exact E1|]. split; [exact E2|exact Hl].
Defined.

(** JSON documents represented by the value they decode to. *)
Definition value_json : JsonPeers := {|
  json := option (gmap string (option PeerInfo));
  marshal := λ m, Some (Some <$> m);
  unmarshal := λ j, Some j |}.

Lemma repository_roundtrip_witness :
  peer_map (NewPeerRepository (JP := value_json) "peers.json" true
    (flushToDisk "peers.json" true true newInMemoryState (mkDisk None None))) = ∅.
Proof.
  apply (repository_roundtrip (H := value_json) "peers.json" true true newInMemoryState (mkDisk None None)
    (λ m, eq_refl) new_state_ok). done.
Defined.

Definition null_document : @json value_json := None.

Lemma null_file_panics_witness :
  InsertMerge (NewPeerRepository (JP := value_json) "peers.json" true (mkDisk (Some null_document) None))
    demo_node = Panic.
Proof.
  apply (null_file_panics (H := value_json) "peers.json" (mkDisk (Some null_document) None) null_document
    demo_node); done.
Defined.

End Topology.
