(* ===== verification/Session.v ===== *)
(** * Sessions with mesh peers (pkg/mesh/session)

    The registry of live sessions with its tie-breaking rule (registry.go), the
    engine that turns a connection into a session (engine.go) and the virtual
    listener that feeds incoming streams to the gRPC server (listener.go).
    Connections, gRPC clients and sessions are objects with an identity; a
    connection that has been closed has a context that is done.  [time.Now()] is
    the argument [now], in nanoseconds. *)
From S2P Require Import Prelude Broker Topology RoutingTable Router.
Import Broker.

Open Scope go_scope.

Module Session.

(** ** Data *)

Record PeerConnection := mkConn {
  c_ref : nat; c_id : string; c_remote : string; IsInitiator : bool }.

Record Session := mkSession {
  s_ref : nat; PeerID : string; Conn : option PeerConnection; GrpcClient : option nat; AddedAt : Z }.

#[export] Instance PeerConnection_eq_dec : EqDecision PeerConnection.
Proof. solve_decision. Defined.
#[export] Instance Session_eq_dec : EqDecision Session.
Proof. solve_decision. Defined.

(** The registry, with the connections and gRPC clients closed so far. *)
Record sessionRegistry := mkReg {
  localID : string;
  sessions : gmap string Session;
  reg_subs : broker Session;
  closed : bool;
  conns_closed : gset nat;
  grpc_closed : gset nat }.

Definition NewRegistry (local : string) : sessionRegistry :=
  mkReg local ∅ empty_broker false ∅ ∅.

Definition set_sessions (r : sessionRegistry) m b : sessionRegistry :=
  mkReg (localID r) m b (closed r) (conns_closed r) (grpc_closed r).

Definition collisionWindow : Z := 10000000000.

Definition stamp (s : Session) (now : Z) : Session :=
  mkSession (s_ref s) (PeerID s) (Conn s) (GrpcClient s) now.

(** ** Operations *)

Definition close_conn (r : sessionRegistry) (c : nat) : sessionRegistry :=
  mkReg (localID r) (sessions r) (reg_subs r) (closed r) ({[c]} ∪ conns_closed r) (grpc_closed r).
Definition close_grpc (r : sessionRegistry) (g : nat) : sessionRegistry :=
  mkReg (localID r) (sessions r) (reg_subs r) (closed r) (conns_closed r) ({[g]} ∪ grpc_closed r).

Definition closeSession (r : sessionRegistry) (s : Session) : sessionRegistry :=
  let r1 := match GrpcClient s with Some g => close_grpc r g | None => r end in
  match Conn s with Some c => close_conn r1 (c_ref c) | None => r1 end.

(** [old.Conn.Context().Err() == nil] *)
Definition conn_live (r : sessionRegistry) (s : Session) : bool :=
  match Conn s with Some c => bool_decide (c_ref c ∉ conns_closed r) | None => false end.
Definition initiator (s : Session) : bool :=
  match Conn s with Some c => IsInitiator c | None => false end.

(** The error of the duplicate check against the session [old], if any. *)
Definition duplicate (r : sessionRegistry) (now : Z) (old s : Session) : option string :=
  if negb (conn_live r old) then None else
  if decide (now - AddedAt old < collisionWindow)%Z then
    let keepOutbound := str_gt (localID r) (PeerID s) in
    if Bool.eqb (initiator old) keepOutbound || negb (Bool.eqb (initiator s) keepOutbound)
    then Some "duplicate connection rejected by tie-breaking rules"%string else None
  else if initiator s then Some "duplicate outbound connection rejected"%string else None.

Definition Add `{MapRange} (now : Z) (r : sessionRegistry) (s : Session) : gores sessionRegistry :=
  if decide (PeerID s = "" ∨ Conn s = None) then Err "invalid session data" else
  if decide (PeerID s = localID r) then Err "self connection rejected" else
  if closed r then Err "session registry is closed" else
  let old := sessions r !! PeerID s in
  match old ≫= λ o, duplicate r now o s with
  | Some e => Err e
  | None =>
      let s' := stamp s now in
      b <- notify s' (reg_subs r);;
      let r1 := set_sessions r (<[PeerID s := s']> (sessions r)) b in
      Ok (match old with Some o => closeSession r1 o | None => r1 end)
  end.

(** The channel starts with the sessions of the moment; its capacity leaves room
    for 100 more. *)
Definition SubscribeNewSessions `{MapRange} (r : sessionRegistry) : sessionRegistry * nat :=
  let current := (map_range (sessions r)).*2 in
  let cap := (size (sessions r) + 100)%nat in
  let b := reg_subs r in
  if closed r then
    (set_sessions r (sessions r)
       (mkBroker (<[bk_next b := mkChan [] cap true]> (bk_chans b)) (bk_subs b) (S (bk_next b))),
     bk_next b)
  else let '(b', id) := subscribe_with cap current b in (set_sessions r (sessions r) b', id).

Definition Remove (r : sessionRegistry) (s : Session) : sessionRegistry :=
  if decide (PeerID s = "") then r else
  match sessions r !! PeerID s with
  | None => r
  | Some current =>
      if decide (s_ref current ≠ s_ref s) then r
      else closeSession (set_sessions r (delete (PeerID s) (sessions r)) (reg_subs r)) current
  end.

Definition Close `{MapRange} (r : sessionRegistry) : gores sessionRegistry :=
  if closed r then Ok r else
  let ss := (map_range (sessions r)).*2 in
  b <- close_all (reg_subs r);;
  let r1 := mkReg (localID r) ∅ b true (conns_closed r) (grpc_closed r) in
  Ok (foldl closeSession r1 ss).

Definition Get (r : sessionRegistry) (peerID : string) : option Session := sessions r !! peerID.
Definition ListActive `{MapRange} (r : sessionRegistry) : list Session := (map_range (sessions r)).*2.

(** ** The engine *)

(** [HandleConnection]: the peer is remembered, with an address only for a
    connection we opened; [grpc] is the new client, [None] when it could not be
    made; [ref] is the identity of the new session.  The result tells whether
    [runSession] was started. *)
Definition HandleConnection `{MapRange} (now : Z) (ref : nat) (grpc : option nat)
    (pc : PeerConnection) (r : sessionRegistry) (repo : Topology.inMemoryState)
    : gores (bool * sessionRegistry * Topology.inMemoryState) :=
  let addr := if IsInitiator pc then c_remote pc else "" in
  x <- Topology.InsertMerge repo (Topology.mkPeer (c_id pc) addr now);;
  let '(_, repo') := x in
  match grpc with
  | None => Ok (false, close_conn r (c_ref pc), repo')
  | Some g =>
      let s := mkSession ref (c_id pc) (Some pc) (Some g) 0 in
      match Add now r s with
      | Ok r' => Ok (true, r', repo')
      | Err _ => Ok (false, close_conn (close_grpc r g) (c_ref pc), repo')
      | Panic => Panic
      end
  end.

(** One datagram of [runSession]: packets the parser refuses are skipped. *)
Definition runSession_recv `{Link} `{Limiter} (pick : option nat) (data : list Z)
    (rt : Router.Router) : gores Router.Router :=
  match Router.NewMessageCopyFrom pick rt data with
  | Ok (rt', id) => Router.HandleMeshPacket rt' id
  | Err _ => Ok rt
  | Panic => Panic
  end.

(** The end of [runSession]: the deferred [Remove]. *)
Definition runSession_end (r : sessionRegistry) (s : Session) : sessionRegistry := Remove r s.

(** ** The virtual listener *)

Record BiStreamLis := mkLis { lis_done : bool; streamChan : list nat; lis_closed : gset nat }.

Definition NewBiStreamLis : BiStreamLis := mkLis false [] ∅.

(** [pick_done] is the runtime's choice when both cases are ready; [None] means
    that [Accept] waits. *)
Definition Accept (pick_done : bool) (l : BiStreamLis) : option (gores nat * BiStreamLis) :=
  match streamChan l with
  | conn :: rest =>
      if lis_done l && pick_done then Some (Err "context canceled", l)
      else Some (Ok conn, mkLis (lis_done l) rest (lis_closed l))
  | [] => if lis_done l then Some (Err "context canceled", l) else None
  end.

Definition CloseLis (l : BiStreamLis) : BiStreamLis := mkLis true (streamChan l) (lis_closed l).

Definition PushConnection (pick_done : bool) (l : BiStreamLis) (conn : nat) : BiStreamLis :=
  let room := bool_decide (length (streamChan l) < 100)%nat in
  if room && negb (lis_done l && pick_done)
  then mkLis (lis_done l) (streamChan l ++ [conn]) (lis_closed l)
  else mkLis (lis_done l) (streamChan l) ({[conn]} ∪ lis_closed l).

(** ** Specification *)

Record reg_ok (r : sessionRegistry) : Prop := {
  rk_key : ∀ k s, sessions r !! k = Some s →
    PeerID s = k ∧ k ≠ "" ∧ k ≠ localID r ∧ is_Some (Conn s);
  rk_closed : closed r = true → sessions r = ∅ ∧ bk_subs (reg_subs r) = ∅;
  rk_subs : broker_ok (reg_subs r) }.

(** A session that was accepted is current for its peer, or its connection is
    closed. *)
Definition accounted (r : sessionRegistry) (s : Session) : Prop :=
  (∃ cur, sessions r !! PeerID s = Some cur ∧ s_ref cur = s_ref s) ∨
  (∃ c, Conn s = Some c ∧ c_ref c ∈ conns_closed r).

(** The registry's life, with the sessions it has accepted. *)
Inductive reg_step `{MapRange} : sessionRegistry * list Session → sessionRegistry * list Session → Prop :=
| reg_add now r acc s r' :
    (∀ t, t ∈ acc → s_ref t = s_ref s → PeerID t = PeerID s ∧ Conn t = Conn s) →
    Add now r s = Ok r' → reg_step (r, acc) (r', s :: acc)
| reg_subscribe r acc : reg_step (r, acc) ((SubscribeNewSessions r).1, acc)
| reg_remove r acc s : reg_step (r, acc) (Remove r s, acc)
| reg_lost r acc c : reg_step (r, acc) (close_conn r c, acc)
| reg_close r acc r' : Close r = Ok r' → reg_step (r, acc) (r', acc).

(** ** Lemmas *)

Section Lemmas.
Context `{MR : MapRange}.
Implicit Types (r : sessionRegistry) (s t : Session).

Lemma closeSession_same r s :
  sessions (closeSession r s) = sessions r ∧ reg_subs (closeSession r s) = reg_subs r ∧
  closed (closeSession r s) = closed r ∧ localID (closeSession r s) = localID r ∧
  conns_closed (closeSession r s) =
    match Conn s with Some c => {[c_ref c]} ∪ conns_closed r | None => conns_closed r end.
Proof. unfold closeSession. by destruct (GrpcClient s), (Conn s). Qed.

Lemma closeSession_ok r s : reg_ok r → reg_ok (closeSession r s).
Proof.
  intros [H1 H2 H3]. destruct (closeSession_same r s) as (E1 & E2 & E3 & E4 & _).
  constructor; rewrite ?E1, ?E2, ?E3, ?E4; auto.
Qed.

Lemma closeSession_all l r :
  let r' := foldl closeSession r l in
  sessions r' = sessions r ∧ reg_subs r' = reg_subs r ∧ closed r' = closed r ∧ localID r' = localID r ∧
  (∀ c, c ∈ conns_closed r' ↔ c ∈ conns_closed r ∨ ∃ s x, s ∈ l ∧ Conn s = Some x ∧ c_ref x = c).
Proof.
  revert r. induction l as [|s l IH]; intros r; simpl.
  { split_and!; try done. intros c. split; [by left|].
    intros [?|(? & ? & ?%not_elem_of_nil & _)]; done. }
  destruct (IH (closeSession r s)) as (-> & -> & -> & -> & IHc).
  destruct (closeSession_same r s) as (E1 & E2 & E3 & E4 & E5). split_and!; try done.
  intros c. rewrite IHc, E5. split.
  - intros [Hc|(t & x & ? & ? & ?)]; [|right; exists t, x; set_solver].
    destruct (Conn s) as [x|] eqn:Ex; [|by left].
    apply elem_of_union in Hc as [->%elem_of_singleton|?]; [right|by left].
    exists s, x. set_solver.
  - intros [?|(t & x & [->|Ht]%elem_of_cons & Hx & <-)].
    + left. destruct (Conn s); set_solver.
    + rewrite Hx. left. set_solver.
    + right. eauto.
Qed.

Lemma registry_Add_spec now r s r' :
  reg_ok r → Add now r s = Ok r' →
  PeerID s ≠ "" ∧ is_Some (Conn s) ∧ PeerID s ≠ localID r ∧ closed r = false ∧
  (∀ old, sessions r !! PeerID s = Some old → duplicate r now old s = None) ∧
  sessions r' = <[PeerID s := stamp s now]> (sessions r) ∧ reg_ok r' ∧ closed r' = false ∧
  localID r' = localID r ∧
  (∀ c, c ∈ conns_closed r' ↔ c ∈ conns_closed r ∨
     ∃ old x, sessions r !! PeerID s = Some old ∧ Conn old = Some x ∧ c_ref x = c).
Proof.
  intros Hr. unfold Add. repeat case_decide; try done. destruct (closed r) eqn:Ec; [done|].
  destruct (sessions r !! PeerID s ≫= λ o, duplicate r now o s) eqn:Ed; [done|].
  destruct (notify_spec (stamp s now) (reg_subs r) (rk_subs _ Hr)) as (b & -> & Hb & _). simpl.
  intros [= <-]. assert (Hc : is_Some (Conn s)) by (destruct (Conn s); [eauto|tauto]).
  assert (Hr1 : reg_ok (set_sessions r (<[PeerID s:=stamp s now]> (sessions r)) b)).
  { destruct Hr as [H1 H2 H3]. constructor; simpl; [|congruence|done].
    intros k t. rewrite lookup_insert. case_decide; [|apply H1]. intros [= <-]. simpl. naive_solver. }
  assert (Hdup : ∀ old, sessions r !! PeerID s = Some old → duplicate r now old s = None).
  { intros old E. by rewrite E in Ed. }
  destruct (sessions r !! PeerID s) as [old|] eqn:Eo.
  - pose proof (closeSession_ok _ old Hr1).
    destruct (closeSession_same (set_sessions r (<[PeerID s:=stamp s now]> (sessions r)) b) old)
      as (-> & _ & -> & -> & ->).
    split_and!; try done; [tauto|]. intros c. simpl. destruct (Conn old) eqn:Ex; set_solver.
  - split_and!; try done; [tauto|]. intros c. simpl. set_solver.
Qed.

(** [Add] offers the session to every subscription. *)
Lemma Add_subs now r s r' :
  Add now r s = Ok r' → ∃ b, notify (stamp s now) (reg_subs r) = Ok b ∧ reg_subs r' = b.
Proof.
  unfold Add. repeat case_decide; try done. destruct (closed r); [done|].
  destruct (sessions r !! PeerID s ≫= _); [done|]. destruct (notify _ _) as [b| |]; try done. intros [= <-].
  exists b. split; [done|]. destruct (sessions r !! PeerID s) as [o|]; [|done]. by apply closeSession_same.
Qed.

Definition registry_inv (p : sessionRegistry * list Session) : Prop :=
  let '(r, acc) := p in
  reg_ok r ∧ (∀ s, s ∈ acc → accounted r s) ∧
  (∀ k cur, sessions r !! k = Some cur → ∃ t, t ∈ acc ∧ s_ref t = s_ref cur ∧ Conn t = Conn cur ∧ PeerID t = k) ∧
  (∀ s t, s ∈ acc → t ∈ acc → s_ref s = s_ref t → PeerID s = PeerID t ∧ Conn s = Conn t).

Lemma inv_add now r acc s r' :
  registry_inv (r, acc) →
  (∀ t, t ∈ acc → s_ref t = s_ref s → PeerID t = PeerID s ∧ Conn t = Conn s) →
  Add now r s = Ok r' → registry_inv (r', s :: acc).
Proof.
  intros (Hr & Hacc & Hcur & Hfun) Hs E.
  destruct (registry_Add_spec now r s r' Hr E) as (_ & [c Hc] & _ & _ & _ & Em & Hr' & _ & _ & Ecl).
  split; [done|]. split; [|split].
  - intros t [->|Ht]%elem_of_cons; unfold accounted; rewrite Em.
    { left. exists (stamp s now). by rewrite lookup_insert_eq. }
    destruct (Hacc t Ht) as [(cur & Hl & Href)|(x & Hx & Hin)]; [|right; exists x; rewrite Ecl; auto].
    destruct (decide (PeerID t = PeerID s)) as [Ep|Ep].
    + destruct (Hcur _ _ Hl) as (t' & Ht' & Href' & Hc' & Hp').
      destruct (Hfun t' t Ht' Ht ltac:(congruence)) as [_ Hct].
      destruct (rk_key _ Hr _ _ Hl) as (_ & _ & _ & [x Hx]).
      right. exists x. split; [congruence|]. rewrite Ecl. right. exists cur, x. by rewrite <- Ep.
    + left. exists cur. by rewrite lookup_insert_ne.
  - intros k cur. rewrite Em, lookup_insert. case_decide as Hk.
    + intros [= <-]. exists s. simpl. set_solver.
    + intros (t & ? & ?)%Hcur. exists t. set_solver.
  - intros u t [->|Hu]%elem_of_cons [->|Ht]%elem_of_cons Href; [done|..|by apply Hfun].
    + destruct (Hs t Ht ltac:(done)); auto.
    + by apply Hs.
Qed.

Lemma inv_monotone r r' acc :
  registry_inv (r, acc) → reg_ok r' →
  (∀ k cur, sessions r' !! k = Some cur → sessions r !! k = Some cur) →
  (∀ k cur x, sessions r !! k = Some cur → sessions r' !! k = None → Conn cur = Some x →
     c_ref x ∈ conns_closed r') →
  conns_closed r ⊆ conns_closed r' → registry_inv (r', acc).
Proof.
  intros (Hr & Hacc & Hcur & Hfun) Hr' Hsub Hgone Hmono. split; [done|]. split; [|split; [|done]].
  - intros s Hs. destruct (Hacc s Hs) as [(cur & Hl & Href)|(x & Hx & Hin)]; [|right; exists x; set_solver].
    destruct (sessions r' !! PeerID s) as [cur'|] eqn:El.
    + left. exists cur'. apply Hsub in El as El'. split; [done|]. congruence.
    + destruct (Hcur _ _ Hl) as (t & Ht & Href' & Hc & _).
      destruct (Hfun t s Ht Hs ltac:(congruence)) as [_ Hct].
      destruct (rk_key _ Hr _ _ Hl) as (_ & _ & _ & [x Hx]).
      right. exists x. split; [congruence|]. by eapply Hgone.
  - intros k cur Hk%Hsub. by apply Hcur.
Qed.

Lemma Subscribe_ok r :
  reg_ok r → reg_ok (SubscribeNewSessions r).1 ∧
  sessions (SubscribeNewSessions r).1 = sessions r ∧
  conns_closed (SubscribeNewSessions r).1 = conns_closed r.
Proof.
  intros Hr. pose proof Hr as [H1 H2 H3]. unfold SubscribeNewSessions. destruct (closed r) eqn:Ec.
  - split; [|done]. destruct (H2 eq_refl) as [_ Es]. constructor; simpl; [done|intros _; by apply H2|].
    destruct H3 as [Ho Hcap Hn]. constructor; simpl.
    + rewrite Es. intros id. rewrite lookup_empty. by intros [].
    + intros id c. rewrite lookup_insert. case_decide; [|apply Hcap]. intros [= <-]. simpl. lia.
    + intros id. rewrite lookup_insert. case_decide; [lia|]. intros ?%Hn. lia.
  - split; [|done]. constructor; simpl; [done|rewrite Ec; done|]. apply (subscribe_with_ok (size (sessions r) + 100) _ (reg_subs r)); [done|].
    rewrite length_fmap, map_range_length. lia.
Qed.

Lemma Remove_ok r s : reg_ok r → reg_ok (Remove r s).
Proof.
  intros Hr. unfold Remove. case_decide; [done|].
  destruct (sessions r !! PeerID s) as [cur|] eqn:El; [|done]. case_decide; [done|].
  apply closeSession_ok. destruct Hr as [H1 H2 H3]. constructor; simpl; [|intros Hc|done].
  - intros k t. rewrite lookup_delete_Some. intros [_ ?]. by apply H1.
  - destruct (H2 Hc) as [-> ?]. by rewrite delete_empty.
Qed.

Lemma Remove_inv r acc s : registry_inv (r, acc) → registry_inv (Remove r s, acc).
Proof.
  intros Hi. pose proof Hi as (Hr & _). pose proof (Remove_ok r s Hr) as Hok. revert Hok. unfold Remove. case_decide; [done|].
  destruct (sessions r !! PeerID s) as [cur|] eqn:El; [|done]. case_decide; [done|]. intros Hok.
  destruct (closeSession_same (set_sessions r (delete (PeerID s) (sessions r)) (reg_subs r)) cur)
    as (E1 & _ & _ & _ & E5).
  apply (inv_monotone r); [done|..].
  - done.
  - intros k t. rewrite E1. simpl. rewrite lookup_delete_Some. tauto.
  - intros k t x Hk. rewrite E1, E5. simpl. rewrite lookup_delete_None.
    intros [Heq|?] Hx; [subst k|congruence]. rewrite El in Hk. injection Hk as ->. rewrite Hx. set_solver.
  - rewrite E5. simpl. destruct (Conn cur); set_solver.
Qed.

Lemma Close_inv r acc r' : registry_inv (r, acc) → Close r = Ok r' → registry_inv (r', acc) ∧ closed r' = true.
Proof.
  intros Hi. pose proof Hi as (Hr & _). unfold Close. destruct (closed r) eqn:Ec; [by intros [= <-]|].
  destruct (close_all_ok (reg_subs r) (rk_subs _ Hr)) as (b & -> & Hb & Es). simpl. intros [= <-].
  destruct (closeSession_all (map_range (sessions r)).*2
    (mkReg (localID r) ∅ b true (conns_closed r) (grpc_closed r))) as (E1 & E2 & E3 & E4 & E5).
  split; [|done]. apply (inv_monotone r); [done|..].
  - constructor; rewrite ?E1, ?E2, ?E3; simpl; [|done|done]. intros k s. by rewrite lookup_empty.
  - intros k t. rewrite E1. simpl. by rewrite lookup_empty.
  - intros k t x Hk _ Hx. apply E5. right. exists t, x. split_and!; try done.
    apply list_elem_of_fmap. exists (k, t). split; [done|]. by apply elem_of_map_range.
  - intros c Hc. apply E5. by left.
Qed.

Lemma close_conn_inv r acc c : registry_inv (r, acc) → registry_inv (close_conn r c, acc).
Proof.
  intros Hi. pose proof Hi as ([H1 H2 H3] & _). apply (inv_monotone r); simpl; try done.
  - intros k cur x E1 E2. congruence.
  - set_solver.
Qed.

Lemma reg_steps_inv p : ∀ q, rtc reg_step p q → registry_inv p → registry_inv q.
Proof.
  intros q Hs Hp. revert Hs. apply (rtc_ind_r (λ q, registry_inv q)); [done|].
  intros x y _ Hstep IH. destruct Hstep as [now r acc s r' Hs E|r acc|r acc s|r acc c|r acc r' E].
  - by eapply inv_add.
  - pose proof IH as (Hr & _). destruct (Subscribe_ok r Hr) as (? & E1 & E2).
    apply (inv_monotone r); [done|done|..]; rewrite ?E1, ?E2; try done. intros k cur x0 ? ?. congruence.
  - by apply Remove_inv.
  - by apply close_conn_inv.
  - by eapply Close_inv.
Qed.

Lemma NewRegistry_inv local : registry_inv (NewRegistry local, []).
Proof.
  split_and!.
  - constructor; simpl; [|done|apply empty_broker_ok]. intros k s. by rewrite lookup_empty.
  - intros s Hs. by apply not_elem_of_nil in Hs.
  - intros k cur. simpl. by rewrite lookup_empty.
  - intros s t Hs. by apply not_elem_of_nil in Hs.
Qed.

(** Two sessions in collision: the second replaces the first exactly when it is
    the preferred one and the first is not. *)
Lemma collision now1 now2 r s1 s2 r1 :
  reg_ok r → sessions r !! PeerID s1 = None → PeerID s2 = PeerID s1 → is_Some (Conn s2) →
  initiator s2 = negb (initiator s1) → conn_live r s1 = true →
  Add now1 r s1 = Ok r1 → (now2 - now1 < collisionWindow)%Z →
  let keep := str_gt (localID r) (PeerID s1) in
  if Bool.eqb (initiator s1) keep
  then Add now2 r1 s2 = Err "duplicate connection rejected by tie-breaking rules" ∧
       sessions r1 !! PeerID s1 = Some (stamp s1 now1)
  else ∃ r2, Add now2 r1 s2 = Ok r2 ∧ sessions r2 !! PeerID s1 = Some (stamp s2 now2).
Proof.
  intros Hr Hnone Hp Hc Hi Hlive E Hw keep.
  destruct (registry_Add_spec _ _ _ _ Hr E) as (Hne & Hc1 & Hnl & _ & _ & Em & Hr1 & Hcl & Hl & Hcc).
  assert (Hlk : sessions r1 !! PeerID s1 = Some (stamp s1 now1)) by (rewrite Em; apply lookup_insert_eq).
  assert (Hlive1 : conn_live r1 (stamp s1 now1) = true).
  { unfold conn_live in *. simpl. destruct (Conn s1) as [c|]; [|done].
    apply bool_decide_eq_true in Hlive. apply bool_decide_eq_true. rewrite Hcc, Hnone.
    intros [?|(? & ? & ? & _)]; done. }
  assert (Hdup : duplicate r1 now2 (stamp s1 now1) s2 =
    if Bool.eqb (initiator s1) keep then Some "duplicate connection rejected by tie-breaking rules"%string else None).
  { unfold duplicate. rewrite Hlive1. simpl. rewrite decide_True by done. rewrite Hl, Hp. fold keep.
    change (initiator (stamp s1 now1)) with (initiator s1). rewrite Hi.
    destruct (initiator s1), keep; done. }
  assert (Hadd : Add now2 r1 s2 =
    match (if Bool.eqb (initiator s1) keep
           then Some "duplicate connection rejected by tie-breaking rules"%string else None) with
    | Some e => Err e
    | None => b <- notify (stamp s2 now2) (reg_subs r1);;
        Ok (closeSession (set_sessions r1 (<[PeerID s2 := stamp s2 now2]> (sessions r1)) b) (stamp s1 now1))
    end).
  { unfold Add. rewrite decide_False by (rewrite Hp; destruct Hc as [? ->]; naive_solver).
    rewrite decide_False by congruence. rewrite Hcl, Hp, Hlk. simpl. by rewrite Hdup. }
  rewrite Hadd. destruct (Bool.eqb (initiator s1) keep); [done|].
  destruct (notify_spec (stamp s2 now2) (reg_subs r1) (rk_subs _ Hr1)) as (b & -> & _). simpl.
  eexists. split; [done|].
  destruct (closeSession_same (set_sessions r1 (<[PeerID s2 := stamp s2 now2]> (sessions r1)) b) (stamp s1 now1))
    as (-> & _). simpl. rewrite Hp. apply lookup_insert_eq.
Qed.

Lemma Add_no_panic now r s : reg_ok r → Add now r s ≠ Panic.
Proof.
  intros Hr. unfold Add. repeat case_decide; try done. destruct (closed r); [done|].
  destruct (sessions r !! PeerID s ≫= _); [done|].
  by destruct (notify_spec (stamp s now) (reg_subs r) (rk_subs _ Hr)) as (b & -> & _).
Qed.

(** ** Theorems *)

(** no connection is lost from sight.  In every reachable state of the
    registry each session is stored under its peer's name and never under our
    own, and every session that was ever accepted is either the current session
    of its peer or has its connection closed: a peer has at most one open
    session, and after [Close] none is open. *)
Theorem registry_owns_connections local r acc :
  rtc reg_step (NewRegistry local, []) (r, acc) →
  reg_ok r ∧ (∀ s, s ∈ acc → accounted r s) ∧
  (closed r = true → ∀ s, s ∈ acc → ∃ c, Conn s = Some c ∧ c_ref c ∈ conns_closed r).
Proof.
  intros Hs. apply reg_steps_inv in Hs as (Hr & Hacc & _); [|apply NewRegistry_inv].
  split_and!; [done|done|]. intros Hc s Hin.
  destruct (Hacc s Hin) as [(cur & Hl & _)|?]; [|done].
  destruct (rk_closed _ Hr Hc) as [E _]. by rewrite E, lookup_empty in Hl.
Qed.

(** C8: simultaneous dials converge.  Two nodes that dial each other at once see
    the same two connections from opposite ends.  In whichever order each node
    registers them within the collision window, both keep the connection that
    the node with the greater identity opened. *)
Theorem simultaneous_dial_converges now1 now2 r s1 s2 r1 :
  reg_ok r → sessions r !! PeerID s1 = None → PeerID s2 = PeerID s1 → is_Some (Conn s2) →
  initiator s2 = negb (initiator s1) → conn_live r s1 = true →
  Add now1 r s1 = Ok r1 → (now2 - now1 < collisionWindow)%Z →
  ∃ r' kept, (Add now2 r1 s2 = Ok r' ∨ (is_ok (Add now2 r1 s2) = false ∧ r' = r1)) ∧
    sessions r' !! PeerID s1 = Some kept ∧
    initiator kept = str_gt (localID r) (PeerID s1) ∧
    (kept = stamp s1 now1 ∨ kept = stamp s2 now2) ∧
    (PeerID s1 ≠ localID r → str_gt (PeerID s1) (localID r) = negb (initiator kept)).
Proof.
  intros Hr Hnone Hp Hc Hi Hlive E Hw.
  pose proof (collision _ _ _ _ _ _ Hr Hnone Hp Hc Hi Hlive E Hw) as H. cbn zeta in H.
  set (keep := str_gt (localID r) (PeerID s1)) in *.
  assert (Hsym : PeerID s1 ≠ localID r → str_gt (PeerID s1) (localID r) = negb keep).
  { intros Hne. by apply str_gt_total. }
  destruct (Bool.eqb (initiator s1) keep) eqn:Ek.
  - destruct H as [E2 Hl]. apply eqb_prop in Ek. exists r1, (stamp s1 now1).
    split; [right; by rewrite E2|]. split; [done|]. split; [done|]. split; [by left|].
    intros Hne. change (initiator (stamp s1 now1)) with (initiator s1). rewrite Ek. auto.
  - destruct H as (r2 & E2 & Hl). apply eqb_false_iff in Ek. exists r2, (stamp s2 now2).
    assert (Hk : initiator s2 = keep) by (rewrite Hi; revert Ek; by destruct (initiator s1), keep).
    split; [by left|]. split; [done|]. split; [done|]. split; [by right|].
    intros Hne. change (initiator (stamp s2 now2)) with (initiator s2). rewrite Hk. auto.
Qed.

(** a new subscriber misses nothing.  The channel of a subscription starts
    with exactly the current sessions, without blocking, and every session
    accepted later is appended while the subscriber has room for it. *)
Theorem subscription_starts_with_snapshot r now s r1 :
  reg_ok r → closed r = false → Add now (SubscribeNewSessions r).1 s = Ok r1 →
  let id := (SubscribeNewSessions r).2 in
  ∃ c, bk_chans (reg_subs (SubscribeNewSessions r).1) !! id = Some c ∧
    (∀ t, t ∈ ch_buf c ↔ ∃ k, sessions r !! k = Some t) ∧
    length (ch_buf c) = size (sessions r) ∧
    bk_chans (reg_subs r1) !! id =
      Some (mkChan (ch_buf c ++ [stamp s now]) (size (sessions r) + 100) false).
Proof.
  intros Hr Hc E id. subst id. pose proof (Subscribe_ok r Hr) as (Hr0 & _).
  revert E Hr0. unfold SubscribeNewSessions. rewrite Hc. simpl. intros E Hr0.
  eexists. rewrite lookup_insert_eq. split; [done|]. simpl.
  split; [|split; [by rewrite length_fmap, map_range_length|]].
  { intros t. rewrite list_elem_of_fmap. split.
    - intros ([k t'] & -> & Hin%elem_of_map_range). eauto.
    - intros [k Hk]. exists (k, t). split; [done|]. by apply elem_of_map_range. }
  unfold Add in E. repeat case_decide; try done. simpl in E. rewrite Hc in E.
  destruct (sessions r !! PeerID s ≫= _) eqn:Ed; [done|].
  destruct (notify_spec (stamp s now) _ (rk_subs _ Hr0)) as (b & En & _ & _ & Hd & _). simpl in En.
  rewrite En in E. simpl in E. injection E as <-.
  assert (Hsubs : reg_subs (match sessions r !! PeerID s with
    | Some o => closeSession (set_sessions (set_sessions r (sessions r)
        (subscribe_with (size (sessions r) + 100) (map_range (sessions r)).*2 (reg_subs r)).1)
        (<[PeerID s:=stamp s now]> (sessions r)) b) o
    | None => set_sessions (set_sessions r (sessions r)
        (subscribe_with (size (sessions r) + 100) (map_range (sessions r)).*2 (reg_subs r)).1)
        (<[PeerID s:=stamp s now]> (sessions r)) b end) = b).
  { destruct (sessions r !! PeerID s); [|done].
    by destruct (closeSession_same (set_sessions (set_sessions r (sessions r)
        (subscribe_with (size (sessions r) + 100) (map_range (sessions r)).*2 (reg_subs r)).1)
        (<[PeerID s:=stamp s now]> (sessions r)) b) s0) as (_ & -> & _). }
  simpl in Hsubs. rewrite Hsubs, Hd by (simpl; rewrite lookup_insert_eq; eauto). simpl.
  rewrite lookup_insert_eq. simpl. unfold deliver. simpl.
  rewrite decide_True by (rewrite length_fmap, map_range_length; lia). done.
Qed.

(** every connection is settled.  [HandleConnection] never panics on a
    consistent registry and store: it remembers the peer (with an address only
    when we opened the connection) and then either the connection is the peer's
    current session, or it has been closed and the sessions are as before. *)
Theorem handle_connection_settles now ref grpc pc r repo :
  reg_ok r → Topology.topo_ok repo → c_id pc ≠ "" →
  ∃ ok r' repo', HandleConnection now ref grpc pc r repo = Ok (ok, r', repo') ∧
    reg_ok r' ∧ Topology.topo_ok repo' ∧
    (∃ res, Topology.InsertMerge repo
       (Topology.mkPeer (c_id pc) (if IsInitiator pc then c_remote pc else "") now) = Ok (res, repo')) ∧
    if ok : bool
    then ∃ s, sessions r' !! c_id pc = Some s ∧ s_ref s = ref ∧ Conn s = Some pc ∧ AddedAt s = now
    else c_ref pc ∈ conns_closed r' ∧ sessions r' = sessions r.
Proof.
  intros Hr Hrepo Hid. unfold HandleConnection.
  destruct (Topology.insert_merge_total repo
    (Topology.mkPeer (c_id pc) (if IsInitiator pc then c_remote pc else "") now) Hrepo)
    as (res & repo' & E & Hrepo').
  rewrite E. simpl. destruct grpc as [g|].
  2: { exists false, (close_conn r (c_ref pc)), repo'. split; [done|]. destruct Hr as [H1 H2 H3].
       split; [by constructor|]. split; [done|]. split; [eauto|]. simpl. split; [set_solver|done]. }
  destruct (Add now r (mkSession ref (c_id pc) (Some pc) (Some g) 0)) as [r'|e|] eqn:Ea.
  - destruct (registry_Add_spec _ _ _ _ Hr Ea) as (_ & _ & _ & _ & _ & Em & Hr' & _).
    exists true, r', repo'. split; [done|]. split; [done|]. split; [done|]. split; [eauto|].
    eexists. rewrite Em. simpl. rewrite lookup_insert_eq. by split_and!.
  - exists false, (close_conn (close_grpc r g) (c_ref pc)), repo'. split; [done|].
    destruct Hr as [H1 H2 H3]. split; [by constructor|]. split; [done|]. split; [eauto|].
    simpl. split; [set_solver|done].
  - by apply Add_no_panic in Ea.
Qed.

End Lemmas.

(** ** Witnesses *)

Definition demo_conn (ref : nat) (init : bool) : PeerConnection := mkConn ref "aaaa" "1.1.1.1:9000" init.
Definition demo_session (ref : nat) (init : bool) : Session :=
  mkSession ref "aaaa" (Some (demo_conn ref init)) (Some ref) 0.
Definition demo_reg : sessionRegistry := NewRegistry "bbbb".
Definition demo_reg1 : sessionRegistry :=
  match Add 0 demo_reg (demo_session 1 false) with Ok r => r | _ => demo_reg end.

Lemma demo_reg_ok : reg_ok demo_reg.
Proof. apply (NewRegistry_inv "bbbb"). Qed.

Lemma registry_owns_connections_witness : reg_ok demo_reg1.
Proof.
  apply (registry_owns_connections "bbbb" demo_reg1 [demo_session 1 false]).
  eapply rtc_l; [|apply rtc_refl].
  apply (reg_add 0 demo_reg [] (demo_session 1 false) demo_reg1).
  - intros t Ht. by apply not_elem_of_nil in Ht.
  - by vm_compute.
Defined.

Lemma simultaneous_dial_converges_witness :
  ∃ r' kept, Add 5 demo_reg1 (demo_session 2 true) = Ok r' ∧ sessions r' !! "aaaa" = Some kept ∧
    initiator kept = true.
Proof.
  destruct (simultaneous_dial_converges 0 5 demo_reg (demo_session 1 false) (demo_session 2 true) demo_reg1
    demo_reg_ok eq_refl eq_refl ltac:(by eexists) eq_refl ltac:(by vm_compute) ltac:(by vm_compute) eq_refl)
    as (r' & kept & [E|[E _]] & Hl & Hi & _).
  - exists r', kept. split; [exact E|]. split; [exact Hl|exact Hi].
  - exfalso. by vm_compute in E.
Defined.

Lemma subscription_starts_with_snapshot_witness :
  ∃ c, bk_chans (reg_subs (SubscribeNewSessions demo_reg).1) !! 0%nat = Some c ∧
    length (ch_buf c) = 0%nat.
Proof.
  destruct (subscription_starts_with_snapshot demo_reg 0 (demo_session 1 false)
    (match Add 0 (SubscribeNewSessions demo_reg).1 (demo_session 1 false) with Ok r => r | _ => demo_reg end)
    demo_reg_ok eq_refl ltac:(by vm_compute)) as (c & Hc & _ & Hn & _).
  exists c. split; [exact Hc|exact Hn].
Defined.

Lemma handle_connection_settles_witness :
  ∃ r' repo', HandleConnection 0 1 (Some 1%nat) (demo_conn 1 true) demo_reg Topology.newInMemoryState =
    Ok (true, r', repo').
Proof.
  destruct (handle_connection_settles 0 1 (Some 1%nat) (demo_conn 1 true) demo_reg
    Topology.newInMemoryState demo_reg_ok Topology.new_state_ok ltac:(done))
    as (ok & r' & repo' & E & _ & _ & _ & Hok).
  destruct ok; [by exists r', repo'|]. exfalso.
  assert (Hv : match HandleConnection 0 1 (Some 1%nat) (demo_conn 1 true) demo_reg Topology.newInMemoryState
    with Ok (b, _, _) => b | _ => false end = true) by (by vm_compute).
  by rewrite E in Hv.
Defined.

End Session.
