(* ===== verification/PeersSync.v ===== *)
(** * Synchronising rules and clients between nodes (pkg/mesh/peerssync)

    The reconciliation of a peer's rule and client dumps with the local router
    (syncer.go), the events a node sends about its own changes (server.go) and
    the routing object of a client behind another node (remote_client.go).  The
    syncer sees the router through the interface of deps.go: the class
    [SyncRouter] lists its operations and [SyncRouterLaws] what they promise, and
    the router of pkg/router is an instance. *)
From S2P Require Import Prelude DgMessage Broker Firewall NetUtils RoutingTable Router.
Import Firewall.Firewall RoutingTable.RoutingTable.

Open Scope go_scope.

Class SyncRouter (R : Type) := {
  sr_DumpRules : R → list RuleDump;
  sr_ExistsRule : R → PortRuleIndex → bool;
  sr_AddRemoteRule : R → PortRuleIndex → PortRule → bool * R;
  sr_RemoveRemoteRule : R → PortRuleIndex → bool * R;
  sr_DumpRoutingTable : R → list RoutingTableRecordDump;
  sr_AddRemoteRoutingObject : R → RoutingObject → gores R;
  sr_DeleteRemoteRoutingObject : R → Z → R;
  sr_GetRemoteRoutingObject : R → Z → option RoutingObject }.

(** What the syncer relies on: the router holds a partial map of rules and one of
    routes; [sr_fits r ns] says that it can hold rules of the nodes [ns]. *)
Class SyncRouterLaws (R : Type) `{SyncRouter R} := {
  sr_rules : R → PortRuleIndex → option PortRule;
  sr_inv : R → Prop;
  sr_fits : R → list string → Prop;
  sr_exists_law r i : sr_inv r → wf_index i →
    sr_ExistsRule r i = bool_decide (is_Some (sr_rules r i));
  sr_add_law r i x ns : sr_inv r → wf_index i → sr_fits r ns → NodeID i ∈ ns →
    let r' := (sr_AddRemoteRule r i x).2 in
    sr_inv r' ∧ sr_fits r' ns ∧
    (∀ j, wf_index j → sr_rules r' j =
       if decide (j = i ∧ sr_rules r i = None) then Some (with_index i x) else sr_rules r j) ∧
    (∀ ip, sr_GetRemoteRoutingObject r' ip = sr_GetRemoteRoutingObject r ip);
  sr_remove_law r i : sr_inv r → wf_index i →
    let r' := (sr_RemoveRemoteRule r i).2 in
    sr_inv r' ∧ (∀ ns, sr_fits r ns → sr_fits r' ns) ∧ (∀ j, wf_index j → sr_rules r' j = if decide (j = i) then None else sr_rules r j) ∧
    (∀ ip, sr_GetRemoteRoutingObject r' ip = sr_GetRemoteRoutingObject r ip);
  sr_dump_law r i : sr_inv r → wf_index i →
    (is_Some (sr_rules r i) ↔ ∃ d, d ∈ sr_DumpRules r ∧ DumpNodeID d = NodeID i ∧ DumpRuleID d = RuleID i);
  sr_dump_wf r d : sr_inv r → d ∈ sr_DumpRules r → wf_index (mkIndex (DumpNodeID d) (DumpRuleID d));
  sr_add_route_law r o : sr_inv r →
    match sr_GetRemoteRoutingObject r (GetVirtualIP o) with
    | Some _ => is_ok (sr_AddRemoteRoutingObject r o) = false ∧ sr_AddRemoteRoutingObject r o ≠ Panic
    | None => ∃ r', sr_AddRemoteRoutingObject r o = Ok r' ∧ sr_inv r' ∧
        (∀ ip, sr_GetRemoteRoutingObject r' ip =
           if decide (ip = GetVirtualIP o) then Some o else sr_GetRemoteRoutingObject r ip)
    end;
  sr_delete_route_law r ip : sr_inv r →
    sr_inv (sr_DeleteRemoteRoutingObject r ip) ∧
    (∀ j, sr_GetRemoteRoutingObject (sr_DeleteRemoteRoutingObject r ip) j =
       if decide (j = ip) then None else sr_GetRemoteRoutingObject r j);
  sr_dump_route_law r d : sr_inv r →
    (d ∈ sr_DumpRoutingTable r ↔
     ∃ o, sr_GetRemoteRoutingObject r (RecVirtualIP d) = Some o ∧ GetNodeID o = RecNodeID d) }.

Module PeersSync.

(** ** Messages *)

Record ClientRule := mkRuleMsg {
  NodeId : string; Id : Z; Addr : Z; TargetAddr : option Z; RProtocol : string;
  RPortStart : Z; RPortEnd : option Z }.
Inductive ClientRuleEventType := RULE_SYNC | RULE_ADDED | RULE_REMOVED | RULE_OTHER.
Record ClientRuleEvent := mkRuleEvent {
  re_type : ClientRuleEventType; re_update : option ClientRule; re_dump : list ClientRule }.

Record ClientInfo := mkClient { CNodeId : string; VirtualIp : Z }.
Inductive ClientEventType := CLIENT_SYNC | CLIENT_ADDED | CLIENT_REMOVED | CLIENT_OTHER.
Record ClientEvent := mkClientEvent {
  ce_type : ClientEventType; ce_update : option ClientInfo; ce_dump : list ClientInfo }.

(** ** The sending side (server.go) *)

Definition generateFirewallEvent (update : Router.FirewallEvent) : ClientRuleEvent :=
  match Router.fe_type update with
  | Router.RuleAdded =>
      mkRuleEvent RULE_ADDED
        (Some (mkRuleMsg (Router.fe_node update) (Router.fe_rule update) (Router.fe_addr update)
           (Router.fe_target update) (Router.fe_proto update) (u32 (Router.fe_start update))
           (u32 <$> Router.fe_end update))) []
  | Router.RuleRemoved =>
      mkRuleEvent RULE_REMOVED
        (Some (mkRuleMsg (Router.fe_node update) (Router.fe_rule update) 0 None "" 0 None)) []
  end.

Definition rule_message (p : RuleDump) : ClientRule :=
  mkRuleMsg (DumpNodeID p) (DumpRuleID p) (DumpAddress p) (DumpTargetAddress p) (DumpProtocol p)
    (u32 (DumpPortRangeStart p)) (u32 <$> DumpPortRangeEnd p).

Definition generateRoutingeEvent (update : Router.RouterEvent) : ClientEvent :=
  mkClientEvent (match Router.ev_type update with
                 | Router.ClientAdded => CLIENT_ADDED
                 | Router.ClientRemoved => CLIENT_REMOVED
                 end) (Some (mkClient (Router.ev_node update) (Router.ev_ip update))) [].

Section Sync.
Context {R : Type} `{SR : SyncRouter R}.

Definition buildFirewallSyncEvent (r : R) : ClientRuleEvent :=
  mkRuleEvent RULE_SYNC None (rule_message <$> sr_DumpRules r).

Definition buildRoutingSyncEvent (r : R) : ClientEvent :=
  mkClientEvent CLIENT_SYNC None
    ((λ p, mkClient (RecNodeID p) (RecVirtualIP p)) <$> sr_DumpRoutingTable r).

(** ** The receiving side (syncer.go) *)

(** [localID] is the identity of this node. *)
Context (localID : string).

Definition rule_index (ev : ClientRule) : PortRuleIndex := mkIndex (NodeId ev) (Id ev).

(** The rule a message describes; its own index is set by the engine. *)
Definition rule_of (ev : ClientRule) : PortRule :=
  mkRule (mkIndex "" 0) (Addr ev) (TargetAddr ev) (RProtocol ev) (u16 (RPortStart ev)) (u16 <$> RPortEnd ev).

Definition addRemoteRuleObject (r : R) (ev : ClientRule) : R :=
  if decide (NodeId ev = localID) then r
  else (sr_AddRemoteRule r (rule_index ev) (rule_of ev)).2.

Definition deleteRemoteRuleObject (r : R) (ev : ClientRule) : R :=
  (sr_RemoveRemoteRule r (rule_index ev)).2.

Definition syncRuleObject (r : R) (ev : ClientRule) : R :=
  if sr_ExistsRule r (rule_index ev) then r else addRemoteRuleObject r ev.

Definition alive_rules (peerID : string) (dump : list ClientRule) : list Z :=
  Id <$> filter (λ ev, NodeId ev = peerID) dump.

Definition drop_stale_rule (peerID : string) (alive : list Z) (r : R) (d : RuleDump) : R :=
  if decide (DumpNodeID d ≠ peerID) then r
  else if decide (DumpRuleID d ∈ alive) then r
  else (sr_RemoveRemoteRule r (mkIndex peerID (DumpRuleID d))).2.

Definition syncRules (peerID : string) (r : R) (dump : list ClientRule) : R :=
  let r1 := foldl syncRuleObject r dump in
  foldl (drop_stale_rule peerID (alive_rules peerID dump)) r1 (sr_DumpRules r1).

(** One event of the rules stream of the session with [peerID]. *)
Definition streamPeerRulesData (peerID : string) (r : R) (ev : ClientRuleEvent) : R :=
  match re_type ev with
  | RULE_SYNC => syncRules peerID r (re_dump ev)
  | RULE_ADDED => match re_update ev with Some u => addRemoteRuleObject r u | None => r end
  | RULE_REMOVED => match re_update ev with Some u => deleteRemoteRuleObject r u | None => r end
  | RULE_OTHER => r
  end.

(** [newRemoteClient]: a fresh object ([ref]) for a client of another node. *)
Definition newRemoteClient (ref : nat) (ev : ClientInfo) : RoutingObject :=
  mkObj ref (CNodeId ev) (VirtualIp ev) None.

Context (fresh : ClientInfo → nat).

Definition addRemoteRoutingObject (r : R) (ev : ClientInfo) : R :=
  if decide (CNodeId ev = localID) then r
  else match sr_AddRemoteRoutingObject r (newRemoteClient (fresh ev) ev) with
       | Ok r' => r'
       | _ => r
       end.

Definition deleteRemoteRoutingObject (r : R) (ev : ClientInfo) : R :=
  sr_DeleteRemoteRoutingObject r (VirtualIp ev).

Definition syncPeerObject (r : R) (ev : ClientInfo) : R :=
  match sr_GetRemoteRoutingObject r (VirtualIp ev) with
  | None => addRemoteRoutingObject r ev
  | Some obj =>
      if decide (GetNodeID obj = localID) then r
      else if decide (GetNodeID obj ≠ CNodeId ev)
           then addRemoteRoutingObject (deleteRemoteRoutingObject r ev) ev
           else r
  end.

Definition alive_clients (peerID : string) (dump : list ClientInfo) : list Z :=
  VirtualIp <$> filter (λ ev, CNodeId ev = peerID) dump.

Definition drop_stale_client (peerID : string) (alive : list Z) (r : R) (d : RoutingTableRecordDump) : R :=
  if decide (RecNodeID d ≠ peerID) then r
  else if decide (RecVirtualIP d ∈ alive) then r
  else sr_DeleteRemoteRoutingObject r (RecVirtualIP d).

Definition syncClients (peerID : string) (r : R) (dump : list ClientInfo) : R :=
  let r1 := foldl syncPeerObject r dump in
  foldl (drop_stale_client peerID (alive_clients peerID dump)) r1 (sr_DumpRoutingTable r1).

Definition streamPeerData (peerID : string) (r : R) (ev : ClientEvent) : R :=
  match ce_type ev with
  | CLIENT_SYNC => syncClients peerID r (ce_dump ev)
  | CLIENT_ADDED => match ce_update ev with Some u => addRemoteRoutingObject r u | None => r end
  | CLIENT_REMOVED => match ce_update ev with Some u => deleteRemoteRoutingObject r u | None => r end
  | CLIENT_OTHER => r
  end.

(** ** Specification of a reconciliation *)

(** What a dump adds for an index: the first message about it, unless the index
    is ours. *)
Definition dump_rule (dump : list ClientRule) (j : PortRuleIndex) : option PortRule :=
  if decide (NodeID j = localID) then None
  else with_index j ∘ rule_of <$> head (filter (λ ev, rule_index ev = j) dump).

Definition rule_after `{!SyncRouterLaws R} (peerID : string) (r : R) (dump : list ClientRule)
    (j : PortRuleIndex) : option PortRule :=
  if decide (NodeID j = peerID ∧ RuleID j ∉ alive_rules peerID dump) then None
  else match sr_rules r j with Some x => Some x | None => dump_rule dump j end.

(** The node a client belongs to after a dump without repeated addresses. *)
Definition client_after (peerID : string) (r : R) (dump : list ClientInfo) (ip : Z) : option string :=
  let cur := GetNodeID <$> sr_GetRemoteRoutingObject r ip in
  if decide (cur = Some localID) then cur else
  match head (filter (λ ev, VirtualIp ev = ip) dump) with
  | Some ev => if decide (CNodeId ev = localID) then None else Some (CNodeId ev)
  | None => if decide (cur = Some peerID) then None else cur
  end.

End Sync.

(** ** Lemmas *)

Lemma skip_alive {A} `{EqDecision A} (P : Prop) (k x : A) (alive l : list A) :
  x ∈ alive → (P ∧ k ∉ alive ∧ k ∈ l) ↔ (P ∧ k ∉ alive ∧ (k = x ∨ k ∈ l)).
Proof. intros Hx. split; [tauto|]. intros (? & Hk & [->|?]); tauto. Qed.

Section Laws.
Context {R : Type} `{SL : SyncRouterLaws R} (localID peerID : string) (fresh : ClientInfo → nat).
Implicit Types (r : R) (j i : PortRuleIndex).

Notation routes := sr_GetRemoteRoutingObject.

Lemma dump_rule_cons ev dump j :
  dump_rule localID (ev :: dump) j =
  if decide (rule_index ev = j) then
    (if decide (NodeID j = localID) then None else Some (with_index j (rule_of ev)))
  else dump_rule localID dump j.
Proof. unfold dump_rule. rewrite filter_cons. repeat case_decide; done. Qed.

Lemma syncRuleObjects ns r dump :
  sr_inv r → Forall (λ ev, wf_index (rule_index ev) ∧ NodeId ev ∈ ns) dump → sr_fits r ns →
  let r' := foldl (syncRuleObject localID) r dump in
  sr_inv r' ∧ sr_fits r' ns ∧ (∀ ip, routes r' ip = routes r ip) ∧
  (∀ j, wf_index j → sr_rules r' j =
     match sr_rules r j with Some x => Some x | None => dump_rule localID dump j end).
Proof.
  revert r. induction dump as [|ev dump IH]; intros r Hi HF Hroom; simpl.
  { split_and!; try done. intros j _. unfold dump_rule. simpl. by destruct (sr_rules r j); [|case_decide]. }
  apply Forall_cons in HF as [[Hev Hns] HF].
  unfold syncRuleObject at 2 4 6 8. rewrite sr_exists_law by done.
  case_bool_decide as Hx.
  { destruct (IH r Hi HF Hroom) as (? & ? & ? & Hr). split_and!; try done. intros j Hj. rewrite Hr by done.
    rewrite dump_rule_cons. destruct (sr_rules r j) eqn:Ej; [done|].
    rewrite decide_False; [done|]. intros <-. destruct Hx. congruence. }
  unfold addRemoteRuleObject. case_decide as Hloc.
  { destruct (IH r Hi HF Hroom) as (? & ? & ? & Hr). split_and!; try done. intros j Hj. rewrite Hr by done.
    rewrite dump_rule_cons. destruct (sr_rules r j) eqn:Ej; [done|].
    case_decide as Hij; [|done]. subst j. unfold dump_rule. by rewrite !decide_True. }
  destruct (sr_add_law r (rule_index ev) (rule_of ev) ns Hi Hev Hroom Hns) as (Hi' & Hroom' & Hrules & Hroutes).
  destruct (IH _ Hi' HF Hroom') as (? & ? & Hrt & Hr). split; [done|]. split; [done|]. split.
  { intros ip. by rewrite Hrt, Hroutes. }
  intros j Hj. rewrite Hr, Hrules, dump_rule_cons by done.
  assert (Hnone : sr_rules r (rule_index ev) = None).
  { destruct (sr_rules r (rule_index ev)) eqn:E; [|done]. destruct Hx. eauto. }
  destruct (decide (rule_index ev = j)) as [<-|Hne].
  - rewrite decide_True by done. rewrite Hnone. by rewrite decide_False.
  - rewrite decide_False by naive_solver. done.
Qed.

Lemma drop_stale_rules l alive r :
  sr_inv r → (∀ d, d ∈ l → wf_index (mkIndex (DumpNodeID d) (DumpRuleID d))) →
  let r' := foldl (drop_stale_rule peerID alive) r l in
  sr_inv r' ∧ (∀ ns, sr_fits r ns → sr_fits r' ns) ∧ (∀ ip, routes r' ip = routes r ip) ∧
  (∀ j, wf_index j → sr_rules r' j =
     if decide (NodeID j = peerID ∧ RuleID j ∉ alive ∧ RuleID j ∈ DumpRuleID <$> filter (λ d, DumpNodeID d = peerID) l)
     then None else sr_rules r j).
Proof.
  revert r. induction l as [|d l IH]; intros r Hi Hl; simpl.
  { split_and!; try done. intros j _. rewrite decide_False; [done|].
    intros (_ & _ & ?%not_elem_of_nil). done. }
  rewrite filter_cons. unfold drop_stale_rule at 2 4 6 8.
  destruct (decide (DumpNodeID d ≠ peerID)) as [Hn|Hn%dec_stable].
  { rewrite (decide_False (P := DumpNodeID d = peerID)) by done. apply IH; [done|]. set_solver. }
  rewrite (decide_True (P := DumpNodeID d = peerID)) by done.
  destruct (decide (DumpRuleID d ∈ alive)) as [Ha|Ha].
  { destruct (IH r Hi ltac:(set_solver)) as (? & ? & ? & Hr). split_and!; try done.
    intros j Hj. rewrite Hr by done. apply decide_ext. rewrite fmap_cons, elem_of_cons. by apply skip_alive. }
  assert (Hwf : wf_index (mkIndex peerID (DumpRuleID d))) by (rewrite <- Hn; apply Hl; set_solver).
  destruct (sr_remove_law r (mkIndex peerID (DumpRuleID d)) Hi Hwf) as (Hi' & Hfits & Hrules & Hroutes).
  destruct (IH _ Hi' ltac:(set_solver)) as (? & Hfits' & Hrt & Hr). split; [done|]. split; [by auto|]. split.
  { intros ip. by rewrite Hrt, Hroutes. }
  intros j Hj. rewrite Hr, Hrules by done. rewrite fmap_cons.
  destruct j as [n k]. simpl.
  destruct (decide (mkIndex n k = mkIndex peerID (DumpRuleID d))) as [[= -> ->]|Hne].
  - repeat case_decide; try done; exfalso; rewrite ->?elem_of_cons in *; tauto.
  - apply decide_ext. rewrite elem_of_cons. split; [tauto|].
    intros (? & ? & [?|?]); [congruence|tauto].
Qed.

Lemma elem_of_alive_rules dump k :
  k ∈ alive_rules peerID dump ↔ ∃ ev, ev ∈ dump ∧ NodeId ev = peerID ∧ Id ev = k.
Proof.
  unfold alive_rules. rewrite list_elem_of_fmap. setoid_rewrite list_elem_of_filter. naive_solver.
Qed.

(** Clients: the first loop settles each address of the dump by its own message. *)
Definition client_step (cur : option string) (ev : ClientInfo) : option string :=
  if decide (cur = Some localID) then cur
  else if decide (CNodeId ev = localID) then
    match cur with None => None | Some n => if decide (n = localID) then cur else None end
  else Some (CNodeId ev).

Lemma addRemote_routes r ev :
  sr_inv r → routes r (VirtualIp ev) = None →
  sr_inv (addRemoteRoutingObject localID fresh r ev) ∧
  ∀ ip, GetNodeID <$> routes (addRemoteRoutingObject localID fresh r ev) ip =
    if decide (ip = VirtualIp ev ∧ CNodeId ev ≠ localID) then Some (CNodeId ev) else GetNodeID <$> routes r ip.
Proof.
  intros Hi Hn. unfold addRemoteRoutingObject. case_decide as Hl.
  { split; [done|]. intros ip. rewrite decide_False by tauto. done. }
  pose proof (sr_add_route_law r (newRemoteClient (fresh ev) ev) Hi) as Hlaw. simpl in Hlaw.
  rewrite Hn in Hlaw. destruct Hlaw as (r' & -> & Hi' & Hr). split; [done|].
  intros ip. rewrite Hr. repeat case_decide; try done; exfalso; tauto.
Qed.

Lemma syncPeerObject_routes r ev :
  sr_inv r →
  sr_inv (syncPeerObject localID fresh r ev) ∧
  ∀ ip, GetNodeID <$> routes (syncPeerObject localID fresh r ev) ip =
    if decide (ip = VirtualIp ev) then client_step (GetNodeID <$> routes r ip) ev
    else GetNodeID <$> routes r ip.
Proof.
  intros Hi. unfold syncPeerObject. destruct (routes r (VirtualIp ev)) as [o|] eqn:Eo.
  - case_decide as Hloc.
    { split; [done|]. intros ip. case_decide; [subst|done]. rewrite Eo. simpl. unfold client_step.
      by rewrite decide_True by congruence. }
    destruct (decide (GetNodeID o ≠ CNodeId ev)) as [Hne|Heq%dec_stable].
    + unfold deleteRemoteRoutingObject.
      destruct (sr_delete_route_law r (VirtualIp ev) Hi) as [Hi' Hd].
      destruct (addRemote_routes (sr_DeleteRemoteRoutingObject r (VirtualIp ev)) ev Hi') as [Hi'' Ha].
      { rewrite Hd. by rewrite decide_True. }
      split; [done|]. intros ip. rewrite Ha, Hd. destruct (decide (ip = VirtualIp ev)) as [->|].
      * rewrite Eo. simpl. unfold client_step. rewrite (decide_False (P := Some _ = Some _)) by congruence.
        rewrite (decide_False (P := GetNodeID o = localID)) by done.
        repeat case_decide; try done; exfalso; tauto.
      * rewrite decide_False by tauto. done.
    + split; [done|]. intros ip. case_decide; [subst|done]. rewrite Eo. simpl. unfold client_step.
      rewrite (decide_False (P := Some _ = Some _)) by congruence. rewrite decide_False by congruence.
      by rewrite Heq.
  - destruct (addRemote_routes r ev Hi Eo) as [Hi' Ha]. split; [done|]. intros ip. rewrite Ha.
    destruct (decide (ip = VirtualIp ev)) as [->|]; [|by rewrite decide_False by tauto].
    rewrite Eo. simpl. unfold client_step. rewrite (decide_False (P := None = _)) by done.
    repeat case_decide; try done; exfalso; tauto.
Qed.

Lemma syncPeerObjects r dump :
  sr_inv r → NoDup (VirtualIp <$> dump) →
  let r' := foldl (syncPeerObject localID fresh) r dump in
  sr_inv r' ∧ ∀ ip, GetNodeID <$> routes r' ip =
    match head (filter (λ ev, VirtualIp ev = ip) dump) with
    | Some ev => client_step (GetNodeID <$> routes r ip) ev
    | None => GetNodeID <$> routes r ip
    end.
Proof.
  revert r. induction dump as [|ev dump IH]; intros r Hi HN; simpl; [done|].
  apply NoDup_cons in HN as [Hni HN].
  destruct (syncPeerObject_routes r ev Hi) as [Hi' Hs]. destruct (IH _ Hi' HN) as [Hi'' Hr].
  split; [done|]. intros ip. rewrite Hr, Hs, filter_cons.
  destruct (decide (ip = VirtualIp ev)) as [->|Hne].
  - rewrite (decide_True (P := VirtualIp ev = _)) by done. simpl.
    destruct (filter (λ ev0, VirtualIp ev0 = VirtualIp ev) dump) as [|e l] eqn:Ef; [done|].
    destruct Hni. assert (He : e ∈ filter (λ ev0, VirtualIp ev0 = VirtualIp ev) dump) by (rewrite Ef; set_solver).
    apply list_elem_of_filter in He as [<- He]. by apply list_elem_of_fmap_2.
  - rewrite (decide_False (P := VirtualIp ev = ip)) by congruence. done.
Qed.

Lemma drop_stale_clients l alive r :
  sr_inv r →
  let r' := foldl (drop_stale_client peerID alive) r l in
  sr_inv r' ∧ (∀ ip, routes r' ip =
     if decide (ip ∉ alive ∧ ip ∈ RecVirtualIP <$> filter (λ d, RecNodeID d = peerID) l)
     then None else routes r ip).
Proof.
  revert r. induction l as [|d l IH]; intros r Hi; simpl.
  { split; [done|]. intros ip. rewrite decide_False; [done|]. intros [_ ?%not_elem_of_nil]. done. }
  rewrite filter_cons. unfold drop_stale_client at 2 4.
  destruct (decide (RecNodeID d ≠ peerID)) as [Hn|Hn%dec_stable].
  { rewrite (decide_False (P := RecNodeID d = peerID)) by done. by apply IH. }
  rewrite (decide_True (P := RecNodeID d = peerID)) by done.
  destruct (decide (RecVirtualIP d ∈ alive)) as [Ha|Ha].
  { destruct (IH r Hi) as [? Hr]. split; [done|]. intros ip. rewrite Hr. apply decide_ext. rewrite fmap_cons, elem_of_cons.
    pose proof (skip_alive True ip _ alive (RecVirtualIP <$> filter (λ d, RecNodeID d = peerID) l) Ha). tauto. }
  destruct (sr_delete_route_law r (RecVirtualIP d) Hi) as [Hi' Hd].
  destruct (IH _ Hi') as [? Hr]. split; [done|]. intros ip. rewrite Hr, Hd, fmap_cons.
  destruct (decide (ip = RecVirtualIP d)) as [->|Hne].
  - repeat case_decide; try done; exfalso; rewrite ->?elem_of_cons in *; tauto.
  - apply decide_ext. rewrite elem_of_cons. tauto.
Qed.

Lemma elem_of_alive_clients dump ip :
  ip ∈ alive_clients peerID dump ↔ ∃ ev, ev ∈ dump ∧ CNodeId ev = peerID ∧ VirtualIp ev = ip.
Proof.
  unfold alive_clients. rewrite list_elem_of_fmap. setoid_rewrite list_elem_of_filter. naive_solver.
Qed.

(** ** Theorems about any router that keeps the laws *)

Lemma sync_rules_spec ns r dump :
  sr_inv r → Forall (λ ev, wf_index (rule_index ev) ∧ NodeId ev ∈ ns) dump → sr_fits r ns →
  let r' := syncRules localID peerID r dump in
  sr_inv r' ∧ sr_fits r' ns ∧ (∀ ip, routes r' ip = routes r ip) ∧
  (∀ j, wf_index j → sr_rules r' j = rule_after localID peerID r dump j) ∧
  (peerID ≠ localID → ∀ j, wf_index j → NodeID j = localID → sr_rules r' j = sr_rules r j).
Proof.
  intros Hi HF Hroom r'.
  destruct (syncRuleObjects ns r dump Hi HF Hroom) as (Hi1 & Hf1 & Hrt1 & Hr1).
  set (r1 := foldl (syncRuleObject localID) r dump) in *.
  destruct (drop_stale_rules (sr_DumpRules r1) (alive_rules peerID dump) r1 Hi1
    (λ d, sr_dump_wf r1 d Hi1)) as (Hi2 & Hf2 & Hrt2 & Hr2).
  assert (Hafter : ∀ j, wf_index j → sr_rules r' j = rule_after localID peerID r dump j).
  { intros j Hj. unfold r', syncRules. fold r1. rewrite Hr2 by done. unfold rule_after.
    destruct (decide (NodeID j = peerID ∧ RuleID j ∉ alive_rules peerID dump)) as [[Hn Ha]|Hna].
    - case_decide as Hd; [done|].
      destruct (sr_rules r1 j) eqn:Ej; [|done]. destruct Hd. split_and!; try done.
      destruct (proj1 (sr_dump_law r1 j Hi1 Hj) ltac:(eauto)) as (d & Hd & Hdn & Hdr).
      apply list_elem_of_fmap. exists d. split; [done|]. apply list_elem_of_filter. split; [congruence|done].
    - rewrite decide_False by tauto. by apply Hr1. }
  split; [done|]. split; [by apply Hf2|]. split; [intros ip; unfold r', syncRules; fold r1; by rewrite Hrt2, Hrt1|].
  split; [done|]. intros Hpl j Hj Hnl. rewrite Hafter by done. unfold rule_after, dump_rule.
  rewrite decide_False by naive_solver. rewrite decide_True by done. by destruct (sr_rules r j).
Qed.

(** C6: a rules dump reconciles exactly the sender's own rules.  After
    [syncRules] the rules of the peer are those of its dump, known ones
    unchanged; rules of other nodes that we have stay, unknown ones are taken
    over; our own rules are neither added, changed nor removed, and routes do
    not change. *)
Theorem sync_rules_reconciles ns r dump :
  sr_inv r → Forall (λ ev, wf_index (rule_index ev) ∧ NodeId ev ∈ ns) dump → sr_fits r ns →
  let r' := syncRules localID peerID r dump in
  sr_inv r' ∧ sr_fits r' ns ∧ (∀ ip, routes r' ip = routes r ip) ∧
  (∀ j, wf_index j → sr_rules r' j = rule_after localID peerID r dump j) ∧
  (peerID ≠ localID → ∀ j, wf_index j → NodeID j = localID → sr_rules r' j = sr_rules r j).
Proof. apply sync_rules_spec. Qed.

Lemma sync_clients_spec r dump :
  sr_inv r → NoDup (VirtualIp <$> dump) → peerID ≠ localID →
  let r' := syncClients localID fresh peerID r dump in
  sr_inv r' ∧
  (∀ ip, GetNodeID <$> routes r' ip = client_after localID peerID r dump ip) ∧
  (∀ ip, GetNodeID <$> routes r ip = Some localID → GetNodeID <$> routes r' ip = Some localID).
Proof.
  intros Hi HN Hpl r'.
  destruct (syncPeerObjects r dump Hi HN) as [Hi1 Hr1].
  set (r1 := foldl (syncPeerObject localID fresh) r dump) in *.
  destruct (drop_stale_clients (sr_DumpRoutingTable r1) (alive_clients peerID dump) r1 Hi1) as [Hi2 Hr2].
  assert (Hstale : ∀ ip, ip ∈ RecVirtualIP <$> filter (λ d, RecNodeID d = peerID) (sr_DumpRoutingTable r1) ↔
    GetNodeID <$> routes r1 ip = Some peerID).
  { intros ip. rewrite list_elem_of_fmap. setoid_rewrite list_elem_of_filter. split.
    - intros (d & -> & Hd & Hin). apply sr_dump_route_law in Hin as (o & Ho & Hn); [|done].
      rewrite Ho. simpl. congruence.
    - intros (o & Hn & Ho)%fmap_Some. exists (mkRecord peerID ip). split_and!; [done..|].
      apply sr_dump_route_law; [done|]. by exists o. }
  assert (Hafter : ∀ ip, GetNodeID <$> routes r' ip = client_after localID peerID r dump ip).
  { intros ip. unfold r', syncClients. fold r1. rewrite Hr2. unfold client_after.
    specialize (Hstale ip). specialize (Hr1 ip).
    destruct (head (filter (λ ev, VirtualIp ev = ip) dump)) as [ev|] eqn:Eh.
    - apply head_Some_elem_of in Eh as [Hev Hin]%list_elem_of_filter. subst ip.
      destruct (decide (CNodeId ev = peerID)) as [Hp|Hp].
      + rewrite decide_False by (rewrite elem_of_alive_clients; intros [[] _]; by exists ev).
        rewrite Hr1. unfold client_step. repeat case_decide; try done; congruence.
      + rewrite decide_False.
        * rewrite Hr1. unfold client_step. repeat case_decide; try done; destruct (routes r _); simpl in *;
            try done; repeat case_decide; congruence.
        * intros [_ Hs%Hstale]. rewrite Hr1 in Hs. unfold client_step in Hs.
          repeat case_decide; destruct (routes r _); simpl in *; try done; repeat case_decide; congruence.
    - destruct (decide (GetNodeID <$> routes r1 ip = Some peerID)) as [Hs|Hs].
      + rewrite decide_True.
        * rewrite Hr1 in Hs. rewrite Hs. rewrite decide_False by congruence. by rewrite decide_True.
        * split; [|by apply Hstale]. rewrite elem_of_alive_clients. intros (ev & Hin & _ & Hip).
          assert (Hin' : ev ∈ filter (λ ev, VirtualIp ev = ip) dump) by (by apply list_elem_of_filter).
          destruct (filter _ dump); [by apply not_elem_of_nil in Hin'|done].
      + rewrite decide_False by tauto. rewrite Hr1 in *. repeat case_decide; congruence. }
  split; [done|]. split; [done|]. intros ip Hl. rewrite Hafter. unfold client_after. by rewrite decide_True.
Qed.

(** C17: a clients dump reconciles exactly the sender's own clients.  After
    [syncClients] every address of the dump belongs to the node the dump names,
    except that our own clients keep their routes whatever the peer claims;
    clients the peer no longer lists are gone; clients of other nodes that the
    dump does not mention stay. *)
Theorem sync_clients_reconciles r dump :
  sr_inv r → NoDup (VirtualIp <$> dump) → peerID ≠ localID →
  let r' := syncClients localID fresh peerID r dump in
  sr_inv r' ∧
  (∀ ip, GetNodeID <$> routes r' ip = client_after localID peerID r dump ip) ∧
  (∀ ip, GetNodeID <$> routes r ip = Some localID → GetNodeID <$> routes r' ip = Some localID).
Proof. apply sync_clients_spec. Qed.

(** the owner of a rule is not checked when a peer reports a removal.  A
    removal event with our own node identity deletes our rule, although the same
    peer can neither add a rule in our name nor remove ours by a dump. *)
Theorem removed_event_deletes_own_rule r ev :
  sr_inv r → wf_index (rule_index ev) → NodeId ev = localID →
  sr_rules (streamPeerRulesData localID peerID r (mkRuleEvent RULE_REMOVED (Some ev) [])) (rule_index ev) = None ∧
  streamPeerRulesData localID peerID r (mkRuleEvent RULE_ADDED (Some ev) []) = r.
Proof.
  intros Hi Hwf Hl. unfold streamPeerRulesData. cbn [re_type re_update].
  unfold deleteRemoteRuleObject, addRemoteRuleObject.
  destruct (sr_remove_law r (rule_index ev) Hi Hwf) as (_ & _ & Hr & _). rewrite Hr by done.
  split; by rewrite decide_True.
Qed.

(** a rule survives the wire.  The event generated for the addition of a rule
    with 16-bit ports makes another node add the same rule under the same index,
    and the event of its removal makes it remove that index. *)
Theorem rule_event_roundtrip r idx rule :
  NodeID idx ≠ localID → is_u16 (PortRangeStart rule) →
  (∀ e, PortRangeEnd rule = Some e → is_u16 e) →
  let added := Router.mkFEvent Router.RuleAdded (NodeID idx) (RuleID idx) (Address rule)
    (TargetAddress rule) (RuleProtocol rule) (PortRangeStart rule) (PortRangeEnd rule) in
  let removed := Router.mkFEvent Router.RuleRemoved (NodeID idx) (RuleID idx) 0 None "" 0 None in
  streamPeerRulesData localID peerID r (generateFirewallEvent added) =
    (sr_AddRemoteRule r idx (with_index (mkIndex "" 0) rule)).2 ∧
  streamPeerRulesData localID peerID r (generateFirewallEvent removed) = (sr_RemoveRemoteRule r idx).2.
Proof.
  intros Hn Hs He added removed. unfold streamPeerRulesData, generateFirewallEvent. simpl.
  unfold addRemoteRuleObject, deleteRemoteRuleObject. simpl. rewrite decide_False by done.
  destruct idx as [n k]. split; [|done]. simpl. repeat f_equal. unfold rule_of, with_index. simpl.
  f_equal; [word_lia|]. destruct (PortRangeEnd rule) as [e|]; [|done]. simpl. f_equal.
  specialize (He e eq_refl). word_lia.
Qed.

End Laws.

(** ** The router keeps the laws *)

Section RouterInstance.
Context `{LK : Link} `{LM : Limiter} `{MR : MapRange}.

#[export] Instance router_sync : SyncRouter Router.Router := {|
  sr_DumpRules := Router.DumpRules;
  sr_ExistsRule := Router.ExistsRule;
  sr_AddRemoteRule := Router.AddRemoteRule;
  sr_RemoveRemoteRule := Router.RemoveRemoteRule;
  sr_DumpRoutingTable := Router.DumpRoutingTable;
  sr_AddRemoteRoutingObject := Router.AddRemoteRoutingObject;
  sr_DeleteRemoteRoutingObject := Router.DeleteRemoteRoutingObject;
  sr_GetRemoteRoutingObject := Router.GetRemoteRoutingObject |}.

(** Every stored rule has a usable index. *)
Definition stored_wf (fw : engine) : Prop := ∀ k x, rulesByID fw !! k = Some x → wf_index (index x).

Definition router_inv (r : Router.Router) : Prop :=
  engine_ok (Router.firewall r) ∧ stored_wf (Router.firewall r) ∧ table_ok (Router.table r).

(** The node identifiers in use and those of [ns] have 16 bits. *)
Definition router_fits (r : Router.Router) (ns : list string) : Prop :=
  (Z.of_nat (size (dom (shortIdByNodeId (Router.firewall r)) ∪ list_to_set ns)) <= 65535)%Z.

Lemma rule_at_index fw j x :
  engine_ok fw → stored_wf fw → wf_index j → rule_at fw j = Some x → index x = j ∧
  ∃ k, rulesByID fw !! k = Some x.
Proof.
  intros Hk Hw Hj Hx. unfold rule_at in Hx.
  destruct (shortIdByNodeId fw !! NodeID j) as [s|] eqn:Es; simplify_eq/=. split; [|eauto].
  destruct (ek_key _ Hk _ _ Hx) as (t & Ht & E). symmetry in E.
  by eapply (key_inj fw (index x) j t s); eauto.
Qed.

Lemma AddRule_stored fw idx rule :
  wf_index idx → stored_wf fw → stored_wf (AddRule fw idx rule).2 ∧
  dom (shortIdByNodeId (AddRule fw idx rule).2) ⊆ {[NodeID idx]} ∪ dom (shortIdByNodeId fw).
Proof.
  intros Hi Hw. unfold AddRule, insertRule. case_decide; [split; [done|apply union_subseteq_r]|].
  unfold getOrCreateShortID. destruct (shortIdByNodeId fw !! NodeID idx) eqn:En; simpl.
  - case_match; simpl; (split; [|apply union_subseteq_r]); [done|].
    intros k x. simpl. rewrite lookup_insert. case_decide; [by intros [= <-]|]. apply Hw.
  - case_match; simpl; (split; [|by rewrite dom_insert]); [done|].
    intros k x. simpl. rewrite lookup_insert. case_decide; [by intros [= <-]|]. apply Hw.
Qed.

Lemma RemoveRule_stored fw idx :
  stored_wf fw → stored_wf (RemoveRule fw idx).2 ∧ shortIdByNodeId (RemoveRule fw idx).2 = shortIdByNodeId fw.
Proof.
  intros Hw. unfold RemoveRule, RemoveRule_locked, deleteRule.
  destruct (getShortID fw (NodeID idx)); [|done]. destruct (rulesByID fw !! _) as [x0|]; [|done]. simpl.
  split; [|done]. intros k x. simpl. rewrite lookup_delete_Some. intros [_ ?]. by eapply Hw.
Qed.

Lemma fits_room r ns n : router_fits r ns → n ∈ ns → has_room (Router.firewall r) n.
Proof.
  unfold router_fits, has_room. intros Hf Hn.
  destruct (shortIdByNodeId (Router.firewall r) !! n) eqn:En; [left; by eexists|right].
  assert (Hs : (Z.of_nat (size ({[n]} ∪ dom (shortIdByNodeId (Router.firewall r)))) <= 65535)%Z).
  { etrans; [|exact Hf]. apply Nat2Z.inj_le, subseteq_size. set_solver. }
  rewrite size_union, size_singleton, size_dom in Hs; [lia|]. apply not_elem_of_dom in En. set_solver.
Qed.

#[export] Instance router_sync_laws : SyncRouterLaws Router.Router.
Proof.
  refine {| sr_rules r := rule_at (Router.firewall r); sr_inv := router_inv; sr_fits := router_fits |}.
  - intros r i _ _. simpl. unfold Router.ExistsRule, ExistsRule, getShortID, rule_at.
    by destruct (shortIdByNodeId _ !! NodeID i).
  - intros r i x ns (Hk & Hw & Ht) Hi Hfits Hns r'. subst r'. simpl. unfold Router.AddRemoteRule.
    destruct (AddRule_stored (Router.firewall r) i x Hi Hw) as [Hw' Hsz].
    pose proof (fits_room _ _ _ Hfits Hns) as Hroom.
    destruct (AddRule (Router.firewall r) i x) as [ok fw'] eqn:E. simpl in *.
    destruct (AddRule_spec _ _ _ _ _ Hk Hroom Hi E)
      as (Hk' & _ & Hok & Hr). split; [by split_and!|]. split; [|split].
    + unfold router_fits in *. simpl. etrans; [|exact Hfits]. apply Nat2Z.inj_le, subseteq_size. set_solver.
    + intros j Hj. rewrite Hr by done. apply decide_ext. rewrite Hok, bool_decide_eq_true. done.
    + done.
  - intros r i (Hk & Hw & Ht) Hi r'. subst r'. simpl. unfold Router.RemoveRemoteRule.
    destruct (RemoveRule_stored (Router.firewall r) i Hw) as [Hw' Hsh].
    destruct (RemoveRule (Router.firewall r) i) as [ok fw'] eqn:E. simpl in *.
    destruct (RemoveRule_spec _ _ _ _ Hk Hi E) as (Hk' & _ & Hr & _).
    split; [by split_and!|]. split; [intros ns; unfold router_fits; simpl; by rewrite Hsh|]. by split.
  - intros r i (Hk & Hw & Ht) Hi. simpl. unfold Router.DumpRules, DumpRules. split.
    + intros [x Hx]. destruct (rule_at_index _ _ _ Hk Hw Hi Hx) as (<- & k & Hkx).
      exists (dump_of x). split; [|done]. apply list_elem_of_fmap. exists (k, x). split; [done|].
      by apply elem_of_map_range.
    + intros (d & ([k x] & -> & Hin%elem_of_map_range)%list_elem_of_fmap & Hn & Hr). simpl in *.
      exists x. replace i with (index x) by (destruct i, (index x); simpl in *; congruence).
      by eapply rule_at_ids.
  - intros r d (Hk & Hw & Ht) ([k x] & -> & Hin%elem_of_map_range)%list_elem_of_fmap. simpl.
    specialize (Hw _ _ Hin). by destruct (index x).
  - intros r o (Hk & Hw & Ht). simpl. unfold Router.GetRemoteRoutingObject, Router.AddRemoteRoutingObject, GetByIP.
    destruct (Router.table r !! GetVirtualIP o) eqn:E; unfold Add; rewrite E; simpl; [done|].
    eexists. split; [done|]. split.
    + split_and!; [done|done|]. simpl. intros ip o'. rewrite lookup_insert. case_decide; [by intros [= <-]|]. apply Ht.
    + intros ip. simpl. rewrite lookup_insert. repeat case_decide; congruence.
  - intros r ip (Hk & Hw & Ht). simpl. split.
    + split_and!; [done|done|]. by apply Delete_table_ok.
    + intros j. apply Delete_lookup.
  - intros r d (Hk & Hw & Ht). simpl. unfold Router.DumpRoutingTable. by apply elem_of_Dump.
Defined.

End RouterInstance.

(** ** Witnesses *)

Definition demo_ev : ClientRule := mkRuleMsg "peer" 2 167837955 None "tcp" 443 None.
Definition demo_own : ClientRule := mkRuleMsg "local" 1 167837955 None "tcp" 443 None.

Lemma demo_router_inv : sr_inv Router.demo_router.
Proof.
  split_and!; [apply New_ok| |].
  - intros k x. simpl. by rewrite lookup_empty.
  - intros ip o. simpl. by rewrite lookup_empty.
Qed.

Lemma sync_rules_reconciles_witness :
  sr_rules (syncRules "local" "peer" Router.demo_router [demo_ev]) (rule_index demo_ev) =
    rule_after "local" "peer" Router.demo_router [demo_ev] (rule_index demo_ev).
Proof.
  assert (Hw : wf_index (rule_index demo_ev)) by (split; [done|split; vm_compute; congruence]).
  destruct (sync_rules_reconciles "local" "peer" ["peer"%string] Router.demo_router [demo_ev] demo_router_inv) as (_ & _ & _ & H & _).
  - constructor; [|done]. split; [done|]. apply list_elem_of_here.
  - vm_compute. discriminate.
  - exact (H _ Hw).
Defined.

Lemma sync_clients_reconciles_witness :
  GetNodeID <$> sr_GetRemoteRoutingObject
    (syncClients "local" (λ _, 9%nat) "peer" Router.demo_router [mkClient "peer" 21]) 21 = Some "peer"%string.
Proof.
  destruct (sync_clients_reconciles "local" "peer" (λ _, 9%nat) Router.demo_router [mkClient "peer" 21]
    demo_router_inv) as (_ & H & _).
  - apply NoDup_singleton.
  - done.
  - rewrite H. by vm_compute.
Defined.

Lemma removed_event_deletes_own_rule_witness :
  sr_rules (streamPeerRulesData "local" "peer" Router.demo_router (mkRuleEvent RULE_REMOVED (Some demo_own) []))
    (rule_index demo_own) = None.
Proof.
  apply (removed_event_deletes_own_rule "local" "peer" Router.demo_router demo_own demo_router_inv).
  - split; [done|split; vm_compute; congruence].
  - done.
Defined.

Lemma rule_event_roundtrip_witness :
  streamPeerRulesData "local" "peer" Router.demo_router
    (generateFirewallEvent (Router.mkFEvent Router.RuleRemoved "peer" 3 0 None "" 0 None)) =
  (sr_RemoveRemoteRule Router.demo_router (mkIndex "peer" 3)).2.
Proof.
  apply (rule_event_roundtrip "local" "peer" Router.demo_router (mkIndex "peer" 3)
    (mkRule (mkIndex "" 0) 5 None "tcp" 443 None)).
  - done.
  - split; vm_compute; congruence.
  - done.
Defined.

End PeersSync.
