(* ===== verification/Discovery.v ===== *)
(** * Peer discovery (pkg/mesh/discovery)

    The periodic refresh of the peer store from the live sessions, the sweep of
    expired peers and the choice of peers to dial, the coalescing of dials, and
    the handling of gossip events (syncer.go, server.go).  A dial is started by
    a goroutine of its own, so the loops only return the addresses to dial. *)
From S2P Require Import Prelude Broker Topology Session.
Import Broker Topology Session.

Open Scope go_scope.

Module Discovery.

Definition peerRefreshInterval : Z := 30000000000.
Definition peerTTL : Z := 1800000000000.

(** ** Refresh and sweep *)

(** One session of the first loop of [refreshPeers]. *)
Definition refresh_session `{MapRange} (now : Z) (repo : inMemoryState) (s : Session)
    : gores inMemoryState :=
  let p := Topology.Get repo (PeerID s) in
  let fresh := match p with
               | Some p => bool_decide (now - LastSeen p < peerRefreshInterval)%Z
               | None => false
               end in
  if fresh then Ok repo else
  x <- InsertMerge repo (mkPeer (PeerID s) (match p with Some p => Address p | None => "" end) now);;
  Ok (snd x).

(** The whole loop, with the addresses of the connected peers it collects; a
    session without a connection would be a nil dereference. *)
Fixpoint refresh_sessions `{MapRange} (now : Z) (repo : inMemoryState) (l : list Session)
    : gores (list string * inMemoryState) :=
  match l with
  | [] => Ok ([], repo)
  | s :: l' =>
      match Conn s with
      | None => Panic
      | Some c =>
          repo1 <- refresh_session now repo s;;
          x <- refresh_sessions now repo1 l';;
          let '(connected, repo') := x in Ok (c_remote c :: connected, repo')
      end
  end.

(** The second loop: expired peers are removed, the others are dialled unless
    their address is connected. *)
Fixpoint sweep `{MapRange} (now : Z) (localID : string) (reg : sessionRegistry) (connected : list string)
    (repo : inMemoryState) (l : list PeerInfo) : gores (inMemoryState * list string) :=
  match l with
  | [] => Ok (repo, [])
  | p :: l' =>
      if decide (ID p = localID) then sweep now localID reg connected repo l'
      else if decide (is_Some (Session.Get reg (ID p))) then sweep now localID reg connected repo l'
      else if decide (peerTTL < now - LastSeen p)%Z then
        repo' <- Topology.Remove repo (ID p);; sweep now localID reg connected repo' l'
      else if decide (Address p ∈ connected) then sweep now localID reg connected repo l'
      else x <- sweep now localID reg connected repo l';;
           let '(repo', dials) := x in Ok (repo', Address p :: dials)
  end.

Definition refreshPeers `{MapRange} (now : Z) (localID : string) (reg : sessionRegistry)
    (repo : inMemoryState) : gores (inMemoryState * list string) :=
  x <- refresh_sessions now repo (ListActive reg);;
  let '(connected, repo1) := x in
  sweep now localID reg connected repo1 (List_ repo1).

(** ** Dialling *)

(** [strings.Contains] *)
Fixpoint contains (s t : string) : bool :=
  String.prefix t s || match s with EmptyString => false | String _ s' => contains s' t end.

Definition connectToBootstrap (ownAddr : option string) (bootstrapAddrs : list string) : list string :=
  List.filter (λ addr, match ownAddr with Some a => negb (contains a addr) | None => true end) bootstrapAddrs.

(** The decision of [listenForNewPeers] on an event: the address to dial. *)
Definition listenForNewPeers (localID : string) (reg : sessionRegistry) (ev : PeerEvent) : option string :=
  match Update ev with
  | None => None
  | Some u =>
      if decide (Type_ ev ≠ JOINED) then None
      else if decide (is_Some (Session.Get reg (Id u))) then None
      else if str_lt localID (Id u) then None
      else if decide (Id u = localID) then None
      else Some (Addr u)
  end.

Definition startDial (dialing : gset string) (addr : string) : bool * gset string :=
  if decide (addr ∈ dialing) then (false, dialing) else (true, {[addr]} ∪ dialing).
Definition finishDial (dialing : gset string) (addr : string) : gset string := dialing ∖ {[addr]}.

(** The two ends of [connect]: whether the dial goes ahead, and what follows when
    the transport is done with it ([None]: the dial failed). *)
Definition connect_begin (dialing : gset string) (addr : string) : bool * gset string :=
  if decide (addr = "") then (false, dialing) else startDial dialing addr.

Definition connect_end `{MapRange} (now : Z) (ref : nat) (grpc : option nat) (dialed : option PeerConnection)
    (addr : string) (dialing : gset string) (reg : sessionRegistry) (repo : inMemoryState)
    : gores (gset string * sessionRegistry * inMemoryState) :=
  match dialed with
  | None => Ok (finishDial dialing addr, reg, repo)
  | Some pc =>
      x <- HandleConnection now ref grpc pc reg repo;;
      let '(_, reg', repo') := x in Ok (finishDial dialing addr, reg', repo')
  end.

(** ** Gossip *)

Definition peer_of_proto (p : ProtoPeer) : PeerInfo := mkPeer (Id p) (Addr p) (ProtoLastSeen p).

Fixpoint insert_dump `{MapRange} (repo : inMemoryState) (dump : list ProtoPeer) : gores inMemoryState :=
  match dump with
  | [] => Ok repo
  | p :: rest => x <- InsertMerge repo (peer_of_proto p);; insert_dump (snd x) rest
  end.

(** One event of [streamDiscoveryData]. *)
Definition streamDiscoveryData `{MapRange} (reg : sessionRegistry) (repo : inMemoryState) (ev : PeerEvent)
    : gores inMemoryState :=
  match Type_ ev with
  | SYNC => insert_dump repo (EvDump ev)
  | JOINED | UPDATED =>
      match Update ev with
      | None => Ok repo
      | Some u => x <- InsertMerge repo (peer_of_proto u);; Ok (snd x)
      end
  | LEFT =>
      match Update ev with
      | None => Ok repo
      | Some u => if decide (is_Some (Session.Get reg (Id u))) then Ok repo else Topology.Remove repo (Id u)
      end
  end.

Definition buildSyncEvent `{MapRange} (repo : inMemoryState) : PeerEvent :=
  mkEvent SYNC None (peerInfoToProto <$> List_ repo).

(** ** Dials in flight *)

Inductive dial_step : gset string * list string → gset string * list string → Prop :=
| dial_begin d l addr d' :
    connect_begin d addr = (true, d') → dial_step (d, l) (d', addr :: l)
| dial_refused d l addr d' :
    connect_begin d addr = (false, d') → dial_step (d, l) (d', l)
| dial_end d l addr : addr ∈ l → dial_step (d, l) (finishDial d addr, remove_first addr l).

(** ** Lemmas *)

Section Lemmas.
Context `{MR : MapRange}.
Implicit Types (repo : inMemoryState) (p : PeerInfo).

Lemma Remove_spec repo id :
  topo_ok repo → ∃ repo', Topology.Remove repo id = Ok repo' ∧ topo_ok repo' ∧
    peer_map repo' = delete id (peer_map repo).
Proof. apply remove_total. Qed.

Lemma refresh_session_total now s repo :
  topo_ok repo → ∃ repo', refresh_session now repo s = Ok repo' ∧ topo_ok repo'.
Proof.
  intros Hr. unfold refresh_session. case_match; [eauto|].
  match goal with |- context [InsertMerge repo ?u] =>
    destruct (insert_merge_total repo u Hr) as (res & repo1 & -> & Hr1) end.
  simpl. eauto.
Qed.

Lemma refresh_sessions_total now l repo :
  topo_ok repo → (∀ s, s ∈ l → is_Some (Conn s)) →
  ∃ connected repo', refresh_sessions now repo l = Ok (connected, repo') ∧ topo_ok repo' ∧
    ∀ s c, s ∈ l → Conn s = Some c → c_remote c ∈ connected.
Proof.
  revert repo. induction l as [|s l IH]; intros repo Hr Hc; simpl.
  { exists [], repo. split_and!; try done. intros s c Hx. by apply not_elem_of_nil in Hx. }
  destruct (Hc s ltac:(by left)) as [c Es]. rewrite Es.
  destruct (refresh_session_total now s repo Hr) as (repo1 & -> & Hr1). cbn [gobind].
  destruct (IH repo1 Hr1) as (con & repo' & -> & Hr' & Hin); [intros t Ht; apply Hc; by right|].
  cbn [gobind]. exists (c_remote c :: con), repo'. split_and!; try done.
  intros t c' [->|Ht]%elem_of_cons E; [|right; by eapply Hin].
  assert (c' = c) as -> by congruence. by left.
Qed.

Lemma active_have_conn reg s : reg_ok reg → s ∈ ListActive reg → is_Some (Conn s).
Proof.
  intros Hg. unfold ListActive. rewrite list_elem_of_fmap. intros ([k t] & -> & Hin%elem_of_map_range).
  by destruct (rk_key _ Hg _ _ Hin) as (_ & _ & _ & ?).
Qed.

(** An expired record of a peer without a session. *)
Definition expired (now : Z) (localID : string) (reg : sessionRegistry) (p : PeerInfo) : Prop :=
  ID p ≠ localID ∧ Session.Get reg (ID p) = None ∧ (peerTTL < now - LastSeen p)%Z.

Lemma sweep_spec now localID reg connected l repo :
  topo_ok repo → NoDup (ID <$> l) →
  ∃ repo' dials, sweep now localID reg connected repo l = Ok (repo', dials) ∧ topo_ok repo' ∧
    (∀ k p, peer_map repo' !! k = Some p → peer_map repo !! k = Some p) ∧
    (∀ p, p ∈ l → expired now localID reg p → peer_map repo' !! ID p = None) ∧
    (∀ k, (∀ p, p ∈ l → ID p = k → ¬ expired now localID reg p) → peer_map repo' !! k = peer_map repo !! k) ∧
    (∀ a, a ∈ dials → ∃ p, p ∈ l ∧ Address p = a ∧ ID p ≠ localID ∧ Session.Get reg (ID p) = None ∧
       (now - LastSeen p <= peerTTL)%Z ∧ a ∉ connected).
Proof.
  revert repo. induction l as [|p l IH]; intros repo Hr HN.
  { exists repo, []. split_and!; try done; intros ? Hx; by apply not_elem_of_nil in Hx. }
  rewrite fmap_cons in HN. apply NoDup_cons in HN as [Hni HN].
  assert (Hskip : ¬ expired now localID reg p → ∀ extra, (extra = [] ∨ extra = [Address p] ∧ ID p ≠ localID ∧
      Session.Get reg (ID p) = None ∧ (now - LastSeen p <= peerTTL)%Z ∧ Address p ∉ connected) →
    ∃ repo' dials, sweep now localID reg connected repo l = Ok (repo', dials) ∧ topo_ok repo' ∧
    (∀ k q, peer_map repo' !! k = Some q → peer_map repo !! k = Some q) ∧
    (∀ q, q ∈ p :: l → expired now localID reg q → peer_map repo' !! ID q = None) ∧
    (∀ k, (∀ q, q ∈ p :: l → ID q = k → ¬ expired now localID reg q) → peer_map repo' !! k = peer_map repo !! k) ∧
    (∀ a, a ∈ extra ++ dials → ∃ q, q ∈ p :: l ∧ Address q = a ∧ ID q ≠ localID ∧
       Session.Get reg (ID q) = None ∧ (now - LastSeen q <= peerTTL)%Z ∧ a ∉ connected)).
  { intros Hne extra Hex. destruct (IH repo Hr HN) as (repo' & dials & E & Hok & Hsub & Hexp & Hkeep & Hd).
    exists repo', dials. split; [done|]. split; [done|]. split; [done|]. split; [|split].
    - intros q [->|Hq]%elem_of_cons Hx; [done|by apply Hexp].
    - intros k Hk. apply Hkeep. intros q Hq. apply Hk. by right.
    - intros a [Ha|Ha]%elem_of_app.
      + destruct Hex as [->|[-> ?]]; [by apply not_elem_of_nil in Ha|].
        apply list_elem_of_singleton in Ha as ->. exists p. split; [by left|]. by split.
      + destruct (Hd a Ha) as (q & Hq & ?). exists q. split; [by right|done]. }
  simpl. case_decide as H1.
  { destruct (Hskip ltac:(intros (? & _); done) [] ltac:(by left)) as (r' & d & H). exists r', d. exact H. }
  case_decide as H2.
  { destruct (Hskip ltac:(intros (_ & Hg & _); rewrite Hg in H2; by destruct H2) [] ltac:(by left))
      as (r' & d & H). exists r', d. exact H. }
  assert (Hg : Session.Get reg (ID p) = None) by (destruct (Session.Get reg (ID p)); [destruct H2; eauto|done]).
  case_decide as H3.
  2: { assert (Hne : ¬ expired now localID reg p) by (intros (_ & _ & ?); done).
       case_decide as H4.
       - destruct (Hskip Hne [] ltac:(by left)) as (r' & d & H). exists r', d. exact H.
       - destruct (Hskip Hne [Address p] ltac:(right; split_and!; try done; lia)) as (r' & d & E & H).
         exists r', (Address p :: d). rewrite E. split; [done|exact H]. }
  destruct (Remove_spec repo (ID p) Hr) as (repo1 & -> & Hr1 & Em). simpl.
  destruct (IH repo1 Hr1 HN) as (repo' & dials & E & Hok & Hsub & Hexp & Hkeep & Hd).
  exists repo', dials. split; [done|]. split; [done|]. split; [|split; [|split]].
  - intros k q Hk%Hsub. rewrite Em, lookup_delete_Some in Hk. tauto.
  - intros q [->|Hq]%elem_of_cons Hx; [|by apply Hexp].
    destruct (peer_map repo' !! ID p) as [q|] eqn:Eq; [|done].
    apply Hsub in Eq. by rewrite Em, lookup_delete_eq in Eq.
  - intros k Hk. rewrite Hkeep by (intros q Hq; apply Hk; by right). rewrite Em.
    apply lookup_delete_ne. intros <-. apply (Hk p); [by left|done|by split_and!].
  - intros a Ha. destruct (Hd a Ha) as (q & Hq & ?). exists q. split; [by right|done].
Qed.

Lemma List_spec repo p : topo_ok repo → p ∈ List_ repo ↔ peer_map repo !! ID p = Some p.
Proof.
  intros Hr. unfold List_. rewrite list_elem_of_fmap. split.
  - intros ([k q] & -> & Hin%elem_of_map_range). destruct (tk_key _ Hr _ _ Hin) as [<- _]. by destruct q.
  - intros Hp. exists (ID p, p). split; [by destruct p|]. by apply elem_of_map_range.
Qed.

Lemma List_NoDup repo : topo_ok repo → NoDup (ID <$> List_ repo).
Proof.
  intros Hr. replace (ID <$> List_ repo) with ((map_range (peer_map repo)).*1); [apply map_range_NoDup|].
  unfold List_. rewrite <- list_fmap_compose. apply list_fmap_ext. intros i [k q] Hi. simpl.
  apply list_elem_of_lookup_2, elem_of_map_range in Hi. by destruct (tk_key _ Hr _ _ Hi).
Qed.

(** An event never panics. *)
Lemma insert_dump_total repo dump : topo_ok repo → ∃ repo', insert_dump repo dump = Ok repo' ∧ topo_ok repo'.
Proof.
  revert repo. induction dump as [|p dump IH]; intros repo Hr; simpl; [eauto|].
  destruct (insert_merge_total repo (peer_of_proto p) Hr) as (res & repo1 & -> & Hr1). cbn [gobind snd]. by apply IH.
Qed.

Lemma stream_event_total reg repo ev : topo_ok repo → ∃ repo', streamDiscoveryData reg repo ev = Ok repo' ∧ topo_ok repo'.
Proof.
  intros Hr. unfold streamDiscoveryData. destruct (Type_ ev); [by apply insert_dump_total|..].
  1,2: destruct (Update ev) as [u|]; [|eauto];
    destruct (insert_merge_total repo (peer_of_proto u) Hr) as (res & repo1 & -> & Hr1); simpl; eauto.
  destruct (Update ev) as [u|]; [|eauto]. case_decide; [eauto|].
  destruct (Remove_spec repo (Id u) Hr) as (repo' & ? & ? & _). eauto.
Qed.

Lemma insert_dump_new l repo :
  topo_ok repo → NoDup (ID <$> l) → (∀ p, p ∈ l → ID p ≠ "" ∧ is_i64 (LastSeen p)) →
  (∀ p, p ∈ l → peer_map repo !! ID p = None) →
  (∀ p q, p ∈ l → q ∈ l ∨ (∃ k, peer_map repo !! k = Some q) →
     Address p = Address q → Address p ≠ "" → LastSeen p = LastSeen q) →
  ∃ repo', insert_dump repo (peerInfoToProto <$> l) = Ok repo' ∧ topo_ok repo' ∧
    ∀ k, peer_map repo' !! k = match list_find (λ p, ID p = k) l with
                               | Some (_, p) => Some p | None => peer_map repo !! k end.
Proof.
  revert repo. induction l as [|p l IH]; intros repo Hr HN Hwf Hnew Haddr; simpl; [eauto|].
  rewrite fmap_cons in HN. apply NoDup_cons in HN as [Hni HN].
  destruct (Hwf p ltac:(by left)) as [Hid Hi].
  assert (Ep : peer_of_proto (peerInfoToProto p) = p).
  { unfold peer_of_proto, peerInfoToProto. simpl. rewrite i64_small by done. by destruct p. }
  rewrite Ep. destruct (insert_new repo p Hr Hid (Hnew p ltac:(by left))) as (repo1 & -> & Hr1 & Em).
  { intros j q Hj Ha Hne. symmetry. apply (Haddr p q); [by left|eauto|congruence|done]. }
  cbn [gobind snd]. destruct (IH repo1 Hr1 HN) as (repo' & E & Hr' & Hm).
  - intros q Hq. apply Hwf. by right.
  - intros q Hq. rewrite Em, lookup_insert_ne; [apply Hnew; by right|].
    intros Heq. apply Hni. rewrite Heq. by apply list_elem_of_fmap_2.
  - intros q q' Hq Hq' Ha Hne. apply Haddr; [by right| |done|done].
    destruct Hq' as [?|[k Hk]]; [left; by right|]. rewrite Em, lookup_insert in Hk.
    case_decide; [injection Hk as <-; left; by left|eauto].
  - exists repo'. split; [exact E|]. split; [done|]. intros k. rewrite Hm, Em, lookup_insert.
    destruct (decide (ID p = k)) as [Hk|Hk]; [subst k|].
    + destruct (list_find (λ q, ID q = ID p) l) as [[i q]|] eqn:Ef; [|done].
      apply list_find_Some in Ef as (Hq & Heq & _). exfalso.
      apply Hni. rewrite <- Heq. apply list_elem_of_lookup_2 in Hq. by apply list_elem_of_fmap_2.
    + destruct (list_find (λ q, ID q = k) l) as [[i q]|]; done.
Qed.

(** The whole refresh. *)
Lemma refreshPeers_spec now localID reg repo :
  topo_ok repo → reg_ok reg →
  ∃ repo' dials, refreshPeers now localID reg repo = Ok (repo', dials) ∧ topo_ok repo' ∧
    (∀ k p, peer_map repo' !! k = Some p →
       k = localID ∨ is_Some (Session.Get reg k) ∨ (now - LastSeen p <= peerTTL)%Z) ∧
    (∀ k con repo1, refresh_sessions now repo (ListActive reg) = Ok (con, repo1) →
       k = localID ∨ is_Some (Session.Get reg k) → peer_map repo' !! k = peer_map repo1 !! k) ∧
    (∀ a, a ∈ dials → ∃ p, peer_map repo' !! ID p = Some p ∧ Address p = a ∧ ID p ≠ localID ∧
       Session.Get reg (ID p) = None ∧ (now - LastSeen p <= peerTTL)%Z ∧
       ∀ s c, s ∈ ListActive reg → Conn s = Some c → c_remote c ≠ a).
Proof.
  intros Hr Hg0. unfold refreshPeers.
  destruct (refresh_sessions_total now (ListActive reg) repo Hr) as (con & repo1 & -> & Hr1 & Hcon);
    [intros s; by apply active_have_conn|].
  cbn [gobind]. destruct (sweep_spec now localID reg con (List_ repo1) repo1 Hr1
    (List_NoDup _ Hr1)) as (repo' & dials & E & Hr' & Hsub & Hexp & Hkeep & Hd).
  exists repo', dials. split; [done|]. split; [done|]. split; [|split].
  - intros k p Hk. destruct (decide (k = localID)) as [?|Hl]; [by left|right].
    destruct (Session.Get reg k) as [s|] eqn:Eg; [left; eauto|right].
    destruct (decide (peerTTL < now - LastSeen p)%Z); [|lia].
    pose proof (tk_key _ Hr' _ _ Hk) as [<- _].
    rewrite Hexp in Hk; [done| |by split_and!].
    apply List_spec; [done|]. by apply Hsub.
  - intros k con2 repo2 [= <- <-] Hg. apply Hkeep. intros p _ <- (Hl & Hn & _).
    destruct Hg as [?|Hg]; [done|]. rewrite Hn in Hg. by destruct Hg.
  - intros a Ha. destruct (Hd a Ha) as (p & Hp & Hpa & Hl & Hg & Ht & Hc). exists p.
    apply List_spec in Hp; [|done]. rewrite Hkeep.
    + split_and!; try done. intros s c Hs Hsc Hac. apply Hc. rewrite <- Hac. by eapply Hcon.
    + intros q Hq Heq (_ & _ & Hx). apply List_spec in Hq; [|done]. rewrite Heq in Hq.
      assert (p = q) as -> by congruence. lia.
Qed.

(** ** Theorems *)

(** the refresh keeps live peers and forgets expired ones.  On a consistent
    store and registry [refreshPeers] never panics and leaves a consistent store
    in which every record is ours, belongs to a peer with a live session, or was
    seen within the time to live; and it dials only recorded, unexpired
    addresses of other nodes that have no session and that no live connection
    uses. *)
Theorem refresh_keeps_live_drops_expired now localID reg repo :
  topo_ok repo → reg_ok reg →
  ∃ repo' dials, refreshPeers now localID reg repo = Ok (repo', dials) ∧ topo_ok repo' ∧
    (∀ k p, peer_map repo' !! k = Some p →
       k = localID ∨ is_Some (Session.Get reg k) ∨ (now - LastSeen p <= peerTTL)%Z) ∧
    (∀ k con repo1, refresh_sessions now repo (ListActive reg) = Ok (con, repo1) →
       k = localID ∨ is_Some (Session.Get reg k) → peer_map repo' !! k = peer_map repo1 !! k) ∧
    (∀ a, a ∈ dials → ∃ p, peer_map repo' !! ID p = Some p ∧ Address p = a ∧ ID p ≠ localID ∧
       Session.Get reg (ID p) = None ∧ (now - LastSeen p <= peerTTL)%Z ∧
       ∀ s c, s ∈ ListActive reg → Conn s = Some c → c_remote c ≠ a).
Proof. apply refreshPeers_spec. Qed.

(** at most one dial per address is in flight.  Whatever the order in which
    dials of any addresses begin and end, the addresses being dialled are
    distinct, nonempty, and exactly those of the table; so a second dial of an
    address is refused until the first has ended. *)
Theorem dials_are_coalesced d l :
  rtc dial_step (∅, []) (d, l) →
  NoDup l ∧ (∀ a, a ∈ l ↔ a ∈ d) ∧ "" ∉ d ∧
  (∀ a, a ∈ l → (connect_begin d a).1 = false).
Proof.
  intros Hs. remember (∅ : gset string, [] : list string) as start eqn:E0.
  assert (Hinv : ∀ q, rtc dial_step start q → NoDup q.2 ∧ (∀ a, a ∈ q.2 ↔ a ∈ q.1) ∧ "" ∉ q.1).
  { subst start. apply (rtc_ind_r (λ q, NoDup q.2 ∧ (∀ a, a ∈ q.2 ↔ a ∈ q.1) ∧ "" ∉ q.1)).
    { simpl. split; [constructor|]. split; [set_solver|set_solver]. }
    intros x y _ Hstep (HN & Hin & He). destruct Hstep as [d0 l0 a d' E|d0 l0 a d' E|d0 l0 a Ha]; simpl in *.
    - unfold connect_begin, startDial in E. repeat case_decide; try done. injection E as <-.
      split; [constructor; [by rewrite Hin|done]|]. split; [set_solver|set_solver].
    - unfold connect_begin, startDial in E. repeat case_decide; try done; by injection E as <-.
    - split; [by apply remove_first_NoDup|]. unfold finishDial. split; [|set_solver].
      intros b. rewrite elem_of_remove_first by done. set_solver. }
  destruct (Hinv _ Hs) as (HN & Hin & He). split_and!; try done.
  intros a Ha. unfold connect_begin, startDial. case_decide; [done|].
  rewrite decide_True by (by apply Hin). done.
Qed.

(** a snapshot replicates the store.  A node with an empty store that receives
    the synchronisation event built from a consistent store, in whatever order
    the records come, holds exactly the records of that store afterwards. *)
Theorem snapshot_replicates_store reg repo empty :
  topo_ok repo → (∀ k p, peer_map repo !! k = Some p → is_i64 (LastSeen p)) →
  topo_ok empty → peer_map empty = ∅ →
  ∃ repo', streamDiscoveryData reg empty (buildSyncEvent repo) = Ok repo' ∧ topo_ok repo' ∧
    peer_map repo' = peer_map repo.
Proof.
  intros Hr Hi He Hem. unfold streamDiscoveryData, buildSyncEvent. cbn [Type_ EvDump].
  destruct (insert_dump_new (List_ repo) empty He (List_NoDup _ Hr)) as (repo' & E & Hr' & Hm).
  - intros p Hp%List_spec; [|done]. split; [exact (proj2 (tk_key _ Hr _ _ Hp))|by eapply Hi].
  - intros p _. by rewrite Hem.
  - intros p q Hp [Hq|[k Hk]]; [|by rewrite Hem in Hk].
    apply List_spec in Hp, Hq; [|done..]. by eapply (tk_addr _ Hr).
  - exists repo'. split; [exact E|]. split; [done|]. apply map_eq. intros k. rewrite Hm, Hem, lookup_empty.
    destruct (list_find (λ p, ID p = k) (List_ repo)) as [[i p]|] eqn:Ef.
    + apply list_find_Some in Ef as (Hp & <- & _). apply list_elem_of_lookup_2, List_spec in Hp; done.
    + apply list_find_None in Ef. destruct (peer_map repo !! k) as [p|] eqn:Ek; [|done].
      destruct (tk_key _ Hr _ _ Ek) as [Hid _]. rewrite Forall_forall in Ef. exfalso. apply (Ef p); [|done].
      apply List_spec; [done|]. by rewrite Hid.
Qed.

(** gossip about a departure never removes a peer with a live session, and an
    announcement makes us dial only an unknown peer of lower identity: of two
    nodes that learn of each other, one dials. *)
Theorem gossip_respects_sessions reg repo u localID :
  (is_Some (Session.Get reg (Id u)) → streamDiscoveryData reg repo (mkEvent LEFT (Some u) []) = Ok repo) ∧
  (∀ a, listenForNewPeers localID reg (mkEvent JOINED (Some u) []) = Some a →
     a = Addr u ∧ Session.Get reg (Id u) = None ∧ str_gt localID (Id u) = true) ∧
  (∀ reg' u' a a', listenForNewPeers localID reg (mkEvent JOINED (Some u) []) = Some a →
     Id u' = localID → listenForNewPeers (Id u) reg' (mkEvent JOINED (Some u') []) = Some a' → False).
Proof.
  assert (Hdial : ∀ l r v a, listenForNewPeers l r (mkEvent JOINED (Some v) []) = Some a →
    a = Addr v ∧ Session.Get r (Id v) = None ∧ str_gt l (Id v) = true).
  { intros l r v a. unfold listenForNewPeers. cbn [Update Type_]. case_decide; [done|].
    case_decide as Hg; [done|]. destruct (str_lt l (Id v)) eqn:Elt; [done|]. case_decide as Hne; [done|].
    intros [= <-]. split; [done|]. split; [destruct (Session.Get r (Id v)); [destruct Hg; eauto|done]|].
    rewrite str_gt_total by congruence. unfold str_gt, str_lt in *. by rewrite Elt. }
  split; [|split].
  - intros Hg. unfold streamDiscoveryData. cbn [Type_ Update]. by rewrite decide_True.
  - intros a. apply Hdial.
  - intros reg' u' a a' (_ & _ & H1)%Hdial Hid (_ & _ & H2)%Hdial. rewrite Hid in H2.
    apply str_gt_asym in H1. congruence.
Qed.

End Lemmas.

(** ** Witnesses *)

Definition demo_store : inMemoryState :=
  mkState (Some {["a"%string := mkPeer "a" "1.1.1.1:9000" 10]}) empty_broker.

Lemma demo_store_ok : topo_ok demo_store.
Proof.
  constructor; unfold peer_map; simpl; [eauto| | |apply empty_broker_ok].
  - intros k p. rewrite lookup_singleton_Some. by intros [<- <-].
  - intros j k p q. rewrite !lookup_singleton_Some. by intros [<- <-] [<- <-].
Qed.

Lemma demo_reg1_ok : reg_ok demo_reg1.
Proof.
  destruct (registry_Add_spec 0 demo_reg (demo_session 1 false) demo_reg1 demo_reg_ok)
    as (_ & _ & _ & _ & _ & _ & ? & _); [by vm_compute|done].
Qed.

Lemma refresh_keeps_live_drops_expired_witness :
  ∃ repo' dials, refreshPeers 0 "bbbb" demo_reg1 demo_store = Ok (repo', dials) ∧ topo_ok repo'.
Proof.
  destruct (refresh_keeps_live_drops_expired 0 "bbbb" demo_reg1 demo_store demo_store_ok demo_reg1_ok)
    as (repo' & dials & E & Hr & _). exists repo', dials. split; [exact E|exact Hr].
Defined.

Lemma dials_are_coalesced_witness : (connect_begin {["x"%string]} "x").1 = false.
Proof.
  destruct (dials_are_coalesced {["x"%string]} ["x"%string]) as (_ & _ & _ & H).
  - eapply rtc_l; [|apply rtc_refl]. apply dial_begin. by vm_compute.
  - apply H. by apply list_elem_of_singleton.
Defined.

Lemma snapshot_replicates_store_witness :
  ∃ repo', streamDiscoveryData demo_reg1 newInMemoryState (buildSyncEvent demo_store) = Ok repo' ∧
    peer_map repo' = peer_map demo_store.
Proof.
  destruct (snapshot_replicates_store demo_reg1 demo_store newInMemoryState demo_store_ok)
    as (repo' & E & _ & Em).
  - intros k p Hp. unfold peer_map in Hp. simpl in Hp.
    apply lookup_singleton_Some in Hp as [_ <-]. split; vm_compute; congruence.
  - exact new_state_ok.
  - done.
  - exists repo'. split; [exact E|exact Em].
Defined.

End Discovery.
