(* ===== verification/SessionStreams.v ===== *)
(** * The loops that follow a peer (pkg/mesh/discovery, pkg/mesh/peerssync)

    Every session gets its streams: the loops that wait for new sessions
    (discovery/syncer.go: listenForNewSessions, peerssync/syncer.go: Start) over
    the registry of Session.v.  The third stream between two nodes, that of the
    known peers (discovery/server.go: SubscribePeers, discovery/syncer.go:
    syncDiscoveryData), is an instance of Streams.v; the loop that dials announced
    peers (listenForNewPeers) reads the same events. *)
From S2P Require Import Prelude Broker Streams Topology Session Discovery.
Import Broker Streams Topology.Topology Session.Session Discovery.Discovery.

Open Scope go_scope.

Module SessionStreams.

(** ** Waiting on a subscription *)

Inductive turn (A : Type) := Received (v : A) | Returned | Waiting.
Arguments Received {A} _.
Arguments Returned {A}.
Arguments Waiting {A}.

(** [select { case <-ctx.Done(): return; case v, ok := <-ch: if !ok { return } }];
    [pick_done] is the choice when both are ready. *)
Definition select_recv {A} (ctx_done pick_done : bool) (id : nat) (b : broker A) : turn A * broker A :=
  if ctx_done && pick_done then (Returned, b) else
  match receive id b with
  | (Some v, b') => (Received v, b')
  | (None, _) =>
      let closed := match bk_chans b !! id with Some ch => ch_closed ch | None => false end in
      if closed || ctx_done then (Returned, b) else (Waiting, b)
  end.

(** ** The loops over new sessions *)

Inductive stream_kind := DiscoveryStream | ClientsStream | RulesStream.

(** A loop with its subscription, and the goroutines it started. *)
Record Follower := mkFollower {
  fl_reg : sessionRegistry; fl_sub : nat; fl_running : bool; fl_started : list (stream_kind * Session) }.

Definition follow (r : sessionRegistry) `{MapRange} : Follower :=
  let '(r', id) := SubscribeNewSessions r in mkFollower r' id true [].

Definition listen (kinds : list stream_kind) (ctx_done pick_done : bool) (f : Follower) : Follower :=
  if negb (fl_running f) then f else
  match select_recv ctx_done pick_done (fl_sub f) (reg_subs (fl_reg f)) with
  | (Received s, b) =>
      mkFollower (set_sessions (fl_reg f) (sessions (fl_reg f)) b) (fl_sub f) true
        (fl_started f ++ ((λ k, (k, s)) <$> kinds))
  | (Returned, _) => mkFollower (fl_reg f) (fl_sub f) false (fl_started f)
  | (Waiting, _) => f
  end.

Definition listenForNewSessions := listen [DiscoveryStream].
(** [PeersSyncSyncer.Start] *)
Definition PeersSyncStart := listen [ClientsStream; RulesStream].

(** ** The loop over announced peers *)

(** One turn; [Some addr] is the dial that it starts. *)
Definition listenForNewPeers_turn (localID : string) (reg : sessionRegistry) (ctx_done pick_done : bool) (id : nat)
    (s : inMemoryState) : turn (option string) * inMemoryState :=
  match select_recv ctx_done pick_done id (subs s) with
  | (Received ev, b) => (Received (listenForNewPeers localID reg ev), mkState (peers s) b)
  | (Returned, _) => (Returned, s)
  | (Waiting, _) => (Waiting, s)
  end.

(** ** The stream of known peers *)

Section PeersStream.
Context `{MR : MapRange}.

#[export] Instance SubscribePeers : Served inMemoryState PeerEvent PeerEvent := {|
  sv_subs := subs;
  sv_with_subs s b := mkState (peers s) b;
  sv_subscribe := Subscribe;
  sv_sync := buildSyncEvent;
  sv_message ev := ev |}.

#[export] Instance SubscribePeers_laws : ServedLaws inMemoryState PeerEvent PeerEvent.
Proof. split; [done|]. intros s. by exists 200%nat. Qed.

(** The client's loop: the registry decides about departures. *)
Definition applyPeers (c : sessionRegistry * inMemoryState) (ev : PeerEvent) : gores (sessionRegistry * inMemoryState) :=
  repo <- streamDiscoveryData c.1 c.2 ev;; Ok (c.1, repo).

(** [syncDiscoveryData] *)
Definition syncDiscoveryData (ctx_done conn_done : bool) :
    Stream inMemoryState PeerEvent (sessionRegistry * inMemoryState) →
    gores (Stream inMemoryState PeerEvent (sessionRegistry * inMemoryState)) :=
  RunWhileConnected ctx_done conn_done true.

(** * Specification *)

Definition own_chan (f : Follower) : option (chan Session) := bk_chans (reg_subs (fl_reg f)) !! fl_sub f.
Definition subscribed (f : Follower) : Prop := is_Some (bk_subs (reg_subs (fl_reg f)) !! fl_sub f).
(** The sessions in the channel of the loop, and whether it takes another one. *)
Definition waiting (f : Follower) : list Session :=
  match own_chan f with Some ch => ch_buf ch | None => [] end.
Definition fits (f : Follower) : bool :=
  bool_decide (is_Some (bk_subs (reg_subs (fl_reg f)) !! fl_sub f)) &&
  match own_chan f with Some ch => bool_decide (length (ch_buf ch) < ch_cap ch)%nat | None => false end.
Definition with_reg (f : Follower) (r : sessionRegistry) : Follower :=
  mkFollower r (fl_sub f) (fl_running f) (fl_started f).

(** The loop, the end of its context, and the sessions of the registry since the
    subscription: those of the moment, then those accepted, each with whether there
    was room for it in the channel of the loop. *)
Record Following := mkFollowing { fw_loop : Follower; fw_ctx : bool; fw_log : list (Session * bool) }.

(** Everything that happens to the registry, to its subscriptions and to the loop.
    The goroutine of a subscription cancels it when its context has ended. *)
Inductive follow_step (kinds : list stream_kind) : Following → Following → Prop :=
| fs_add now f ctx log s r' :
    Add now (fl_reg f) s = Ok r' →
    follow_step kinds (mkFollowing f ctx log) (mkFollowing (with_reg f r') ctx (log ++ [(stamp s now, fits f)]))
| fs_refused now f ctx log s e :
    Add now (fl_reg f) s = Err e → follow_step kinds (mkFollowing f ctx log) (mkFollowing f ctx log)
| fs_remove f ctx log s :
    follow_step kinds (mkFollowing f ctx log) (mkFollowing (with_reg f (Remove (fl_reg f) s)) ctx log)
| fs_lost f ctx log c :
    follow_step kinds (mkFollowing f ctx log) (mkFollowing (with_reg f (close_conn (fl_reg f) c)) ctx log)
| fs_subscribe f ctx log :
    follow_step kinds (mkFollowing f ctx log) (mkFollowing (with_reg f (SubscribeNewSessions (fl_reg f)).1) ctx log)
| fs_cancel f ctx log id b :
    (id = fl_sub f → ctx = true) → cancel id (reg_subs (fl_reg f)) = Ok b →
    follow_step kinds (mkFollowing f ctx log)
      (mkFollowing (with_reg f (set_sessions (fl_reg f) (sessions (fl_reg f)) b)) ctx log)
| fs_close f ctx log r' :
    Close (fl_reg f) = Ok r' → follow_step kinds (mkFollowing f ctx log) (mkFollowing (with_reg f r') ctx log)
| fs_done f ctx log : follow_step kinds (mkFollowing f ctx log) (mkFollowing f true log)
| fs_turn f ctx log pick :
    follow_step kinds (mkFollowing f ctx log) (mkFollowing (listen kinds ctx pick f) ctx log).

Definition streams_of (kinds : list stream_kind) (l : list Session) : list (stream_kind * Session) :=
  l ≫= λ s, (λ k, (k, s)) <$> kinds.
(** The sessions for which there was room. *)
Definition taken (log : list (Session * bool)) : list Session := omap (λ x : Session * bool, if x.2 then Some x.1 else None) log.

Record follow_ok (kinds : list stream_kind) (p : Following) : Prop := {
  fo_reg : reg_ok (fl_reg (fw_loop p));
  fo_chan : ∃ ch, own_chan (fw_loop p) = Some ch ∧ (100 ≤ ch_cap ch)%nat ∧
    (¬ subscribed (fw_loop p) → ch_closed ch = true);
  fo_sub : fw_ctx p = false → closed (fl_reg (fw_loop p)) = false → subscribed (fw_loop p);
  fo_run : fl_running (fw_loop p) = false → fw_ctx p = true ∨ (waiting (fw_loop p) = [] ∧ ¬ subscribed (fw_loop p));
  fo_all : ∃ pre, fl_started (fw_loop p) = streams_of kinds pre ∧ taken (fw_log p) = pre ++ waiting (fw_loop p) }.

(** ** The channel of the loop under the other operations *)

(** Channels keep what waits in them; those whose subscription ends are closed. *)
Definition same_queues (b b' : broker Session) : Prop :=
  ∀ j ch, bk_chans b !! j = Some ch → ∃ ch', bk_chans b' !! j = Some ch' ∧ ch_buf ch' = ch_buf ch ∧ ch_cap ch' = ch_cap ch ∧
    (ch_closed ch = true → ch_closed ch' = true) ∧
    (is_Some (bk_subs b' !! j) → is_Some (bk_subs b !! j)) ∧
    (¬ is_Some (bk_subs b' !! j) → ¬ is_Some (bk_subs b !! j) ∨ ch_closed ch' = true).

Lemma same_queues_refl b : same_queues b b.
Proof. intros j ch Hj. exists ch. split_and!; try done. by left. Qed.

Lemma cancel_queues id b b' : cancel id b = Ok b' → same_queues b b'.
Proof.
  unfold cancel. destruct (bk_subs b !! id) as [u|] eqn:Es; [|intros [= <-]; apply same_queues_refl].
  destruct (bk_chans b !! id) as [c|] eqn:Ec; [|done]. unfold close_chan. destruct (ch_closed c); [done|]. intros [= <-] j ch Hj.
  simpl. destruct (decide (j = id)) as [->|Hne].
  - rewrite lookup_insert_eq, lookup_delete_eq. assert (c = ch) as -> by congruence. eexists. split; [reflexivity|].
    split_and!; first [done|by right|by intros []].
  - rewrite lookup_insert_ne, lookup_delete_ne by done. exists ch. split_and!; try done. by left.
Qed.

Lemma close_queues l b b' : close_loop l b = Ok b' → same_queues b b'.
Proof.
  revert b. induction l as [|[id u] l IH]; intros b; simpl; [intros [= <-]; apply same_queues_refl|].
  destruct (cancel id b) as [b1| |] eqn:E; [|done..]. cbn [gobind]. intros E2 j ch Hj.
  destruct (cancel_queues id b b1 E j ch Hj) as (c1 & H1 & A1 & B1 & C1 & D1 & F1).
  destruct (IH b1 E2 j c1 H1) as (c2 & H2 & A2 & B2 & C2 & D2 & F2). exists c2. split_and!; [done|congruence..|auto|auto|].
  intros Hn. destruct (F2 Hn) as [Hn1|]; [|by right]. destruct (F1 Hn1) as [|]; [by left|right; auto].
Qed.

(** The registry changes, and the channel gets [new]. *)
Lemma follow_ok_reg kinds f ctx log log' r' ch ch' new :
  follow_ok kinds (mkFollowing f ctx log) → reg_ok r' → own_chan f = Some ch → own_chan (with_reg f r') = Some ch' →
  ch_buf ch' = ch_buf ch ++ new → ch_cap ch' = ch_cap ch → (ch_closed ch = true → ch_closed ch' = true) →
  (subscribed (with_reg f r') → subscribed f) → (¬ subscribed (with_reg f r') → ¬ subscribed f ∨ ch_closed ch' = true) →
  (ctx = false → closed r' = false → closed (fl_reg f) = false ∧ (subscribed f → subscribed (with_reg f r'))) →
  (new ≠ [] → subscribed f) → taken log' = taken log ++ new → follow_ok kinds (mkFollowing (with_reg f r') ctx log').
Proof.
  intros [H1 (c & Hc & Hcap & Hcl) H3 H4 (pre & H5 & H6)] Hr Ech Ech' Eb Ecap Eclo Hs Hu Hop Hnew Elog.
  simpl in *. assert (c = ch) as -> by congruence. constructor; simpl; [done| | | |].
  - exists ch'. split; [done|]. split; [congruence|]. intros Hn. destruct (Hu Hn) as [|]; auto.
  - intros Hctx Hc'. destruct (Hop Hctx Hc') as [Hc0 Hsub]. auto.
  - intros Hrun. destruct (H4 Hrun) as [|[Hw Hn]]; [by left|]. destruct new as [|x new]; [|by destruct Hn; apply Hnew].
    right. split; [|auto]. unfold waiting in *. rewrite Ech' , Eb, app_nil_r. by rewrite Ech in Hw.
  - exists pre. split; [done|]. rewrite Elog, H6. unfold waiting. by rewrite Ech, Ech', Eb, app_assoc.
Qed.

Lemma follow_ok_queues kinds f ctx log r' :
  follow_ok kinds (mkFollowing f ctx log) → reg_ok r' → same_queues (reg_subs (fl_reg f)) (reg_subs r') →
  (ctx = false → closed r' = false → closed (fl_reg f) = false ∧ (subscribed f → subscribed (with_reg f r'))) →
  follow_ok kinds (mkFollowing (with_reg f r') ctx log).
Proof.
  intros Hf Hr Hq Hop. destruct (fo_chan _ _ Hf) as (ch & Ech & _). simpl in Ech.
  destruct (Hq _ _ Ech) as (ch' & Ech' & Eb & Ecap & Ecl & Hs & Hu).
  apply (follow_ok_reg kinds f ctx log log r' ch ch' []); try done; by rewrite ?app_nil_r.
Qed.

Lemma follow_ok_same kinds f ctx log r' :
  follow_ok kinds (mkFollowing f ctx log) → reg_ok r' → closed r' = closed (fl_reg f) → reg_subs r' = reg_subs (fl_reg f) →
  follow_ok kinds (mkFollowing (with_reg f r') ctx log).
Proof.
  intros Hf Hr Hc E. apply follow_ok_queues; [done|done|rewrite E; apply same_queues_refl|].
  unfold subscribed. simpl. rewrite E, Hc. done.
Qed.

Lemma Remove_same r s : reg_subs (Remove r s) = reg_subs r ∧ closed (Remove r s) = closed r.
Proof.
  unfold Remove. case_decide; [done|]. destruct (sessions r !! PeerID s) as [cur|]; [|done]. case_decide; [done|].
  by destruct (closeSession_same (set_sessions r (delete (PeerID s) (sessions r)) (reg_subs r)) cur) as (_ & -> & -> & _).
Qed.

Lemma taken_app l1 l2 : taken (l1 ++ l2) = taken l1 ++ taken l2.
Proof. unfold taken. by rewrite omap_app. Qed.

Lemma add_follow_ok kinds f ctx log now s r' :
  follow_ok kinds (mkFollowing f ctx log) → Add now (fl_reg f) s = Ok r' →
  follow_ok kinds (mkFollowing (with_reg f r') ctx (log ++ [(stamp s now, fits f)])).
Proof.
  intros Hf E. destruct (fo_chan _ _ Hf) as (ch & Ech & _). simpl in Ech. pose proof (fo_reg _ _ Hf) as Hr. simpl in Hr.
  destruct (registry_Add_spec _ _ _ _ Hr E) as (_ & _ & _ & Hc & _ & _ & Hr' & Hc' & _).
  destruct (Add_subs _ _ _ _ E) as (b & En & Eb).
  destruct (notify_spec (stamp s now) _ (rk_subs _ Hr)) as (b' & En' & _ & Es & Ed & Ed2). assert (b' = b) as -> by congruence.
  assert (Esub : subscribed (with_reg f r') ↔ subscribed f) by (unfold subscribed; simpl; by rewrite Eb, Es).
  assert (Eown : own_chan (with_reg f r') = bk_chans b !! fl_sub f) by (unfold own_chan; simpl; by rewrite Eb).
  unfold own_chan in Ech. destruct (bk_subs (reg_subs (fl_reg f)) !! fl_sub f) as [u|] eqn:Eu.
  - assert (Ef : fits f = bool_decide (length (ch_buf ch) < ch_cap ch)%nat) by (unfold fits, own_chan; by rewrite Eu, Ech).
    rewrite Ed, Ech in Eown by by eexists. simpl in Eown. rewrite Ef. apply (follow_ok_reg kinds f ctx log _ r' ch _
      (if decide (length (ch_buf ch) < ch_cap ch)%nat then [stamp s now] else []) Hf Hr' Ech Eown); try tauto.
    all: unfold deliver; try (case_decide; simpl; rewrite ?app_nil_r; done).
    + intros _. unfold subscribed. by eexists.
    + rewrite taken_app. unfold taken at 2. simpl. by case_bool_decide; case_decide.
  - assert (Ef : fits f = false) by (unfold fits; by rewrite Eu). rewrite Ed2, Ech in Eown by done. rewrite Ef.
    apply (follow_ok_reg kinds f ctx log _ r' ch ch [] Hf Hr' Ech Eown); try tauto; try done; [by rewrite app_nil_r|].
    by rewrite taken_app.
Qed.

Lemma subscribe_follow_ok kinds f ctx log :
  follow_ok kinds (mkFollowing f ctx log) →
  follow_ok kinds (mkFollowing (with_reg f (SubscribeNewSessions (fl_reg f)).1) ctx log).
Proof.
  intros Hf. pose proof (fo_reg _ _ Hf) as Hr. simpl in Hr. destruct (Subscribe_ok (fl_reg f) Hr) as (Hr' & _).
  destruct (fo_chan _ _ Hf) as (ch & Ech & _). simpl in Ech.
  pose proof (bok_next _ (rk_subs _ Hr) (fl_sub f) ltac:(by exists ch)) as Hn.
  assert (E : own_chan (with_reg f (SubscribeNewSessions (fl_reg f)).1) = Some ch ∧
    (subscribed (with_reg f (SubscribeNewSessions (fl_reg f)).1) ↔ subscribed f) ∧
    closed (SubscribeNewSessions (fl_reg f)).1 = closed (fl_reg f)).
  { unfold own_chan, subscribed, SubscribeNewSessions. destruct (closed (fl_reg f)) eqn:Ec; simpl; rewrite !lookup_insert_ne by lia; rewrite ?Ec; done. }
  destruct E as (E1 & E2 & E3).
  apply (follow_ok_reg kinds f ctx log log _ ch ch [] Hf Hr' Ech E1); rewrite ?app_nil_r, ?E3; try done; tauto.
Qed.

Lemma Close_queues r r' : reg_ok r → Close r = Ok r' → reg_ok r' ∧ closed r' = true ∧ same_queues (reg_subs r) (reg_subs r').
Proof.
  intros Hr. unfold Close. destruct (closed r) eqn:Ec; [intros [= <-]; split_and!; [done..|apply same_queues_refl]|].
  destruct (close_all_ok (reg_subs r) (rk_subs _ Hr)) as (b & E & Hb & Es). rewrite E. cbn [gobind]. intros [= <-].
  destruct (closeSession_all (map_range (sessions r)).*2 (mkReg (localID r) ∅ b true (conns_closed r) (grpc_closed r))) as (E1 & E2 & E3 & E4 & _).
  rewrite E2. split_and!; [|done|by eapply close_queues].
  constructor; rewrite ?E1, ?E2, ?E3; simpl; [|done|done]. intros k s. by rewrite lookup_empty.
Qed.

Lemma cancel_follow_ok kinds f ctx log id b :
  follow_ok kinds (mkFollowing f ctx log) → (id = fl_sub f → ctx = true) → cancel id (reg_subs (fl_reg f)) = Ok b →
  follow_ok kinds (mkFollowing (with_reg f (set_sessions (fl_reg f) (sessions (fl_reg f)) b)) ctx log).
Proof.
  intros Hf Hid E. pose proof (fo_reg _ _ Hf) as Hr. simpl in Hr.
  destruct (cancel_ok id _ (rk_subs _ Hr)) as (b' & E' & Hb & Es & _). assert (b' = b) as -> by congruence.
  apply follow_ok_queues; [done| |by eapply cancel_queues|].
  - destruct Hr as [K1 K2 K3]. constructor; simpl; [done| |done]. intros Hc. destruct (K2 Hc) as [? K]. split; [done|]. rewrite Es, K. apply delete_empty.
  - intros -> Hc. split; [done|]. unfold subscribed. simpl. rewrite Es. intros Hsub. rewrite lookup_delete_ne; [done|].
    intros ->. by specialize (Hid eq_refl).
Qed.

(** ** Turns of the loop *)

(** A turn starts the streams of the session that waited longest. *)
Lemma turn_follow_ok kinds f ctx log pick :
  follow_ok kinds (mkFollowing f ctx log) → follow_ok kinds (mkFollowing (listen kinds ctx pick f) ctx log) ∧
  (ctx = false → waiting (listen kinds ctx pick f) = tail (waiting f)).
Proof.
  intros Hf. pose proof Hf as [H1 (ch & Ech & Hcap & Hcl) H3 H4 (pre & H5 & H6)]. simpl in *.
  unfold listen. destruct (fl_running f) eqn:Erun; cbn [negb].
  2: { split; [done|]. intros ->. destruct (H4 eq_refl) as [|[-> _]]; done. }
  assert (Hret : ctx = true → follow_ok kinds (mkFollowing (mkFollower (fl_reg f) (fl_sub f) false (fl_started f)) ctx log)).
  { intros ->. constructor; simpl; [done|by exists ch|done|by left|by exists pre]. }
  unfold select_recv. destruct (ctx && pick) eqn:Ep; [apply andb_true_iff in Ep as [-> ->]; by split; [apply Hret|]|].
  destruct (receive_spec (fl_sub f) _ (rk_subs _ H1)) as (Hb & Es & _ & Hr). destruct (Hr ch Ech) as (Eh & ch' & Ech' & Et).
  pose proof Ech as Ech0. unfold own_chan in Ech0.
  assert (Hch' : ch_cap ch' = ch_cap ch ∧ ch_closed ch' = ch_closed ch).
  { unfold receive in Ech'. rewrite Ech0 in Ech'. destruct ch as [[|v buf] cap cl]; simpl in Ech'; [by simplify_eq|].
    rewrite lookup_insert_eq in Ech'. by injection Ech' as <-. }
  destruct Hch' as [Ecap Eclo]. assert (Ew0 : waiting f = ch_buf ch) by (unfold waiting; by rewrite Ech).
  destruct (receive (fl_sub f) (reg_subs (fl_reg f))) as [res b]. simpl in *. subst res. rewrite Ech0.
  destruct (ch_buf ch) as [|s buf] eqn:Eb; simpl.
  - destruct (ch_closed ch || ctx) eqn:Ed; [|by rewrite Ew0].
    split; [|intros _; unfold waiting, own_chan in *; simpl; by rewrite Ew0].
    destruct ctx; [by apply Hret|]. rewrite orb_false_r in Ed. constructor; simpl; [done|by exists ch|done| |by exists pre].
    intros _. right. split; [exact Ew0|]. intros Hsub. destruct (bok_open _ (rk_subs _ H1) _ Hsub) as (c & Ec & Eo). simpl in Ec. congruence.
  - set (f' := mkFollower _ _ _ _). assert (Ew : waiting f' = buf) by (unfold waiting, own_chan; simpl; by rewrite Ech', Et).
    split; [|intros _; by rewrite Ew, Ew0]. assert (Esub : subscribed f' ↔ subscribed f) by (unfold subscribed; simpl; by rewrite Es).
    constructor; cbn [fw_loop fw_ctx fw_log]; [|exists ch'; split; [exact Ech'|split; [lia|rewrite Esub, Eclo; exact Hcl]]|by rewrite Esub|done|].
    + destruct H1 as [K1 K2 K3]. constructor; simpl; rewrite ?Es; done.
    + exists (pre ++ [s]). rewrite Ew. split; [|rewrite H6, Ew0, <- app_assoc; done].
      simpl. rewrite H5. unfold streams_of. by rewrite bind_app, bind_singleton.
Qed.

Lemma follow_step_ok kinds p q : follow_step kinds p q → follow_ok kinds p → follow_ok kinds q.
Proof.
  intros [] Hf; [by apply add_follow_ok|done|..].
  - destruct (Remove_same (fl_reg f) s) as [Es Ec]. apply follow_ok_same; [done|apply Remove_ok, Hf|done|done].
  - apply follow_ok_same; [done| |done|done]. destruct (fo_reg _ _ Hf). by constructor.
  - by apply subscribe_follow_ok.
  - by eapply cancel_follow_ok.
  - destruct (Close_queues _ _ (fo_reg _ _ Hf) H) as (Hr & Hc & Hq). apply follow_ok_queues; [done..|]. intros _. by rewrite Hc.
  - destruct Hf as [H1 H2 H3 H4 H5]. constructor; try done. by left.
  - by apply turn_follow_ok.
Qed.

Lemma follow_steps_ok kinds p q : rtc (follow_step kinds) p q → follow_ok kinds p → follow_ok kinds q.
Proof. induction 1; [done|]. eauto using follow_step_ok. Qed.

(** Turns of the loop while its context lasts. *)
Definition turns (kinds : list stream_kind) (picks : list bool) (f : Follower) : Follower :=
  foldl (λ f pick, listen kinds false pick f) f picks.

Lemma turns_drain kinds log picks f :
  follow_ok kinds (mkFollowing f false log) → (length (waiting f) ≤ length picks)%nat →
  follow_ok kinds (mkFollowing (turns kinds picks f) false log) ∧ waiting (turns kinds picks f) = [].
Proof.
  revert f. induction picks as [|pick picks IH]; intros f Hf Hn; simpl.
  { split; [done|]. by destruct (waiting f); [|simpl in Hn; lia]. }
  destruct (turn_follow_ok kinds f false log pick Hf) as [Hf' Ew]. apply IH; [done|]. rewrite Ew by done. destruct (waiting f); simpl in *; lia.
Qed.

(** The loop at its start. *)
Definition following (r : sessionRegistry) : Following :=
  mkFollowing (follow r) false ((λ s, (s, true)) <$> waiting (follow r)).

Lemma follow_start kinds r : reg_ok r → closed r = false →
  follow_ok kinds (following r) ∧ (∀ t, t ∈ waiting (follow r) ↔ ∃ k, sessions r !! k = Some t).
Proof.
  intros Hr Hc. destruct (Subscribe_ok r Hr) as (Hr0 & _). revert Hr0. unfold following, follow, SubscribeNewSessions. rewrite Hc. simpl.
  intros Hr0. set (f := mkFollower _ _ _ _).
  assert (Eo : own_chan f = Some (mkChan (map_range (sessions r)).*2 (size (sessions r) + 100) false))
    by (unfold own_chan; simpl; by rewrite lookup_insert_eq).
  assert (Ew : waiting f = (map_range (sessions r)).*2) by (unfold waiting; by rewrite Eo). split.
  - assert (Hsub : subscribed f) by (unfold subscribed; simpl; rewrite lookup_insert_eq; by eexists).
    constructor; cbn [fw_loop fw_ctx fw_log]; [done| |done|done|].
    + eexists. split; [exact Eo|]. simpl. split; [lia|done].
    + exists []. split; [done|]. simpl. generalize (waiting f). intros l. induction l as [|x l IH]; [done|]. simpl. by f_equal.
  - intros t. rewrite Ew, list_elem_of_fmap. split.
    + intros ([k t'] & -> & Hin%elem_of_map_range). eauto.
    + intros [k Hk]. exists (k, t). split; [done|]. by apply elem_of_map_range.
Qed.

(** C30: every session gets its streams, once, unless the loop is 100 sessions behind.
    From the subscription of the loop on, let the registry accept, refuse, remove and
    lose sessions, take and cancel other subscriptions and be closed, let the context
    of the loop end and the loop take its turns.  The streams started are then those of
    a prefix of the sessions for which its channel had room (those of the moment, in
    some order, then the accepted ones, in order), and the rest of them waits in the
    channel.  As long as the context lasts, also after the registry has been closed, as
    many turns as sessions wait start the streams of all of them; and while the
    registry is open a session finds no room only when at least 100 wait, and is then
    never followed. *)
Theorem every_session_is_followed kinds r p :
  reg_ok r → closed r = false → rtc (follow_step kinds) (following r) p →
  (∀ t, t ∈ waiting (follow r) ↔ ∃ k, sessions r !! k = Some t) ∧
  (∃ later, fw_log p = ((λ s, (s, true)) <$> waiting (follow r)) ++ later) ∧
  (∃ pre, fl_started (fw_loop p) = streams_of kinds pre ∧ taken (fw_log p) = pre ++ waiting (fw_loop p)) ∧
  (fw_ctx p = false → ∀ picks, (length (waiting (fw_loop p)) ≤ length picks)%nat →
     fl_started (turns kinds picks (fw_loop p)) = streams_of kinds (taken (fw_log p))) ∧
  (fw_ctx p = false → closed (fl_reg (fw_loop p)) = false → fits (fw_loop p) = false → (100 ≤ length (waiting (fw_loop p)))%nat).
Proof.
  intros Hr Hc Hs. destruct (follow_start kinds r Hr Hc) as [H0 Hl].
  pose proof (follow_steps_ok kinds _ _ Hs H0) as Hf. split; [exact Hl|]. split; [|split; [apply Hf|split]].
  - assert (Hlog : ∀ p q, rtc (follow_step kinds) p q → ∃ later, fw_log q = fw_log p ++ later).
    { induction 1 as [x|x y z Hxy _ [l2 IH]]; [exists []; by rewrite app_nil_r|].
      destruct Hxy; try (by exists l2). simpl in *. eexists. rewrite IH, <- app_assoc. done. }
    apply (Hlog _ _ Hs).
  - destruct p as [f ctx log]. simpl. intros -> picks Hn.
    destruct (turns_drain kinds log picks f Hf Hn) as [[_ _ _ _ (pre & E1 & E2)] Ew]. simpl in *. by rewrite E1, E2, Ew, app_nil_r.
  - intros Hctx Hop. pose proof (fo_sub _ _ Hf Hctx Hop) as Hsub. destruct (fo_chan _ _ Hf) as (ch & Ech & Hcap & _).
    unfold fits, waiting. unfold subscribed in Hsub. rewrite Ech, bool_decide_true by done. cbn [andb]. intros Hno%bool_decide_eq_false. lia.
Qed.

(** ** The stream of known peers cannot fail *)

#[local] Instance peers_contract : Contract applyPeers.
Proof.
  refine {| sc_inv := topo_ok; sc_client c := topo_ok c.2; sc_msg _ := True; sc_same _ _ := True;
    sc_tells _ _ := True; sc_agree _ _ := True |}; try done.
  - intros s b [H1 H2 H3 H4] Hb. split; [by constructor|done].
  - intros [reg repo] ev Hr _. unfold applyPeers. simpl in *.
    destruct (stream_event_total reg repo ev Hr) as (repo' & -> & Hr'). by eexists.
Defined.

(** What happens to a store besides. *)
Inductive store_op := StoreInsert (u : PeerInfo) | StoreRemove (id : string).
Definition store_exec (op : store_op) (s : inMemoryState) : gores inMemoryState :=
  match op with
  | StoreInsert u => x <- InsertMerge s u;; Ok x.2
  | StoreRemove id => Topology.Remove s id
  end.

Inductive peers_act : Streams.act inMemoryState (sessionRegistry * inMemoryState) → Prop :=
| pa_server op : peers_act (Server (store_exec op))
| pa_client op : peers_act (Client (λ c, repo <- store_exec op c.2;; Ok (c.1, repo)))
| pa_sessions reg : peers_act (Client (λ c, Ok (reg, c.2)))
| pa_stream x : match x with Server _ | Client _ => False | _ => True end → peers_act x.

Lemma notify_all_grown s evs :
  broker_ok (subs s) → ∃ s', notify_all s evs = Ok s' ∧ grown (λ _, True) (subs s) (subs s').
Proof.
  revert s. unfold notify_all. induction evs as [|ev evs IH]; intros s Hb; simpl; [exists s; split; [done|by apply grown_refl]|].
  destruct (notify_grown (λ _, True) ev (subs s) Hb I) as (b & -> & G1). simpl.
  destruct (IH (mkState (peers s) b) (proj1 G1)) as (s2 & E2 & G2). exists s2. split; [exact E2|]. by eapply grown_trans.
Qed.

Lemma store_exec_ok op s :
  topo_ok s → ∃ s', store_exec op s = Ok s' ∧ topo_ok s' ∧ grown (λ _, True) (subs s) (subs s').
Proof.
  intros Hs. pose proof (tk_subs _ Hs) as Hb.
  assert (Hn : ∀ m evs s', notify_all (set_peers s m) evs = Ok s' → grown (λ _, True) (subs s) (subs s')).
  { intros m evs s' E. destruct (notify_all_grown (set_peers s m) evs Hb) as (s2 & E2 & G).
    rewrite E in E2. injection E2 as <-. exact G. }
  destruct op as [u|id]; simpl.
  - destruct (insert_merge_total s u Hs) as (res & s' & E & Hs'). rewrite E. exists s'. do 2 (split; [done|]).
    revert E. unfold InsertMerge. case_decide; [intros [= _ <-]; by apply grown_refl|].
    destruct (peer_map s !! ID u) as [old|].
    + destruct (merge_record old u) as [e changed]. destruct changed; [|intros [= _ <-]; by apply grown_refl]. cbn [negb].
      destruct (settle _ e false) as [[m' r] evs]. destruct (notify_all _ evs) as [s2| |] eqn:E; try done.
      intros [= _ <-]. by eapply Hn.
    + destruct (peers s); [|done]. destruct (settle _ (Clone u) true) as [[m' r] evs].
      destruct (notify_all _ evs) as [s2| |] eqn:E; try done. intros [= _ <-]. by eapply Hn.
  - destruct (Remove_spec s id Hs) as (s' & E & Hs' & _). exists s'. do 2 (split; [done|]).
    revert E. unfold Topology.Remove. case_decide; [intros [= <-]; by apply grown_refl|].
    destruct (peer_map s !! id); [|intros [= <-]; by apply grown_refl]. intros E. by eapply Hn.
Qed.

Lemma peers_act_wf x : peers_act x → wf_act applyPeers false x.
Proof.
  intros [op|op|reg|y Hy]; simpl.
  - intros s Hs _. destruct (store_exec_ok op s Hs) as (s' & -> & Hs' & G). exists s'. do 2 (split; [done|]).
    split; [|done]. eapply grown_weaken; [|exact G]. by split.
  - intros [reg repo] Hr. simpl in *. destruct (store_exec_ok op repo Hr) as (repo' & -> & Hr' & _). by eexists.
  - intros [reg' repo] Hr. by eexists.
  - by destruct y.
Qed.

(** Whatever the two stores and the registry go through, and however the stream
    of known peers starts, breaks and starts again, nothing panics and both stores
    stay consistent. *)
Theorem peers_stream_is_safe sa reg sb xs :
  topo_ok sa → topo_ok sb → Forall peers_act xs →
  ∃ s, run applyPeers xs (mkStream sa None [] false (reg, sb)) = Ok s ∧
    topo_ok (st_server s) ∧ topo_ok (st_client s).2 ∧
    ∀ id, st_sub s = Some id → is_Some (bk_subs (subs (st_server s)) !! id).
Proof.
  intros Ha Hb Hxs. destruct (stream_run applyPeers false xs (mkStream sa None [] false (reg, sb))) as (s & E & Hs & _).
  - constructor; simpl; try done; first [apply Ha|constructor].
  - eapply Forall_impl; [exact Hxs|]. apply peers_act_wf.
  - exists s. split; [done|]. split; [apply Hs|]. split; [apply Hs|]. apply Hs.
Qed.

End PeersStream.

(** * Witnesses *)

(** A session is accepted, and the registry is closed before the loop has its turn. *)
Definition demo_added : sessionRegistry :=
  match Add 0 (fl_reg (follow demo_reg)) (demo_session 1 false) with Ok r => r | _ => demo_reg end.
Definition demo_closed : sessionRegistry := match Close demo_added with Ok r => r | _ => demo_reg end.
Definition demo_log : list (Session * bool) := [(stamp (demo_session 1 false) 0, true)].

Lemma demo_steps : rtc (follow_step [DiscoveryStream]) (following demo_reg)
  (mkFollowing (with_reg (with_reg (follow demo_reg) demo_added) demo_closed) false demo_log).
Proof.
  eapply rtc_l; [apply (fs_add _ 0 (follow demo_reg) false _ (demo_session 1 false) demo_added); by vm_compute|].
  eapply rtc_l; [apply (fs_close _ (with_reg (follow demo_reg) demo_added) false _ demo_closed); by vm_compute|]. apply rtc_refl.
Qed.

Lemma every_session_is_followed_witness :
  fl_started (turns [DiscoveryStream] [true] (with_reg (with_reg (follow demo_reg) demo_added) demo_closed)) =
  [(DiscoveryStream, stamp (demo_session 1 false) 0)].
Proof.
  destruct (every_session_is_followed [DiscoveryStream] demo_reg _ demo_reg_ok eq_refl demo_steps) as (_ & _ & _ & H & _).
  etransitivity; [apply (H eq_refl [true]); vm_compute; lia|by vm_compute].
Defined.

Lemma peers_stream_is_safe_witness :
  ∃ s, run applyPeers [Renew false false true; Server (store_exec (StoreInsert demo_node)); Serve Streams.Update true; Recv true; Recv true]
    (mkStream newInMemoryState None [] false (demo_reg, newInMemoryState)) = Ok s ∧ topo_ok (st_client s).2.
Proof.
  destruct (peers_stream_is_safe newInMemoryState demo_reg newInMemoryState
    [Renew false false true; Server (store_exec (StoreInsert demo_node)); Serve Streams.Update true; Recv true; Recv true]
    new_state_ok new_state_ok) as (s & E & _ & Hb & _).
  - repeat (apply Forall_cons; split; [first [apply pa_server|by apply pa_stream]|]). by apply Forall_nil.
  - exists s. split; [exact E|exact Hb].
Defined.

End SessionStreams.
