(* ===== verification/Repos.v ===== *)
(** * The client database (internal/infra/repos, pkg/model, migrations)

    The two tables of the node's SQLite database and the statements of
    peers.sql.go and rules.sql.go, with the constraints of the schema
    (internal/app/initdb.go).  A statement may also fail for reasons of its own
    (locks, disk): the outcomes of the coming statements are part of the state,
    so a theorem about every state is a theorem about every pattern of
    failures.  Times are nanoseconds; a float64 column is a dyadic number. *)
From Stdlib Require Import Sorting.Sorted.
From S2P Require Import Prelude.

Open Scope go_scope.

(** The order in which a join without [ORDER BY] yields its rows. *)
Class QueryPlan := {
  plan_order : ∀ {A : Type}, list A → list A;
  plan_order_perm : ∀ {A : Type} (l : list A), plan_order l ≡ₚ l }.

(** The conversion of a float64 that does not fit a uint64 is left to the
    platform by the language. *)
Class Platform := { f64_out_of_range : Z → Z → Z }.

Module Repos.

(** ** Numbers *)

(** A finite float64: [f_m * 2 ^ f_e]. *)
Record float64 := mkF64 { f_m : Z; f_e : Z }.

(** A product with a power of two changes the exponent only. *)
Definition f64_scale (k : Z) (f : float64) : float64 := mkF64 (f_m f) (f_e f + k).

Definition f64_trunc (f : float64) : Z :=
  if decide (0 <= f_e f)%Z then f_m f * 2 ^ f_e f else Z.quot (f_m f) (2 ^ (- f_e f)).

Definition f64_to_uint64 `{Platform} (f : float64) : Z :=
  let v := f64_trunc f in if decide (is_u64 v) then v else u64 (f64_out_of_range (f_m f) (f_e f)).

(** ** Rows *)

Record Peer := mkPeerRow {
  ID : Z;
  Type_ : string;
  VirtualIp : Z;
  LastSeen : Z;
  ExpirationDate : option Z;
  FromPeerTotal : Z;
  ToPeerTotal : Z;
  TrafficLimitGb : option float64;
  SpeedLimitMbps : option float64;
  AwgPrivateKey : string;
  AwgPublicKey : string }.

Record PeersRule := mkRuleRow {
  RuleID : Z;
  PeerID : Z;
  TargetIp : option Z;
  Protocol : string;
  PortRangeStart : Z;
  PortRangeEnd : option Z }.

Record LoadAllRulesRow := mkLoaded {
  l_ID : Z; l_PeerID : Z; l_VirtualIp : Z; l_TargetIp : option Z; l_Protocol : string;
  l_PortRangeStart : Z; l_PortRangeEnd : option Z }.

#[export] Instance float64_eq_dec : EqDecision float64.
Proof. solve_decision. Defined.
#[export] Instance Peer_eq_dec : EqDecision Peer.
Proof. solve_decision. Defined.
#[export] Instance PeersRule_eq_dec : EqDecision PeersRule.
Proof. solve_decision. Defined.

(** The tables in the order of their primary keys, the counters of
    [AUTOINCREMENT], whether foreign keys are enforced on the connection, and
    which of the coming statements fail. *)
Record DB := mkDB {
  peers : list Peer;
  peers_seq : Z;
  peers_rules : list PeersRule;
  rules_seq : Z;
  foreign_keys : bool;
  db_faults : list bool }.

Definition set_peers (db : DB) l n : DB :=
  mkDB l n (peers_rules db) (rules_seq db) (foreign_keys db) (db_faults db).
Definition set_rules (db : DB) l n : DB :=
  mkDB (peers db) (peers_seq db) l n (foreign_keys db) (db_faults db).
Definition set_faults (db : DB) l : DB :=
  mkDB (peers db) (peers_seq db) (peers_rules db) (rules_seq db) (foreign_keys db) l.

(** ** Statements *)

(** A statement either fails and changes nothing, or runs. *)
Definition stmt {A} (run : DB → gores (A * DB)) (db : DB) : gores A * DB :=
  match db_faults db with
  | true :: rest => (Err "database failure", set_faults db rest)
  | fs =>
      let db1 := set_faults db (tail fs) in
      match run db1 with
      | Ok (a, db2) => (Ok a, db2)
      | Err e => (Err e, db1)
      | Panic => (Panic, db1)
      end
  end.

Record CreatePeerAutoIDParams := mkCreate {
  c_Type : string; c_MinVirtualIp : Z; c_ExpirationDate : option Z;
  c_TrafficLimitGb : option float64; c_SpeedLimitMbps : option float64;
  c_AwgPrivateKey : string; c_AwgPublicKey : string }.

(** [SELECT MAX(virtual_ip) + 1 ... WHERE virtual_ip >= min], or [min]. *)
Definition next_virtual_ip (min : Z) (l : list Peer) : Z :=
  match filter (λ p, min <= VirtualIp p)%Z l with
  | [] => min
  | p :: rest => foldr (λ q m, Z.max (VirtualIp q) m) (VirtualIp p) rest + 1
  end.

Definition CreatePeerAutoID (now : Z) (arg : CreatePeerAutoIDParams) : DB → gores Peer * DB :=
  stmt (λ db,
    let ip := next_virtual_ip (c_MinVirtualIp arg) (peers db) in
    if decide (ip ∈ VirtualIp <$> peers db) then Err "UNIQUE constraint failed: peers.virtual_ip" else
    if decide (peers_seq db = 2 ^ 63 - 1)%Z then Err "database or disk is full" else
    let id := (peers_seq db + 1)%Z in
    let row := mkPeerRow id (c_Type arg) ip now (c_ExpirationDate arg) 0 0 (c_TrafficLimitGb arg)
                 (c_SpeedLimitMbps arg) (c_AwgPrivateKey arg) (c_AwgPublicKey arg) in
    Ok (row, set_peers db (peers db ++ [row]) id)).

(** The rules go with the peer when foreign keys are enforced. *)
Definition DeletePeer (id : Z) : DB → gores () * DB :=
  stmt (λ db,
    let db1 := set_peers db (filter (λ p, ID p ≠ id) (peers db)) (peers_seq db) in
    Ok (tt, if foreign_keys db
            then set_rules db1 (filter (λ r, PeerID r ≠ id) (peers_rules db1)) (rules_seq db1)
            else db1)).

Definition one_row {A} (l : list A) : gores A :=
  match l with x :: _ => Ok x | [] => Err "sql: no rows in result set" end.

Definition GetPeerByID (id : Z) : DB → gores Peer * DB :=
  stmt (λ db, x <- one_row (filter (λ p, ID p = id) (peers db));; Ok (x, db)).
Definition GetPeerByVirtualIP (ip : Z) : DB → gores Peer * DB :=
  stmt (λ db, x <- one_row (filter (λ p, VirtualIp p = ip) (peers db));; Ok (x, db)).
Definition ListPeers : DB → gores (list Peer) * DB := stmt (λ db, Ok (peers db, db)).

(** The statement names a column [expiration_data], which the table does not
    have, and an [UPDATE ... LIMIT]: it cannot be prepared. *)
Definition ProlongPeer (newExpiration : option Z) (id : Z) : DB → gores () * DB :=
  stmt (λ db, Err "no such column: expiration_data").

Definition add_stats (fromInc toInc lastSeen : Z) (p : Peer) : Peer :=
  mkPeerRow (ID p) (Type_ p) (VirtualIp p) (Z.max (LastSeen p) lastSeen) (ExpirationDate p)
    (FromPeerTotal p + fromInc) (ToPeerTotal p + toInc) (TrafficLimitGb p) (SpeedLimitMbps p)
    (AwgPrivateKey p) (AwgPublicKey p).

Definition UpdatePeerStats (fromInc toInc lastSeen virtualIp : Z) : DB → gores () * DB :=
  stmt (λ db,
    Ok (tt, set_peers db
              ((λ p, if decide (VirtualIp p = virtualIp) then add_stats fromInc toInc lastSeen p else p)
                 <$> peers db) (peers_seq db))).

(** Two rows violate the unique index when all its columns are equal; a NULL is
    equal to nothing. *)
Definition same_rule (a b : PeersRule) : bool :=
  bool_decide (PeerID a = PeerID b) && bool_decide (Protocol a = Protocol b) &&
  bool_decide (PortRangeStart a = PortRangeStart b) &&
  match TargetIp a, TargetIp b with Some x, Some y => bool_decide (x = y) | _, _ => false end &&
  match PortRangeEnd a, PortRangeEnd b with Some x, Some y => bool_decide (x = y) | _, _ => false end.

Definition InsertPeerRule (peerID : Z) (target : option Z) (protocol : string) (pstart : Z)
    (pend : option Z) : DB → gores Z * DB :=
  stmt (λ db,
    let id := (rules_seq db + 1)%Z in
    let row := mkRuleRow id peerID target protocol pstart pend in
    if decide (protocol ∉ ["tcp"; "udp"; "both"]%string) then Err "CHECK constraint failed" else
    if existsb (same_rule row) (peers_rules db) then Err "UNIQUE constraint failed: peers_rules" else
    if decide (rules_seq db = 2 ^ 63 - 1)%Z then Err "database or disk is full" else
    if foreign_keys db && bool_decide (peerID ∉ ID <$> peers db)
    then Err "FOREIGN KEY constraint failed"
    else Ok (id, set_rules db (peers_rules db ++ [row]) id)).

Definition DeletePeerRule (id : Z) : DB → gores () * DB :=
  stmt (λ db, Ok (tt, set_rules db (filter (λ r, RuleID r ≠ id) (peers_rules db)) (rules_seq db))).
Definition DeleteAllPeerRules (peerID : Z) : DB → gores () * DB :=
  stmt (λ db, Ok (tt, set_rules db (filter (λ r, PeerID r ≠ peerID) (peers_rules db)) (rules_seq db))).

Definition LoadRulesByPeerID (peerID : Z) : DB → gores (list PeersRule) * DB :=
  stmt (λ db, Ok (filter (λ r, PeerID r = peerID) (peers_rules db), db)).

(** The join with the peers. *)
Definition joined (ps : list Peer) (r : PeersRule) : list LoadAllRulesRow :=
  (λ p, mkLoaded (RuleID r) (PeerID r) (VirtualIp p) (TargetIp r) (Protocol r) (PortRangeStart r)
          (PortRangeEnd r)) <$> filter (λ p, ID p = PeerID r) ps.

Definition LoadAllRules `{QueryPlan} : DB → gores (list LoadAllRulesRow) * DB :=
  stmt (λ db, Ok (plan_order (peers_rules db ≫= joined (peers db)), db)).

(** ** Transactions *)

(** A rollback restores the tables; the failures that happened stay. *)
Definition rollback (before after : DB) : DB := set_faults before (db_faults after).

(** ** Invariant *)

Record db_ok (db : DB) : Prop := {
  dk_ids : StronglySorted Z.lt (ID <$> peers db);
  dk_seq : (0 <= peers_seq db)%Z ∧ ∀ p, p ∈ peers db → (1 <= ID p <= peers_seq db)%Z;
  dk_ips : NoDup (VirtualIp <$> peers db);
  dk_rule_ids : StronglySorted Z.lt (RuleID <$> peers_rules db);
  dk_rule_seq : (0 <= rules_seq db)%Z ∧ ∀ r, r ∈ peers_rules db → (1 <= RuleID r <= rules_seq db)%Z;
  dk_fk : foreign_keys db = true → ∀ r, r ∈ peers_rules db → PeerID r ∈ ID <$> peers db }.

(** ** Lemmas *)

Lemma sorted_filter {A} (f : A → Z) (P : A → Prop) `{∀ x, Decision (P x)} l :
  StronglySorted Z.lt (f <$> l) → StronglySorted Z.lt (f <$> filter P l).
Proof.
  induction l as [|x l IH]; [done|]. rewrite filter_cons. intros Hs.
  rewrite fmap_cons in Hs. apply StronglySorted_inv in Hs as [Hs Hx]. specialize (IH Hs).
  case_decide; [|done]. rewrite fmap_cons. constructor; [done|].
  rewrite Forall_forall in Hx |- *. intros z (y & -> & Hy%list_elem_of_filter)%list_elem_of_fmap.
  apply Hx. apply list_elem_of_fmap_2, Hy.
Qed.

Lemma sorted_snoc (l : list Z) z :
  StronglySorted Z.lt l → (∀ x, x ∈ l → (x < z)%Z) → StronglySorted Z.lt (l ++ [z]).
Proof.
  induction l as [|x l IH]; intros Hs Hz; simpl; [constructor; constructor|].
  apply StronglySorted_inv in Hs as [Hs Hx]. constructor.
  - apply IH; [done|]. intros y Hy. apply Hz. by right.
  - rewrite Forall_app. split; [done|]. constructor; [|constructor]. apply Hz. by left.
Qed.

Lemma sorted_NoDup (l : list Z) : StronglySorted Z.lt l → NoDup l.
Proof.
  induction 1 as [|x l Hs IH Hx]; [constructor|]. constructor; [|done].
  intros Hin. rewrite Forall_forall in Hx. specialize (Hx x Hin). lia.
Qed.

(** A key is the key of one row. *)
Lemma row_by_key {A} (f : A → Z) (l : list A) x y :
  NoDup (f <$> l) → x ∈ l → y ∈ l → f x = f y → x = y.
Proof.
  intros HN [i Hi]%list_elem_of_lookup [j Hj]%list_elem_of_lookup E.
  assert (i = j) as <-; [|congruence].
  apply (NoDup_lookup (f <$> l) i j (f x)); [done|by rewrite list_lookup_fmap, Hi|].
  by rewrite list_lookup_fmap, Hj, E.
Qed.

Lemma filter_by_key {A} (f : A → Z) (l : list A) x :
  NoDup (f <$> l) → x ∈ l → filter (λ y, f y = f x) l = [x].
Proof.
  induction l as [|y l IH]; [by intros _ ?%not_elem_of_nil|].
  rewrite fmap_cons. intros [Hy HN]%NoDup_cons Hx. rewrite filter_cons.
  apply elem_of_cons in Hx as [->|Hx].
  - rewrite decide_True by done. f_equal.
    destruct (filter (λ z, f z = f y) l) as [|z l'] eqn:E; [done|].
    assert (Hz : z ∈ filter (λ z, f z = f y) l) by (rewrite E; by left).
    apply list_elem_of_filter in Hz as [Hf Hz]. destruct Hy. rewrite <- Hf. by apply list_elem_of_fmap_2.
  - rewrite decide_False; [by apply IH|]. intros Hf. apply Hy. rewrite Hf. by apply list_elem_of_fmap_2.
Qed.

Lemma db_ok_faults db fs : db_ok db → db_ok (set_faults db fs).
Proof. by destruct 1. Qed.

(** What a successful statement is. *)
Lemma stmt_Ok {A} (run : DB → gores (A * DB)) db a db2 :
  stmt run db = (Ok a, db2) → ∃ fs, run (set_faults db fs) = Ok (a, db2).
Proof.
  unfold stmt. destruct (db_faults db) as [|[] fs]; [|done|]; intros E.
  - exists []. simpl in E. destruct (run _) as [[? ?]|?|]; congruence.
  - exists fs. simpl in E. destruct (run _) as [[? ?]|?|]; congruence.
Qed.

(** What a failed statement leaves. *)
Lemma stmt_Err {A} (run : DB → gores (A * DB)) db e db2 :
  stmt run db = (Err e, db2) → ∃ fs, db2 = set_faults db fs.
Proof.
  unfold stmt. destruct (db_faults db) as [|[] fs]; intros E; simpl in E.
  - destruct (run _) as [[? ?]|?|]; simplify_eq; eauto.
  - simplify_eq. eauto.
  - destruct (run _) as [[? ?]|?|]; simplify_eq; eauto.
Qed.

(** A statement without failures. *)
Lemma stmt_run {A} (run : DB → gores (A * DB)) db :
  db_faults db = [] → stmt run db = match run db with
                                    | Ok (a, db2) => (Ok a, db2)
                                    | Err e => (Err e, db)
                                    | Panic => (Panic, db)
                                    end.
Proof. intros E. unfold stmt. rewrite E. simpl. replace (set_faults db []) with db; [done|]. destruct db; simpl in *. by subst. Qed.

Lemma next_ip_spec min l :
  (min <= next_virtual_ip min l)%Z ∧
  (∀ p, p ∈ l → (min <= VirtualIp p)%Z → (VirtualIp p < next_virtual_ip min l)%Z) ∧
  (next_virtual_ip min l = min ∨ ∃ p, p ∈ l ∧ next_virtual_ip min l = VirtualIp p + 1)%Z.
Proof.
  unfold next_virtual_ip. destruct (filter _ l) as [|p rest] eqn:Ef.
  { split; [lia|]. split; [|by left]. intros p Hp Hm.
    assert (Hin : p ∈ filter (λ p, min <= VirtualIp p)%Z l) by (by apply list_elem_of_filter).
    rewrite Ef in Hin. by apply not_elem_of_nil in Hin. }
  set (m := foldr _ _ _).
  assert (Hmax : (∀ q, q ∈ p :: rest → VirtualIp q <= m)%Z ∧ ∃ q, q ∈ p :: rest ∧ m = VirtualIp q).
  { subst m. clear Ef. induction rest as [|q rest [IH (q0 & Hq0 & E0)]]; simpl.
    - split; [intros q [->|?%not_elem_of_nil]%elem_of_cons; [lia|done]|]. exists p. split; [by left|done].
    - split.
      + intros q' [->|[->|Hq']%elem_of_cons]%elem_of_cons; [|lia|].
        * specialize (IH p ltac:(by left)). lia.
        * specialize (IH q' ltac:(by right)). lia.
      + destruct (Z.max_spec (VirtualIp q) (foldr (λ q m, Z.max (VirtualIp q) m) (VirtualIp p) rest))
          as [[_ ->]|[_ ->]].
        * exists q0. split; [|done]. apply elem_of_cons in Hq0 as [->|?]; [by left|by right; right].
        * exists q. split; [by right; left|done]. }
  destruct Hmax as [Hm (q & Hq & Eq)].
  assert (Hall : ∀ x, x ∈ p :: rest → x ∈ l ∧ (min <= VirtualIp x)%Z).
  { intros x Hx. rewrite <- Ef in Hx. apply list_elem_of_filter in Hx. tauto. }
  split; [|split].
  - destruct (Hall p ltac:(by left)) as [_ ?]. specialize (Hm p ltac:(by left)). lia.
  - intros x Hx Hmx. assert (Hin : x ∈ p :: rest) by (rewrite <- Ef; by apply list_elem_of_filter).
    specialize (Hm x Hin). lia.
  - right. exists q. split; [by apply Hall|lia].
Qed.

Lemma next_ip_fresh min l : next_virtual_ip min l ∉ VirtualIp <$> l.
Proof.
  destruct (next_ip_spec min l) as (Hmin & Hlt & _).
  intros (p & Ep & Hp)%list_elem_of_fmap. specialize (Hlt p Hp). lia.
Qed.

(** ** What each statement does *)

(** The tables are unchanged. *)
Definition same_tables (db db' : DB) : Prop := ∃ fs, db' = set_faults db fs.

Lemma same_tables_ok db db' : same_tables db db' → db_ok db → db_ok db'.
Proof. intros [fs ->]. apply db_ok_faults. Qed.

Lemma GetPeerByID_spec id db res db' :
  GetPeerByID id db = (res, db') → same_tables db db' ∧ res ≠ Panic ∧
  ∀ p, res = Ok p → p ∈ peers db ∧ ID p = id.
Proof.
  unfold GetPeerByID. intros E. destruct res as [p|e|].
  - apply stmt_Ok in E as [fs E]. destruct (filter _ (peers (set_faults db fs))) as [|q l] eqn:Ef; [done|].
    simpl in E. injection E as <- <-. split; [by eexists|]. split; [done|]. intros ? [= <-].
    assert (Hq : q ∈ filter (λ p, ID p = id) (peers db)) by (simpl in Ef; rewrite Ef; by left).
    apply list_elem_of_filter in Hq. tauto.
  - split; [by apply stmt_Err in E|done].
  - exfalso. unfold stmt in E. repeat case_match; simplify_eq; destruct (filter _ _); done.
Qed.

Lemma GetPeerByID_found p db :
  db_ok db → p ∈ peers db → db_faults db = [] → GetPeerByID (ID p) db = (Ok p, db).
Proof.
  intros Hd Hp Hf. unfold GetPeerByID. rewrite stmt_run by done.
  rewrite (filter_by_key ID (peers db) p); [done| |done]. by apply sorted_NoDup, (dk_ids _ Hd).
Qed.

Lemma CreatePeerAutoID_spec now arg db res db' :
  db_ok db → CreatePeerAutoID now arg db = (res, db') →
  match res with
  | Ok p =>
      db_ok db' ∧ peers db' = peers db ++ [p] ∧ peers_rules db' = peers_rules db ∧
      rules_seq db' = rules_seq db ∧ foreign_keys db' = foreign_keys db ∧
      p = mkPeerRow (peers_seq db + 1) (c_Type arg) (next_virtual_ip (c_MinVirtualIp arg) (peers db)) now
            (c_ExpirationDate arg) 0 0 (c_TrafficLimitGb arg) (c_SpeedLimitMbps arg)
            (c_AwgPrivateKey arg) (c_AwgPublicKey arg)
  | Err _ => same_tables db db'
  | Panic => False
  end.
Proof.
  intros Hd E. unfold CreatePeerAutoID in E. destruct res as [p|e|].
  - apply stmt_Ok in E as [fs E]. simpl in E. repeat case_decide; try done. injection E as <- <-.
    simpl. split; [|done]. destruct Hd as [Hi [Hs0 Hs] Hip Hri Hrs Hfk]. constructor; simpl; try done.
    + rewrite fmap_app. simpl. apply sorted_snoc; [done|]. intros x (p & -> & Hp)%list_elem_of_fmap.
      specialize (Hs p Hp). lia.
    + split; [lia|]. intros p [Hp| ->%list_elem_of_singleton]%elem_of_app; [|simpl; lia].
      specialize (Hs p Hp). lia.
    + rewrite fmap_app. apply NoDup_app. split; [done|]. split; [|apply NoDup_singleton].
      intros x Hx ->%list_elem_of_singleton. by apply next_ip_fresh in Hx.
    + intros Hk r Hr. rewrite fmap_app. apply elem_of_app. left. by apply Hfk.
  - by apply stmt_Err in E.
  - unfold stmt in E. repeat (case_match || case_decide); simplify_eq; repeat case_decide; done.
Qed.

Lemma DeletePeer_spec id db res db' :
  db_ok db → DeletePeer id db = (res, db') →
  match res with
  | Ok _ =>
      peers db' = filter (λ p, ID p ≠ id) (peers db) ∧
      (∀ r, r ∈ peers_rules db' → r ∈ peers_rules db) ∧
      (∀ r, r ∈ peers_rules db → PeerID r ≠ id → r ∈ peers_rules db') ∧ db_ok db'
  | Err _ => same_tables db db'
  | Panic => False
  end.
Proof.
  intros Hd E. unfold DeletePeer in E. destruct res as [[]|e|].
  - apply stmt_Ok in E as [fs E]. injection E as <-.
    assert (Hsub : ∀ p, p ∈ filter (λ p, ID p ≠ id) (peers db) → p ∈ peers db)
      by (intros p Hp; apply list_elem_of_filter in Hp; tauto).
    destruct Hd as [Hi [Hs0 Hs] Hip Hri Hrs Hfk].
    assert (Hips : NoDup (VirtualIp <$> filter (λ p, ID p ≠ id) (peers db))).
    { eapply sublist_NoDup; [exact Hip|]. apply fmap_sublist, sublist_filter. }
    simpl. destruct (foreign_keys db) eqn:Ek; simpl.
    + split; [done|]. split; [intros r Hr%list_elem_of_filter; tauto|].
      split; [intros r Hr Hn; by apply list_elem_of_filter|]. constructor; simpl; try done.
      * by apply sorted_filter.
      * split; [done|]. intros p Hp. by apply Hs, Hsub.
      * by apply sorted_filter.
      * split; [apply Hrs|]. intros r Hr%list_elem_of_filter. apply Hrs. tauto.
      * intros _ r [Hn Hr]%list_elem_of_filter. specialize (Hfk eq_refl r Hr).
        apply list_elem_of_fmap in Hfk as (p & Ep & Hp). rewrite Ep. apply list_elem_of_fmap_2.
        apply list_elem_of_filter. split; [congruence|done].
    + split; [done|]. split; [done|]. split; [done|]. constructor; simpl; try done.
      * by apply sorted_filter.
      * split; [done|]. intros p Hp. by apply Hs, Hsub.
      * congruence.
  - by apply stmt_Err in E.
  - unfold stmt in E. repeat case_match; simplify_eq.
Qed.

Lemma delete_rules_ok (P : PeersRule → Prop) `{∀ r, Decision (P r)} db fs :
  db_ok db → db_ok (set_rules (set_faults db fs) (filter P (peers_rules db)) (rules_seq db)).
Proof.
  intros [Hi Hs Hip Hri [Hrs0 Hrs] Hfk]. constructor; simpl; try done.
  - by apply sorted_filter.
  - split; [done|]. intros r Hr%list_elem_of_filter. apply Hrs. tauto.
  - intros Hk r Hr%list_elem_of_filter. apply Hfk; tauto.
Qed.

Lemma DeletePeerRule_spec id db res db' :
  db_ok db → DeletePeerRule id db = (res, db') →
  match res with
  | Ok _ => peers db' = peers db ∧ peers_rules db' = filter (λ r, RuleID r ≠ id) (peers_rules db) ∧ db_ok db'
  | Err _ => same_tables db db'
  | Panic => False
  end.
Proof.
  intros Hd E. unfold DeletePeerRule in E. destruct res as [[]|e|].
  - apply stmt_Ok in E as [fs E]. injection E as <-. split; [done|]. split; [done|]. by apply delete_rules_ok.
  - by apply stmt_Err in E.
  - unfold stmt in E. repeat case_match; simplify_eq.
Qed.

Lemma DeleteAllPeerRules_spec id db res db' :
  db_ok db → DeleteAllPeerRules id db = (res, db') →
  match res with
  | Ok _ => peers db' = peers db ∧ peers_rules db' = filter (λ r, PeerID r ≠ id) (peers_rules db) ∧ db_ok db'
  | Err _ => same_tables db db'
  | Panic => False
  end.
Proof.
  intros Hd E. unfold DeleteAllPeerRules in E. destruct res as [[]|e|].
  - apply stmt_Ok in E as [fs E]. injection E as <-. split; [done|]. split; [done|]. by apply delete_rules_ok.
  - by apply stmt_Err in E.
  - unfold stmt in E. repeat case_match; simplify_eq.
Qed.

Lemma InsertPeerRule_spec pid tgt proto ps pe db res db' :
  db_ok db → InsertPeerRule pid tgt proto ps pe db = (res, db') →
  match res with
  | Ok id => id = (rules_seq db + 1)%Z ∧ peers db' = peers db ∧ rules_seq db' = id ∧ db_ok db' ∧
      peers_rules db' = peers_rules db ++ [mkRuleRow id pid tgt proto ps pe]
  | Err _ => same_tables db db'
  | Panic => False
  end.
Proof.
  intros Hd E. unfold InsertPeerRule in E. destruct res as [id|e|].
  - apply stmt_Ok in E as [fs E]. cbn [peers_rules rules_seq set_faults foreign_keys peers] in E.
    case_decide; [done|]. destruct (existsb _ _); [done|]. case_decide; [done|].
    destruct (foreign_keys db && _) eqn:Ek; [done|].
    injection E as <- <-. simpl. split_and!; try done.
    destruct Hd as [Hi Hs Hip Hri [Hrs0 Hrs] Hfk]. constructor; simpl; try done.
    + rewrite fmap_app. simpl. apply sorted_snoc; [done|]. intros x (r & -> & Hr)%list_elem_of_fmap.
      specialize (Hrs r Hr). lia.
    + split; [lia|]. intros r [Hr| ->%list_elem_of_singleton]%elem_of_app; [|simpl; lia].
      specialize (Hrs r Hr). lia.
    + intros Hk r [Hr| ->%list_elem_of_singleton]%elem_of_app; [by apply Hfk|]. simpl.
      rewrite Hk in Ek. simpl in Ek. by apply bool_decide_eq_false, dec_stable in Ek.
  - by apply stmt_Err in E.
  - unfold stmt in E. repeat case_match; simplify_eq.
Qed.

(** Statistics change no key, address or rule. *)
Lemma UpdatePeerStats_spec fromInc toInc seen ip db res db' :
  db_ok db → UpdatePeerStats fromInc toInc seen ip db = (res, db') →
  db_ok db' ∧ peers_rules db' = peers_rules db ∧ rules_seq db' = rules_seq db ∧
  ∀ p, p ∈ peers db → ∃ p', p' ∈ peers db' ∧ ID p' = ID p ∧ VirtualIp p' = VirtualIp p.
Proof.
  intros Hd E. assert (Hsame : same_tables db db' → db_ok db' ∧ peers_rules db' = peers_rules db ∧
    rules_seq db' = rules_seq db ∧ ∀ p, p ∈ peers db → ∃ p', p' ∈ peers db' ∧ ID p' = ID p ∧ VirtualIp p' = VirtualIp p).
  { intros Hs. split; [by eapply same_tables_ok|]. destruct Hs as [fs ->]. split; [done|]. split; [done|]. intros p Hp. by exists p. }
  unfold UpdatePeerStats in E. destruct res as [a|e|]; [|by apply Hsame; apply stmt_Err in E|].
  2: { unfold stmt in E. repeat case_match; simplify_eq. }
  apply stmt_Ok in E as [fs E]. injection E as <- <-. clear Hsame. destruct Hd as [H1 [H2a H2b] H3 H4 H5 H6].
  set (f := λ p, if decide (VirtualIp p = ip) then add_stats fromInc toInc seen p else p).
  assert (Hf : ∀ p, ID (f p) = ID p ∧ VirtualIp (f p) = VirtualIp p) by (intros p; unfold f; by case_decide).
  assert (Ei : ID <$> (f <$> peers db) = ID <$> peers db).
  { rewrite <- list_fmap_compose. apply list_fmap_ext. intros i p _. apply Hf. }
  assert (Ev : VirtualIp <$> (f <$> peers db) = VirtualIp <$> peers db).
  { rewrite <- list_fmap_compose. apply list_fmap_ext. intros i p _. apply Hf. }
  split; [|split; [done|split; [done|]]].
  - constructor; simpl; fold f.
    + change (StronglySorted Z.lt (ID <$> (f <$> peers db))). by rewrite Ei.
    + split; [done|]. intros p (q & -> & Hq)%list_elem_of_fmap. destruct (Hf q) as [-> _]. by apply H2b.
    + change (NoDup (VirtualIp <$> (f <$> peers db))). by rewrite Ev.
    + done.
    + done.
    + intros Hfk r Hr. change (PeerID r ∈ ID <$> (f <$> peers db)). rewrite Ei. by apply H6.
  - intros p Hp. exists (f p). split; [by apply list_elem_of_fmap_2|]. apply Hf.
Qed.

Lemma LoadRulesByPeerID_spec pid db res db' :
  LoadRulesByPeerID pid db = (res, db') → same_tables db db' ∧ res ≠ Panic ∧
  ∀ l, res = Ok l → l = filter (λ r, PeerID r = pid) (peers_rules db).
Proof.
  unfold LoadRulesByPeerID. intros E. destruct res as [l|e|].
  - apply stmt_Ok in E as [fs E]. injection E as <- <-. split; [by eexists|]. split; [done|]. by intros l [= <-].
  - split; [by apply stmt_Err in E|done].
  - unfold stmt in E. repeat case_match; simplify_eq.
Qed.

(** The rows of the join are the pairs of a rule and its peer. *)
Lemma LoadAllRules_spec `{QueryPlan} db res db' :
  LoadAllRules db = (res, db') → same_tables db db' ∧ res ≠ Panic ∧
  ∀ l, res = Ok l → ∀ x, x ∈ l ↔ ∃ r p, r ∈ peers_rules db ∧ p ∈ peers db ∧ ID p = PeerID r ∧
    x = mkLoaded (RuleID r) (PeerID r) (VirtualIp p) (TargetIp r) (Protocol r) (PortRangeStart r) (PortRangeEnd r).
Proof.
  unfold LoadAllRules. intros E. destruct res as [l|e|].
  - apply stmt_Ok in E as [fs E]. injection E as <- <-. split; [by eexists|]. split; [done|].
    intros l [= <-] x. simpl. rewrite (plan_order_perm _). rewrite list_elem_of_bind. unfold joined. split.
    + intros (r & (p & -> & [Hp Hin]%list_elem_of_filter)%list_elem_of_fmap & Hr). eauto 10.
    + intros (r & p & Hr & Hp & Hid & ->). exists r. split; [|done]. apply list_elem_of_fmap.
      exists p. split; [done|]. by apply list_elem_of_filter.
  - split; [by apply stmt_Err in E|done].
  - unfold stmt in E. repeat case_match; simplify_eq.
Qed.

(** ** Theorems *)

(** peers get addresses and identities of their own.  On a consistent database
    the insertion of a peer never violates a constraint: it gives the peer the
    address after the highest one in use, or the first of the network, which no
    peer has, and an identity larger than that of any peer ever stored; the
    database stays consistent.  When the statement fails nothing changes. *)
Theorem create_peer_allocates now arg db :
  db_ok db → (peers_seq db < 2 ^ 63 - 1)%Z →
  ∃ res db', CreatePeerAutoID now arg db = (res, db') ∧ db_ok db' ∧
    match res with
    | Ok p => peers db' = peers db ++ [p] ∧ ID p = (peers_seq db + 1)%Z ∧ peers_seq db' = ID p ∧
        (c_MinVirtualIp arg <= VirtualIp p)%Z ∧
        (∀ q, q ∈ peers db → VirtualIp q ≠ VirtualIp p ∧ (ID q < ID p)%Z) ∧
        (∀ q, q ∈ peers db → (c_MinVirtualIp arg <= VirtualIp q)%Z → (VirtualIp q < VirtualIp p)%Z)
    | Err e => same_tables db db' ∧ e = "database failure"%string ∧ head (db_faults db) = Some true
    | Panic => False
    end.
Proof.
  intros Hd Hseq. destruct (CreatePeerAutoID now arg db) as [res db'] eqn:E. exists res, db'.
  split; [done|]. pose proof (CreatePeerAutoID_spec now arg db res db' Hd E) as Hs.
  destruct res as [p|e|]; [|split; [by eapply same_tables_ok|]|done].
  - destruct Hs as (Hd' & Hp & _ & _ & _ & Ep). split; [done|]. split; [done|].
    pose proof (next_ip_spec (c_MinVirtualIp arg) (peers db)) as (Hmin & Hlt & _).
    rewrite Ep. simpl. split; [done|]. split.
    { unfold CreatePeerAutoID in E. apply stmt_Ok in E as [fs E]. simpl in E. repeat case_decide; try done.
      injection E as _ <-. done. }
    split; [done|]. split; [|done]. intros q Hq. split.
    + intros Heq. apply (next_ip_fresh (c_MinVirtualIp arg) (peers db)). rewrite <- Heq.
      by apply list_elem_of_fmap_2.
    + destruct (dk_seq _ Hd) as [_ Hs]. specialize (Hs q Hq). lia.
  - split; [done|]. unfold CreatePeerAutoID, stmt in E.
    destruct (db_faults db) as [|[] fs]; [exfalso| |exfalso].
    2: { by injection E as <- <-. }
    all: cbn [peers peers_seq set_faults tail] in E;
      rewrite decide_False in E by apply next_ip_fresh; rewrite decide_False in E by lia; done.
Qed.

(** the unique index of the rules does not catch rules with a NULL.  Inserting
    the columns of a stored rule again fails when the rule has both a target
    address and an end of its port range, and stores a second copy when it lacks
    one of them (the ordinary rule for one port, or for every client). *)
Theorem duplicate_rules_with_null db r :
  db_faults db = [] → (rules_seq db < 2 ^ 63 - 1)%Z → r ∈ peers_rules db →
  Protocol r ∈ ["tcp"; "udp"; "both"]%string → PeerID r ∈ ID <$> peers db →
  let again := InsertPeerRule (PeerID r) (TargetIp r) (Protocol r) (PortRangeStart r) (PortRangeEnd r) db in
  if bool_decide (is_Some (TargetIp r) ∧ is_Some (PortRangeEnd r))
  then again = (Err "UNIQUE constraint failed: peers_rules", db)
  else ∃ db', again = (Ok (rules_seq db + 1)%Z, db') ∧ peers_rules db' = peers_rules db ++
         [mkRuleRow (rules_seq db + 1) (PeerID r) (TargetIp r) (Protocol r) (PortRangeStart r) (PortRangeEnd r)].
Proof.
  intros Hf Hseq Hr Hp Hpeer again. unfold again, InsertPeerRule. rewrite stmt_run by done.
  rewrite decide_False by (intros Hn; by apply Hn).
  case_bool_decide as Hb.
  - destruct Hb as [[t Et] [e Ee]]. rewrite (proj2 (existsb_exists _ _)); [done|].
    exists r. split; [by apply list_elem_of_In|]. unfold same_rule. simpl. rewrite Et, Ee.
    by rewrite !bool_decide_eq_true_2.
  - destruct (existsb _ _) eqn:Ex.
    { exfalso. apply existsb_exists in Ex as (q & _ & Hq). unfold same_rule in Hq. simpl in Hq.
      apply Hb. destruct (TargetIp r), (PortRangeEnd r), (TargetIp q), (PortRangeEnd q);
        rewrite ?andb_false_r in Hq; try done; split; eauto. }
    rewrite decide_False by lia. rewrite bool_decide_eq_false_2 by (intros Hn; by apply Hn).
    rewrite andb_false_r. eexists. split; [done|]. done.
Qed.

(** ** Witnesses *)

Definition demo_params (key : string) : CreatePeerAutoIDParams :=
  mkCreate "awg" 167837698 None None None "" key.
Definition demo_db : DB := mkDB [] 0 [] 0 false [].
Definition demo_db1 : DB := (CreatePeerAutoID 5 (demo_params "aa") demo_db).2.
Definition demo_db2 : DB := (InsertPeerRule 1 None "tcp" 80 None demo_db1).2.

Lemma demo_db_ok : db_ok demo_db.
Proof.
  constructor; simpl.
  - constructor.
  - split; [done|]. by intros p ?%not_elem_of_nil.
  - constructor.
  - constructor.
  - split; [done|]. by intros r ?%not_elem_of_nil.
  - done.
Qed.

Lemma demo_db1_ok : db_ok demo_db1.
Proof.
  destruct (CreatePeerAutoID 5 (demo_params "aa") demo_db) as [res db'] eqn:E.
  pose proof (CreatePeerAutoID_spec _ _ _ _ _ demo_db_ok E) as Hs.
  vm_compute in E. injection E as <- <-. apply Hs.
Qed.

Lemma create_peer_allocates_witness :
  ∃ res db', CreatePeerAutoID 6 (demo_params "bb") demo_db1 = (res, db') ∧ db_ok db'.
Proof.
  destruct (create_peer_allocates 6 (demo_params "bb") demo_db1 demo_db1_ok ltac:(by vm_compute))
    as (res & db' & E & Hd & _). exists res, db'. split; [exact E|exact Hd].
Defined.

Lemma duplicate_rules_with_null_witness :
  ∃ db', InsertPeerRule 1 None "tcp" 80 None demo_db2 = (Ok 2%Z, db') ∧
    length (peers_rules db') = 2%nat.
Proof.
  destruct (duplicate_rules_with_null demo_db2 (mkRuleRow 1 1 None "tcp" 80 None)) as (db' & E & El).
  - reflexivity.
  - reflexivity.
  - by left.
  - by left.
  - by left.
  - exists db'. split; [exact E|]. rewrite El. reflexivity.
Defined.

End Repos.
