(* ===== verification/Model.v ===== *)
(** * Shared data (pkg/model)

    The peer and the port rule that the services, the transports and the API
    exchange. *)
From S2P Require Import Prelude Repos.
Import Repos(float64).

Open Scope go_scope.

Module Model.

Record Peer := mkPeer {
  ID : Z;
  Type_ : string;
  VirtualIP : Z;
  LastSeen : Z;
  ExpirationDate : option Z;
  FromPeerTotal : Z;
  ToPeerTotal : Z;
  TrafficLimitGb : option float64;
  SpeedLimitMbps : option float64;
  AwgPrivateKey : string;
  AwgPublicKey : string }.

Definition IsExpired (now : Z) (p : Peer) : bool :=
  match ExpirationDate p with
  | None => false
  | Some e => bool_decide (e < now)%Z
  end.

Record PortRule := mkPortRule {
  RuleID : Z;
  TargetAddress : option Z;
  Protocol : string;
  PortRangeStart : Z;
  PortRangeEnd : option Z }.

Definition set_keys (p : Peer) (priv pub : string) : Peer :=
  mkPeer (ID p) (Type_ p) (VirtualIP p) (LastSeen p) (ExpirationDate p) (FromPeerTotal p) (ToPeerTotal p)
    (TrafficLimitGb p) (SpeedLimitMbps p) priv pub.
Definition set_row (p : Peer) (id ip : Z) : Peer :=
  mkPeer id (Type_ p) ip (LastSeen p) (ExpirationDate p) (FromPeerTotal p) (ToPeerTotal p)
    (TrafficLimitGb p) (SpeedLimitMbps p) (AwgPrivateKey p) (AwgPublicKey p).

End Model.
