(* ===== verification/Encodings.v ===== *)
(** * Text encodings of the standard library

    The hexadecimal, base64 and JSON string encodings that the client
    configuration uses (encoding/hex, encoding/base64, encoding/json), with
    decoders that invert them.  Bytes are integers, text is a string of bytes. *)
From S2P Require Import Prelude.

Open Scope go_scope.

Module Encodings.

Notation chars := String.list_ascii_of_string.
Notation text := String.string_of_list_ascii.

Definition byte_of (c : ascii) : Z := Z.of_nat (nat_of_ascii c).
Definition char_of (b : Z) : ascii := ascii_of_nat (Z.to_nat b).

Definition bytes (s : string) : list Z := byte_of <$> chars s.
Definition string_of (l : list Z) : string := text (char_of <$> l).

(** ** Hexadecimal *)

Definition hextable : list ascii := chars "0123456789abcdef".
Definition hex_digit (n : Z) : ascii := nth (Z.to_nat n) hextable zero.

Definition hex_val (c : ascii) : option Z :=
  let n := byte_of c in
  if decide (48 <= n ∧ n <= 57)%Z then Some (n - 48)%Z
  else if decide (97 <= n ∧ n <= 102)%Z then Some (n - 87)%Z
  else if decide (65 <= n ∧ n <= 70)%Z then Some (n - 55)%Z
  else None.

Fixpoint hex_encode (l : list Z) : list ascii :=
  match l with
  | [] => []
  | b :: l' => hex_digit (Z.shiftr b 4) :: hex_digit (Z.land b 15) :: hex_encode l'
  end.

(** The bytes before the first error, and whether there was none. *)
Fixpoint hex_decode (s : list ascii) : list Z * bool :=
  match s with
  | [] => ([], true)
  | [_] => ([], false)
  | a :: b :: s' =>
      match hex_val a, hex_val b with
      | Some x, Some y => let '(l, ok) := hex_decode s' in (Z.lor (Z.shiftl x 4) y :: l, ok)
      | _, _ => ([], false)
      end
  end.

Definition EncodeToString (l : list Z) : string := text (hex_encode l).
Definition DecodeString (s : string) : list Z * bool := hex_decode (chars s).

(** ** Base64 *)

Definition std_alphabet : list ascii :=
  chars "ABCDEFGHIJKLMNOPQRSTUVWXYZabcdefghijklmnopqrstuvwxyz0123456789+/".
Definition url_alphabet : list ascii :=
  chars "ABCDEFGHIJKLMNOPQRSTUVWXYZabcdefghijklmnopqrstuvwxyz0123456789-_".

Definition b64_char (al : list ascii) (v k : Z) : ascii :=
  nth (Z.to_nat (Z.land (Z.shiftr v k) 63)) al zero.

Fixpoint b64_encode (al : list ascii) (pad : bool) (l : list Z) : list ascii :=
  match l with
  | [] => []
  | [a] =>
      let v := Z.shiftl a 16 in
      [b64_char al v 18; b64_char al v 12] ++ (if pad then ["="; "="]%char else [])
  | [a; b] =>
      let v := Z.lor (Z.shiftl a 16) (Z.shiftl b 8) in
      [b64_char al v 18; b64_char al v 12; b64_char al v 6] ++ (if pad then ["="]%char else [])
  | a :: b :: c :: l' =>
      let v := Z.lor (Z.lor (Z.shiftl a 16) (Z.shiftl b 8)) c in
      b64_char al v 18 :: b64_char al v 12 :: b64_char al v 6 :: b64_char al v 0 :: b64_encode al pad l'
  end.

(** [base64.StdEncoding] and [base64.RawURLEncoding]. *)
Definition std_base64 (l : list Z) : string := text (b64_encode std_alphabet true l).
Definition raw_url_base64 (l : list Z) : string := text (b64_encode url_alphabet false l).

Fixpoint index_of (c : ascii) (al : list ascii) : option nat :=
  match al with
  | [] => None
  | x :: al' => if decide (x = c) then Some 0%nat else S <$> index_of c al'
  end.

Definition b64_val (al : list ascii) (c : ascii) : option Z := Z.of_nat <$> index_of c al.

Fixpoint b64_decode (al : list ascii) (s : list ascii) : option (list Z) :=
  match s with
  | [] => Some []
  | [_] => None
  | [p; q] =>
      x ← b64_val al p; y ← b64_val al q;
      Some [Z.shiftr (x * 64 + y) 4]
  | [p; q; r] =>
      x ← b64_val al p; y ← b64_val al q; z ← b64_val al r;
      let v := Z.shiftr ((x * 64 + y) * 64 + z) 2 in Some [Z.shiftr v 8; Z.land v 255]
  | p :: q :: r :: t :: s' =>
      x ← b64_val al p; y ← b64_val al q; z ← b64_val al r; w ← b64_val al t;
      rest ← b64_decode al s';
      let v := (((x * 64 + y) * 64 + z) * 64 + w)%Z in
      Some (Z.shiftr v 16 :: Z.land (Z.shiftr v 8) 255 :: Z.land v 255 :: rest)
  end.

(** ** JSON *)

Definition quote : ascii := "034"%char.
Definition backslash : ascii := "\"%char.
Definition u_escape (n : Z) : list ascii :=
  [backslash; "u"; "0"; "0"; hex_digit (Z.shiftr n 4); hex_digit (Z.land n 15)]%char.

(** An ASCII byte of a string, with HTML characters escaped. *)
Definition json_ascii (c : ascii) : list ascii :=
  let n := byte_of c in
  if decide (c = quote ∨ c = backslash) then [backslash; c]
  else if decide (n = 8)%Z then [backslash; "b"%char]
  else if decide (n = 12)%Z then [backslash; "f"%char]
  else if decide (n = 10)%Z then [backslash; "n"%char]
  else if decide (n = 13)%Z then [backslash; "r"%char]
  else if decide (n = 9)%Z then [backslash; "t"%char]
  else if decide (n < 32 ∨ n = 60 ∨ n = 62 ∨ n = 38)%Z then u_escape n
  else [c].

Definition cont (lo hi : Z) (s : list ascii) : option (list ascii) :=
  match s with
  | c :: s' => if decide (lo <= byte_of c ∧ byte_of c <= hi)%Z then Some s' else None
  | [] => None
  end.

(** The length of the valid UTF-8 sequence of two to four bytes at the head. *)
Definition utf8_len (s : list ascii) : option nat :=
  match s with
  | [] => None
  | c :: s' =>
      let n := byte_of c in
      if decide (194 <= n ∧ n <= 223)%Z then s1 ← cont 128 191 s'; Some 2%nat
      else if decide (224 <= n ∧ n <= 239)%Z then
        s1 ← cont (if decide (n = 224)%Z then 160 else 128) (if decide (n = 237)%Z then 159 else 191) s';
        s2 ← cont 128 191 s1; Some 3%nat
      else if decide (240 <= n ∧ n <= 244)%Z then
        s1 ← cont (if decide (n = 240)%Z then 144 else 128) (if decide (n = 244)%Z then 143 else 191) s';
        s2 ← cont 128 191 s1; s3 ← cont 128 191 s2; Some 4%nat
      else None
  end.

(** The content of a JSON string: [k] bytes of a sequence are still to be copied.
    An invalid byte becomes the replacement character; U+2028 and U+2029 are
    escaped. *)
Fixpoint json_chars (k : nat) (s : list ascii) : list ascii :=
  match s with
  | [] => []
  | c :: s' =>
      match k with
      | S k' => c :: json_chars k' s'
      | O =>
          if decide (byte_of c < 128)%Z then json_ascii c ++ json_chars 0 s'
          else match utf8_len s with
               | None => chars "\ufffd" ++ json_chars 0 s'
               | Some m =>
                   match s with
                   | _ :: b1 :: b2 :: rest =>
                       if decide (byte_of c = 226 ∧ byte_of b1 = 128 ∧ (byte_of b2 = 168 ∨ byte_of b2 = 169))%Z
                       then chars "\u202" ++ [hex_digit (byte_of b2 - 160)] ++ drop 2 (json_chars 2 s')
                       else c :: json_chars (m - 1) s'
                   | _ => c :: json_chars (m - 1) s'
                   end
               end
      end
  end.

Definition json_string (s : string) : string := text (quote :: json_chars 0 (chars s) ++ [quote]).

Definition json_list (l : list string) : string := "[" +:+ String.concat "," l +:+ "]".
Definition json_object (l : list (string * string)) : string :=
  "{" +:+ String.concat "," ((λ kv, json_string kv.1 +:+ ":" +:+ kv.2) <$> l) +:+ "}".

(** The reader of a JSON string after its opening quote, for text in ASCII: the
    content and what follows the closing quote. *)
Fixpoint unquote (s : list ascii) : option (list ascii * list ascii) :=
  match s with
  | [] => None
  | c :: s' =>
      if decide (c = quote) then Some ([], s') else
      if decide (c = backslash) then
        match s' with
        | "b"%char :: r => '(a, b) ← unquote r; Some (char_of 8 :: a, b)
        | "f"%char :: r => '(a, b) ← unquote r; Some (char_of 12 :: a, b)
        | "n"%char :: r => '(a, b) ← unquote r; Some (char_of 10 :: a, b)
        | "r"%char :: r => '(a, b) ← unquote r; Some (char_of 13 :: a, b)
        | "t"%char :: r => '(a, b) ← unquote r; Some (char_of 9 :: a, b)
        | "u"%char :: "0"%char :: "0"%char :: p :: q :: r =>
            x ← hex_val p; y ← hex_val q; '(a, b) ← unquote r;
            Some (char_of (x * 16 + y) :: a, b)
        | d :: r => '(a, b) ← unquote r; Some (d :: a, b)
        | [] => None
        end
      else '(a, b) ← unquote s'; Some (c :: a, b)
  end.

(** ** Lemmas *)

Lemma chars_text l : chars (text l) = l.
Proof. apply String.list_ascii_of_string_of_list_ascii. Qed.

Lemma byte_of_range c : is_u8 (byte_of c).
Proof. unfold is_u8, byte_of. pose proof (nat_ascii_bounded c). lia. Qed.

Lemma char_of_byte c : char_of (byte_of c) = c.
Proof. unfold char_of, byte_of. rewrite Nat2Z.id. apply ascii_nat_embedding. Qed.

Lemma byte_of_char b : is_u8 b → byte_of (char_of b) = b.
Proof. intros Hb. unfold byte_of, char_of. rewrite nat_ascii_embedding by (unfold is_u8 in *; lia). unfold is_u8 in *. lia. Qed.

(** A finite check on the first [n] integers. *)
Lemma below_check (P : Z → Prop) `{∀ x, Decision (P x)} (n : nat) x :
  forallb (λ i, bool_decide (P (Z.of_nat i))) (seq 0 n) = true → (0 <= x < Z.of_nat n)%Z → P x.
Proof.
  intros Hf Hx. rewrite forallb_forall in Hf. specialize (Hf (Z.to_nat x)).
  rewrite Z2Nat.id, bool_decide_eq_true in Hf by lia. apply Hf. apply in_seq. lia.
Qed.

Lemma hex_digit_val x : (0 <= x < 16)%Z → hex_val (hex_digit x) = Some x.
Proof. apply (below_check (λ z, hex_val (hex_digit z) = Some z) 16). by vm_compute. Qed.

Lemma land_15 b : Z.land b 15 = (b `mod` 16)%Z.
Proof. apply (Z.land_ones b 4). lia. Qed.
Lemma land_63 b : Z.land b 63 = (b `mod` 64)%Z.
Proof. apply (Z.land_ones b 6). lia. Qed.
Lemma land_255 b : Z.land b 255 = (b `mod` 256)%Z.
Proof. apply (Z.land_ones b 8). lia. Qed.

Lemma nibbles b : is_u8 b →
  (0 <= Z.shiftr b 4 < 16)%Z ∧ (0 <= Z.land b 15 < 16)%Z ∧ (Z.shiftr b 4 * 16 + Z.land b 15 = b)%Z.
Proof.
  unfold is_u8. intros Hb. rewrite land_15, Z.shiftr_div_pow2 by lia. change (2 ^ 4)%Z with 16%Z.
  change (2 ^ 8)%Z with 256%Z in Hb. Z.div_mod_to_equations. lia.
Qed.

Lemma hex_roundtrip l : Forall is_u8 l → hex_decode (hex_encode l) = (l, true).
Proof.
  induction 1 as [|b l Hb _ IH]; [done|]. simpl.
  destruct (nibbles b Hb) as (H1 & H2 & E). rewrite !hex_digit_val, IH by done.
  rewrite lor_shiftl_add by lia. do 2 f_equal. change (2 ^ 4)%Z with 16%Z. lia.
Qed.

Lemma url_alphabet_val i : (0 <= i < 64)%Z → b64_val url_alphabet (nth (Z.to_nat i) url_alphabet zero) = Some i.
Proof.
  apply (below_check (λ i, b64_val url_alphabet (nth (Z.to_nat i) url_alphabet zero) = Some i) 64).
  by vm_compute.
Qed.

Lemma b64_char_val v k : (0 <= k)%Z →
  b64_val url_alphabet (b64_char url_alphabet v k) = Some ((v / 2 ^ k) `mod` 64)%Z.
Proof.
  intros Hk. unfold b64_char. rewrite land_63, Z.shiftr_div_pow2 by done.
  apply url_alphabet_val. apply Z.mod_pos_bound. lia.
Qed.

(** The words that the groups of one to three bytes make. *)
Lemma group_word a b c : is_u8 a → is_u8 b → is_u8 c →
  Z.shiftl a 16 = (a * 65536)%Z ∧ Z.lor (Z.shiftl a 16) (Z.shiftl b 8) = (a * 65536 + b * 256)%Z ∧
  Z.lor (Z.lor (Z.shiftl a 16) (Z.shiftl b 8)) c = (a * 65536 + b * 256 + c)%Z.
Proof.
  unfold is_u8. change (2 ^ 8)%Z with 256%Z. intros Ha Hb Hc.
  assert (E2 : Z.lor (Z.shiftl a 16) (Z.shiftl b 8) = (a * 65536 + b * 256)%Z).
  { rewrite (Z.shiftl_mul_pow2 b 8) by lia. change (2 ^ 8)%Z with 256%Z.
    rewrite lor_shiftl_add by lia. change (2 ^ 16)%Z with 65536%Z. lia. }
  split; [by rewrite Z.shiftl_mul_pow2 by lia|]. split; [exact E2|]. rewrite E2.
  replace (a * 65536 + b * 256)%Z with (Z.shiftl (a * 256 + b) 8)
    by (rewrite Z.shiftl_mul_pow2 by lia; change (2 ^ 8)%Z with 256%Z; lia).
  rewrite lor_shiftl_add by lia. rewrite Z.shiftl_mul_pow2 by lia. done.
Qed.

Lemma b64_roundtrip l :
  Forall is_u8 l → b64_decode url_alphabet (b64_encode url_alphabet false l) = Some l.
Proof.
  induction (Nat.lt_wf_0_projected length l) as [l _ IH]. intros Hl.
  assert (Hz : is_u8 0) by done. pose proof (λ a b c, group_word a b c) as Hg. unfold is_u8 in *.
  change (2 ^ 8)%Z with 256%Z in *.
  destruct l as [|a [|b [|c l]]]; [done| | |]; cbn [b64_encode app];
    repeat match goal with H : Forall _ (_ :: _) |- _ => apply Forall_cons in H as [? H] end.
  - destruct (Hg a 0 0)%Z as (E & _ & _); [done..|]. rewrite E. cbn [b64_decode].
    rewrite !b64_char_val by lia. cbn [mbind option_bind]. rewrite Z.shiftr_div_pow2 by lia.
    do 2 f_equal. change (2 ^ 18)%Z with 262144%Z. change (2 ^ 12)%Z with 4096%Z. change (2 ^ 4)%Z with 16%Z.
    Z.div_mod_to_equations. lia.
  - destruct (Hg a b 0)%Z as (_ & E & _); [done..|]. rewrite E. cbn [b64_decode].
    rewrite !b64_char_val by lia. cbn [mbind option_bind]. rewrite land_255, !Z.shiftr_div_pow2 by lia.
    change (2 ^ 18)%Z with 262144%Z. change (2 ^ 12)%Z with 4096%Z. change (2 ^ 6)%Z with 64%Z.
    change (2 ^ 2)%Z with 4%Z. change (2 ^ 8)%Z with 256%Z.
    f_equal. apply (f_equal2 cons); [|apply (f_equal2 cons); [|done]]; Z.div_mod_to_equations; lia.
  - destruct (Hg a b c) as (_ & _ & E); [done..|]. rewrite E. cbn [b64_decode].
    rewrite !b64_char_val by lia. cbn [mbind option_bind]. rewrite IH by (simpl; lia || done).
    rewrite !land_255, !Z.shiftr_div_pow2 by lia.
    change (2 ^ 18)%Z with 262144%Z. change (2 ^ 12)%Z with 4096%Z. change (2 ^ 6)%Z with 64%Z.
    change (2 ^ 0)%Z with 1%Z. change (2 ^ 16)%Z with 65536%Z. change (2 ^ 8)%Z with 256%Z.
    cbn [mbind option_bind]. f_equal. apply (f_equal2 cons); [|apply (f_equal2 cons); [|apply (f_equal2 cons); [|done]]];
      Z.div_mod_to_equations; lia.
Qed.

(** An escaped ASCII byte is read back. *)
Lemma json_ascii_read c rest :
  (byte_of c < 128)%Z → unquote (json_ascii c ++ rest) = '(a, b) ← unquote rest; Some (c :: a, b).
Proof.
  intros Hc. pose proof (byte_of_range c) as Hr. unfold json_ascii.
  case_decide as H1.
  { destruct H1 as [-> | ->]; [|reflexivity]. reflexivity. }
  assert (Hcode : ∀ n, byte_of c = n → c = char_of n) by (intros n <-; by rewrite char_of_byte).
  do 5 (case_decide; [match goal with H : byte_of c = _ |- _ => apply Hcode in H as ->; reflexivity end|]).
  case_decide as H7.
  - destruct (nibbles _ Hr) as (Ha & Hb & E). pose proof (hex_digit_val _ Ha) as Ea. pose proof (hex_digit_val _ Hb) as Eb.
    unfold u_escape. cbn [app unquote]. rewrite decide_False by done. rewrite decide_True by done.
    rewrite Ea, Eb. cbn [mbind option_bind]. rewrite E, char_of_byte. done.
  - cbn [app unquote]. rewrite decide_False by tauto. rewrite decide_False by tauto. done.
Qed.

Lemma json_roundtrip s rest :
  Forall (λ c, byte_of c < 128)%Z s → unquote (json_chars 0 s ++ quote :: rest) = Some (s, rest).
Proof.
  induction 1 as [|c s Hc _ IH]; [done|]. cbn [json_chars]. rewrite decide_True by done.
  rewrite <- (assoc_L app), json_ascii_read by done. by rewrite IH.
Qed.

End Encodings.
