(* ===== verification/AwgClient.v ===== *)
(** * Client configurations (pkg/transport/awg/utils.go, config.go)

    The keys of a client and the connection string the node hands out: the INI
    text, the JSON document with the configuration nested in it as a string, and
    the compressed, length-prefixed, base64 [vpn://] link.  X25519 and the zlib
    format are interfaces with their documented contracts. *)
From S2P Require Import Prelude NetUtils Repos Model Encodings.
Import Encodings.

Open Scope go_scope.

(** The public key of a private key (X25519 with the base point). *)
Class Curve := { X25519_base : list Z → gores (list Z) }.

(** X25519 clamps its scalar (RFC 7748, section 5) and yields 32 bytes. *)
Definition clamp (k : list Z) : list Z :=
  match k with
  | [] => []
  | b :: rest => Z.land b 248 :: alter (λ x, Z.lor (Z.land x 127) 64) 30 rest
  end.
Class CurveLaws `{Curve} := {
  X25519_clamp k : length k = 32%nat → X25519_base (clamp k) = X25519_base k;
  X25519_bytes k b : X25519_base k = Ok b → Forall is_u8 b }.

Class Zlib := { deflate : list Z → list Z; inflate : list Z → option (list Z) }.
Class ZlibLaws `{Zlib} := {
  inflate_deflate l : Forall is_u8 l → inflate (deflate l) = Some l;
  deflate_bytes l : Forall is_u8 l → Forall is_u8 (deflate l) }.

Module AwgClient.

(** ** Configuration *)

Record TransportConfig := mkConfig {
  MTU : Z; ListenPort : Z; PrivateKey : string; WatchdogInterval : Z;
  cH1 : string; cH2 : string; cH3 : string; cH4 : string;
  cJc : Z; cJMin : Z; cJMax : Z; cS1 : Z; cS2 : Z; cS3 : Z; cS4 : Z }.

Record ClientParams := mkParams {
  EndpointName : string; ServerAddr : string; ServerPort : Z; ServerPubKey : string;
  ServerPSK : string; ClientPrivKey : string; ClientPubKey : string; ClientIP : string;
  DNSServer1 : string; DNSServer2 : string;
  H1 : string; H2 : string; H3 : string; H4 : string;
  I1 : string; I2 : string; I3 : string; I4 : string; I5 : string;
  Jc : string; Jmin : string; Jmax : string;
  S1 : string; S2 : string; S3 : string; S4 : string }.

(** ** Keys *)

Section Keys.
Context `{CV : Curve}.

Definition getServerPubKey (privKeyHex : string) : gores string :=
  let '(privBytes, ok) := DecodeString privKeyHex in
  if negb ok then Err "invalid hex private key" else
  if decide (length privBytes ≠ 32%nat) then Err "private key must be 32 bytes" else
  pubBytes <- X25519_base privBytes;; Ok (EncodeToString pubBytes).

(** [random]: the 32 bytes of [crypto/rand], or its failure. *)
Definition generateKeyPair (random : gores (list Z)) : gores (string * string) :=
  privBytes <- random;;
  pubBytes <- X25519_base privBytes;;
  Ok (EncodeToString (clamp privBytes), EncodeToString pubBytes).

Definition GeneratePeerKeys (random : gores (list Z)) (peer : Model.Peer) : gores Model.Peer :=
  kp <- generateKeyPair random;; Ok (Model.set_keys peer kp.1 kp.2).

End Keys.

(** ** The documents *)

Definition hexToBase64 (h : string) : string := std_base64 (DecodeString h).1.

Definition nl : string := String "010"%char "".

Definition ini_line (name value : string) : string := name +:+ " = " +:+ value +:+ nl.

Definition buildINIString (p : ClientParams) : string :=
  "[Interface]" +:+ nl +:+
  ini_line "Address" (ClientIP p) +:+
  ini_line "DNS" (DNSServer1 p) +:+
  ini_line "PrivateKey" (ClientPrivKey p) +:+
  ini_line "Jc" (Jc p) +:+ ini_line "Jmin" (Jmin p) +:+ ini_line "Jmax" (Jmax p) +:+
  ini_line "S1" (S1 p) +:+ ini_line "S2" (S2 p) +:+ ini_line "S3" (S3 p) +:+ ini_line "S4" (S4 p) +:+
  ini_line "H1" (H1 p) +:+ ini_line "H2" (H2 p) +:+ ini_line "H3" (H3 p) +:+ ini_line "H4" (H4 p) +:+
  ini_line "I1" (I1 p) +:+ ini_line "I2" (I2 p) +:+ ini_line "I3" (I3 p) +:+ ini_line "I4" (I4 p) +:+
  ini_line "I5" (I5 p) +:+
  nl +:+ "[Peer]" +:+ nl +:+
  ini_line "PublicKey" (ServerPubKey p) +:+
  ini_line "PresharedKey" (ServerPSK p) +:+
  "AllowedIPs = 0.0.0.0/0, ::/0" +:+ nl +:+
  ini_line "Endpoint" (ServerAddr p +:+ ":" +:+ pretty (ServerPort p)) +:+
  "PersistentKeepalive = 25" +:+ nl.

(** [strings.Replace(s, old, "", 1)] for [old] = "/32". *)
Fixpoint drop_32 (s : list ascii) : list ascii :=
  match s with
  | [] => []
  | c :: rest => if decide (take 3 s = ["/"; "3"; "2"]%char) then drop 3 s else c :: drop_32 rest
  end.

(** [lastConfigInner], marshalled in the order of its fields. *)
Definition lastConfigInner (p : ClientParams) (clientId : string) : string :=
  json_object ([
    ("H1", json_string (H1 p)); ("H2", json_string (H2 p)); ("H3", json_string (H3 p)); ("H4", json_string (H4 p));
    ("I1", json_string ""); ("I2", json_string ""); ("I3", json_string ""); ("I4", json_string "");
    ("I5", json_string "");
    ("Jc", json_string (Jc p)); ("Jmin", json_string (Jmin p)); ("Jmax", json_string (Jmax p));
    ("S1", json_string (S1 p)); ("S2", json_string (S2 p)); ("S3", json_string (S3 p)); ("S4", json_string (S4 p));
    ("allowed_ips", json_list [json_string "0.0.0.0/0"; json_string "::/0"]);
    ("clientId", json_string clientId);
    ("client_ip", json_string (text (drop_32 (chars (ClientIP p)))));
    ("client_priv_key", json_string (hexToBase64 (ClientPrivKey p)));
    ("client_pub_key", json_string (hexToBase64 (ClientPubKey p)));
    ("config", json_string (buildINIString p));
    ("hostName", json_string (ServerAddr p));
    ("mtu", json_string "1280");
    ("persistent_keep_alive", json_string "25");
    ("port", pretty (ServerPort p))]%string ++
    (if decide (ServerPSK p = "") then [] else [("psk_key"%string, json_string (ServerPSK p))]) ++
    [("server_pub_key"%string, json_string (hexToBase64 (ServerPubKey p)))]).

Definition awgConfig (p : ClientParams) (last_config subnet : string) : string :=
  json_object [
    ("H1", json_string (H1 p)); ("H2", json_string (H2 p)); ("H3", json_string (H3 p)); ("H4", json_string (H4 p));
    ("I1", json_string (I1 p)); ("I2", json_string (I2 p)); ("I3", json_string (I3 p)); ("I4", json_string (I4 p));
    ("I5", json_string (I5 p));
    ("Jc", json_string (Jc p)); ("Jmax", json_string (Jmax p)); ("Jmin", json_string (Jmin p));
    ("S1", json_string (S1 p)); ("S2", json_string (S2 p)); ("S3", json_string (S3 p)); ("S4", json_string (S4 p));
    ("last_config", json_string last_config);
    ("port", json_string (pretty (ServerPort p)));
    ("protocol_version", json_string "2");
    ("subnet_address", json_string subnet);
    ("transport_proto", json_string "udp")]%string.

Definition rootConfig (p : ClientParams) (awg : string) : string :=
  json_object [
    ("containers", json_list [json_object [("container", json_string "amnezia-awg2"); ("awg", awg)]]);
    ("defaultContainer", json_string "amnezia-awg2");
    ("description", json_string (EndpointName p));
    ("dns1", json_string (DNSServer1 p));
    ("dns2", json_string (DNSServer2 p));
    ("hostName", json_string (ServerAddr p))]%string.

Section URI.
Context `{ZL : Zlib}.
(** [parse6] and [print6]: the textual form of IPv6 addresses. *)
Context (parse6 : list ascii → option (list Z)) (print6 : list Z → string).

(** [IP.String] *)
Definition IP_String (ip : list Z) : string :=
  match NetUtils.To4 ip with
  | [b0; b1; b2; b3] => NetUtils.ip4_string b0 b1 b2 b3
  | _ => print6 ip
  end.

(** The JSON document; [uuid] is the random client id. *)
Definition root_json (p : ClientParams) (uuid : string) : gores string :=
  x <- NetUtils.ParseCIDR parse6 (ClientIP p);;
  Ok (rootConfig p (awgConfig p (lastConfigInner p (std_base64 (bytes uuid)))
                      (IP_String (NetUtils.NetIP x.2)))).

Definition pack (doc : list Z) : string :=
  let size := golen doc in
  let header := [u8 (Z.shiftr size 24); u8 (Z.shiftr size 16); u8 (Z.shiftr size 8); u8 size] in
  "vpn://" +:+ raw_url_base64 (header ++ deflate doc).

Definition generateURI (p : ClientParams) (uuid : string) : gores string :=
  doc <- root_json p uuid;; Ok (pack (bytes doc)).

(** The parameters of a client of this node. *)
Definition client_params (cfg : TransportConfig) (publicKey : string) (peer : Model.Peer)
    (addr name : string) : ClientParams :=
  mkParams name addr (ListenPort cfg) publicKey "" (Model.AwgPrivateKey peer) ""
    (NetUtils.Uint32ToIPString (Model.VirtualIP peer) +:+ "/32") "8.8.8.8" "1.1.1.1"
    (cH1 cfg) (cH2 cfg) (cH3 cfg) (cH4 cfg) "" "" "" "" ""
    (pretty (cJc cfg)) (pretty (cJMin cfg)) (pretty (cJMax cfg))
    (pretty (cS1 cfg)) (pretty (cS2 cfg)) (pretty (cS3 cfg)) (pretty (cS4 cfg)).

Definition GenerateClientConnectionString (cfg : TransportConfig) (publicKey : string)
    (peer : Model.Peer) (addr name uuid : string) : gores string :=
  generateURI (client_params cfg publicKey peer addr name) uuid.

End URI.

(** ** Specification *)

(** What the client does with a link: the declared size and the document. *)
Definition read_link `{Zlib} (s : string) : option (Z * list Z) :=
  match chars s with
  | "v"%char :: "p"%char :: "n"%char :: ":"%char :: "/"%char :: "/"%char :: rest =>
      l ← b64_decode url_alphabet rest;
      match be32 l with
      | Ok n => d ← inflate (drop 4 l); Some (n, d)
      | _ => None
      end
  | _ => None
  end.

(** Text in ASCII. *)
Definition ascii_text (s : string) : Prop := Forall (λ c, byte_of c < 128)%Z (chars s).

Definition ascii_params (p : ClientParams) : Prop :=
  Forall ascii_text [EndpointName p; ServerAddr p; ServerPubKey p; ServerPSK p; ClientPrivKey p; ClientPubKey p;
    ClientIP p; DNSServer1 p; DNSServer2 p; H1 p; H2 p; H3 p; H4 p; I1 p; I2 p; I3 p; I4 p; I5 p;
    Jc p; Jmin p; Jmax p; S1 p; S2 p; S3 p; S4 p].

(** ** The document of a client

    What a link has to say, from the node's configuration and the client's row. *)
Section Document.
Context (cfg : TransportConfig) (publicKey : string) (peer : Model.Peer) (addr name uuid : string).

Definition client_address : string := NetUtils.Uint32ToIPString (Model.VirtualIP peer).
(** A key, from hexadecimal to base64. *)
Definition key_base64 (hex : string) : string := std_base64 (DecodeString hex).1.

Definition client_ini : string :=
  let line (key value : string) := key +:+ " = " +:+ value +:+ nl in
  "[Interface]" +:+ nl +:+ line "Address" (client_address +:+ "/32") +:+ line "DNS" "8.8.8.8" +:+
  line "PrivateKey" (Model.AwgPrivateKey peer) +:+
  line "Jc" (pretty (cJc cfg)) +:+ line "Jmin" (pretty (cJMin cfg)) +:+ line "Jmax" (pretty (cJMax cfg)) +:+
  line "S1" (pretty (cS1 cfg)) +:+ line "S2" (pretty (cS2 cfg)) +:+ line "S3" (pretty (cS3 cfg)) +:+ line "S4" (pretty (cS4 cfg)) +:+
  line "H1" (cH1 cfg) +:+ line "H2" (cH2 cfg) +:+ line "H3" (cH3 cfg) +:+ line "H4" (cH4 cfg) +:+
  line "I1" "" +:+ line "I2" "" +:+ line "I3" "" +:+ line "I4" "" +:+ line "I5" "" +:+
  nl +:+ "[Peer]" +:+ nl +:+ line "PublicKey" publicKey +:+ line "PresharedKey" "" +:+
  "AllowedIPs = 0.0.0.0/0, ::/0" +:+ nl +:+ line "Endpoint" (addr +:+ ":" +:+ pretty (ListenPort cfg)) +:+
  "PersistentKeepalive = 25" +:+ nl.

(** The obfuscation parameters that both documents have. *)
Definition client_headers : list (string * string) :=
  [("H1", json_string (cH1 cfg)); ("H2", json_string (cH2 cfg)); ("H3", json_string (cH3 cfg)); ("H4", json_string (cH4 cfg));
   ("I1", json_string ""); ("I2", json_string ""); ("I3", json_string ""); ("I4", json_string ""); ("I5", json_string "")]%string.
Definition client_padding : list (string * string) :=
  [("S1", json_string (pretty (cS1 cfg))); ("S2", json_string (pretty (cS2 cfg)));
   ("S3", json_string (pretty (cS3 cfg))); ("S4", json_string (pretty (cS4 cfg)))]%string.

(** The nested document: the keys, the address, the server and the INI text. *)
Definition client_settings : string :=
  json_object (client_headers ++
    [("Jc", json_string (pretty (cJc cfg))); ("Jmin", json_string (pretty (cJMin cfg)));
     ("Jmax", json_string (pretty (cJMax cfg)))]%string ++ client_padding ++
    [("allowed_ips", json_list [json_string "0.0.0.0/0"; json_string "::/0"]);
     ("clientId", json_string (std_base64 (bytes uuid)));
     ("client_ip", json_string client_address);
     ("client_priv_key", json_string (key_base64 (Model.AwgPrivateKey peer)));
     ("client_pub_key", json_string "");
     ("config", json_string client_ini);
     ("hostName", json_string addr);
     ("mtu", json_string "1280");
     ("persistent_keep_alive", json_string "25");
     ("port", pretty (ListenPort cfg));
     ("server_pub_key", json_string (key_base64 publicKey))]%string).

Definition client_document : string :=
  let awg := json_object (client_headers ++
    [("Jc", json_string (pretty (cJc cfg))); ("Jmax", json_string (pretty (cJMax cfg)));
     ("Jmin", json_string (pretty (cJMin cfg)))]%string ++ client_padding ++
    [("last_config", json_string client_settings);
     ("port", json_string (pretty (ListenPort cfg)));
     ("protocol_version", json_string "2");
     ("subnet_address", json_string client_address);
     ("transport_proto", json_string "udp")]%string) in
  json_object [
    ("containers", json_list [json_object [("container", json_string "amnezia-awg2"); ("awg", awg)]]);
    ("defaultContainer", json_string "amnezia-awg2");
    ("description", json_string name);
    ("dns1", json_string "8.8.8.8");
    ("dns2", json_string "1.1.1.1");
    ("hostName", json_string addr)]%string.

(** The settings are in ASCII. *)
Definition ascii_settings : Prop :=
  Forall ascii_text [cH1 cfg; cH2 cfg; cH3 cfg; cH4 cfg; publicKey; Model.AwgPrivateKey peer; addr; name].

End Document.

(** A field of a JSON text: after the key, the value that the reader of strings
    finds is [v]. *)
Definition has_string_field (doc key v : string) : Prop :=
  ∃ pre t rest, chars doc = pre ++ chars (json_string key) ++ ":"%char :: quote :: t ∧
    unquote t = Some (chars v, rest).

(** ** Lemmas *)

Lemma chars_append s t : chars (s +:+ t) = chars s ++ chars t.
Proof. induction s as [|c s IH]; [done|]. simpl. by rewrite IH. Qed.

Lemma ascii_app s t : ascii_text s → ascii_text t → ascii_text (s +:+ t).
Proof. intros Hs Ht. unfold ascii_text. rewrite chars_append, Forall_app. by split. Qed.

Lemma ascii_digit n : ascii_text (String (pretty_N_char n) "").
Proof.
  unfold ascii_text. simpl. constructor; [|constructor]. unfold pretty_N_char.
  repeat case_match; by vm_compute.
Qed.

Lemma ascii_pretty_go x s : ascii_text s → ascii_text (pretty_N_go x s).
Proof.
  induction (N.lt_wf_0 x) as [x _ IH] in s |- *; intros Hs.
  destruct (decide (x = 0)%N) as [->|Hx]; [by rewrite pretty_N_go_0|].
  rewrite pretty_N_go_step by lia. apply IH; [apply N.div_lt; lia|].
  pose proof (ascii_digit (x `mod` 10)%N) as Hd. unfold ascii_text in *. simpl in *.
  apply Forall_cons in Hd as [Hd _]. by constructor.
Qed.

Lemma ascii_pretty (z : Z) : ascii_text (pretty z).
Proof.
  assert (Hp : ∀ n : N, ascii_text (pretty n)).
  { intros n. unfold pretty, pretty_N. case_decide; [constructor; [by vm_compute|constructor]|].
    apply ascii_pretty_go. constructor. }
  unfold pretty, pretty_Z. destruct z; [constructor; [by vm_compute|constructor]|apply Hp|].
  apply (ascii_app "-"); [constructor; [by vm_compute|constructor]|apply Hp].
Qed.

Lemma ascii_table al n : Forall (λ c, byte_of c < 128)%Z al → (byte_of (nth n al zero) < 128)%Z.
Proof.
  intros Ha. destruct (nth_in_or_default n al zero) as [Hin| ->]; [|by vm_compute].
  rewrite Forall_forall in Ha. apply Ha. by apply list_elem_of_In.
Qed.

Lemma ascii_b64 al pad l :
  Forall (λ c, byte_of c < 128)%Z al → Forall (λ c, byte_of c < 128)%Z (b64_encode al pad l).
Proof.
  intros Ha. induction (Nat.lt_wf_0_projected length l) as [l _ IH].
  assert (He : (byte_of "=" < 128)%Z) by done.
  destruct l as [|a [|b [|c l]]]; cbn [b64_encode]; [constructor| | |];
    try (destruct pad; repeat constructor; try done; by apply ascii_table).
  repeat (constructor; [by apply ascii_table|]). apply IH. simpl. lia.
Qed.

Lemma ascii_std l : ascii_text (std_base64 l).
Proof.
  unfold ascii_text, std_base64. rewrite chars_text. apply ascii_b64.
  apply (bool_decide_eq_true_1 (Forall _ std_alphabet)). by vm_compute.
Qed.

Lemma ascii_json s : ascii_text s → ascii_text (json_string s).
Proof.
  unfold ascii_text, json_string. rewrite chars_text. intros Hs.
  assert (Hh : ∀ n, (byte_of (hex_digit n) < 128)%Z).
  { intros n. apply ascii_table. apply (bool_decide_eq_true_1 (Forall _ hextable)). by vm_compute. }
  constructor; [done|]. rewrite Forall_app. split; [|by repeat constructor].
  induction Hs as [|c s0 Hc _ IH]; [constructor|]. cbn [json_chars]. rewrite decide_True by done.
  rewrite Forall_app. split; [|done]. unfold json_ascii. repeat case_decide; repeat constructor; done.
Qed.

Lemma ascii_concat l : Forall ascii_text l → ascii_text (String.concat "," l).
Proof.
  assert (Hc : ascii_text ",") by (by repeat constructor).
  induction 1 as [|s l Hs Hl IH]; [constructor|]. destruct l; [done|].
  change (ascii_text (s +:+ "," +:+ String.concat "," (s0 :: l))). repeat apply ascii_app; done.
Qed.

Lemma ascii_list l : Forall ascii_text l → ascii_text (json_list l).
Proof. intros Hl. repeat apply ascii_app; [by repeat constructor|by apply ascii_concat|by repeat constructor]. Qed.

Lemma ascii_object l :
  Forall (λ kv, ascii_text kv.1 ∧ ascii_text kv.2) l → ascii_text (json_object l).
Proof.
  intros Hl. repeat apply ascii_app; [by repeat constructor| |by repeat constructor].
  apply ascii_concat. rewrite Forall_fmap. eapply Forall_impl; [exact Hl|]. intros [k v] [Hk Hv]. simpl in *.
  repeat apply ascii_app; [by apply ascii_json|by repeat constructor|done].
Qed.

(** [s] occurs in [doc]. *)
Definition occurs (s doc : string) : Prop := ∃ pre post, chars doc = pre ++ chars s ++ post.

Lemma occurs_refl s : occurs s s.
Proof. exists [], []. by rewrite app_nil_r. Qed.
Lemma occurs_trans s t u : occurs s t → occurs t u → occurs s u.
Proof.
  intros (p & q & E) (p' & q' & E'). exists (p' ++ p), (q ++ q'). rewrite E', E. by rewrite <- !(assoc_L app).
Qed.
Lemma occurs_l s t u : occurs s t → occurs s (t +:+ u).
Proof. intros (p & q & E). exists p, (q ++ chars u). rewrite chars_append, E. by rewrite <- !(assoc_L app). Qed.
Lemma occurs_r s t u : occurs s u → occurs s (t +:+ u).
Proof. intros (p & q & E). exists (chars t ++ p), q. rewrite chars_append, E. by rewrite <- !(assoc_L app). Qed.

Lemma occurs_concat s l : s ∈ l → occurs s (String.concat "," l).
Proof.
  induction l as [|t l IH]; [by intros ?%not_elem_of_nil|]. intros [->|Hs]%elem_of_cons.
  - destruct l; [apply occurs_refl|]. change (occurs t (t +:+ "," +:+ String.concat "," (s :: l))).
    apply occurs_l, occurs_refl.
  - destruct l as [|t' l]; [by apply not_elem_of_nil in Hs|].
    change (occurs s (t +:+ "," +:+ String.concat "," (t' :: l))). by apply occurs_r, occurs_r, IH.
Qed.

Lemma occurs_list s l : s ∈ l → occurs s (json_list l).
Proof. intros Hs. apply occurs_r, occurs_l. by apply occurs_concat. Qed.

Lemma occurs_member k v l : (k, v) ∈ l → occurs (json_string k +:+ ":" +:+ v) (json_object l).
Proof.
  intros Hs. apply occurs_r, occurs_l, occurs_concat.
  apply list_elem_of_fmap. by exists (k, v).
Qed.

Lemma occurs_value k v l : (k, v) ∈ l → occurs v (json_object l).
Proof.
  intros Hs. eapply occurs_trans; [|by apply (occurs_member k v)]. apply occurs_r, occurs_r, occurs_refl.
Qed.

Lemma field_of_occurrence doc k v :
  ascii_text v → occurs (json_string k +:+ ":" +:+ json_string v) doc → has_string_field doc k v.
Proof.
  intros Hv (pre & post & E). rewrite !chars_append in E. unfold json_string at 2 in E. rewrite chars_text in E.
  exists pre, (json_chars 0 (chars v) ++ quote :: post), post. split.
  - rewrite E. simpl. rewrite <- !(assoc_L app). simpl. by rewrite <- !(assoc_L app).
  - by apply json_roundtrip.
Qed.

(** Configurations in ASCII give documents in ASCII. *)
Ltac ascii :=
  repeat first
    [ done | apply ascii_pretty | apply ascii_std | apply ascii_json | apply ascii_object | apply ascii_list
    | apply ascii_app | apply Forall_app; split | apply Forall_cons; split | apply Forall_nil
    | match goal with |- _ ∧ _ => split | |- ascii_text (String _ _) => by repeat constructor end ].

Lemma ascii_ini p : ascii_params p → ascii_text (buildINIString p).
Proof.
  unfold ascii_params. rewrite !Forall_cons. intros H. destruct_and! H.
  unfold buildINIString, ini_line, nl. ascii.
Qed.

Lemma ascii_drop_32 l : Forall (λ c, byte_of c < 128)%Z l → Forall (λ c, byte_of c < 128)%Z (drop_32 l).
Proof.
  induction 1 as [|c l Hc Hl IH]; [constructor|]. cbn [drop_32]. case_decide; [|by constructor].
  apply Forall_drop. by constructor.
Qed.

Lemma ascii_inner p id : ascii_params p → ascii_text id → ascii_text (lastConfigInner p id).
Proof.
  intros Hp Hid. pose proof (ascii_ini p Hp) as Hini. unfold ascii_params in Hp.
  rewrite !Forall_cons in Hp. destruct_and! Hp.
  assert (Hip : ascii_text (text (drop_32 (chars (ClientIP p))))).
  { unfold ascii_text. rewrite chars_text. by apply ascii_drop_32. }
  unfold lastConfigInner, hexToBase64. case_decide; ascii.
Qed.

Lemma bytes_u8 s : Forall is_u8 (bytes s).
Proof. unfold bytes. rewrite Forall_fmap. apply Forall_true. intros c. apply byte_of_range. Qed.

Lemma size_header n l : is_u32 n →
  be32 (([u8 (Z.shiftr n 24); u8 (Z.shiftr n 16); u8 (Z.shiftr n 8); u8 n] : list Z) ++ l) = Ok n.
Proof. apply (put32_be32 n l). Qed.

Lemma read_link_pack `{ZlibLaws} doc :
  Forall is_u8 doc → is_u32 (golen doc) → read_link (pack doc) = Some (golen doc, doc).
Proof.
  intros Hd Hn. unfold read_link, pack. rewrite chars_append. cbn [chars app].
  unfold raw_url_base64. rewrite chars_text, b64_roundtrip.
  - cbn [mbind option_bind]. pose proof (size_header _ (deflate doc) Hn) as E. cbn [app] in E |- *.
    rewrite E. cbn [skipn]. by rewrite drop_0, inflate_deflate.
  - repeat (constructor; [apply u8_range|]). by apply deflate_bytes.
Qed.

(** The client's address is a prefix of length 32, whose network is the address. *)
Lemma ParseCIDR_host parse6 ip : is_u32 ip →
  ∃ a m, NetUtils.ParseCIDR parse6 (NetUtils.Uint32ToIPString ip +:+ "/32") = Ok (a, NetUtils.mkIPNet (put32 ip) m).
Proof.
  intros Hip. unfold NetUtils.Uint32ToIPString.
  destruct (NetUtils.put32_bytes ip) as (b0 & b1 & b2 & b3 & E & R0 & R1 & R2 & R3). rewrite E.
  pose proof (NetUtils.ParseCIDR_string parse6 b0 b1 b2 b3 32 R0 R1 R2 R3 ltac:(lia)) as Hp.
  change (pretty (Z.of_nat 32)) with "32"%string in Hp.
  change ("/" +:+ "32") with "/32"%string in Hp. rewrite Hp.
  eexists _, _. f_equal. f_equal. f_equal. cbn [zip_with NetUtils.CIDRMask Nat.div].
  change (NetUtils.CIDRMask 32 32) with [255; 255; 255; 255]%Z. simpl.
  rewrite !land_255. unfold is_u8 in *. change (2 ^ 8)%Z with 256%Z in *.
  by rewrite !Z.mod_small.
Qed.

(** ** Theorems *)

(** The address without its prefix length. *)
Lemma drop_32_suffix l : "/"%char ∉ l → drop_32 (l ++ ["/"; "3"; "2"]%char) = l.
Proof.
  induction l as [|c l IH]; intros Hl; [done|]. cbn [app drop_32]. rewrite decide_False.
  - f_equal. apply IH. intros Hin. apply Hl. by right.
  - intros E. injection E as -> _. apply Hl. by left.
Qed.

Lemma address_text ip : is_u32 ip → "/"%char ∉ chars (NetUtils.Uint32ToIPString ip) ∧ ascii_text (NetUtils.Uint32ToIPString ip).
Proof.
  intros Hip. unfold NetUtils.Uint32ToIPString.
  destruct (NetUtils.put32_bytes ip) as (b0 & b1 & b2 & b3 & -> & R0 & R1 & R2 & R3). split.
  - unfold NetUtils.ip4_string. rewrite !chars_append, !elem_of_app. intros Hin. simpl in Hin.
    destruct Hin as [Hin|[Hin|[Hin|[Hin|[Hin|[Hin|Hin]]]]]];
      try (eapply NetUtils.chars_no_slash; [|exact Hin]; by apply NetUtils.octet_facts); set_solver.
  - unfold NetUtils.ip4_string. ascii.
Qed.

(** The code's documents are those of the specification: field by field, without
    looking into the texts. *)
Ltac same_fields :=
  cbv beta zeta delta [client_settings client_headers client_padding client_ini client_address key_base64
    buildINIString ini_line hexToBase64 client_params];
  cbn [app EndpointName ServerAddr ServerPort ServerPubKey ServerPSK ClientPrivKey ClientPubKey ClientIP DNSServer1 DNSServer2
    H1 H2 H3 H4 I1 I2 I3 I4 I5 Jc Jmin Jmax S1 S2 S3 S4];
  change (std_base64 (DecodeString "").1) with ""%string;
  generalize json_object json_list json_string std_base64 (pretty (A := Z)) String.append NetUtils.Uint32ToIPString DecodeString; reflexivity.

Lemma inner_document cfg publicKey peer addr name uuid : is_u32 (Model.VirtualIP peer) →
  lastConfigInner (client_params cfg publicKey peer addr name) (std_base64 (bytes uuid)) = client_settings cfg publicKey peer addr uuid.
Proof.
  intros Hip. unfold lastConfigInner. rewrite decide_True by done.
  assert (E : text (drop_32 (chars (ClientIP (client_params cfg publicKey peer addr name)))) = client_address peer).
  { change (ClientIP _) with (client_address peer +:+ "/32"). rewrite chars_append. rewrite drop_32_suffix by by apply address_text.
    apply String.string_of_list_ascii_of_string. }
  rewrite E. same_fields.
Qed.

Lemma ascii_client cfg publicKey peer addr name :
  is_u32 (Model.VirtualIP peer) → ascii_settings cfg publicKey peer addr name → ascii_params (client_params cfg publicKey peer addr name).
Proof.
  intros Hip H. unfold ascii_settings in H. rewrite !Forall_cons in H. destruct_and! H.
  unfold ascii_params. cbn [client_params EndpointName ServerAddr ServerPubKey ServerPSK ClientPrivKey ClientPubKey ClientIP
    DNSServer1 DNSServer2 H1 H2 H3 H4 I1 I2 I3 I4 I5 Jc Jmin Jmax S1 S2 S3 S4].
  pose proof (proj2 (address_text _ Hip)). ascii.
Qed.

(** C36: the link carries the configuration.  For a client with a 32-bit address
    and settings in ASCII the node produces a link (it never fails), and what the
    client reads from it is the JSON document [client_document], with its exact
    size, in which the field [last_config] reads back as the nested document
    [client_settings]: the client's address and private key, the server's key,
    address and port, the obfuscation parameters, each under its own name, and the
    INI text.  ([client_pub_key] is there, but always empty.) *)
Theorem link_carries_configuration `{ZlibLaws} parse6 print6 cfg publicKey peer addr name uuid :
  is_u32 (Model.VirtualIP peer) → ascii_settings cfg publicKey peer addr name →
  let doc := client_document cfg publicKey peer addr name uuid in
  is_u32 (golen (bytes doc)) →
  ∃ link, GenerateClientConnectionString parse6 print6 cfg publicKey peer addr name uuid = Ok link ∧
    read_link link = Some (golen (bytes doc), bytes doc) ∧
    has_string_field doc "last_config" (client_settings cfg publicKey peer addr uuid).
Proof.
  intros Hip Hset doc Hn. pose proof (ascii_client _ _ _ _ _ Hip Hset) as Hp. pose proof (inner_document cfg publicKey peer addr name uuid Hip) as Ei.
  set (inner := client_settings cfg publicKey peer addr uuid) in *. unfold GenerateClientConnectionString, generateURI, root_json.
  change (ClientIP _) with (NetUtils.Uint32ToIPString (Model.VirtualIP peer) +:+ "/32").
  destruct (ParseCIDR_host parse6 _ Hip) as (a & m & ->). cbn [gobind snd NetUtils.NetIP]. exists (pack (bytes doc)).
  split; [|split].
  - rewrite Ei. reflexivity.
  - apply read_link_pack; [apply bytes_u8|done].
  - apply field_of_occurrence; [rewrite <- Ei; by apply ascii_inner; [|apply ascii_std]|].
    unfold doc, client_document. fold inner. cbv zeta. set (awg := json_object (client_headers cfg ++ _)). apply (occurs_trans _ awg).
    { apply occurs_member. apply elem_of_app. right. apply elem_of_app. right. apply elem_of_app. right. by left. }
    apply (occurs_trans _ (json_object [("container", json_string "amnezia-awg2"); ("awg", awg)]%string)).
    { apply (occurs_value "awg"). right. by left. }
    apply (occurs_trans _ (json_list [json_object [("container", json_string "amnezia-awg2"); ("awg", awg)]%string])).
    { apply occurs_list. by left. }
    apply (occurs_value "containers"). by left.
Qed.

(** A link or an error. *)
Lemma connection_string_returns `{Zlib} parse6 print6 cfg publicKey peer addr name uuid :
  GenerateClientConnectionString parse6 print6 cfg publicKey peer addr name uuid ≠ Panic.
Proof.
  unfold GenerateClientConnectionString, generateURI, root_json, NetUtils.ParseCIDR.
  by repeat case_match.
Qed.

Lemma clamp_bytes k : Forall is_u8 k → Forall is_u8 (clamp k).
Proof.
  destruct k as [|b k]; [done|]. intros [Hb Hk]%Forall_cons. simpl. constructor.
  - apply NetUtils.land_u8; [done|by vm_compute].
  - apply Forall_alter; [done|]. intros x _ Hx.
    assert (Hl : is_u8 (Z.land x 127)) by (apply NetUtils.land_u8; [done|by vm_compute]).
    unfold is_u8 in *. split; [apply Z.lor_nonneg; lia|].
    destruct (decide (Z.lor (Z.land x 127) 64 = 0)%Z) as [->|Hne]; [lia|].
    assert (Hlt : (0 < Z.lor (Z.land x 127) 64)%Z) by (pose proof (Z.lor_nonneg (Z.land x 127) 64); lia).
    apply Z.log2_lt_pow2; [done|]. rewrite Z.log2_lor by lia. apply Z.max_lub_lt; [|by vm_compute].
    destruct (decide (Z.land x 127 = 0)%Z) as [->|]; [by vm_compute|]. apply Z.log2_lt_pow2; lia.
Qed.

Lemma clamp_length k : length (clamp k) = length k.
Proof. destruct k; [done|]. simpl. by rewrite length_alter. Qed.

Lemma high_bits x :
  Z.testbit (Z.lor (Z.land x 127) 64) 6 = true ∧ Z.testbit (Z.lor (Z.land x 127) 64) 7 = false.
Proof. rewrite !Z.lor_spec, !Z.land_spec. split; [by rewrite orb_true_r|]. by rewrite andb_false_r. Qed.

(** the key pairs match.  From 32 random bytes the node derives a private key
    in clamped form, and the public key that the server side computes from that
    private key is the one handed out with it. *)
Theorem key_pair_matches `{CurveLaws} random peer peer' :
  Forall is_u8 random → length random = 32%nat → GeneratePeerKeys (Ok random) peer = Ok peer' →
  getServerPubKey (Model.AwgPrivateKey peer') = Ok (Model.AwgPublicKey peer') ∧
  ∃ k, DecodeString (Model.AwgPrivateKey peer') = (k, true) ∧ length k = 32%nat ∧
    (∃ b, k !! 0%nat = Some b ∧ Z.land b 7 = 0%Z) ∧
    (∃ b, k !! 31%nat = Some b ∧ Z.testbit b 6 = true ∧ Z.testbit b 7 = false).
Proof.
  intros Hr Hl E. unfold GeneratePeerKeys, generateKeyPair in E. cbn [gobind] in E.
  destruct (X25519_base random) as [pub|e|] eqn:Ex; [|done..]. cbn [gobind] in E. injection E as <-. simpl.
  assert (Hd : DecodeString (EncodeToString (clamp random)) = (clamp random, true)).
  { unfold DecodeString, EncodeToString. rewrite chars_text. by apply hex_roundtrip, clamp_bytes. }
  split.
  - unfold getServerPubKey. rewrite Hd. simpl. rewrite decide_False by (rewrite clamp_length; lia).
    by rewrite X25519_clamp, Ex.
  - exists (clamp random). split; [done|]. split; [by rewrite clamp_length|].
    destruct random as [|b0 k]; [done|]. cbn [clamp]. split.
    + exists (Z.land b0 248). split; [done|]. by rewrite <- Z.land_assoc, Z.land_0_r.
    + destruct (lookup_lt_is_Some_2 k 30) as [x Hx]; [simpl in Hl; lia|].
      exists (Z.lor (Z.land x 127) 64). split.
      { transitivity (alter (λ x, Z.lor (Z.land x 127) 64) 30 k !! 30%nat); [done|].
        by rewrite list_lookup_alter, Hx. }
      split; [exact (proj1 (high_bits x))|exact (proj2 (high_bits x))].
Qed.

(** ** Witnesses *)

Definition demo_zlib : Zlib := {| deflate := id; inflate := Some |}.
Lemma demo_zlib_laws : @ZlibLaws demo_zlib.
Proof. constructor; done. Qed.

Definition demo_curve : Curve :=
  {| X25519_base k := Ok (replicate 32 (u8 (Z.land (hd 0%Z k) 248))) |}.
Lemma demo_curve_laws : @CurveLaws demo_curve.
Proof.
  constructor; simpl.
  - intros [|b k] _; [done|]. simpl. by rewrite <- Z.land_assoc.
  - intros k b [= <-]. repeat (constructor; [apply u8_range|]). constructor.
Qed.

Definition demo_config : TransportConfig :=
  mkConfig 1280 51820 "" 0 "1" "2" "3" "4" 3 50 1000 15 16 17 18.
Definition demo_client : Model.Peer :=
  Model.mkPeer 1 "awg" 167837698 0 None 0 0 None None "00ff" "11ee".

Lemma link_carries_configuration_witness :
  ∃ link doc, @GenerateClientConnectionString demo_zlib (λ _, None) (λ _, ""%string) demo_config "aa" demo_client
    "1.2.3.4" "n" "u" = Ok link ∧ @read_link demo_zlib link = Some (golen doc, doc) ∧ length doc = 1268%nat.
Proof.
  destruct (@link_carries_configuration demo_zlib demo_zlib_laws (λ _, None) (λ _, ""%string) demo_config "aa"
    demo_client "1.2.3.4" "n" "u") as (link & E & Er & _).
  - by vm_compute.
  - apply (bool_decide_eq_true_1 (Forall _ _)). by vm_compute.
  - by vm_compute.
  - exists link. eexists. split; [exact E|]. split; [exact Er|by vm_compute].
Defined.

Lemma key_pair_matches_witness :
  ∃ peer', @GeneratePeerKeys demo_curve (Ok (replicate 32 255%Z)) demo_client = Ok peer' ∧
    @getServerPubKey demo_curve (Model.AwgPrivateKey peer') = Ok (Model.AwgPublicKey peer').
Proof.
  eexists. split; [reflexivity|].
  apply (@key_pair_matches demo_curve demo_curve_laws (replicate 32 255%Z) demo_client).
  - apply Forall_replicate. by vm_compute.
  - reflexivity.
  - reflexivity.
Defined.

End AwgClient.
