(* ===== verification/AwgTransport.v ===== *)
(** * The AmneziaWG transport (pkg/transport/awg: transport.go, virtualtun.go, peer.go)

    The registration of clients with the VPN device, the routing table and the
    transport's own tables; the watchdog and its traffic accounting; the virtual
    TUN device that carries packets between the VPN device and the router.  The
    device of amneziawg-go is the interface [Device].

    Packets to clients are queued as slices of the buffers of the router's
    messages, so the queue holds references, and [Read] sees what the buffers
    hold when it runs.  A blocking send puts the slice at the end of the queue,
    as in Router.v. *)
From S2P Require Import Prelude DgMessage Broker NetUtils RoutingTable Router Repos Model Encodings AwgClient.
Import DgMessage Broker RoutingTable.RoutingTable AwgClient.AwgClient.

Open Scope go_scope.

(** [IpcSet cmd d]: the error of a configuration command, if any, and the device
    afterwards. *)
Class Device := {
  dev : Type;
  IpcSet : string → dev → option string * dev }.

(** The commands the transport sends about a client. *)
Definition add_command (key : string) (ip : Z) : string :=
  "public_key=" +:+ key +:+ nl +:+ "allowed_ip=" +:+ NetUtils.Uint32ToIPString ip +:+ "/32" +:+ nl.
Definition remove_command (key : string) : string :=
  "public_key=" +:+ key +:+ nl +:+ "remove=true" +:+ nl.

Definition no_newline (s : string) : Prop := "010"%char ∉ String.list_ascii_of_string s.

(** The device keeps the peers it was given, by key; a command with an error has
    no effect on them; the removal of a key is not refused. *)
Class DeviceLaws `{Device} := {
  dev_peers : dev → gmap string Z;
  dev_add key ip d : no_newline key → is_u32 ip → dev_peers d !! key = None →
    match IpcSet (add_command key ip) d with
    | (None, d') => dev_peers d' = <[key := ip]> (dev_peers d)
    | (Some _, d') => dev_peers d' = dev_peers d
    end;
  dev_remove key d : no_newline key →
    dev_peers (IpcSet (remove_command key) d).2 = delete key (dev_peers d) }.

Module AwgTransport.

(** ** Data *)

Record AWGPeer := mkAwgPeer {
  ap_nodeID : string;
  virtualIP : Z;
  pubKey : string;
  lastSeen : Z;
  expiration : option Z;
  totalToPeer : Z;
  totalFromPeer : Z }.

Definition NewAWGPeer (now : Z) (nodeID : string) (ip : Z) (pub : string) (exp : option Z) : AWGPeer :=
  mkAwgPeer nodeID ip pub now exp 0 0.

Definition set_seen (p : AWGPeer) (t : Z) : AWGPeer :=
  mkAwgPeer (ap_nodeID p) (virtualIP p) (pubKey p) t (expiration p) (totalToPeer p) (totalFromPeer p).
Definition set_counts (p : AWGPeer) (to from : Z) : AWGPeer :=
  mkAwgPeer (ap_nodeID p) (virtualIP p) (pubKey p) (lastSeen p) (expiration p) to from.

Record TransportPeerStats := mkPeerStats {
  VirtualIP : Z; StatLastSeen : Z; DeltaToPeer : Z; DeltaFromPeer : Z }.

(** A slice of a message buffer: the message and the length. *)
Notation slice := (nat * nat)%type.

Section Transport.
Context `{DV : Device}.

(** [peer_objs] holds the peer objects by identity; [peersByIP] and [tun_peers]
    map addresses to them. *)
Record AWGTransport := mkAWG {
  ctx_done : bool;
  cfg : TransportConfig;
  publicKey : string;
  nodeID : string;
  awgDevice : dev;
  in_ : list slice;
  peersByIP : gmap Z nat;
  tun_peers : gmap Z nat;
  peer_objs : gmap nat AWGPeer;
  deltaChan : list TransportPeerStats }.

Definition set_device (t : AWGTransport) d : AWGTransport :=
  mkAWG (ctx_done t) (cfg t) (publicKey t) (nodeID t) d (in_ t) (peersByIP t) (tun_peers t) (peer_objs t) (deltaChan t).
Definition set_in (t : AWGTransport) q : AWGTransport :=
  mkAWG (ctx_done t) (cfg t) (publicKey t) (nodeID t) (awgDevice t) q (peersByIP t) (tun_peers t) (peer_objs t) (deltaChan t).
Definition set_peers (t : AWGTransport) a b : AWGTransport :=
  mkAWG (ctx_done t) (cfg t) (publicKey t) (nodeID t) (awgDevice t) (in_ t) a b (peer_objs t) (deltaChan t).
Definition set_objs (t : AWGTransport) o q : AWGTransport :=
  mkAWG (ctx_done t) (cfg t) (publicKey t) (nodeID t) (awgDevice t) (in_ t) (peersByIP t) (tun_peers t) o q.
Definition set_ctx_done (t : AWGTransport) : AWGTransport :=
  mkAWG true (cfg t) (publicKey t) (nodeID t) (awgDevice t) (in_ t) (peersByIP t) (tun_peers t) (peer_objs t) (deltaChan t).

(** ** Start *)

(** The commands of [New], in order, with the message of a failure. *)
Definition new_commands (c : TransportConfig) : list (string * string) :=
  [("private_key=" +:+ PrivateKey c +:+ nl +:+ "listen_port=" +:+ pretty (ListenPort c) +:+ nl,
    "failed to set base AWG config");
   ("h1=" +:+ cH1 c +:+ nl +:+ "h2=" +:+ cH2 c +:+ nl +:+ "h3=" +:+ cH3 c +:+ nl +:+ "h4=" +:+ cH4 c +:+ nl +:+
    "s1=" +:+ pretty (cS1 c) +:+ nl +:+ "s2=" +:+ pretty (cS2 c) +:+ nl +:+
    "s3=" +:+ pretty (cS3 c) +:+ nl +:+ "s4=" +:+ pretty (cS4 c) +:+ nl,
    "failed to set AWG H[1-4] and S[1-2] obfuscation config")]%string ++
  (if decide (0 < cJc c)%Z
   then [("jc=" +:+ pretty (cJc c) +:+ nl, "failed to set AWG jc obfuscation config")]%string else []) ++
  (if decide (0 < cJMin c)%Z
   then [("jmin=" +:+ pretty (cJc c) +:+ nl, "failed to set AWG jmin obfuscation config")]%string else []) ++
  (if decide (0 < cJMax c)%Z
   then [("jmax=" +:+ pretty (cJc c) +:+ nl, "failed to set AWG jmax obfuscation config")]%string else []).

Fixpoint run_commands (l : list (string * string)) (d : dev) : gores dev :=
  match l with
  | [] => Ok d
  | (cmd, msg) :: rest =>
      match IpcSet cmd d with
      | (None, d') => run_commands rest d'
      | (Some _, _) => Err msg
      end
  end.

(** [up]: the outcome of bringing the device up. *)
Definition New `{Curve} (d : dev) (up : bool) (c : TransportConfig) (node : string) : gores AWGTransport :=
  match getServerPubKey (PrivateKey c) with
  | Panic => Panic
  | Err _ => Err "failed to get pub key"
  | Ok pub =>
      d' <- run_commands (new_commands c) d;;
      if up then Ok (mkAWG false c pub node d' [] ∅ ∅ ∅ []) else Err "failed to bring up AWG device"
  end.

(** ** Packets to clients *)

(** [writePacket]; [pick_send] is the choice of the select statement when the
    context is done and the channel has room. *)
Definition writePacket (pick_send : bool) (t : AWGTransport) (s : slice) : option string * AWGTransport :=
  if ctx_done t && negb (pick_send && bool_decide (length (in_ t) < 1000)%nat)
  then (Some "transport is closed"%string, t)
  else (None, set_in t (in_ t ++ [s])).

Definition SendDatagram (pick_send : bool) (ref : nat) (id : nat) (data : list Z) (t : AWGTransport)
    : option string * AWGTransport :=
  match peer_objs t !! ref with
  | None => (None, t)
  | Some p =>
      let p' := set_counts p (u64 (totalToPeer p + golen data)) (totalFromPeer p) in
      writePacket pick_send (set_objs t (<[ref := p']> (peer_objs t)) (deltaChan t)) (id, length data)
  end.

(** The bytes a slice shows in the current state of the buffers. *)
Definition slice_bytes (heap : gmap nat DatagramMessage) (s : slice) : list Z :=
  match heap !! s.1 with Some m => take s.2 (dm_buf m) | None => [] end.

Record read_state := mkRead {
  rd_bufs : list (list Z); rd_sizes : list Z; rd_queue : list slice; rd_late : list (list slice) }.

(** What has arrived when a select statement looks at the channel. *)
Definition arrive (st : read_state) : read_state :=
  match rd_late st with
  | [] => st
  | l :: rest => mkRead (rd_bufs st) (rd_sizes st) (rd_queue st ++ l) rest
  end.

(** A packet into buffer [i]; [None]: it does not fit. *)
Definition put_packet (i : nat) (offset : nat) (pkt : list Z) (st : read_state) : gores (option read_state) :=
  buf <- go_index (rd_bufs st) (Z.of_nat i);;
  if decide (golen buf - Z.of_nat offset < golen pkt)%Z then Ok None else
  _ <- go_index (rd_sizes st) (Z.of_nat i);;
  Ok (Some (mkRead (<[i := copy_at buf offset pkt]> (rd_bufs st)) (<[i := golen pkt]> (rd_sizes st))
              (rd_queue st) (rd_late st))).

Definition pop (st : read_state) (q : list slice) : read_state :=
  mkRead (rd_bufs st) (rd_sizes st) q (rd_late st).

(** The loop over the buffers from [i] on; [k] of them are left. *)
Fixpoint read_more (heap : gmap nat DatagramMessage) (offset : nat) (k i n : nat) (st : read_state)
    : gores (nat * read_state) :=
  match k with
  | O => Ok (n, st)
  | S k' =>
      let st1 := arrive st in
      match rd_queue st1 with
      | s :: q =>
          let pkt := slice_bytes heap s in
          if decide (pkt = []) then read_more heap offset k' (S i) n (pop st1 q) else
          x <- put_packet i offset pkt (pop st1 q);;
          match x with
          | None => Ok (n, pop st1 q)
          | Some st2 => read_more heap offset k' (S i) (S n) st2
          end
      | [] =>
          if decide (n < 4)%nat then
            let st2 := arrive st1 in
            match rd_queue st2 with
            | s :: q =>
                let pkt := slice_bytes heap s in
                if decide (pkt = []) then Ok (n, pop st2 q) else
                x <- put_packet n offset pkt (pop st2 q);;
                match x with
                | None => Ok (n, pop st2 q)
                | Some st3 => read_more heap offset k' (S i) (S n) st3
                end
            | [] => Ok (n, st2)
            end
          else Ok (n, st1)
      end
  end.

(** [Read]; [None] means that it waits. *)
Definition Read (done pick_packet : bool) (heap : gmap nat DatagramMessage) (offset : nat) (st : read_state)
    : option (gores (nat * option string * read_state)) :=
  match rd_queue st with
  | [] => if done then Some (Ok (0%nat, Some "file already closed"%string, st)) else None
  | s :: q =>
      if done && negb pick_packet then Some (Ok (0%nat, Some "file already closed"%string, st)) else
      let pkt := slice_bytes heap s in
      let st1 := pop st q in
      Some (if decide (pkt = []) then Ok (0%nat, None, st1) else
            x <- put_packet 0 offset pkt st1;;
            match x with
            | None => Ok (0%nat, Some "packet larger than MTU"%string, st1)
            | Some st2 =>
                y <- read_more heap offset (length (rd_bufs st) - 1) 1 1 st2;;
                Ok (y.1, None, y.2)
            end)
  end.

(** ** The watchdog *)

Definition second : Z := 1000000000.

(** One peer of [watchPeers]: the counters are swapped with zero before the
    statistics are offered to the channel, which takes them when it has room. *)
Definition watch_peer (now : Z) (acc : AWGTransport * list nat) (kv : Z * nat) : AWGTransport * list nat :=
  let '(t, toDelete) := acc in
  match peer_objs t !! kv.2 with
  | None => (t, toDelete)
  | Some p =>
      let del := match expiration p with Some e => bool_decide (e < now)%Z | None => false end in
      let stats := mkPeerStats (virtualIP p) (lastSeen p) (totalToPeer p) (totalFromPeer p) in
      let q := if decide (length (deltaChan t) < 100)%nat then deltaChan t ++ [stats] else deltaChan t in
      (set_objs t (<[kv.2 := set_counts p 0 0]> (peer_objs t)) q,
       if del then toDelete ++ [kv.2] else toDelete)
  end.

End Transport.

(** ** Registration with the router *)

Section Control.
Context `{DV : Device} `{LK : Link} `{LM : Limiter} `{MR : MapRange} `{PF : Repos.Platform}.

Notation Router := Router.Router.Router.

(** The error of [DeleteRoutingObject] is not looked at. *)
Definition removePeerInternal (r : Router) (t : AWGTransport) (p : AWGPeer) : gores (Router * AWGTransport) :=
  match Router.Router.DeleteRoutingObject r (virtualIP p) with
  | Panic => Panic
  | res =>
      let r' := match res with Ok r' => r' | _ => r end in
      let t1 := set_peers t (delete (virtualIP p) (peersByIP t)) (delete (virtualIP p) (tun_peers t)) in
      Ok (r', set_device t1 (IpcSet (remove_command (pubKey p)) (awgDevice t1)).2)
  end.

Definition ExistsPeer (t : AWGTransport) (ip : Z) : bool := bool_decide (is_Some (peersByIP t !! ip)).

Definition KickPeer (r : Router) (t : AWGTransport) (ip : Z) : gores (bool * (Router * AWGTransport)) :=
  match peersByIP t !! ip with
  | None => Ok (false, (r, t))
  | Some ref =>
      match peer_objs t !! ref with
      | None => Panic
      | Some p => x <- removePeerInternal r t p;; Ok (true, x)
      end
  end.

Definition speed_limit (p : Model.Peer) : option Z :=
  (λ f, Repos.f64_to_uint64 (Repos.f64_scale 20 f)) <$> Model.SpeedLimitMbps p.
Definition traffic_limit (p : Model.Peer) : option Z :=
  (λ f, u64 (Repos.f64_to_uint64 (Repos.f64_scale 30 f) - u64 (Model.FromPeerTotal p + Model.ToPeerTotal p)))
    <$> Model.TrafficLimitGb p.

(** The routing object of a client: wrapped when it has a limit. *)
Definition routing_object (r : Router) (t : AWGTransport) (ref : nat) (p : Model.Peer) : Router * RoutingObject :=
  if decide (is_Some (Model.SpeedLimitMbps p) ∨ is_Some (Model.TrafficLimitGb p)) then
    let s := fresh (dom (Router.Router.shapes r)) in
    (Router.Router.set_data r (Router.Router.packetsPool r)
       (<[s := NewShapedRoute ref (ctx_done t) (speed_limit p) (traffic_limit p)]> (Router.Router.shapes r))
       (Router.Router.links r),
     mkObj ref (nodeID t) (Model.VirtualIP p) (Some s))
  else (r, mkObj ref (nodeID t) (Model.VirtualIP p) None).

(** The result is the error, if any, and the new state. *)
Definition CreatePeer (now : Z) (r : Router) (t : AWGTransport) (p : Model.Peer)
    : gores (option string * (Router * AWGTransport)) :=
  x <- KickPeer r t (Model.VirtualIP p);;
  let '(_, (r1, t1)) := x in
  let ref := fresh (dom (peer_objs t1)) in
  let awgPeer := NewAWGPeer now (nodeID t1) (Model.VirtualIP p) (Model.AwgPublicKey p) (Model.ExpirationDate p) in
  let t2 := set_objs t1 (<[ref := awgPeer]> (peer_objs t1)) (deltaChan t1) in
  let '(r2, peer) := routing_object r1 t2 ref p in
  match IpcSet (add_command (Model.AwgPublicKey p) (Model.VirtualIP p)) (awgDevice t2) with
  | (Some _, d') => Ok (Some "failed to add AWG peer to kernel"%string, (r2, set_device t2 d'))
  | (None, d') =>
      let t3 := set_peers (set_device t2 d') (<[Model.VirtualIP p := ref]> (peersByIP t2))
                  (<[Model.VirtualIP p := ref]> (tun_peers t2)) in
      match Router.Router.AddRoutingObject r2 peer with
      | Panic => Panic
      | Ok r3 => Ok (None, (r3, t3))
      | Err _ =>
          y <- removePeerInternal r2 t3 awgPeer;;
          Ok (Some "failed to add peer to routing table"%string, y)
      end
  end.

(** The end of [watchPeers]: the peers collected for deletion. *)
Fixpoint remove_peers (r : Router) (t : AWGTransport) (l : list nat) : gores (Router * AWGTransport) :=
  match l with
  | [] => Ok (r, t)
  | ref :: rest =>
      match peer_objs t !! ref with
      | None => Panic
      | Some p => x <- removePeerInternal r t p;; remove_peers x.1 x.2 rest
      end
  end.

Definition watchPeers (now : Z) (r : Router) (t : AWGTransport) : gores (Router * AWGTransport) :=
  let '(t1, toDelete) := foldl (watch_peer now) (t, []) (map_range (peersByIP t)) in
  remove_peers r t1 toDelete.

(** ** Packets from clients *)

(** A packet of [n] bytes from the address [src]: the client is seen, at most once
    a second, and the bytes are counted. *)
Definition note_packet (now src n : Z) (t : AWGTransport) : AWGTransport :=
  match tun_peers t !! src with
  | None => t
  | Some ref =>
      match peer_objs t !! ref with
      | None => t
      | Some p =>
          let p1 := if decide (second < now - lastSeen p)%Z then set_seen p now else p in
          set_objs t (<[ref := set_counts p1 (totalToPeer p1) (u64 (totalFromPeer p1 + n))]> (peer_objs t))
            (deltaChan t)
      end
  end.

(** [ChannelTun.Write]: one decrypted packet; [pick] is the choice of the
    message pool. *)
Definition write_one (now : Z) (pick : option nat) (r : Router) (t : AWGTransport) (pkt : list Z)
    : gores (Router * AWGTransport) :=
  match Router.Router.NewMessageCopyFrom pick r pkt with
  | Panic => Panic
  | Err _ => Ok (r, t)
  | Ok (r1, id) =>
      match pool_heap (Router.Router.packetsPool r1) !! id with
      | None => Panic
      | Some msg =>
          let t1 := note_packet now (SrcIP (dm_hole msg)) (golen pkt) t in
          r2 <- Router.Router.HandleTransportPacket r1 id;; Ok (r2, t1)
      end
  end.

(** The number it returns is always zero. *)
Fixpoint Write (now : Z) (offset : nat) (bufs : list (list Z * option nat)) (r : Router) (t : AWGTransport)
    : gores (nat * (Router * AWGTransport)) :=
  match bufs with
  | [] => Ok (0%nat, (r, t))
  | (buf, pick) :: rest =>
      pkt <- go_slice buf (Z.of_nat offset) (golen buf);;
      x <- write_one now pick r t pkt;;
      Write now offset rest x.1 x.2
  end.

End Control.

(** * Specification *)

Section Specs.
Context `{DL : DeviceLaws} `{LK : Link} `{LM : Limiter} `{MR : MapRange} `{PF : Repos.Platform}.

Notation Router := Router.Router.Router.
Notation table := Router.Router.table.
Notation routingsubs := Router.Router.routingsubs.

(** The tables of the transport, the peers of the device and the routes agree. *)
Record awg_ok (r : Router) (t : AWGTransport) : Prop := {
  ao_tun : tun_peers t = peersByIP t;
  ao_peer : ∀ ip ref, peersByIP t !! ip = Some ref → ∃ p obj,
    peer_objs t !! ref = Some p ∧ virtualIP p = ip ∧ no_newline (pubKey p) ∧
    dev_peers (awgDevice t) !! pubKey p = Some ip ∧ table r !! ip = Some obj ∧ ro_ref obj = ref;
  ao_dev : ∀ key ip, dev_peers (awgDevice t) !! key = Some ip → ∃ ref p,
    peersByIP t !! ip = Some ref ∧ peer_objs t !! ref = Some p ∧ pubKey p = key;
  ao_subs : broker_ok (routingsubs r) }.

(** ** Lemmas *)

Lemma notifyRouting_total r ev :
  broker_ok (routingsubs r) → ∃ r', Router.Router.notifyRoutingEvent r ev = Ok r' ∧
    table r' = table r ∧ broker_ok (routingsubs r').
Proof.
  intros Hb. unfold Router.Router.notifyRoutingEvent.
  destruct (notify_spec ev _ Hb) as (b' & -> & Hb' & _). cbn [gobind]. by eexists.
Qed.

Lemma DeleteRoutingObject_total r ip :
  broker_ok (routingsubs r) → ∃ r', Router.Router.DeleteRoutingObject r ip = Ok r' ∧
    table r' = delete ip (table r) ∧ broker_ok (routingsubs r').
Proof.
  intros Hb. unfold Router.Router.DeleteRoutingObject, GetByIP.
  destruct (table r !! ip) as [o|] eqn:E; [|exists r; split_and!; [done| |done]; by rewrite delete_id].
  destruct (notifyRouting_total (Router.Router.set_table r (Delete (table r) ip))
    (Router.Router.mkREvent Router.Router.ClientRemoved ip (GetNodeID o)) Hb) as (r' & -> & Et & Hb').
  exists r'. split_and!; [done| |done]. rewrite Et. simpl. unfold Delete. by rewrite E.
Qed.

Lemma AddRoutingObject_cases r obj :
  broker_ok (routingsubs r) →
  match table r !! GetVirtualIP obj with
  | Some _ => ∃ e, Router.Router.AddRoutingObject r obj = Err e
  | None => ∃ r', Router.Router.AddRoutingObject r obj = Ok r' ∧
      table r' = <[GetVirtualIP obj := obj]> (table r) ∧ broker_ok (routingsubs r')
  end.
Proof.
  intros Hb. unfold Router.Router.AddRoutingObject, Add.
  destruct (table r !! GetVirtualIP obj); [by eexists|]. cbn [gobind].
  destruct (notifyRouting_total (Router.Router.set_table r (<[GetVirtualIP obj:=obj]> (table r)))
    (Router.Router.mkREvent Router.Router.ClientAdded (GetVirtualIP obj) (GetNodeID obj)) Hb)
    as (r' & -> & Et & Hb'). by exists r'.
Qed.

(** Removing a client takes it out of every table. *)
Lemma remove_spec r t p :
  broker_ok (routingsubs r) → no_newline (pubKey p) →
  ∃ r' t', removePeerInternal r t p = Ok (r', t') ∧
    table r' = delete (virtualIP p) (table r) ∧ broker_ok (routingsubs r') ∧
    peersByIP t' = delete (virtualIP p) (peersByIP t) ∧ tun_peers t' = delete (virtualIP p) (tun_peers t) ∧
    dev_peers (awgDevice t') = delete (pubKey p) (dev_peers (awgDevice t)) ∧
    peer_objs t' = peer_objs t ∧ deltaChan t' = deltaChan t ∧ nodeID t' = nodeID t.
Proof.
  intros Hb Hk. unfold removePeerInternal.
  destruct (DeleteRoutingObject_total r (virtualIP p) Hb) as (r' & -> & Et & Hb').
  eexists _, _. split; [reflexivity|]. split_and!; try done. simpl. by apply dev_remove.
Qed.

Lemma awg_ok_remove r t ip ref p :
  awg_ok r t → peersByIP t !! ip = Some ref → peer_objs t !! ref = Some p →
  ∃ r' t', removePeerInternal r t p = Ok (r', t') ∧ awg_ok r' t' ∧ virtualIP p = ip ∧
    table r' = delete ip (table r) ∧ peersByIP t' = delete ip (peersByIP t) ∧
    dev_peers (awgDevice t') = delete (pubKey p) (dev_peers (awgDevice t)) ∧
    peer_objs t' = peer_objs t ∧ deltaChan t' = deltaChan t ∧ nodeID t' = nodeID t.
Proof.
  intros [Htun Hpeer Hdev Hb] Hip Hp. destruct (Hpeer _ _ Hip) as (p' & obj & Hp' & Hv & Hk & Hd & Ht & Href).
  rewrite Hp in Hp'. injection Hp' as <-.
  destruct (remove_spec r t p Hb Hk) as (r' & t' & E & Et & Hb' & Eb & Eu & Ed & Eo & Edc & En).
  exists r', t'. rewrite Hv in *. split; [done|]. split; [|by split_and!]. constructor; [congruence| | |done].
  - intros ip2 ref2. rewrite Eb, Eo, Ed, Et. rewrite lookup_delete_Some. intros [Hne H2].
    destruct (Hpeer _ _ H2) as (q & o2 & Hq & Hvq & Hkq & Hdq & Htq & Hrq). exists q, o2.
    rewrite (lookup_delete_ne (table r)) by done. rewrite lookup_delete_ne; [done|].
    intros Heq. rewrite <- Heq, Hd in Hdq. congruence.
  - intros key ip2. rewrite Ed, Eb, Eo, lookup_delete_Some. intros [Hne H2].
    destruct (Hdev _ _ H2) as (ref2 & q & Hr2 & Hq & Hkq). exists ref2, q.
    rewrite lookup_delete_ne; [done|]. intros <-. rewrite Hip in Hr2. injection Hr2 as <-.
    rewrite Hp in Hq. injection Hq as <-. done.
Qed.

Lemma KickPeer_spec r t ip :
  awg_ok r t → ∃ b r' t', KickPeer r t ip = Ok (b, (r', t')) ∧ awg_ok r' t' ∧
    b = bool_decide (is_Some (peersByIP t !! ip)) ∧
    (b = false → r' = r ∧ t' = t) ∧ (b = true → table r' = delete ip (table r)) ∧
    peersByIP t' = delete ip (peersByIP t) ∧ peer_objs t' = peer_objs t ∧ nodeID t' = nodeID t ∧
    (∀ key, dev_peers (awgDevice t') !! key = None ↔
       dev_peers (awgDevice t) !! key = None ∨ dev_peers (awgDevice t) !! key = Some ip).
Proof.
  intros Ha. unfold KickPeer. destruct (peersByIP t !! ip) as [ref|] eqn:Eip.
  - destruct (ao_peer _ _ Ha _ _ Eip) as (p & obj & Hp & Hv & Hk & Hd & _). rewrite Hp.
    destruct (awg_ok_remove r t ip ref p Ha Eip Hp) as (r' & t' & -> & Ha' & _ & Et & Eb & Ed & Eo & _ & En).
    cbn [gobind]. exists true, r', t'. split_and!; try done. intros key. rewrite Ed, lookup_delete_None.
    split.
    + intros [<-|?]; [by right|by left].
    + intros [?|Hkey]; [by right|left]. destruct (ao_dev _ _ Ha _ _ Hkey) as (ref' & q & Hr & Hq & <-).
      rewrite Eip in Hr. injection Hr as <-. congruence.
  - exists false, r, t. split_and!; try done; [by rewrite delete_id|]. intros key. split; [by left|].
    intros [?|Hkey]; [done|]. destruct (ao_dev _ _ Ha _ _ Hkey) as (ref' & q & Hr & _). congruence.
Qed.

(** The routing object of a client has its address and its peer object. *)
Lemma routing_object_spec r t ref p :
  ∃ r' s, routing_object r t ref p = (r', mkObj ref (nodeID t) (Model.VirtualIP p) s) ∧
    table r' = table r ∧ routingsubs r' = routingsubs r.
Proof. unfold routing_object. case_decide; by eexists _, _. Qed.

(** The registration of a client after the kick, when the device accepted it. *)
Lemma awg_ok_register r t ip ref p obj :
  awg_ok r t → peersByIP t !! ip = None → peer_objs t !! ref = None →
  virtualIP p = ip → no_newline (pubKey p) → dev_peers (awgDevice t) !! pubKey p = None → ro_ref obj = ref →
  ∀ r' t', table r' = <[ip := obj]> (table r) → broker_ok (routingsubs r') →
    peersByIP t' = <[ip := ref]> (peersByIP t) → tun_peers t' = <[ip := ref]> (tun_peers t) →
    peer_objs t' = <[ref := p]> (peer_objs t) →
    dev_peers (awgDevice t') = <[pubKey p := ip]> (dev_peers (awgDevice t)) → awg_ok r' t'.
Proof.
  intros [Htun Hpeer Hdev Hb] Hip Href Hv Hk Hd Ho r' t' Et Hb' Eb Eu Eo Ed. constructor; [congruence| | |done].
  - intros ip2 ref2. rewrite Eb, lookup_insert_Some. intros [[<- <-]|[Hne H2]].
    + exists p, obj. rewrite Eo, Ed, Et, !lookup_insert_eq. by split_and!.
    + destruct (Hpeer _ _ H2) as (q & o & Hq & Hvq & Hkq & Hdq & Htq & Hrq). exists q, o.
      rewrite Eo, Ed, Et. rewrite (lookup_insert_ne (table r)) by done.
      rewrite (lookup_insert_ne (peer_objs t)) by congruence.
      rewrite (lookup_insert_ne (dev_peers _)) by congruence. done.
  - intros key ip2. rewrite Ed, lookup_insert_Some. intros [[<- <-]|[Hne H2]].
    + exists ref, p. by rewrite Eb, Eo, !lookup_insert_eq.
    + destruct (Hdev _ _ H2) as (ref2 & q & Hr2 & Hq & Hkq). exists ref2, q. rewrite Eb, Eo.
      rewrite (lookup_insert_ne (peersByIP t)) by congruence.
      rewrite (lookup_insert_ne (peer_objs t)) by congruence. done.
Qed.

(** More objects and another device with the same peers change nothing. *)
Lemma awg_ok_more r t r' t' :
  awg_ok r t → (∀ j, is_Some (peersByIP t !! j) → table r' !! j = table r !! j) →
  broker_ok (routingsubs r') →
  peersByIP t' = peersByIP t → tun_peers t' = tun_peers t → peer_objs t ⊆ peer_objs t' →
  dev_peers (awgDevice t') = dev_peers (awgDevice t) → awg_ok r' t'.
Proof.
  intros [Htun Hpeer Hdev Hb] Et Es Eb Eu Eo Ed. constructor; [congruence| | |done].
  - intros ip ref. rewrite Eb, Ed. intros Hi. destruct (Hpeer _ _ Hi) as (p & o & Hp & Hrest). exists p, o.
    split; [by eapply lookup_weaken|]. by rewrite Et by eauto.
  - intros key ip. rewrite Eb, Ed. intros Hi. destruct (Hdev _ _ Hi) as (ref & p & Hr & Hp & ?). exists ref, p.
    split; [done|]. split; [|done]. by eapply lookup_weaken.
Qed.

(** What the registration of a client is after the old one was kicked. *)
Lemma CreatePeer_spec now r t p :
  awg_ok r t → is_u32 (Model.VirtualIP p) → no_newline (Model.AwgPublicKey p) →
  (dev_peers (awgDevice t) !! Model.AwgPublicKey p = None ∨
   dev_peers (awgDevice t) !! Model.AwgPublicKey p = Some (Model.VirtualIP p)) →
  let ip := Model.VirtualIP p in
  ∃ err r' t', CreatePeer now r t p = Ok (err, (r', t')) ∧ awg_ok r' t' ∧
    (∀ j, j ≠ ip → peersByIP t' !! j = peersByIP t !! j ∧ table r' !! j = table r !! j) ∧
    match err with
    | None => ∃ ref s, peersByIP t' !! ip = Some ref ∧ peer_objs t !! ref = None ∧
        peer_objs t' !! ref = Some (NewAWGPeer now (nodeID t) ip (Model.AwgPublicKey p) (Model.ExpirationDate p)) ∧
        table r' !! ip = Some (mkObj ref (nodeID t) ip s)
    | Some _ => peersByIP t' !! ip = None ∧ dev_peers (awgDevice t') !! Model.AwgPublicKey p = None
    end ∧
    (peersByIP t !! ip = None → is_Some (table r !! ip) →
     (IpcSet (add_command (Model.AwgPublicKey p) ip) (awgDevice t)).1 = None →
     err = Some "failed to add peer to routing table"%string ∧ table r' !! ip = None).
Proof.
  intros Ha Hu Hk Hkey ip. unfold CreatePeer. fold ip.
  destruct (KickPeer_spec r t ip Ha) as (b & r1 & t1 & -> & Ha1 & Hbv & Hsame & Hgone & Eb & Eo & En & Hkeys).
  cbn [gobind]. set (ref := fresh (dom (peer_objs t1))).
  assert (Hfresh : peer_objs t1 !! ref = None) by (apply not_elem_of_dom, is_fresh).
  set (ap := NewAWGPeer now (nodeID t1) ip (Model.AwgPublicKey p) (Model.ExpirationDate p)).
  set (t2 := set_objs t1 (<[ref:=ap]> (peer_objs t1)) (deltaChan t1)).
  destruct (routing_object_spec r1 t2 ref p) as (r2 & s & -> & Et2 & Es2). fold ip.
  assert (Hd1 : dev_peers (awgDevice t1) !! Model.AwgPublicKey p = None) by (apply Hkeys; exact Hkey).
  assert (Hip1 : peersByIP t1 !! ip = None) by (by rewrite Eb, lookup_delete_eq).
  assert (Hoth : ∀ j, j ≠ ip → peersByIP t1 !! j = peersByIP t !! j ∧ table r1 !! j = table r !! j).
  { intros j Hj. rewrite Eb, lookup_delete_ne by done. split; [done|].
    destruct b; [rewrite Hgone by done; by rewrite lookup_delete_ne|]. by destruct (Hsame eq_refl) as [-> _]. }
  assert (Hsub : peer_objs t1 ⊆ <[ref:=ap]> (peer_objs t1)) by (by apply insert_subseteq).
  pose proof (dev_add (Model.AwgPublicKey p) ip (awgDevice t1) Hk Hu Hd1) as Hadd.
  change (awgDevice t2) with (awgDevice t1).
  assert (Hdev0 : peersByIP t !! ip = None → t1 = t ∧ r1 = r).
  { intros Hn. rewrite Hn in Hbv. destruct (Hsame Hbv) as [-> ->]. done. }
  destruct (IpcSet (add_command (Model.AwgPublicKey p) ip) (awgDevice t1)) as [[e|] d'] eqn:Ei.
  - eexists _, _, _. split; [reflexivity|]. split; [|split; [|split]].
    + apply (awg_ok_more r1 t1); try done; [by rewrite Et2|]. rewrite Es2. by apply (ao_subs _ _ Ha1).
    + intros j Hj. simpl. rewrite Et2. by apply Hoth.
    + simpl. by rewrite Hadd.
    + intros Hn _ Hi. destruct (Hdev0 Hn) as [-> _]. by rewrite Ei in Hi.
  - set (t3 := set_peers (set_device t2 d') (<[ip:=ref]> (peersByIP t2)) (<[ip:=ref]> (tun_peers t2))).
    pose proof (AddRoutingObject_cases r2 (mkObj ref (nodeID t2) ip s)) as Hadd2. rewrite Es2 in Hadd2.
    specialize (Hadd2 (ao_subs _ _ Ha1)). rewrite Et2 in Hadd2. cbn [GetVirtualIP] in Hadd2.
    destruct (table r1 !! ip) as [o|] eqn:Eo1.
    + destruct Hadd2 as [er ->].
      destruct (remove_spec r2 t3 ap ltac:(rewrite Es2; by apply (ao_subs _ _ Ha1)) Hk)
        as (r4 & t4 & -> & Et4 & Hb4 & Eb4 & Eu4 & Ed4 & Eo4 & _ & _).
      cbn [gobind]. eexists _, _, _. split; [reflexivity|].
      change (virtualIP ap) with ip in *. change (pubKey ap) with (Model.AwgPublicKey p) in *.
      simpl in Eb4, Eu4, Ed4, Eo4. rewrite delete_insert_eq, delete_id in Eb4 by done.
      rewrite delete_insert_eq, delete_id in Eu4 by (rewrite (ao_tun _ _ Ha1); done).
      rewrite Hadd, delete_insert_eq, delete_id in Ed4 by done.
      split; [|split; [|split]].
      * apply (awg_ok_more r1 t1); [exact Ha1| |exact Hb4|exact Eb4|exact Eu4|by rewrite Eo4|exact Ed4].
        intros j [rf Hj]. rewrite Et4, Et2, lookup_delete_ne; [done|congruence].
      * intros j Hj. rewrite Et4, lookup_delete_ne, Et2, Eb4 by done. by apply Hoth.
      * by rewrite Eb4, Ed4.
      * intros Hn _ _. split; [done|]. by rewrite Et4, lookup_delete_eq.
    + destruct Hadd2 as (r3 & -> & Et3 & Hb3). eexists _, _, _. split; [reflexivity|].
      split; [|split; [|split]].
      * by apply (awg_ok_register r1 t1 ip ref ap (mkObj ref (nodeID t2) ip s) Ha1 Hip1 Hfresh).
      * intros j Hj. simpl. rewrite Et3, !lookup_insert_ne by done. by apply Hoth.
      * exists ref, s. simpl. rewrite Et3, !lookup_insert_eq. rewrite <- En, <- Eo. by split_and!.
      * intros Hn [o Ho] _. destruct (Hdev0 Hn) as [_ ->]. congruence.
Qed.

(** Registration and removal touch neither the statistics nor the other objects. *)
Lemma removePeer_keeps r t p r' t' :
  removePeerInternal r t p = Ok (r', t') → peer_objs t' = peer_objs t ∧ deltaChan t' = deltaChan t.
Proof. unfold removePeerInternal. destruct (Router.Router.DeleteRoutingObject _ _); [intros [= _ <-]..|]; done. Qed.

Lemma KickPeer_keeps r t ip b r' t' :
  KickPeer r t ip = Ok (b, (r', t')) → peer_objs t' = peer_objs t ∧ deltaChan t' = deltaChan t.
Proof.
  unfold KickPeer. destruct (peersByIP t !! ip) as [ref|]; [|by intros [= _ _ <-]].
  destruct (peer_objs t !! ref) as [p|]; [|done]. destruct (removePeerInternal r t p) as [[r1 t1]| |] eqn:E; [|done..].
  intros [= _ _ <-]. by eapply removePeer_keeps.
Qed.

Lemma CreatePeer_keeps now r t p err r' t' :
  CreatePeer now r t p = Ok (err, (r', t')) → peer_objs t ⊆ peer_objs t' ∧ deltaChan t' = deltaChan t.
Proof.
  unfold CreatePeer. destruct (KickPeer _ _ _) as [[b [r1 t1]]| |] eqn:Ek; [|done..]. cbn [gobind].
  destruct (KickPeer_keeps _ _ _ _ _ _ Ek) as [<- <-]. set (ref := fresh (dom (peer_objs t1))).
  assert (Hsub : ∀ x, peer_objs t1 ⊆ <[ref := x]> (peer_objs t1)) by (intros x; apply insert_subseteq, not_elem_of_dom, is_fresh).
  match goal with |- context [routing_object ?a ?b ?c ?d] => destruct (routing_object a b c d) as [r2 obj] end.
  destruct (IpcSet _ _) as [[e|] d']; [intros [= _ _ <-]; split; [apply Hsub|done]|].
  destruct (Router.Router.AddRoutingObject r2 obj) as [r3|e|]; [intros [= _ _ <-]; split; [apply Hsub|done]| |done].
  match goal with |- context [removePeerInternal ?a ?b ?c] => destruct (removePeerInternal a b c) as [[r4 t4]| |] eqn:Er end; [|done..].
  apply removePeer_keeps in Er as [Eo Ed]. intros [= _ _ <-]. rewrite Eo, Ed. split; [apply Hsub|done].
Qed.

(** ** The watchdog *)

Definition ap_expired (now : Z) (p : AWGPeer) : bool :=
  match expiration p with Some e => bool_decide (e < now)%Z | None => false end.

(** The peers of a round, in the order of the visit. *)
Definition round_peers (t : AWGTransport) (l : list (Z * nat)) : list (nat * AWGPeer) :=
  omap (λ kv, (kv.2,.) <$> peer_objs t !! kv.2) l.
Definition stats_of (p : AWGPeer) : TransportPeerStats :=
  mkPeerStats (virtualIP p) (lastSeen p) (totalToPeer p) (totalFromPeer p).
Definition expired_of (now : Z) (ps : list (nat * AWGPeer)) : list nat :=
  (filter (λ rp, ap_expired now rp.2 = true) ps).*1.

(** Everything but the objects and the statistics channel. *)
Definition same_tables (t t' : AWGTransport) : Prop :=
  peersByIP t' = peersByIP t ∧ tun_peers t' = tun_peers t ∧ awgDevice t' = awgDevice t.

Lemma round_peers_ext t t' l :
  (∀ kv, kv ∈ l → peer_objs t' !! kv.2 = peer_objs t !! kv.2) → round_peers t' l = round_peers t l.
Proof.
  induction l as [|kv l IH]; intros Hl; [done|]. unfold round_peers in *. cbn [omap list_omap].
  rewrite (Hl kv ltac:(by left)), IH; [done|]. intros kv' Hin. apply Hl. by right.
Qed.

Lemma watch_round now l t d :
  NoDup l.*2 → (∀ kv, kv ∈ l → is_Some (peer_objs t !! kv.2)) → (length (deltaChan t) <= 100)%nat →
  ∃ t', foldl (watch_peer now) (t, d) l = (t', d ++ expired_of now (round_peers t l)) ∧ same_tables t t' ∧
    deltaChan t' = deltaChan t ++ take (100 - length (deltaChan t)) (stats_of <$> (round_peers t l).*2) ∧
    (∀ ref p, peer_objs t !! ref = Some p →
       peer_objs t' !! ref = Some (if decide (ref ∈ l.*2) then set_counts p 0 0 else p)).
Proof.
  revert t d. induction l as [|[ip ref] l IH]; intros t d HN Hl Hc.
  { exists t. simpl. rewrite take_nil, !app_nil_r. split_and!; try done. }
  simpl in HN. apply NoDup_cons in HN as [Hni HN]. destruct (Hl (ip, ref) ltac:(by left)) as [p Hp]. simpl in Hp.
  cbn [foldl]. unfold watch_peer at 2. cbn [snd]. rewrite Hp.
  match goal with |- context [foldl _ (?t1', ?d1') l] => set (t1 := t1'); set (d1 := d1') end.
  assert (Hsame : ∀ kv, kv ∈ l → peer_objs t1 !! kv.2 = peer_objs t !! kv.2).
  { intros kv Hin. simpl. apply lookup_insert_ne. intros ->. apply Hni. by apply list_elem_of_fmap_2. }
  destruct (IH t1 d1 HN) as (t' & -> & (Hb & Hu & Hdv) & Hd & Ho).
  { intros kv Hin. rewrite Hsame by done. apply Hl. by right. }
  { simpl. case_decide; [rewrite length_app; simpl; lia|done]. }
  assert (Er : round_peers t ((ip, ref) :: l) = (ref, p) :: round_peers t l)
    by (unfold round_peers; simpl; by rewrite Hp).
  rewrite (round_peers_ext t t1 l Hsame) in *. rewrite Er.
  exists t'. split; [|split; [done|split]].
  - f_equal. subst d1. unfold expired_of. rewrite filter_cons. cbn [snd].
    fold (ap_expired now p). destruct (ap_expired now p); [|done].
    rewrite decide_True by done. by rewrite <- (assoc_L app).
  - rewrite Hd. simpl. case_decide as Hroom; simpl.
    + rewrite length_app, <- (assoc_L app). simpl.
      replace (100 - length (deltaChan t))%nat with (S (100 - (length (deltaChan t) + 1))) by lia. done.
    + replace (100 - length (deltaChan t))%nat with 0%nat by lia. done.
  - intros ref2 p2 H2. destruct (decide (ref2 = ref)) as [->|Hne].
    + rewrite Hp in H2. injection H2 as <-.
      rewrite (Ho ref (set_counts p 0 0)) by (simpl; by rewrite lookup_insert_eq).
      rewrite decide_False by done. by rewrite decide_True by (by left).
    + rewrite (Ho ref2 p2) by (simpl; by rewrite lookup_insert_ne). simpl.
      f_equal. apply decide_ext. rewrite elem_of_cons. split; [by right|by intros [?|?]].
Qed.

Lemma elem_of_expired now t l ref :
  ref ∈ expired_of now (round_peers t l) ↔
  ∃ p, ref ∈ l.*2 ∧ peer_objs t !! ref = Some p ∧ ap_expired now p = true.
Proof.
  unfold expired_of, round_peers. rewrite list_elem_of_fmap. split.
  - intros ([rf p] & -> & [Hx (kv & Hin & Hkv)%list_elem_of_omap]%list_elem_of_filter). simpl in *.
    destruct (peer_objs t !! kv.2) as [q|] eqn:Eq; [|done]. simpl in Hkv. injection Hkv as <- <-.
    exists q. split; [by apply list_elem_of_fmap_2|done].
  - intros (p & (kv & -> & Hin)%list_elem_of_fmap & Hp & Hx). exists (kv.2, p). split; [done|].
    apply list_elem_of_filter. split; [done|]. apply list_elem_of_omap. exists kv. by rewrite Hp.
Qed.

Lemma expired_NoDup now t l :
  NoDup l.*2 → (∀ kv, kv ∈ l → is_Some (peer_objs t !! kv.2)) → NoDup (expired_of now (round_peers t l)).
Proof.
  intros HN Hl. assert (E : (round_peers t l).*1 = l.*2).
  { clear HN. induction l as [|kv l IH]; [done|]. destruct (Hl kv ltac:(by left)) as [p Hp].
    unfold round_peers in *. simpl. rewrite Hp. simpl. f_equal. apply IH. intros kv' Hin. apply Hl. by right. }
  rewrite <- E in HN. eapply sublist_NoDup; [exact HN|]. apply fmap_sublist, sublist_filter.
Qed.

(** The removal of registered peers. *)
Lemma remove_peers_spec l r t :
  awg_ok r t → NoDup l →
  (∀ ref, ref ∈ l → ∃ p, peer_objs t !! ref = Some p ∧ peersByIP t !! virtualIP p = Some ref) →
  ∃ r' t', remove_peers r t l = Ok (r', t') ∧ awg_ok r' t' ∧ peer_objs t' = peer_objs t ∧
    deltaChan t' = deltaChan t ∧
    (∀ ip, peersByIP t !! ip = None → peersByIP t' !! ip = None) ∧
    ∀ ip ref, peersByIP t !! ip = Some ref →
      peersByIP t' !! ip = if decide (ref ∈ l) then None else Some ref.
Proof.
  revert r t. induction l as [|ref l IH]; intros r t Ha HN Hl; simpl.
  { exists r, t. split_and!; try done. }
  apply NoDup_cons in HN as [Hni HN]. destruct (Hl ref ltac:(by left)) as (p & Hp & Hip). rewrite Hp.
  destruct (awg_ok_remove r t _ ref p Ha Hip Hp) as (r1 & t1 & -> & Ha1 & _ & _ & Eb & _ & Eo & Ed & _).
  cbn [gobind fst snd]. destruct (IH r1 t1 Ha1 HN) as (r' & t' & E & Ha' & Eo' & Ed' & Hnone & Hlk).
  - intros ref2 H2. destruct (Hl ref2 ltac:(by right)) as (q & Hq & Hiq). exists q. rewrite Eo, Eb. split; [done|].
    rewrite lookup_delete_ne; [done|]. intros Heq. rewrite Heq, Hiq in Hip. injection Hip as ->. done.
  - exists r', t'. split; [done|]. split; [done|]. split; [congruence|]. split; [congruence|].
    split; [intros ip Hn; apply Hnone; rewrite Eb; by apply lookup_delete_None; right|].
    intros ip ref2 H2. destruct (decide (ip = virtualIP p)) as [->|Hne].
    + rewrite Hip in H2. injection H2 as <-. rewrite decide_True by (by left).
      apply Hnone. by rewrite Eb, lookup_delete_eq.
    + rewrite (Hlk ip ref2) by (by rewrite Eb, lookup_delete_ne). apply decide_ext. rewrite elem_of_cons.
      split; [by right|]. intros [->|?]; [|done].
      destruct (ao_peer _ _ Ha _ _ H2) as (q & _ & Hq & Hv & _). congruence.
Qed.

(** The watchdog.  A round of [watchPeers] removes exactly the expired clients
    and keeps the tables in agreement; it sets all traffic counters to zero and
    puts their values, in the order of the visit, into the statistics channel as
    far as the channel has room: what does not fit is lost. *)
Lemma watchdog_round now r t :
  awg_ok r t → (length (deltaChan t) <= 100)%nat →
  ∃ r' t', watchPeers now r t = Ok (r', t') ∧ awg_ok r' t' ∧
    (∀ ip, peersByIP t !! ip = None → peersByIP t' !! ip = None) ∧
    (∀ ip ref p, peersByIP t !! ip = Some ref → peer_objs t !! ref = Some p →
       peersByIP t' !! ip = (if ap_expired now p then None else Some ref) ∧
       peer_objs t' !! ref = Some (set_counts p 0 0)) ∧
    deltaChan t' = deltaChan t ++
      take (100 - length (deltaChan t)) (stats_of <$> (round_peers t (map_range (peersByIP t))).*2).
Proof.
  intros Ha Hc. unfold watchPeers. set (l := map_range (peersByIP t)).
  assert (Hl : ∀ kv, kv ∈ l → ∃ p obj, peer_objs t !! kv.2 = Some p ∧ virtualIP p = kv.1 ∧
    peersByIP t !! kv.1 = Some kv.2 ∧ obj = p).
  { intros [ip ref] Hin%elem_of_map_range. destruct (ao_peer _ _ Ha _ _ Hin) as (p & _ & Hp & Hv & _). by exists p, p. }
  assert (HN : NoDup l.*2).
  { apply NoDup_fmap_2_strong; [|apply map_range_NoDup_pairs].
    intros [ip ref] [ip2 ref2] H1%Hl H2%Hl Heq. simpl in *. subst ref2.
    destruct H1 as (p & _ & Hp & Hv & _), H2 as (p2 & _ & Hp2 & Hv2 & _). congruence. }
  destruct (watch_round now l t [] HN) as (t1 & E & (Eb & Eu & Ed) & Hd & Ho); [|done|].
  { intros kv Hin. destruct (Hl kv Hin) as (p & _ & Hp & _). eauto. }
  rewrite E. simpl.
  assert (Ho1 : ∀ ip ref p, peersByIP t !! ip = Some ref → peer_objs t !! ref = Some p →
    peer_objs t1 !! ref = Some (set_counts p 0 0)).
  { intros ip ref p Hip Hp. rewrite (Ho _ _ Hp), decide_True; [done|].
    apply list_elem_of_fmap. exists (ip, ref). split; [done|]. by apply elem_of_map_range. }
  assert (Ha1 : awg_ok r t1).
  { destruct Ha as [Htun Hpeer Hdev Hb]. constructor; [congruence| | |done].
    - intros ip ref. rewrite Eb. intros Hip. destruct (Hpeer _ _ Hip) as (p & obj & Hp & ?).
      exists (set_counts p 0 0), obj. rewrite Ed. split; [by eapply Ho1|done].
    - intros key ip. rewrite Ed. intros Hk. destruct (Hdev _ _ Hk) as (ref & p & Hr & Hp & ?).
      exists ref, (set_counts p 0 0). rewrite Eb. split; [done|]. split; [by eapply Ho1|done]. }
  destruct (remove_peers_spec (expired_of now (round_peers t l)) r t1 Ha1) as (r' & t' & E' & Ha' & Eo' & Ed' & Hn & Hlk).
  - apply expired_NoDup; [done|]. intros kv Hin. destruct (Hl kv Hin) as (p & _ & Hp & _). eauto.
  - intros ref (p & (kv & -> & Hin)%list_elem_of_fmap & Hp & Hx)%elem_of_expired.
    destruct (Hl kv Hin) as (q & _ & Hq & Hv & Hip & _). exists (set_counts p 0 0).
    split; [by eapply Ho1|]. simpl. rewrite Eb. congruence.
  - exists r', t'. split; [done|]. split; [done|]. split; [intros ip; rewrite <- Eb; apply Hn|]. split.
    + intros ip ref p Hip Hp. rewrite Eo'. split; [|by eapply Ho1].
      rewrite (Hlk ip ref) by congruence. destruct (ap_expired now p) eqn:Ex.
      * rewrite decide_True; [done|]. apply elem_of_expired. exists p. split; [|done].
        apply list_elem_of_fmap. exists (ip, ref). split; [done|]. by apply elem_of_map_range.
      * rewrite decide_False; [done|]. intros (q & _ & Hq & Hxq)%elem_of_expired. congruence.
    + by rewrite Ed'.
Qed.

(** ** Reading *)

(** Every packet that is waiting or arrives is not empty and fits every buffer. *)
Record fits (heap : gmap nat DatagramMessage) (offset : nat) (st : read_state) : Prop := {
  ft_sizes : length (rd_sizes st) = length (rd_bufs st);
  ft_pkts : ∀ s, s ∈ rd_queue st ++ concat (rd_late st) → slice_bytes heap s ≠ [] ∧
    ∀ i buf, rd_bufs st !! i = Some buf → (offset + length (slice_bytes heap s) <= length buf)%nat }.

Definition packet_in (heap : gmap nat DatagramMessage) (offset : nat) (st st' : read_state) (i : nat) (s : slice) : Prop :=
  ∃ buf, rd_bufs st !! i = Some buf ∧
    rd_bufs st' !! i = Some (take offset buf ++ slice_bytes heap s ++
                               drop (offset + length (slice_bytes heap s)) buf) ∧
    rd_sizes st' !! i = Some (golen (slice_bytes heap s)).

Lemma go_index_nat {A} (l : list A) i x : l !! i = Some x → go_index l (Z.of_nat i) = Ok x.
Proof.
  intros Hi. unfold go_index. pose proof (lookup_lt_Some _ _ _ Hi).
  rewrite decide_True by lia. by rewrite Nat2Z.id, Hi.
Qed.

Lemma put_packet_fits heap offset st st1 i s q :
  fits heap offset st1 → (i < length (rd_bufs st1))%nat → s ∈ rd_queue st1 →
  st = pop st1 q → (∀ x, x ∈ q → x ∈ rd_queue st1) →
  ∃ st2, put_packet i offset (slice_bytes heap s) st = Ok (Some st2) ∧ fits heap offset st2 ∧
    rd_queue st2 = q ∧ rd_late st2 = rd_late st1 ∧ length (rd_bufs st2) = length (rd_bufs st1) ∧
    packet_in heap offset st1 st2 i s ∧
    (∀ j, j ≠ i → rd_bufs st2 !! j = rd_bufs st1 !! j ∧ rd_sizes st2 !! j = rd_sizes st1 !! j).
Proof.
  intros [Hsz Hp] Hi Hs -> Hq. destruct (lookup_lt_is_Some_2 _ _ Hi) as [buf Hb].
  destruct (lookup_lt_is_Some_2 (rd_sizes st1) i) as [sz Hz]; [lia|].
  destruct (Hp s ltac:(apply elem_of_app; by left)) as [Hne Hfit]. specialize (Hfit _ _ Hb).
  unfold put_packet. simpl. rewrite (go_index_nat _ _ _ Hb). cbn [gobind].
  rewrite decide_False by lia. rewrite (go_index_nat _ _ _ Hz). cbn [gobind].
  eexists. split; [reflexivity|]. simpl.
  assert (Ecopy : copy_at buf offset (slice_bytes heap s) =
    take offset buf ++ slice_bytes heap s ++ drop (offset + length (slice_bytes heap s)) buf).
  { unfold copy_at. rewrite Nat.min_l by lia. by rewrite firstn_all. }
  assert (Hlen : length (copy_at buf offset (slice_bytes heap s)) = length buf).
  { rewrite Ecopy, !length_app, length_take, length_drop. lia. }
  split_and!; try done.
  - constructor; simpl; [by rewrite !length_insert|]. intros x Hx. destruct (Hp x) as [Hx0 Hxf].
    { apply elem_of_app in Hx as [Hx|Hx]; apply elem_of_app; [left; by apply Hq|by right]. }
    split; [done|]. intros j bj Hj. apply list_lookup_insert_Some in Hj as [(-> & <- & _)|[Hne2 Hj]].
    + rewrite Hlen. by eapply Hxf.
    + by eapply Hxf.
  - by rewrite length_insert.
  - exists buf. split; [done|]. simpl. rewrite !list_lookup_insert_eq by lia. by rewrite Ecopy.
  - intros j Hj. by rewrite !list_lookup_insert_ne.
Qed.

(** The queue with what arrived in [j] steps. *)
Definition arrived (q : list slice) (late : list (list slice)) (q' : list slice) (late' : list (list slice)) : Prop :=
  ∃ j, q' = q ++ concat (take j late) ∧ late' = drop j late.

Lemma arrived_refl q late : arrived q late q late.
Proof. exists 0%nat. by rewrite app_nil_r. Qed.
Lemma arrived_cons s q late q' late' : arrived q late q' late' → arrived (s :: q) late (s :: q') late'.
Proof. intros (j & -> & ->). by exists j. Qed.
Lemma arrived_trans q l q1 l1 q2 l2 : arrived q l q1 l1 → arrived q1 l1 q2 l2 → arrived q l q2 l2.
Proof.
  intros (j1 & -> & ->) (j2 & -> & ->). exists (j1 + j2)%nat. rewrite drop_drop. split; [|done].
  by rewrite <- take_take_drop, concat_app, (assoc_L app).
Qed.

Lemma arrive_fits heap offset st : fits heap offset st →
  fits heap offset (arrive st) ∧ rd_bufs (arrive st) = rd_bufs st ∧ rd_sizes (arrive st) = rd_sizes st ∧
  arrived (rd_queue st) (rd_late st) (rd_queue (arrive st)) (rd_late (arrive st)).
Proof.
  intros [Hsz Hp]. unfold arrive. destruct (rd_late st) as [|l rest] eqn:El.
  - split; [constructor; [done|by rewrite El]|]. split; [done|]. split; [done|]. exists 0%nat.
    by rewrite app_nil_r, El.
  - split; [constructor; simpl; [done|]|].
    { intros s Hs. apply Hp. simpl. by rewrite (assoc_L app). }
    split; [done|]. split; [done|]. exists 1%nat. simpl. by rewrite app_nil_r, drop_0.
Qed.

(** What reading from buffer [n] on does: the packets [c] go to the buffers in
    order, and nothing is lost. *)
Definition read_result (heap : gmap nat DatagramMessage) (offset n : nat) (st st' : read_state) (c : list slice) : Prop :=
  length (rd_bufs st') = length (rd_bufs st) ∧
  arrived (rd_queue st) (rd_late st) (c ++ rd_queue st') (rd_late st') ∧
  (∀ i s, c !! i = Some s → packet_in heap offset st st' (n + i) s) ∧
  (∀ i, (i < n ∨ n + length c <= i)%nat → rd_bufs st' !! i = rd_bufs st !! i ∧ rd_sizes st' !! i = rd_sizes st !! i).

Lemma read_result_nil heap offset n st : read_result heap offset n st st [].
Proof.
  split; [done|]. split; [apply arrived_refl|]. split; [by intros i s Hi|by intros].
Qed.

(** A packet is put into buffer [n] after arrivals, and the rest follows. *)
Lemma read_result_cons heap offset n st st1 st2 st' s q c :
  rd_bufs st1 = rd_bufs st → rd_sizes st1 = rd_sizes st →
  arrived (rd_queue st) (rd_late st) (rd_queue st1) (rd_late st1) →
  rd_queue st1 = s :: q → rd_queue st2 = q → rd_late st2 = rd_late st1 →
  length (rd_bufs st2) = length (rd_bufs st1) → packet_in heap offset st1 st2 n s →
  (∀ j, j ≠ n → rd_bufs st2 !! j = rd_bufs st1 !! j ∧ rd_sizes st2 !! j = rd_sizes st1 !! j) →
  read_result heap offset (S n) st2 st' c → read_result heap offset n st st' (s :: c).
Proof.
  intros Eb Es Ha1 Eq Eq2 El2 Hlen (buf & Hb & Hb2 & Hs2) Hoth (Hl & Ha2 & Hin & Hout).
  split; [congruence|]. split; [|split].
  - eapply arrived_trans; [exact Ha1|]. rewrite Eq. apply arrived_cons. by rewrite <- Eq2, <- El2.
  - intros [|i] x Hx; simpl in Hx.
    + injection Hx as <-. rewrite Nat.add_0_r. destruct (Hout n ltac:(lia)) as [Ho1 Ho2].
      exists buf. rewrite Ho1, Ho2, <- Eb. done.
    + destruct (Hin i x Hx) as (b2 & Hbi & ?). exists b2. rewrite Nat.add_succ_r in *. simpl in *.
      split; [|done]. rewrite <- Eb. destruct (Hoth (S (n + i)) ltac:(lia)) as [Ho _]. congruence.
  - intros i Hi. simpl in Hi. destruct (Hout i ltac:(lia)) as [-> ->].
    destruct (Hoth i ltac:(lia)) as [-> ->]. by rewrite Eb, Es.
Qed.

Lemma read_more_spec heap offset k n st :
  fits heap offset st → (n + k <= length (rd_bufs st))%nat →
  ∃ c st', read_more heap offset k n n st = Ok ((n + length c)%nat, st') ∧ (length c <= k)%nat ∧
    read_result heap offset n st st' c.
Proof.
  revert n st. induction k as [|k IH]; intros n st Hf Hk; cbn [read_more].
  { exists [], st. rewrite Nat.add_0_r. split_and!; [done|done|apply read_result_nil]. }
  assert (Hstep : ∀ st1, fits heap offset st1 → rd_bufs st1 = rd_bufs st → rd_sizes st1 = rd_sizes st →
    arrived (rd_queue st) (rd_late st) (rd_queue st1) (rd_late st1) →
    ∀ s q, rd_queue st1 = s :: q → slice_bytes heap s ≠ [] ∧
    ∃ st2 c st', put_packet n offset (slice_bytes heap s) (pop st1 q) = Ok (Some st2) ∧
      read_more heap offset k (S n) (S n) st2 = Ok ((n + length c)%nat, st') ∧ (length c <= S k)%nat ∧
      read_result heap offset n st st' c).
  { intros st1 Hf1 Eb Es Ej s q Eq.
    destruct (ft_pkts _ _ _ Hf1 s) as [Hne _]; [rewrite Eq; by left|]. split; [done|].
    destruct (put_packet_fits heap offset (pop st1 q) st1 n s q Hf1) as
      (st2 & E & Hf2 & Eq2 & El2 & Hl2 & Hin & Hoth); [rewrite Eb; lia|rewrite Eq; by left|done| |].
    { intros x Hx. rewrite Eq. by right. }
    destruct (IH (S n) st2 Hf2) as (c & st' & E' & Hc & Hres); [rewrite Hl2, Eb; lia|].
    exists st2, (s :: c), st'. split; [done|]. split; [rewrite E'; simpl; do 2 f_equal; lia|].
    split; [simpl; lia|]. by eapply read_result_cons. }
  assert (Hend : ∀ st1, rd_bufs st1 = rd_bufs st → rd_sizes st1 = rd_sizes st →
    arrived (rd_queue st) (rd_late st) (rd_queue st1) (rd_late st1) →
    read_result heap offset n st st1 []).
  { intros st1 Eb Es Ha. split; [congruence|]. split; [exact Ha|].
    split; [by intros i s Hi|]. intros i _. by rewrite Eb, Es. }
  destruct (arrive_fits _ _ _ Hf) as (Hf1 & Eb1 & Es1 & Ha1).
  destruct (rd_queue (arrive st)) as [|s q] eqn:Eq.
  - case_decide as Hn4.
    2: { exists [], (arrive st). rewrite Nat.add_0_r. split; [done|]. split; [simpl; lia|].
         apply Hend; [done|done|by rewrite Eq]. }
    destruct (arrive_fits _ _ _ Hf1) as (Hf2 & Eb2 & Es2 & Ha2).
    rewrite <- Eq in Ha1. pose proof (arrived_trans _ _ _ _ _ _ Ha1 Ha2) as Ha.
    destruct (rd_queue (arrive (arrive st))) as [|s q] eqn:Eqq.
    + exists [], (arrive (arrive st)). rewrite Nat.add_0_r. split; [done|]. split; [simpl; lia|].
      apply Hend; [congruence|congruence|by rewrite Eqq].
    + destruct (Hstep (arrive (arrive st)) Hf2 ltac:(congruence) ltac:(congruence) ltac:(by rewrite Eqq) s q Eqq)
        as (Hne & st2 & c & st' & E & E' & Hc & Hres).
      rewrite decide_False by done. rewrite E. cbn [gobind]. by exists c, st'.
  - destruct (Hstep (arrive st) Hf1 Eb1 Es1 ltac:(by rewrite Eq) s q Eq)
      as (Hne & st2 & c & st' & E & E' & Hc & Hres).
    rewrite decide_False by done. rewrite E. cbn [gobind]. by exists c, st'.
Qed.

(** ** Theorems *)


(** a failed registration deletes the route it collided with.  When the
    client's address is already routed to something else (say a client of
    another node), [CreatePeer] reports an error, and its rollback removes that
    other route. *)
Theorem failed_registration_drops_route now r t p :
  awg_ok r t → is_u32 (Model.VirtualIP p) → no_newline (Model.AwgPublicKey p) →
  dev_peers (awgDevice t) !! Model.AwgPublicKey p = None →
  peersByIP t !! Model.VirtualIP p = None → is_Some (table r !! Model.VirtualIP p) →
  (IpcSet (add_command (Model.AwgPublicKey p) (Model.VirtualIP p)) (awgDevice t)).1 = None →
  ∃ r' t', CreatePeer now r t p = Ok (Some "failed to add peer to routing table"%string, (r', t')) ∧
    table r' !! Model.VirtualIP p = None.
Proof.
  intros Ha Hu Hk Hkey Hn Hr Hi.
  destruct (CreatePeer_spec now r t p Ha Hu Hk (or_introl Hkey)) as (err & r' & t' & E & _ & _ & _ & Hfail).
  destruct (Hfail Hn Hr Hi) as [-> Ht]. by exists r', t'.
Qed.

Lemma Read_spec pick heap offset st :
  fits heap offset st → (0 < length (rd_bufs st))%nat → rd_queue st ≠ [] →
  ∃ c st', Read false pick heap offset st = Some (Ok (length c, None, st')) ∧
    (1 <= length c <= length (rd_bufs st))%nat ∧ read_result heap offset 0 st st' c.
Proof.
  intros Hf Hn Hq. unfold Read. destruct (rd_queue st) as [|s q] eqn:Eq; [done|]. cbn [andb].
  destruct (ft_pkts _ _ _ Hf s) as [Hne _]; [rewrite Eq; by left|]. rewrite decide_False by done.
  destruct (put_packet_fits heap offset (pop st q) st 0 s q Hf Hn) as
    (st2 & E & Hf2 & Eq2 & El2 & Hl2 & Hin & Hoth); [rewrite Eq; by left|done| |].
  { intros x Hx. rewrite Eq. by right. }
  rewrite E. cbn [gobind]. change (rd_bufs (pop st q)) with (rd_bufs st).
  destruct (read_more_spec heap offset (length (rd_bufs st) - 1) 1 st2 Hf2) as (c & st' & E' & Hc & Hres); [rewrite Hl2; lia|].
  rewrite E'. cbn [gobind fst snd]. exists (s :: c), st'. split; [done|]. split; [simpl; lia|].
  eapply (read_result_cons heap offset 0 st st st2 st' s q c); try done. apply arrived_refl.
Qed.

(** a read delivers the queue in order.  When the waiting and arriving packets
    are not empty and fit the buffers, [Read] hands over at least one and at most
    as many packets as there are buffers, packet [i] in buffer [i] with its size;
    what it took is the front of the queue, and nothing is lost. *)
Theorem read_delivers_in_order pick heap offset st :
  fits heap offset st → (0 < length (rd_bufs st))%nat → rd_queue st ≠ [] →
  ∃ c st', Read false pick heap offset st = Some (Ok (length c, None, st')) ∧
    (1 <= length c <= length (rd_bufs st))%nat ∧
    arrived (rd_queue st) (rd_late st) (c ++ rd_queue st') (rd_late st') ∧
    (∀ i s, c !! i = Some s → packet_in heap offset st st' i s) ∧
    (∀ i, (length c <= i)%nat → rd_bufs st' !! i = rd_bufs st !! i ∧ rd_sizes st' !! i = rd_sizes st !! i).
Proof.
  intros Hf Hn Hq. destruct (Read_spec pick heap offset st Hf Hn Hq) as (c & st' & E & Hc & _ & Ha & Hin & Hout).
  exists c, st'. split_and!; try done; [lia|lia|]. intros i Hi. apply Hout. by right.
Qed.

Lemma take_length_take {A} k (l : list A) : take (length (take k l)) l = take k l.
Proof.
  rewrite length_take. destruct (Nat.le_ge_cases k (length l)); [by rewrite Nat.min_l|].
  rewrite Nat.min_r by done. by rewrite !take_ge.
Qed.

Lemma new_message_id pick p b p' id : NewMessageCopyFrom pick p b = Ok (p', id) → id = (pool_Get pick p).1.
Proof.
  unfold NewMessageCopyFrom. intros E. case_decide; [done|]. destruct (go_index b 0); [|done..]. cbn [gobind] in E.
  repeat (case_decide; [done|]). destruct (parse_l4 b) as [[[pr sp] dp]| |]; [|done..]. cbn [gobind] in E.
  destruct (pool_Get pick p) as [i p1]. destruct (go_slice b 12 16) as [s| |]; [|done..]. cbn [gobind] in E.
  destruct (be32 s); [|done..]. cbn [gobind] in E. destruct (go_slice b 16 20) as [d| |]; [|done..].
  cbn [gobind] in E. destruct (be32 d); [|done..]. cbn [gobind] in E.
  destruct (pool_heap p1 !! i); [|done]. destruct (fill_message _ _ _); [|done..]. simpl in E. by injection E as _ <-.
Qed.

(** a client can receive the bytes of another packet.  The queue to the device
    holds a slice of the message's buffer, and the router releases the message
    once it is queued; when the next packet takes that buffer before the device
    reads, the read yields the bytes of the later packet. *)
Theorem queued_packet_is_overwritten p live id m b t ref ap offset buf sizes sz :
  pool_ok p live → id ∈ live → pool_heap p !! id = Some m → dm_owned m = true → pool_items p = [] →
  accepts (maxSize p) b = true → length b = length (dm_data m) →
  peer_objs t !! ref = Some ap → ctx_done t = false → in_ t = [] →
  sizes = [sz] → (offset + length b <= length buf)%nat →
  ∃ t' p2 st', SendDatagram true ref id (dm_data m) t = (None, t') ∧
    NewMessageCopyFrom (Some 0%nat) (Free p id) b = Ok (p2, id) ∧
    Read false true (pool_heap p2) offset (mkRead [buf] sizes (in_ t') []) = Some (Ok (1%nat, None, st')) ∧
    rd_bufs st' = [take offset buf ++ b ++ drop (offset + length b) buf].
Proof.
  intros Hp Hid Hm Ho Hit Hacc Hlen Hap Hdone Hin -> Hfit.
  destruct (Free_ok p live id Hp Hid) as [Hp1 _]; [by intros ? ?; simplify_eq|].
  assert (Hms : maxSize (Free p id) = maxSize p) by (unfold Free; by rewrite Hm, Ho).
  destruct (NewMessageCopyFrom_accept (Some 0%nat) (Free p id) _ b Hp1) as (p2 & id2 & m2 & E & _ & _ & _ & Hm2 & Hb & _);
    [by rewrite Hms|].
  assert (id2 = id) as ->.
  { rewrite (new_message_id _ _ _ _ _ E). unfold Free, pool_Get. rewrite Hm, Ho. simpl. by rewrite Hit. }
  unfold SendDatagram. rewrite Hap. unfold writePacket. simpl. rewrite Hdone, Hin. simpl.
  assert (Hs : slice_bytes (pool_heap p2) (id, length (dm_data m)) = b).
  { unfold slice_bytes. simpl. rewrite Hm2, <- Hlen. destruct Hb as [Hb _]. unfold dm_data in Hb.
    rewrite <- Hb. apply take_length_take. }
  assert (Hb0 : b ≠ []) by (intros ->; done).
  set (st := mkRead [buf] [sz] [(id, length (dm_data m))] []).
  destruct (Read_spec true (pool_heap p2) offset st) as (c & st' & E' & Hc & Hl & Ha & Hpk & _).
  - constructor; [done|]. intros s Hs'. simpl in Hs'.
    apply list_elem_of_singleton in Hs' as ->. rewrite Hs. split; [done|].
    intros [|i] bf Hbf; [|done]. injection Hbf as <-. done.
  - simpl. lia.
  - done.
  - simpl in Hc. destruct c as [|s [|s2 c]]; simpl in Hc; [lia| |lia].
    destruct Ha as (j & Ea & _). simpl in Ea. rewrite take_nil in Ea. injection Ea as -> _.
    destruct (Hpk 0%nat _ eq_refl) as (bf & Hbf & Hbf' & _). injection Hbf as <-. rewrite Hs in Hbf'.
    eexists _, p2, st'. split; [reflexivity|]. split; [done|]. split; [exact E'|].
    simpl in Hl. destruct (rd_bufs st') as [|x [|y l]]; [done| |done]. by injection Hbf' as ->.
Qed.

(** a client gets what is left of its quota.  The limit of a client's route is
    its quota in bytes less what it has used, also when it has used more than
    that (the unsigned difference wraps around, and the route reads it as a
    negative number): a packet passes as long as the rest covers it, and an
    exhausted client passes nothing. *)
Theorem quota_is_what_is_left ref done p f n :
  Model.TrafficLimitGb p = Some f →
  let total := Repos.f64_trunc (Repos.f64_scale 30 f) in
  let used := (Model.FromPeerTotal p + Model.ToPeerTotal p)%Z in
  (0 <= total < 2 ^ 62)%Z → (0 <= used < 2 ^ 62)%Z → (0 <= n < 2 ^ 32)%Z →
  let sr := NewShapedRoute ref done (speed_limit p) (traffic_limit p) in
  sr_totalLimit sr = (total - used)%Z ∧
  charge sr n = (bool_decide (n <= total - used)%Z, set_total sr (total - used - n)).
Proof.
  intros Hf total used Ht Hu Hn sr.
  assert (El : sr_totalLimit sr = (total - used)%Z).
  { unfold sr, traffic_limit. rewrite Hf. simpl. unfold Repos.f64_to_uint64. fold total.
    rewrite decide_True by (unfold is_u64; lia). fold used. rewrite (u64_small used) by (unfold is_u64; lia).
    apply i64_u64_sub. unfold is_i64. lia. }
  split; [done|]. unfold charge.
  assert (Elim : sr_trafficLimited sr = true) by (unfold sr, traffic_limit; by rewrite Hf). rewrite Elim, El.
  rewrite (i64_small n) by (unfold is_i64; lia). rewrite i64_small by (unfold is_i64; lia).
  f_equal. rewrite <- bool_decide_not. apply bool_decide_ext. lia.
Qed.

End Specs.

(** ** A device for examples: a map that interprets the two commands *)

Fixpoint cut_nl (s : list ascii) : list ascii * list ascii :=
  match s with
  | [] => ([], [])
  | c :: s' => if decide (c = "010"%char) then ([], s') else let '(a, b) := cut_nl s' in (c :: a, b)
  end.

Definition map_ipc (cmd : string) (d : gmap string Z) : option string * gmap string Z :=
  let '(l1, rest) := cut_nl (Encodings.chars cmd) in
  let key := Encodings.text (drop 11 l1) in
  if decide (rest = Encodings.chars ("remove=true" +:+ nl)) then (None, delete key d)
  else let '(l2, _) := cut_nl rest in
       match NetUtils.IPStringToUint32 (λ _, None) (Encodings.text (take (length l2 - 14) (drop 11 l2))) with
       | Ok ip => (None, <[key := ip]> d)
       | _ => (Some "invalid command"%string, d)
       end.

Definition map_device : Device := {| dev := gmap string Z; IpcSet := map_ipc |}.

Lemma cut_nl_app a b : "010"%char ∉ a → cut_nl (a ++ "010"%char :: b) = (a, b).
Proof.
  induction a as [|c a IH]; intros Ha; [done|]. simpl. rewrite decide_False; [|intros ->; apply Ha; by left].
  rewrite IH; [done|]. intros Hin. apply Ha. by right.
Qed.

Lemma ip_no_newline ip : no_newline (NetUtils.Uint32ToIPString ip +:+ "/32").
Proof.
  unfold no_newline, NetUtils.Uint32ToIPString.
  destruct (NetUtils.put32_bytes ip) as (b0 & b1 & b2 & b3 & -> & R0 & R1 & R2 & R3).
  assert (Hd : ∀ b, is_u8 b → "010"%char ∉ Encodings.chars (pretty b)).
  { intros b Hb Hin. destruct (NetUtils.octet_facts b Hb) as (_ & _ & Hf). rewrite Forall_forall in Hf.
    by destruct (Hf _ Hin). }
  unfold NetUtils.ip4_string. rewrite !AwgClient.AwgClient.chars_append. intros Hin.
  repeat (apply elem_of_app in Hin as [Hin|Hin]); try (by eapply Hd; [|exact Hin]);
    simpl in Hin; rewrite ?elem_of_cons in Hin; destruct_or? Hin; try done; by apply not_elem_of_nil in Hin.
Qed.

Lemma text_chars s : Encodings.text (Encodings.chars s) = s.
Proof. apply String.string_of_list_ascii_of_string. Qed.

Lemma key_line key : no_newline key → "010"%char ∉ Encodings.chars ("public_key=" +:+ key).
Proof.
  intros Hk. rewrite AwgClient.AwgClient.chars_append. intros [Hin|Hin]%elem_of_app; [|done].
  simpl in Hin. rewrite !elem_of_cons in Hin. destruct_or! Hin; try done. by apply not_elem_of_nil in Hin.
Qed.

Lemma cut_line l rest : no_newline l →
  cut_nl (Encodings.chars (l +:+ nl +:+ rest)) = (Encodings.chars l, Encodings.chars rest).
Proof. intros Hl. rewrite AwgClient.AwgClient.chars_append. by apply cut_nl_app. Qed.

Lemma allowed_middle t :
  take (length (Encodings.chars "allowed_ip=" ++ t ++ Encodings.chars "/32") - 14)
    (drop 11 (Encodings.chars "allowed_ip=" ++ t ++ Encodings.chars "/32")) = t.
Proof.
  rewrite drop_app_length' by done. rewrite !length_app. simpl length.
  replace (11 + (length t + 3) - 14)%nat with (length t) by lia. apply take_app_length.
Qed.

Lemma map_add key ip (d : gmap string Z) :
  no_newline key → is_u32 ip → map_ipc (add_command key ip) d = (None, <[key := ip]> d).
Proof.
  intros Hk Hip. unfold map_ipc.
  pose proof (cut_line _ ("allowed_ip=" +:+ NetUtils.Uint32ToIPString ip +:+ "/32" +:+ nl) (key_line key Hk)) as E.
  assert (E1 : cut_nl (Encodings.chars (add_command key ip)) = _) by exact E. rewrite E1.
  rewrite decide_False by done.
  assert (Hl : no_newline ("allowed_ip=" +:+ NetUtils.Uint32ToIPString ip +:+ "/32")).
  { unfold no_newline. rewrite AwgClient.AwgClient.chars_append. intros [Hin|Hin]%elem_of_app.
    - simpl in Hin. rewrite !elem_of_cons in Hin. destruct_or! Hin; try done. by apply not_elem_of_nil in Hin.
    - by apply (ip_no_newline ip). }
  pose proof (cut_line _ "" Hl) as E2.
  assert (Etext : Encodings.chars ("allowed_ip=" +:+ NetUtils.Uint32ToIPString ip +:+ "/32" +:+ nl) =
    Encodings.chars (("allowed_ip=" +:+ NetUtils.Uint32ToIPString ip +:+ "/32") +:+ nl +:+ "")).
  { by rewrite !AwgClient.AwgClient.chars_append, <- !(assoc_L app). }
  rewrite Etext, E2. rewrite !AwgClient.AwgClient.chars_append.
  rewrite (allowed_middle (Encodings.chars (NetUtils.Uint32ToIPString ip))).
  rewrite (text_chars (NetUtils.Uint32ToIPString ip)).
  rewrite (NetUtils.IPString_parse (λ _, None) ip Hip).
  change (drop 11 (Encodings.chars "public_key=" ++ Encodings.chars key)) with (Encodings.chars key).
  by rewrite text_chars.
Qed.

Lemma map_remove key (d : gmap string Z) :
  no_newline key → (map_ipc (remove_command key) d).2 = delete key d.
Proof.
  intros Hk. unfold map_ipc.
  pose proof (cut_line _ ("remove=true" +:+ nl) (key_line key Hk)) as E.
  assert (E1 : cut_nl (Encodings.chars (remove_command key)) = _) by exact E. rewrite E1.
  rewrite decide_True by done. simpl. by rewrite drop_0, text_chars.
Qed.

Definition map_device_laws : @DeviceLaws map_device.
Proof.
  refine {| dev_peers := λ d : @dev map_device, (d : gmap string Z) |}.
  - intros key ip d Hk Hip _. simpl. by rewrite map_add.
  - intros key d Hk. by apply map_remove.
Defined.

(** ** Witnesses *)

Definition demo_platform : Repos.Platform := {| Repos.f64_out_of_range := λ _ _, 0%Z |}.
Definition demo_awg : @AWGTransport map_device :=
  @mkAWG map_device false AwgClient.AwgClient.demo_config "" "node" (∅ : gmap string Z) [] ∅ ∅ ∅ [].
Notation demo_client := AwgClient.AwgClient.demo_client.
Notation demo_router := Router.Router.demo_router.

(** A transport without clients is consistent with any router. *)
Lemma demo_awg_ok r :
  broker_ok (Router.Router.routingsubs r) → @awg_ok map_device map_device_laws _ _ r demo_awg.
Proof.
  intros Hb. constructor; [done| | |done].
  - intros ip ref Hi. change ((∅ : gmap Z nat) !! ip = Some ref) in Hi. by rewrite lookup_empty in Hi.
  - intros key ip Hi. change ((∅ : gmap string Z) !! key = Some ip) in Hi. by rewrite lookup_empty in Hi.
Qed.

Lemma demo_key_ok : no_newline (Model.AwgPublicKey demo_client).
Proof. apply (bool_decide_eq_true_1 (no_newline _)). by vm_compute. Qed.


Definition demo_taken := Router.Router.set_table demo_router {[167837698%Z := mkObj 9 "other" 167837698 None]}.

Lemma failed_registration_drops_route_witness :
  ∃ r' t', @CreatePeer map_device _ _ _ demo_platform 5 demo_taken demo_awg demo_client =
    Ok (Some "failed to add peer to routing table"%string, (r', t')) ∧
    Router.Router.table r' !! 167837698%Z = None.
Proof.
  apply (@failed_registration_drops_route map_device map_device_laws _ _ _ demo_platform 5 demo_taken demo_awg demo_client).
  - apply demo_awg_ok, empty_broker_ok.
  - by vm_compute.
  - exact demo_key_ok.
  - reflexivity.
  - reflexivity.
  - by eexists.
  - by vm_compute.
Defined.

Definition demo_read : read_state := mkRead [replicate 80 0%Z] [0%Z] [(0%nat, 28%nat)] [].

Lemma demo_fits : fits (pool_heap demo_pool) 4 demo_read.
Proof.
  constructor; [done|]. intros s Hs. simpl in Hs. apply list_elem_of_singleton in Hs as ->. split; [by vm_compute|].
  intros [|i] buf Hb; [|done]. injection Hb as <-. vm_compute. lia.
Qed.

Lemma read_delivers_in_order_witness :
  ∃ (c : list slice) st', Read false true (pool_heap demo_pool) 4 demo_read = Some (Ok (length c, None, st')).
Proof.
  destruct (read_delivers_in_order true (pool_heap demo_pool) 4 demo_read demo_fits) as (c & st' & E & _).
  - simpl. lia.
  - done.
  - exists c, st'. exact E.
Defined.

Definition demo_ap : AWGPeer := NewAWGPeer 0 "node" 167837698 "aa" None.
Definition demo_awg1 : @AWGTransport map_device := set_objs demo_awg {[1%nat := demo_ap]} [].
Definition demo_other : list Z := take 24 demo_packet ++ ((λ x, 255 - x)%Z <$> drop 24 demo_packet).

Lemma queued_packet_is_overwritten_witness :
  ∃ t' p2 st', @SendDatagram map_device true 1 0 (dm_data demo_msg) demo_awg1 = (None, t') ∧
    NewMessageCopyFrom (Some 0%nat) (Free demo_pool 0) demo_other = Ok (p2, 0%nat) ∧
    Read false true (pool_heap p2) 0 (mkRead [replicate 80 0%Z] [0%Z] (in_ t') []) = Some (Ok (1%nat, None, st')).
Proof.
  destruct (@queued_packet_is_overwritten map_device demo_pool {[0%nat]} 0 demo_msg demo_other demo_awg1 1 demo_ap 0
    (replicate 80 0%Z) [0%Z] 0%Z) as (t' & p2 & st' & E1 & E2 & E3 & _).
  - exact demo_pool_ok.
  - by apply elem_of_singleton.
  - exact demo_lookup.
  - reflexivity.
  - reflexivity.
  - by vm_compute.
  - by vm_compute.
  - reflexivity.
  - reflexivity.
  - reflexivity.
  - reflexivity.
  - vm_compute. lia.
  - exists t', p2, st'. split; [exact E1|]. split; [exact E2|exact E3].
Defined.

Definition demo_limited : Model.Peer :=
  Model.mkPeer 1 "awg" 167837698 0 None 600 500 (Some (Repos.mkF64 1000 (-30))) None "00ff" "11ee".

Lemma quota_is_what_is_left_witness :
  sr_totalLimit (NewShapedRoute 1 false (@speed_limit demo_platform demo_limited)
                   (@traffic_limit demo_platform demo_limited)) = (-100)%Z.
Proof.
  destruct (@quota_is_what_is_left _ demo_platform 1 false demo_limited (Repos.mkF64 1000 (-30)) 1) as [E _].
  - reflexivity.
  - split; vm_compute; congruence.
  - split; vm_compute; congruence.
  - split; vm_compute; congruence.
  - exact E.
Defined.

End AwgTransport.
