(* ===== verification/Services.v ===== *)
(** * The managers (pkg/services)

    The firewall manager keeps the rules of this node's clients in the database
    and in the firewall; the peers manager keeps the clients in the database and
    in the transports.  Both see their collaborators through interfaces: the
    classes [LocalRules] (the firewall as service.go declares it) and
    [Transports] (the registered transports, by name), with the laws the theorems
    rely on.  An operation returns the error message, if any, and the state it
    leaves; the database may fail at any statement. *)
From S2P Require Import Prelude Firewall Repos Model.
Import Firewall.Firewall.

Open Scope go_scope.

Class LocalRules (W : Type) := {
  lr_AddRule : W → PortRuleIndex → PortRule → gores (bool * W);
  lr_RemoveRule : W → PortRuleIndex → gores (bool * W) }.

(** A partial map of rules; [lr_room w n]: rules of node [n] can be added.  A rule
    is removed by the low 48 bits of its number. *)
Class LocalRulesLaws (W : Type) `{LocalRules W} := {
  lr_rules : W → PortRuleIndex → option PortRule;
  lr_inv : W → Prop;
  lr_room : W → string → Prop;
  lr_add_law w i x : lr_inv w → wf_index i → lr_room w (NodeID i) →
    ∃ b w', lr_AddRule w i x = Ok (b, w') ∧ lr_inv w' ∧ lr_room w' (NodeID i) ∧
      ∀ j, wf_index j → lr_rules w' j =
        if decide (j = i ∧ lr_rules w i = None) then Some (with_index i x) else lr_rules w j;
  lr_remove_law w i : lr_inv w → NodeID i ≠ ""%string →
    ∃ b w', lr_RemoveRule w i = Ok (b, w') ∧ lr_inv w' ∧ (∀ n, lr_room w n → lr_room w' n) ∧
      ∀ j, wf_index j → lr_rules w' j = if decide (j = low_index i) then None else lr_rules w j }.

Class Transports (W : Type) := {
  tp_registered : W → string → bool;
  tp_ExistsPeer : W → string → Z → bool;
  tp_GeneratePeerKeys : W → string → Model.Peer → gores Model.Peer * W;
  tp_CreatePeer : Z → W → string → Model.Peer → gores (option string * W);
  tp_KickPeer : W → string → Z → gores (bool * W);
  tp_GenerateClientConnectionString : W → string → Model.Peer → string → string → gores string }.

(** A transport serves the clients it created; an operation on one client changes
    no other, and a creation that fails leaves the client unserved. *)
Class TransportsLaws (W : Type) `{Transports W} := {
  tp_inv : W → Prop;
  tp_keys_law w n p : tp_inv w → tp_registered w n = true →
    let '(res, w') := tp_GeneratePeerKeys w n p in
    res ≠ Panic ∧ tp_inv w' ∧ (∀ m, tp_registered w' m = tp_registered w m) ∧
    (∀ m ip, tp_ExistsPeer w' m ip = tp_ExistsPeer w m ip) ∧
    (∀ p', res = Ok p' → ∃ priv pub, p' = Model.set_keys p priv pub);
  tp_create_law now w n p : tp_inv w → tp_registered w n = true →
    ∃ e w', tp_CreatePeer now w n p = Ok (e, w') ∧ tp_inv w' ∧ (∀ m, tp_registered w' m = tp_registered w m) ∧
      ∀ m ip, tp_ExistsPeer w' m ip = if decide (m = n ∧ ip = Model.VirtualIP p)
                                      then bool_decide (e = None) else tp_ExistsPeer w m ip;
  tp_kick_law w n ip : tp_inv w → tp_registered w n = true →
    ∃ b w', tp_KickPeer w n ip = Ok (b, w') ∧ tp_inv w' ∧ (∀ m, tp_registered w' m = tp_registered w m) ∧
      ∀ m j, tp_ExistsPeer w' m j = if decide (m = n ∧ j = ip) then false else tp_ExistsPeer w m j;
  tp_link_law w n p addr name : tp_inv w → tp_registered w n = true →
    tp_GenerateClientConnectionString w n p addr name ≠ Panic }.

(** The rules are as before. *)
Definition rules_kept {W} `{LocalRulesLaws W} (w w' : W) : Prop :=
  lr_inv w' ∧ (∀ k, lr_room w k → lr_room w' k) ∧ ∀ j, lr_rules w' j = lr_rules w j.
(** The transports serve who they served before. *)
Definition service_kept {W} `{TransportsLaws W} (w w' : W) : Prop :=
  tp_inv w' ∧ (∀ m, tp_registered w' m = tp_registered w m) ∧ (∀ m ip, tp_ExistsPeer w' m ip = tp_ExistsPeer w m ip).

(** The two interfaces of one node do not disturb each other. *)
Class NodeLaws (W : Type) `{LocalRulesLaws W} `{TransportsLaws W} := {
  nl_add w i x b w' : tp_inv w → lr_AddRule w i x = Ok (b, w') → service_kept w w';
  nl_remove w i b w' : tp_inv w → lr_RemoveRule w i = Ok (b, w') → service_kept w w';
  nl_keys w n p : lr_inv w → rules_kept w (tp_GeneratePeerKeys w n p).2;
  nl_create now w n p e w' : lr_inv w → tp_inv w → tp_CreatePeer now w n p = Ok (e, w') → rules_kept w w';
  nl_kick w n ip b w' : lr_inv w → tp_KickPeer w n ip = Ok (b, w') → rules_kept w w' }.

#[export] Instance rules_kept_trans {W} `{LocalRulesLaws W} : Transitive (rules_kept (W := W)).
Proof.
  intros w1 w2 w3 (_ & R12 & E12) (I3 & R23 & E23). split; [done|]. split; [auto|].
  intros j. by rewrite E23.
Qed.
#[export] Instance service_kept_trans {W} `{TransportsLaws W} : Transitive (service_kept (W := W)).
Proof.
  intros w1 w2 w3 (_ & R12 & E12) (I3 & R23 & E23). split; [done|].
  split; [intros m; by rewrite R23|]. intros m ip. by rewrite E23.
Qed.

Module Services.
Import Repos.Repos.

(** ** Conversions *)

Definition peerFromRow (row : Peer) : Model.Peer :=
  Model.mkPeer (u64 (ID row)) (Type_ row) (u32 (VirtualIp row)) (LastSeen row) (ExpirationDate row)
    (u64 (FromPeerTotal row)) (u64 (ToPeerTotal row)) (TrafficLimitGb row) (SpeedLimitMbps row)
    (AwgPrivateKey row) (AwgPublicKey row).

Definition portRuleFromRow (row : PeersRule) : Model.PortRule :=
  Model.mkPortRule (u64 (Repos.RuleID row)) (TargetIp row) (Repos.Protocol row)
    (u16 (Repos.PortRangeStart row)) (Repos.PortRangeEnd row).

(** A rule as the manager hands it to the firewall, which fills in the index. *)
Definition fw_rule (ip : Z) (target : option Z) (proto : string) (pstart : Z) (pend : option Z) : PortRule :=
  mkRule (mkIndex "" 0) ip target proto pstart pend.

(** ** The firewall manager *)

Module Firewallmanager.

Section Manager.
Context {W : Type} `{LR : LocalRules W} (nodeID : string).

Fixpoint add_loaded (w : W) (l : list LoadAllRulesRow) : gores W :=
  match l with
  | [] => Ok w
  | row :: rest =>
      x <- lr_AddRule w (mkIndex nodeID (u64 (l_ID row)))
             (fw_rule (u32 (l_VirtualIp row)) (l_TargetIp row) (l_Protocol row)
                (u16 (l_PortRangeStart row)) (l_PortRangeEnd row));;
      add_loaded x.2 rest
  end.

Definition Run `{QueryPlan} (db : DB) (w : W) : gores (option string * DB * W) :=
  match LoadAllRules db with
  | (Panic, _) => Panic
  | (Err _, db1) => Ok (Some "load rules from DB"%string, db1, w)
  | (Ok rows, db1) => w' <- add_loaded w rows;; Ok (None, db1, w')
  end.

(** The last component is the rule with its identity, which the code stores
    through the pointer. *)
Definition AddRule (db : DB) (w : W) (peerID : Z) (rule : Model.PortRule)
    : gores (option string * DB * W * Model.PortRule) :=
  match InsertPeerRule (i64 peerID) (Model.TargetAddress rule) (Model.Protocol rule)
          (Model.PortRangeStart rule) (Model.PortRangeEnd rule) db with
  | (Panic, _) => Panic
  | (Err _, db1) => Ok (Some "insert rule into DB"%string, db1, w, rule)
  | (Ok dbRuleID, db1) =>
      match GetPeerByID (i64 peerID) db1 with
      | (Panic, _) => Panic
      | (Err _, db2) => Ok (Some "insert rule into DB: get peer"%string, db2, w, rule)
      | (Ok peer, db2) =>
          let id := u64 dbRuleID in
          x <- lr_AddRule w (mkIndex nodeID id)
                 (fw_rule (u32 (VirtualIp peer)) (Model.TargetAddress rule) (Model.Protocol rule)
                    (Model.PortRangeStart rule) (Model.PortRangeEnd rule));;
          Ok (None, db2, x.2,
              Model.mkPortRule id (Model.TargetAddress rule) (Model.Protocol rule)
                (Model.PortRangeStart rule) (Model.PortRangeEnd rule))
      end
  end.

Definition RemoveRule (db : DB) (w : W) (ruleID : Z) : gores (option string * DB * W) :=
  match DeletePeerRule (i64 ruleID) db with
  | (Panic, _) => Panic
  | (Err _, db1) => Ok (Some "delete rule from DB"%string, db1, w)
  | (Ok _, db1) => x <- lr_RemoveRule w (mkIndex nodeID ruleID);; Ok (None, db1, x.2)
  end.

Fixpoint remove_loaded (w : W) (l : list PeersRule) : gores W :=
  match l with
  | [] => Ok w
  | row :: rest => x <- lr_RemoveRule w (mkIndex nodeID (u64 (Repos.RuleID row)));; remove_loaded x.2 rest
  end.

Definition RemoveAllPeerRules (db : DB) (w : W) (peerID : Z) : gores (option string * DB * W) :=
  match LoadRulesByPeerID (i64 peerID) db with
  | (Panic, _) => Panic
  | (Err _, db1) => Ok (Some "load all peer rules from DB"%string, db1, w)
  | (Ok rules, db1) =>
      w' <- remove_loaded w rules;;
      match DeleteAllPeerRules (i64 peerID) db1 with
      | (Panic, _) => Panic
      | (Err _, db2) => Ok (Some "delete all peer rules from DB"%string, db2, w')
      | (Ok _, db2) => Ok (None, db2, w')
      end
  end.

Definition ListPeerRules (db : DB) (peerID : Z) : gores (list Model.PortRule) * DB :=
  match LoadRulesByPeerID (i64 peerID) db with
  | (Panic, db1) => (Panic, db1)
  | (Err _, db1) => (Err "failed to load rules from db", db1)
  | (Ok rows, db1) => (Ok (portRuleFromRow <$> rows), db1)
  end.

End Manager.
End Firewallmanager.

(** ** The peers manager *)

Module PeersManager.

Section Manager.
Context {W : Type} `{LR : LocalRules W} `{TP : Transports W} (nodeID : string) (startingIP : Z).

(** The body of the loops of [Run] and [syncPeers]: [skip] says whether peers that
    the transport has already are left alone. *)
Fixpoint prepare_peers (skip : bool) (now : Z) (w : W) (rows : list Peer) : gores W :=
  match rows with
  | [] => Ok w
  | row :: rest =>
      let peer := peerFromRow row in
      if Model.IsExpired now peer then prepare_peers skip now w rest else
      if negb (tp_registered w (Model.Type_ peer)) then prepare_peers skip now w rest else
      if skip && tp_ExistsPeer w (Model.Type_ peer) (Model.VirtualIP peer) then prepare_peers skip now w rest else
      x <- tp_CreatePeer now w (Model.Type_ peer) peer;; prepare_peers skip now x.2 rest
  end.

Definition load_and_prepare (skip : bool) (now : Z) (db : DB) (w : W) : gores (option string * DB * W) :=
  match Repos.ListPeers db with
  | (Panic, _) => Panic
  | (Err _, db1) => Ok (Some "failed to load peers"%string, db1, w)
  | (Ok rows, db1) => w' <- prepare_peers skip now w rows;; Ok (None, db1, w')
  end.

(** [Run] up to the start of its two goroutines, and the periodic [syncPeers]. *)
Definition Run := load_and_prepare false.
Definition syncPeers := load_and_prepare true.

(** One item of the statistics goroutine. *)
Definition drain_stats (db : DB) (ip lastSeen deltaToPeer deltaFromPeer : Z) : gores () * DB :=
  UpdatePeerStats (i64 deltaFromPeer) (i64 deltaToPeer) lastSeen ip db.

(** Beginning and committing a transaction can fail like a statement. *)
Definition tx_control : DB → gores () * DB := stmt (λ db, Ok (tt, db)).

Definition create_params (peer : Model.Peer) : CreatePeerAutoIDParams :=
  mkCreate (Model.Type_ peer) startingIP (Model.ExpirationDate peer) (Model.TrafficLimitGb peer)
    (Model.SpeedLimitMbps peer) (Model.AwgPrivateKey peer) (Model.AwgPublicKey peer).

(** The part inside the transaction that began at [db1]: every error rolls it
    back. *)
Definition create_in_tx (now : Z) (db1 : DB) (w1 : W) (peer1 : Model.Peer)
    : gores (option string * DB * W * Model.Peer) :=
  match Repos.CreatePeerAutoID now (create_params peer1) db1 with
  | (Panic, _) => Panic
  | (Err _, db2) => Ok (Some "create peer"%string, rollback db1 db2, w1, peer1)
  | (Ok row, db2) =>
      let peer2 := Model.set_row peer1 (u64 (ID row)) (u32 (VirtualIp row)) in
      x <- tp_CreatePeer now w1 (Model.Type_ peer1) peer2;;
      let '(err, w2) := x in
      match err with
      | Some _ => Ok (Some "failed to prepare peer"%string, rollback db1 db2, w2, peer2)
      | None =>
          match tx_control db2 with
          | (Panic, _) => Panic
          | (Err _, db3) => Ok (Some "commit tx"%string, rollback db1 db3, w2, peer2)
          | (Ok _, db3) => Ok (None, db3, w2, peer2)
          end
      end
  end.

Definition CreatePeerAutoID (now : Z) (db : DB) (w : W) (peer : Model.Peer)
    : gores (option string * DB * W * Model.Peer) :=
  let ty := Model.Type_ peer in
  if negb (tp_registered w ty) then Ok (Some "transport not found"%string, db, w, peer) else
  match tp_GeneratePeerKeys w ty peer with
  | (Panic, _) => Panic
  | (Err _, w1) => Ok (Some "failed to generate peer keys"%string, db, w1, peer)
  | (Ok peer1, w1) =>
      match tx_control db with
      | (Panic, _) => Panic
      | (Err _, db1) => Ok (Some "begin tx"%string, db1, w1, peer1)
      | (Ok _, db1) => create_in_tx now db1 w1 peer1
      end
  end.

Definition GetPeerByID (db : DB) (id : Z) : gores Model.Peer * DB :=
  match Repos.GetPeerByID (i64 id) db with
  | (Ok row, db1) => (Ok (peerFromRow row), db1)
  | (Err _, db1) => (Err "get peer by ID", db1)
  | (Panic, db1) => (Panic, db1)
  end.

Definition GetPeerByVirtualIP (db : DB) (ip : Z) : gores Model.Peer * DB :=
  match Repos.GetPeerByVirtualIP ip db with
  | (Ok row, db1) => (Ok (peerFromRow row), db1)
  | (Err _, db1) => (Err "get peer by virtual IP", db1)
  | (Panic, db1) => (Panic, db1)
  end.

Definition ListPeers (db : DB) : gores (list Model.Peer) * DB :=
  match Repos.ListPeers db with
  | (Ok rows, db1) => (Ok (peerFromRow <$> rows), db1)
  | (Err _, db1) => (Err "list peers", db1)
  | (Panic, db1) => (Panic, db1)
  end.

Definition ProlongPeer (db : DB) (peerId newExpiration : Z) : gores () * DB :=
  Repos.ProlongPeer (Some newExpiration) (i64 peerId) db.

Definition DeletePeer (db : DB) (w : W) (peerId : Z) : gores (option string * DB * W) :=
  x <- Firewallmanager.RemoveAllPeerRules nodeID db w peerId;;
  match x with
  | (Some _, db1, w1) => Ok (Some "delete peer rules from DB"%string, db1, w1)
  | (None, db1, w1) =>
      match Repos.GetPeerByID (i64 peerId) db1 with
      | (Panic, _) => Panic
      | (Err _, db2) => Ok (Some "failed to get peer"%string, db2, w1)
      | (Ok peer, db2) =>
          match Repos.DeletePeer (i64 peerId) db2 with
          | (Panic, _) => Panic
          | (Err _, db3) => Ok (Some "delete peer from DB"%string, db3, w1)
          | (Ok _, db3) =>
              if tp_registered w1 (Type_ peer)
              then y <- tp_KickPeer w1 (Type_ peer) (u32 (VirtualIp peer));; Ok (None, db3, y.2)
              else Ok (None, db3, w1)
          end
      end
  end.

Definition GenerateClientKey (db : DB) (w : W) (peerId : Z) (addr name : string) : gores string * DB :=
  match GetPeerByID db peerId with
  | (Ok peer, db1) =>
      (if tp_registered w (Model.Type_ peer)
       then tp_GenerateClientConnectionString w (Model.Type_ peer) peer addr name
       else Err "corresponding transport not found", db1)
  | (Err e, db1) => (Err e, db1)
  | (Panic, db1) => (Panic, db1)
  end.

End Manager.
End PeersManager.

(** ** Specification of the firewall manager *)

Section RulesSpec.
Context {W : Type} `{LL : LocalRulesLaws W} (nodeID : string) (node_named : nodeID ≠ ""%string).

(** The rule the firewall should have for a row and its peer. *)
Definition fw_of (r : PeersRule) (p : Peer) : PortRule :=
  with_index (mkIndex nodeID (Repos.RuleID r))
    (fw_rule (u32 (VirtualIp p)) (TargetIp r) (Repos.Protocol r) (u16 (Repos.PortRangeStart r))
       (Repos.PortRangeEnd r)).

Definition own (w : W) (k : Z) : option PortRule := lr_rules w (mkIndex nodeID k).

(** The rules of this node in the firewall are those of the database. *)
Definition backed (db : DB) (w : W) : Prop :=
  ∀ k x, (0 <= k < 2 ^ 48)%Z → own w k = Some x →
    ∃ r p, r ∈ peers_rules db ∧ Repos.RuleID r = k ∧ p ∈ peers db ∧ ID p = PeerID r ∧ x = fw_of r p.
Definition complete (db : DB) (w : W) : Prop :=
  ∀ r p, r ∈ peers_rules db → p ∈ peers db → ID p = PeerID r → own w (Repos.RuleID r) = Some (fw_of r p).

Definition node_ok (w : W) : Prop := lr_inv w ∧ lr_room w nodeID.

(** ** Lemmas *)

Lemma wf_own k : (0 <= k < 2 ^ 48)%Z → wf_index (mkIndex nodeID k).
Proof. done. Qed.

Lemma rule_id_range db r : db_ok db → (rules_seq db < 2 ^ 48)%Z → r ∈ peers_rules db →
  (0 <= Repos.RuleID r < 2 ^ 48)%Z ∧ u64 (Repos.RuleID r) = Repos.RuleID r.
Proof.
  intros Hd Hs Hr. destruct (dk_rule_seq _ Hd) as [_ Hb]. specialize (Hb r Hr).
  split; [lia|]. apply u64_small. unfold is_u64. lia.
Qed.

Lemma add_own w k x : node_ok w → (0 <= k < 2 ^ 48)%Z →
  ∃ b w', lr_AddRule w (mkIndex nodeID k) x = Ok (b, w') ∧ node_ok w' ∧
    ∀ j, (0 <= j < 2 ^ 48)%Z → own w' j =
      if decide (j = k ∧ own w k = None) then Some (with_index (mkIndex nodeID k) x) else own w j.
Proof.
  intros [Hi Hr] Hk. destruct (lr_add_law w (mkIndex nodeID k) x Hi (wf_own k Hk) Hr) as (b & w' & E & Hi' & Hr' & Hl).
  exists b, w'. split; [done|]. split; [done|]. intros j Hj. unfold own. rewrite (Hl _ (wf_own j Hj)).
  apply decide_ext. split; [intros [[= ->] ?]; done|intros [-> ?]; done].
Qed.

Lemma remove_own_any w k : node_ok w →
  ∃ b w', lr_RemoveRule w (mkIndex nodeID k) = Ok (b, w') ∧ node_ok w' ∧
    ∀ j, (0 <= j < 2 ^ 48)%Z → own w' j = if decide (j = k mod 2 ^ 48)%Z then None else own w j.
Proof.
  intros [Hi Hr]. destruct (lr_remove_law w (mkIndex nodeID k) Hi node_named) as (b & w' & E & Hi' & Hr' & Hl).
  exists b, w'. split; [done|]. split; [by split; [|apply Hr']|]. intros j Hj. unfold own. rewrite (Hl _ (wf_own j Hj)).
  apply decide_ext. split; [intros [= ->]; done|intros ->; done].
Qed.

Lemma remove_own w k : node_ok w → (0 <= k < 2 ^ 48)%Z →
  ∃ b w', lr_RemoveRule w (mkIndex nodeID k) = Ok (b, w') ∧ node_ok w' ∧
    ∀ j, (0 <= j < 2 ^ 48)%Z → own w' j = if decide (j = k) then None else own w j.
Proof. intros Hw Hk. pose proof (remove_own_any w k Hw) as Hr. by rewrite Z.mod_small in Hr. Qed.

(** The loop over the rules of a peer. *)
Lemma remove_loaded_spec l w : node_ok w →
  (∀ r, r ∈ l → (0 <= Repos.RuleID r < 2 ^ 48)%Z ∧ u64 (Repos.RuleID r) = Repos.RuleID r) →
  ∃ w', Firewallmanager.remove_loaded nodeID w l = Ok w' ∧ node_ok w' ∧
    ∀ j, (0 <= j < 2 ^ 48)%Z → own w' j = if decide (j ∈ Repos.RuleID <$> l) then None else own w j.
Proof.
  revert w. induction l as [|r l IH]; intros w Hw Hl; simpl; [by exists w|].
  destruct (Hl r ltac:(by left)) as [Hr ->].
  destruct (remove_own w (Repos.RuleID r) Hw Hr) as (b & w1 & -> & Hw1 & H1). cbn [gobind snd].
  destruct (IH w1 Hw1) as (w' & -> & Hw' & H2); [intros r' Hr'; apply Hl; by right|].
  exists w'. split; [done|]. split; [done|]. intros j Hj. rewrite H2, H1 by done.
  destruct (decide (j = Repos.RuleID r)) as [->|Hne].
  - rewrite (decide_True (P := Repos.RuleID r ∈ Repos.RuleID r :: _)) by (by left). by case_decide.
  - apply decide_ext. rewrite elem_of_cons. split; [by right|by intros [?|?]].
Qed.

Definition loaded_rule (row : LoadAllRulesRow) : PortRule :=
  with_index (mkIndex nodeID (l_ID row))
    (fw_rule (u32 (l_VirtualIp row)) (l_TargetIp row) (l_Protocol row) (u16 (l_PortRangeStart row)) (l_PortRangeEnd row)).

(** The loop over the rules of the database. *)
Lemma add_loaded_spec l w : node_ok w →
  (∀ a, a ∈ l → (0 <= l_ID a < 2 ^ 48)%Z ∧ u64 (l_ID a) = l_ID a) →
  ∃ w', Firewallmanager.add_loaded nodeID w l = Ok w' ∧ node_ok w' ∧
    (∀ j x, (0 <= j < 2 ^ 48)%Z → own w j = Some x → own w' j = Some x) ∧
    (∀ j x, (0 <= j < 2 ^ 48)%Z → own w' j = Some x → own w j = Some x ∨ ∃ a, a ∈ l ∧ l_ID a = j ∧ x = loaded_rule a) ∧
    (∀ a, a ∈ l → is_Some (own w' (l_ID a))).
Proof.
  revert w. induction l as [|a l IH]; intros w Hw Hl; simpl.
  { exists w. split_and!; try done; [by left|]. by intros a ?%not_elem_of_nil. }
  destruct (Hl a ltac:(by left)) as [Ha ->].
  destruct (add_own w (l_ID a) (fw_rule (u32 (l_VirtualIp a)) (l_TargetIp a) (l_Protocol a) (u16 (l_PortRangeStart a))
    (l_PortRangeEnd a)) Hw Ha) as (b & w1 & -> & Hw1 & H1). cbn [gobind snd].
  destruct (IH w1 Hw1) as (w' & -> & Hw' & Hkeep & Hback & Hall); [intros a' Ha'; apply Hl; by right|].
  exists w'. split; [done|]. split; [done|]. split; [|split].
  - intros j x Hj Hx. apply Hkeep; [done|]. rewrite H1 by done. rewrite decide_False; [done|].
    intros [-> Hn]. congruence.
  - intros j x Hj Hx. destruct (Hback j x Hj Hx) as [Hx1|(a' & ? & ?)]; [|right; exists a'; split; [by right|done]].
    rewrite H1 in Hx1 by done. case_decide as Hd; [|by left]. destruct Hd as [-> _]. right. exists a.
    split; [by left|]. split; [done|]. injection Hx1 as <-. done.
  - intros a' [->|Ha']%elem_of_cons; [|by apply Hall].
    destruct (own w (l_ID a)) as [x|] eqn:Eo.
    + exists x. apply Hkeep; [done|]. rewrite H1 by done. rewrite decide_False; [done|]. by intros [_ ?].
    + eexists. apply Hkeep; [done|]. rewrite H1 by done. by rewrite decide_True.
Qed.

(** A changed fault pattern changes nothing. *)
Lemma same_backed db db' w : same_tables db db' → (backed db w ↔ backed db' w) ∧ (complete db w ↔ complete db' w).
Proof. by intros [fs ->]. Qed.

Lemma AddRule_fm_spec db w peerID rule :
  db_ok db → node_ok w → backed db w → (rules_seq db + 1 < 2 ^ 48)%Z → is_u16 (Model.PortRangeStart rule) →
  ∃ err db' w' rule', Firewallmanager.AddRule nodeID db w peerID rule = Ok (err, db', w', rule') ∧
    db_ok db' ∧ node_ok w' ∧ backed db' w' ∧ (err = None → complete db w → complete db' w').
Proof.
  intros Hd Hw Hb Hs Hu. unfold Firewallmanager.AddRule.
  destruct (InsertPeerRule _ _ _ _ _ db) as [res db1] eqn:Ei.
  pose proof (InsertPeerRule_spec _ _ _ _ _ _ _ _ Hd Ei) as Hi. destruct res as [id|e|]; [|eexists _, _, _, _|done].
  2: { split; [reflexivity|]. split; [by eapply same_tables_ok|]. split; [done|].
       split; [by apply (same_backed _ _ _ Hi)|done]. }
  destruct Hi as (-> & Ep & Es & Hd1 & Er). set (row := mkRuleRow _ _ _ _ _ _) in Er.
  assert (Hr01 : (0 <= rules_seq db)%Z) by apply (dk_rule_seq _ Hd).
  assert (Hbk1 : backed db1 w).
  { intros k x Hk Hx. destruct (Hb k x Hk Hx) as (r & p & Hr & ? & Hp & ?). exists r, p.
    rewrite Er, Ep. split; [apply elem_of_app; by left|done]. }
  destruct (Repos.GetPeerByID (i64 peerID) db1) as [res2 db2] eqn:Eg.
  destruct (GetPeerByID_spec _ _ _ _ Eg) as (Hsame & Hnp & Hfound).
  destruct (same_backed db1 db2 w Hsame) as [Hbs _]. pose proof (same_tables_ok _ _ Hsame Hd1) as Hd2.
  destruct res2 as [p|e|].
  2: { eexists _, _, _, _. split; [reflexivity|]. split; [done|]. split; [done|]. split; [by apply Hbs|done]. }
  2: done.
  destruct (Hfound p eq_refl) as [Hp Hid]. rewrite u64_small by (unfold is_u64; lia).
  destruct (add_own w (rules_seq db + 1) (fw_rule (u32 (VirtualIp p)) (Model.TargetAddress rule) (Model.Protocol rule)
    (Model.PortRangeStart rule) (Model.PortRangeEnd rule)) Hw ltac:(lia)) as (b & w' & -> & Hw' & Hown).
  assert (Hnone : own w (rules_seq db + 1) = None).
  { destruct (own w (rules_seq db + 1)) as [x|] eqn:Ex; [|done]. exfalso.
    destruct (Hb (rules_seq db + 1)%Z x ltac:(lia) Ex) as (r & q & Hr & Hrid & _). destruct (dk_rule_seq _ Hd) as [_ Hb2].
    specialize (Hb2 r Hr). lia. }
  assert (Efw : with_index (mkIndex nodeID (rules_seq db + 1)) (fw_rule (u32 (VirtualIp p)) (Model.TargetAddress rule)
    (Model.Protocol rule) (Model.PortRangeStart rule) (Model.PortRangeEnd rule)) = fw_of row p).
  { unfold fw_of, row. simpl. by rewrite u16_small. }
  eexists _, _, _, _. split; [reflexivity|]. split; [done|]. split; [done|].
  destruct Hsame as [fs ->]. split.
  - intros k x Hk Hx. rewrite Hown in Hx by done. case_decide as Hdec.
    + destruct Hdec as [-> _]. injection Hx as <-. exists row, p. simpl. rewrite Er.
      split; [apply elem_of_app; right; by apply list_elem_of_singleton|]. by split_and!.
    + by apply Hbk1.
  - intros _ Hc r q Hr Hq Hrq. simpl in Hr, Hq. rewrite Er in Hr. rewrite Ep in Hq.
    apply elem_of_app in Hr as [Hr|Hr%list_elem_of_singleton].
    + destruct (rule_id_range db r Hd ltac:(lia) Hr) as [Hrr _]. rewrite Hown by done.
      rewrite decide_False; [by apply Hc|]. intros [Heq _]. destruct (dk_rule_seq _ Hd) as [_ Hb2].
      specialize (Hb2 r Hr). lia.
    + subst r. simpl. rewrite Hown by lia. rewrite decide_True by done. rewrite Efw.
      assert (q = p) as ->; [|done]. rewrite Ep in Hp. simpl in Hrq.
      apply (row_by_key ID (peers db)); [by apply sorted_NoDup, (dk_ids _ Hd)|done|done|congruence].
Qed.

(** The rules that a filter keeps. *)
Lemma backed_filter (P : PeersRule → Prop) `{∀ r, Decision (P r)} db db' w w' :
  backed db w → peers db' = peers db → peers_rules db' = filter P (peers_rules db) →
  (∀ j x, (0 <= j < 2 ^ 48)%Z → own w' j = Some x → own w j = Some x) →
  (∀ r, r ∈ peers_rules db → (0 <= Repos.RuleID r < 2 ^ 48)%Z → is_Some (own w' (Repos.RuleID r)) → P r) →
  backed db' w'.
Proof.
  intros Hb Ep Er Hsub HP k x Hk Hx. destruct (Hb k x Hk (Hsub _ _ Hk Hx)) as (r & p & Hr & <- & Hp & Hid & ->).
  exists r, p. rewrite Ep, Er. split; [|done]. apply list_elem_of_filter. split; [|done]. apply HP; eauto.
Qed.

Lemma RemoveRule_fm_spec db w ruleID :
  db_ok db → node_ok w → backed db w → (rules_seq db < 2 ^ 48)%Z → is_u64 ruleID →
  ∃ err db' w', Firewallmanager.RemoveRule nodeID db w ruleID = Ok (err, db', w') ∧
    db_ok db' ∧ node_ok w' ∧ backed db' w' ∧
    (err = None → own w' (ruleID mod 2 ^ 48) = None ∧ ((ruleID < 2 ^ 48)%Z → complete db w → complete db' w')).
Proof.
  intros Hd Hw Hb Hs Hid. unfold Firewallmanager.RemoveRule.
  destruct (DeletePeerRule (i64 ruleID) db) as [res db1] eqn:Ei.
  pose proof (DeletePeerRule_spec _ _ _ _ Hd Ei) as Hi. destruct res as [[]|e|]; [|eexists _, _, _|done].
  2: { split; [reflexivity|]. split; [by eapply same_tables_ok|]. split; [done|].
       split; [by apply (same_backed _ _ _ Hi)|done]. }
  destruct Hi as (Ep & Er & Hd1). destruct (remove_own_any w ruleID Hw) as (b & w' & -> & Hw' & Hown).
  pose proof (Z.mod_pos_bound ruleID (2 ^ 48) ltac:(lia)) as Hmod.
  cbn [gobind snd]. eexists _, _, _. split; [reflexivity|]. split; [done|]. split; [done|]. split; [|intros _; split].
  - apply (backed_filter (λ r, Repos.RuleID r ≠ i64 ruleID) db db1 w w' Hb Ep Er).
    + intros j x Hj. rewrite Hown by done. by case_decide.
    + intros r Hr Hrr [x Hx] Heq. rewrite Hown in Hx by done. rewrite decide_True in Hx; [done|].
      clear -Heq Hrr Hid. word_lia.
  - rewrite Hown by done. by rewrite decide_True.
  - intros Hsmall Hc r p Hr Hp Hrp. rewrite Er in Hr. rewrite Ep in Hp. apply list_elem_of_filter in Hr as [Hne Hr].
    rewrite i64_small in Hne by (unfold is_i64, is_u64 in *; lia).
    destruct (rule_id_range db r Hd Hs Hr) as [Hrr _]. rewrite Hown by done.
    rewrite decide_False; [by apply Hc|]. unfold is_u64 in Hid. rewrite Z.mod_small by lia. done.
Qed.

Lemma RemoveAllPeerRules_spec db w peerID :
  db_ok db → node_ok w → backed db w → (rules_seq db < 2 ^ 48)%Z →
  ∃ err db' w', Firewallmanager.RemoveAllPeerRules nodeID db w peerID = Ok (err, db', w') ∧
    db_ok db' ∧ node_ok w' ∧ backed db' w' ∧ peers db' = peers db ∧
    (err = None → (∀ r, r ∈ peers_rules db' ↔ r ∈ peers_rules db ∧ PeerID r ≠ i64 peerID) ∧
       (complete db w → complete db' w')).
Proof.
  intros Hd Hw Hb Hs. unfold Firewallmanager.RemoveAllPeerRules.
  destruct (LoadRulesByPeerID (i64 peerID) db) as [res db1] eqn:El.
  destruct (LoadRulesByPeerID_spec _ _ _ _ El) as (Hsame & Hnp & Hrows).
  destruct (same_backed db db1 w Hsame) as [Hbs Hcs]. pose proof (same_tables_ok _ _ Hsame Hd) as Hd1.
  assert (Et : peers db1 = peers db ∧ peers_rules db1 = peers_rules db) by (by destruct Hsame as [fs ->]).
  destruct Et as [Etp Etr]. destruct res as [l|e|]; [|eexists _, _, _|done].
  2: { split; [reflexivity|]. split; [done|]. split; [done|]. split; [by apply Hbs|done]. }
  specialize (Hrows l eq_refl).
  assert (Hl : ∀ r, r ∈ l ↔ PeerID r = i64 peerID ∧ r ∈ peers_rules db) by (intros r; rewrite Hrows, list_elem_of_filter; done).
  destruct (remove_loaded_spec l w Hw) as (w' & -> & Hw' & Hown).
  { intros r [_ Hr]%Hl. by apply (rule_id_range db). }
  cbn [gobind]. assert (Hsub : ∀ j x, (0 <= j < 2 ^ 48)%Z → own w' j = Some x → own w j = Some x).
  { intros j x Hj. rewrite Hown by done. by case_decide. }
  destruct (DeleteAllPeerRules (i64 peerID) db1) as [res2 db2] eqn:Ed.
  pose proof (DeleteAllPeerRules_spec _ _ _ _ Hd1 Ed) as Hdel. destruct res2 as [[]|e|]; [| |done].
  - destruct Hdel as (Ep & Er & Hd2). eexists _, _, _. split; [reflexivity|]. split; [done|]. split; [done|].
    rewrite Etr in Er. rewrite Etp in Ep. split; [|split; [done|intros _; split]].
    + apply (backed_filter (λ r, PeerID r ≠ i64 peerID) db db2 w w' Hb Ep Er Hsub).
      intros r Hr Hrr [x Hx] Heq. rewrite Hown in Hx by done. rewrite decide_True in Hx; [done|].
      apply list_elem_of_fmap_2. by apply Hl.
    + intros r. rewrite Er, list_elem_of_filter. tauto.
    + intros Hc r p Hr Hp Hrp. rewrite Er in Hr. rewrite Ep in Hp. apply list_elem_of_filter in Hr as [Hne Hr].
      destruct (rule_id_range db r Hd Hs Hr) as [Hrr _]. rewrite Hown by done. rewrite decide_False; [by apply Hc|].
      intros (r2 & Heq & [Hp2 Hr2]%Hl)%list_elem_of_fmap.
      assert (r2 = r) as ->; [|done].
      apply (row_by_key Repos.RuleID (peers_rules db)); [by apply sorted_NoDup, (dk_rule_ids _ Hd)|done|done|done].
  - eexists _, _, _. split; [reflexivity|]. split; [by eapply same_tables_ok|]. split; [done|].
    split; [|split; [by destruct Hdel as [fs ->]|done]]. apply (same_backed _ _ w' Hdel).
    intros k x Hk Hx. apply (proj1 Hbs Hb); [done|]. by apply Hsub.
Qed.

(** ** Theorems on rules *)

(** C26: the firewall never allows more than the database holds.  While the database
    has given out less than 2^48 rule numbers, whatever statements fail, adding a rule,
    removing one or removing those of a peer leaves every rule of this node in the
    firewall backed by a row of the database with the same content and a peer with that
    address.  When every row had its rule before, every row has its rule after an
    addition, after the removal of a peer's rules, and after the removal of a rule by a
    number below 2^48, if they report success.  For a larger number the last does not
    hold: the firewall removes the rule of the lower 48 bits, whose row stays
    (Api.large_rule_id_revokes_another). *)
Theorem firewall_within_database db w :
  db_ok db → node_ok w → backed db w → (rules_seq db + 1 < 2 ^ 48)%Z →
  (∀ peerID rule, is_u16 (Model.PortRangeStart rule) → ∃ err db' w' rule',
     Firewallmanager.AddRule nodeID db w peerID rule = Ok (err, db', w', rule') ∧
     db_ok db' ∧ node_ok w' ∧ backed db' w' ∧ (err = None → complete db w → complete db' w')) ∧
  (∀ ruleID, is_u64 ruleID → ∃ err db' w',
     Firewallmanager.RemoveRule nodeID db w ruleID = Ok (err, db', w') ∧
     db_ok db' ∧ node_ok w' ∧ backed db' w' ∧
     (err = None → own w' (ruleID mod 2 ^ 48) = None ∧ ((ruleID < 2 ^ 48)%Z → complete db w → complete db' w'))) ∧
  (∀ peerID, ∃ err db' w', Firewallmanager.RemoveAllPeerRules nodeID db w peerID = Ok (err, db', w') ∧
     db_ok db' ∧ node_ok w' ∧ backed db' w' ∧ peers db' = peers db ∧
     (err = None → (∀ r, r ∈ peers_rules db' ↔ r ∈ peers_rules db ∧ PeerID r ≠ i64 peerID) ∧
        (complete db w → complete db' w'))).
Proof.
  intros Hd Hw Hb Hs. split; [|split].
  - intros peerID rule Hu. by apply AddRule_fm_spec.
  - intros ruleID Hid. apply RemoveRule_fm_spec; try done. lia.
  - intros peerID. apply RemoveAllPeerRules_spec; try done. lia.
Qed.

Lemma Run_fm_spec `{QueryPlan} db w :
  db_ok db → node_ok w → (rules_seq db < 2 ^ 48)%Z → (∀ k, (0 <= k < 2 ^ 48)%Z → own w k = None) →
  ∃ err db' w', Firewallmanager.Run nodeID db w = Ok (err, db', w') ∧ db_ok db' ∧ node_ok w' ∧
    backed db' w' ∧ (err = None → complete db' w').
Proof.
  intros Hd Hw Hs Hn. unfold Firewallmanager.Run. destruct (LoadAllRules db) as [res db1] eqn:El.
  destruct (LoadAllRules_spec _ _ _ El) as (Hsame & Hnp & Hrows). pose proof (same_tables_ok _ _ Hsame Hd) as Hd1.
  assert (Et : peers db1 = peers db ∧ peers_rules db1 = peers_rules db) by (by destruct Hsame as [fs ->]).
  destruct Et as [Etp Etr]. destruct res as [l|e|]; [|eexists _, _, _|done].
  2: { split; [reflexivity|]. split; [done|]. split; [done|]. split; [|done]. intros k x Hk Hx. rewrite Hn in Hx; done. }
  specialize (Hrows l eq_refl).
  assert (Hrow : ∀ r p, ID p = PeerID r → loaded_rule (mkLoaded (Repos.RuleID r) (PeerID r) (VirtualIp p) (TargetIp r)
    (Repos.Protocol r) (Repos.PortRangeStart r) (Repos.PortRangeEnd r)) = fw_of r p) by done.
  destruct (add_loaded_spec l w Hw) as (w' & -> & Hw' & _ & Hback & Hall).
  { intros a (r & p & Hr & _ & _ & ->)%Hrows. simpl. by apply (rule_id_range db). }
  cbn [gobind]. assert (Hbk : backed db1 w').
  { intros k x Hk Hx. destruct (Hback k x Hk Hx) as [Hx0|(a & Ha & <- & ->)]; [rewrite Hn in Hx0; done|].
    apply Hrows in Ha as (r & p & Hr & Hp & Hid & ->). exists r, p. by rewrite Etp, Etr. }
  eexists _, _, _. split; [reflexivity|]. split; [done|]. split; [done|]. split; [done|].
  intros _ r p Hr Hp Hid. rewrite Etr in Hr. rewrite Etp in Hp.
  destruct (Hall (mkLoaded (Repos.RuleID r) (PeerID r) (VirtualIp p) (TargetIp r) (Repos.Protocol r)
    (Repos.PortRangeStart r) (Repos.PortRangeEnd r))) as [x Hx]; [apply Hrows; by exists r, p|]. simpl in Hx.
  destruct (rule_id_range db r Hd Hs Hr) as [Hrr _]. rewrite Hx.
  destruct (Hbk _ _ Hrr Hx) as (r2 & p2 & Hr2 & Hrid & Hp2 & Hid2 & ->). rewrite Etr in Hr2. rewrite Etp in Hp2.
  assert (r2 = r) as -> by (apply (row_by_key Repos.RuleID (peers_rules db)); [by apply sorted_NoDup, (dk_rule_ids _ Hd)|done..]).
  assert (p2 = p) as -> by (apply (row_by_key ID (peers db)); [by apply sorted_NoDup, (dk_ids _ Hd)|done|done|congruence]).
  done.
Qed.

(** a start restores the rules.  From a firewall without rules of this node,
    [Run] gives it exactly the rules of the database that have a peer, in
    whatever order the query yields them; if the query fails it has none. *)
Theorem run_restores_rules `{QueryPlan} db w :
  db_ok db → node_ok w → (rules_seq db < 2 ^ 48)%Z → (∀ k, (0 <= k < 2 ^ 48)%Z → own w k = None) →
  ∃ err db' w', Firewallmanager.Run nodeID db w = Ok (err, db', w') ∧ db_ok db' ∧ node_ok w' ∧
    backed db' w' ∧ (err = None → complete db' w').
Proof. apply Run_fm_spec. Qed.

End RulesSpec.

(** ** Specification of the peers manager *)

Section PeersSpec.
Context {W : Type} `{NL : NodeLaws W} (nodeID : string) (startingIP : Z).

Lemma tx_control_spec db res db' : PeersManager.tx_control db = (res, db') → same_tables db db' ∧ res ≠ Panic.
Proof.
  unfold PeersManager.tx_control. intros E. destruct res as [[]|e|].
  - apply stmt_Ok in E as [fs E]. injection E as <-. split; [by eexists|done].
  - split; [by apply stmt_Err in E|done].
  - unfold stmt in E. repeat case_match; simplify_eq.
Qed.

Lemma rollback_same db db' : same_tables db (rollback db db').
Proof. by eexists. Qed.

Lemma same_tables_trans db1 db2 db3 : same_tables db1 db2 → same_tables db2 db3 → same_tables db1 db3.
Proof. intros [fs ->] [fs' ->]. by exists fs'. Qed.

Lemma same_tables_peers db db' : same_tables db db' →
  peers db' = peers db ∧ peers_rules db' = peers_rules db ∧ peers_seq db' = peers_seq db ∧ rules_seq db' = rules_seq db.
Proof. by intros [fs ->]. Qed.

(** What a creation leaves, compared with the state [db], [w] before it. *)
Definition created (db : DB) (w : W) (ty : string) (err : option string) (db' : DB) (w' : W) (peer' : Model.Peer) : Prop :=
  db_ok db' ∧ tp_inv w' ∧
  match err with
  | None => peers_rules db' = peers_rules db ∧ ∃ row, peers db' = peers db ++ [row] ∧ Type_ row = ty ∧
      AwgPublicKey row = Model.AwgPublicKey peer' ∧ (startingIP <= VirtualIp row)%Z ∧
      VirtualIp row ∉ VirtualIp <$> peers db ∧ Model.VirtualIP peer' = u32 (VirtualIp row) ∧
      tp_ExistsPeer w' ty (u32 (VirtualIp row)) = true
  | Some _ => same_tables db db'
  end ∧
  (∀ m ip, tp_ExistsPeer w' m ip = true → tp_ExistsPeer w m ip = true ∨
     (m = ty ∧ ip = Model.VirtualIP peer' ∧ (err = None ∨ err = Some "commit tx"%string))) ∧
  (err = Some "commit tx"%string → tp_ExistsPeer w' ty (Model.VirtualIP peer') = true).

(** An error before the transport was asked. *)
Lemma created_early db w ty e db' w' peer' :
  db_ok db → tp_inv w' → same_tables db db' → e ≠ "commit tx"%string →
  (∀ m ip, tp_ExistsPeer w' m ip = tp_ExistsPeer w m ip) → created db w ty (Some e) db' w' peer'.
Proof.
  intros Hd Hw Hs He Hex. split; [by eapply same_tables_ok|]. split; [done|]. split; [done|].
  split; [intros m ip; rewrite Hex; by left|]. by intros [= ->].
Qed.

Lemma create_in_tx_spec now db1 w1 peer1 :
  db_ok db1 → tp_inv w1 → tp_registered w1 (Model.Type_ peer1) = true →
  ∃ err db' w' peer', PeersManager.create_in_tx startingIP now db1 w1 peer1 = Ok (err, db', w', peer') ∧
    created db1 w1 (Model.Type_ peer1) err db' w' peer'.
Proof.
  intros Hd Hw Hreg. unfold PeersManager.create_in_tx. set (ty := Model.Type_ peer1).
  destruct (Repos.CreatePeerAutoID now _ db1) as [r2 db2] eqn:E2.
  pose proof (CreatePeerAutoID_spec _ _ _ _ _ Hd E2) as Hc.
  destruct r2 as [row|e|]; [|eexists _, _, _, _; split; [reflexivity|]; by apply created_early; [done..|apply rollback_same|done|done]|done].
  destruct Hc as (Hd2 & Ep2 & Er2 & _ & _ & Erow).
  pose proof (next_ip_spec startingIP (peers db1)) as (Hmin & _). pose proof (next_ip_fresh startingIP (peers db1)) as Hfresh.
  assert (Evip : VirtualIp row = next_virtual_ip startingIP (peers db1)) by (by rewrite Erow).
  set (peer2 := Model.set_row _ _ _).
  destruct (tp_create_law now w1 ty peer2 Hw Hreg) as (err & w2 & -> & Hw2 & _ & Hex2).
  cbn [gobind]. assert (Hnew : ∀ m ip, tp_ExistsPeer w2 m ip = true → tp_ExistsPeer w1 m ip = true ∨
    (m = ty ∧ ip = Model.VirtualIP peer2 ∧ err = None)).
  { intros m ip. rewrite Hex2. case_decide as Hdec; [|by left]. intros ?%bool_decide_eq_true. right. by destruct Hdec. }
  destruct err as [e|].
  { eexists _, _, _, _. split; [reflexivity|]. split; [by apply (same_tables_ok db1); [apply rollback_same|]|]. split_and!; try done; [apply rollback_same|].
    intros m ip [?|(_ & _ & ?)]%Hnew; [by left|done]. }
  assert (Hserved : tp_ExistsPeer w2 ty (Model.VirtualIP peer2) = true) by (rewrite Hex2, decide_True; done).
  destruct (PeersManager.tx_control db2) as [r3 db3] eqn:E3. destruct (tx_control_spec _ _ _ E3) as [Hs3 Hp3].
  assert (Hnew' : ∀ e m ip, tp_ExistsPeer w2 m ip = true → e = None ∨ e = Some "commit tx"%string →
    tp_ExistsPeer w1 m ip = true ∨ (m = ty ∧ ip = Model.VirtualIP peer2 ∧ (e = None ∨ e = Some "commit tx"%string))).
  { intros e m ip [?|(-> & -> & _)]%Hnew He; [by left|by right]. }
  destruct r3 as [[]|e|]; [| |done].
  - eexists _, _, _, _. split; [reflexivity|]. split; [by apply (same_tables_ok _ _ Hs3)|]. split; [done|].
    split; [|split; [intros m ip Hx; apply Hnew'; [done|by left]|done]].
    destruct (same_tables_peers _ _ Hs3) as (-> & -> & _). split; [done|]. exists row. rewrite Ep2. split; [done|].
    rewrite Evip. split; [by rewrite Erow|]. split; [by rewrite Erow|]. split; [done|]. split; [done|].
    unfold peer2 in Hserved |- *. simpl in Hserved |- *. rewrite Evip in Hserved |- *. done.
  - eexists _, _, _, _. split; [reflexivity|]. split; [by apply (same_tables_ok db1); [apply rollback_same|]|].
    split; [done|]. split; [apply rollback_same|]. split; [|done]. intros m ip Hx. apply Hnew'; [done|by right].
Qed.

Lemma CreatePeer_pm_spec now db w peer :
  db_ok db → tp_inv w →
  ∃ err db' w' peer', PeersManager.CreatePeerAutoID startingIP now db w peer = Ok (err, db', w', peer') ∧
    created db w (Model.Type_ peer) err db' w' peer'.
Proof.
  intros Hd Hw. unfold PeersManager.CreatePeerAutoID. set (ty := Model.Type_ peer).
  assert (Hrefl : same_tables db db) by (exists (db_faults db); by destruct db).
  destruct (tp_registered w ty) eqn:Ereg; cbn [negb];
    [|eexists _, _, _, _; split; [reflexivity|]; by apply created_early].
  pose proof (tp_keys_law w ty peer Hw Ereg) as Hkeys.
  destruct (tp_GeneratePeerKeys w ty peer) as [kres w1]. destruct Hkeys as (Hnp & Hw1 & Hreg1 & Hex1 & Hset).
  destruct kres as [peer1|e|]; [|eexists _, _, _, _; split; [reflexivity|]; by apply created_early|done].
  destruct (Hset peer1 eq_refl) as (priv & pub & ->). clear Hset.
  destruct (PeersManager.tx_control db) as [r1 db1] eqn:E1. destruct (tx_control_spec _ _ _ E1) as [Hs1 Hp1].
  destruct r1 as [[]|e|]; [|eexists _, _, _, _; split; [reflexivity|]; by apply created_early|done].
  destruct (create_in_tx_spec now db1 w1 (Model.set_keys peer priv pub)) as (err & db' & w' & peer' & E & K1 & K2 & K3 & K4 & K5);
    [by eapply same_tables_ok|done|by rewrite Hreg1|].
  exists err, db', w', peer'. split; [exact E|]. destruct (same_tables_peers _ _ Hs1) as (Ep1 & Er1 & _). rewrite Ep1, Er1 in K3.
  split; [done|]. split; [done|]. split; [|split; [|done]].
  - destruct err; [by eapply same_tables_trans|done].
  - intros m ip Hx. rewrite <- Hex1. by apply K4.
Qed.

(** C25: the creation of a client is atomic.  Whatever statements, keys or
    transports fail, [CreatePeerAutoID] returns; on success there is one new row,
    with an address of the network that no client has, and the transport serves
    that address; on an error the tables are as before, and no transport serves
    anything new, unless it is the final commit that fails: then the transport
    keeps serving a client that the database does not have. *)
Theorem create_peer_is_atomic now db w peer :
  db_ok db → tp_inv w →
  ∃ err db' w' peer', PeersManager.CreatePeerAutoID startingIP now db w peer = Ok (err, db', w', peer') ∧
    created db w (Model.Type_ peer) err db' w' peer'.
Proof. apply CreatePeer_pm_spec. Qed.

(** Creating clients, one or all that are due, leaves the rules alone. *)
Lemma create_keeps_rules now db w peer err db' w' peer' :
  lr_inv w → tp_inv w → PeersManager.CreatePeerAutoID startingIP now db w peer = Ok (err, db', w', peer') →
  rules_kept w w'.
Proof.
  intros Hl Ht E. unfold PeersManager.CreatePeerAutoID, PeersManager.create_in_tx in E.
  destruct (tp_registered w _) eqn:Ereg; cbn [negb] in E; [|by injection E as <- <- <- <-].
  pose proof (nl_keys w (Model.Type_ peer) peer Hl) as Hk.
  pose proof (tp_keys_law w (Model.Type_ peer) peer Ht Ereg) as Hkt.
  destruct (tp_GeneratePeerKeys w (Model.Type_ peer) peer) as [kres w1]. simpl in Hk.
  destruct kres as [peer1|e|]; [|by injection E as <- <- <- <-|done].
  destruct (PeersManager.tx_control db) as [[[]|e|] db1]; [|by injection E as <- <- <- <-|done].
  destruct (Repos.CreatePeerAutoID now _ db1) as [[row|e|] db2]; [|by injection E as <- <- <- <-|done].
  destruct (tp_CreatePeer now w1 _ _) as [[e2 w2]| |] eqn:Ec; cbn [gobind] in E; [|done..].
  pose proof (nl_create _ _ _ _ _ _ (proj1 Hk) (proj1 (proj2 Hkt)) Ec) as Hc.
  assert (Hww : rules_kept w w2) by (by etrans).
  destruct e2; [by injection E as <- <- <- <-|].
  destruct (PeersManager.tx_control db2) as [[[]|e|] db3]; [| |done]; by injection E as <- <- <- <-.
Qed.

Lemma prepare_keeps_rules skip now rows w w' :
  lr_inv w → tp_inv w → PeersManager.prepare_peers skip now w rows = Ok w' → lr_inv w' ∧ rules_kept w w'.
Proof.
  revert w. induction rows as [|row rows IH]; intros w Hl Ht E; [injection E as <-; by split_and!|].
  simpl in E. destruct (Model.IsExpired _ _); [by apply IH|].
  destruct (tp_registered w _) eqn:Ereg; cbn [negb] in E; [|by apply IH]. destruct (skip && _); [by apply IH|].
  destruct (tp_create_law now w _ (peerFromRow row) Ht Ereg) as (e & w1 & Ec & Ht1 & _).
  pose proof (nl_create _ _ _ _ _ _ Hl Ht Ec) as Hc. rewrite Ec in E. cbn [gobind snd] in E.
  destruct (IH w1 (proj1 Hc) Ht1 E) as [Hl' Hk]. split; [done|]. by etrans.
Qed.

(** What the removal of rules does to the transports. *)
Lemma remove_loaded_service l w w' :
  tp_inv w → Firewallmanager.remove_loaded nodeID w l = Ok w' → service_kept w w'.
Proof.
  revert w. induction l as [|r l IH]; intros w Hw E; simpl in E; [injection E as <-; by split_and!|].
  destruct (lr_RemoveRule w _) as [[b w1]|e|] eqn:Er; [|done..]. cbn [gobind snd] in E.
  etrans; [by eapply nl_remove|]. apply IH; [|done]. by destruct (nl_remove _ _ _ _ Hw Er).
Qed.

Lemma remove_all_service db w peerID err db' w' :
  tp_inv w → Firewallmanager.RemoveAllPeerRules nodeID db w peerID = Ok (err, db', w') → service_kept w w'.
Proof.
  intros Hw E. unfold Firewallmanager.RemoveAllPeerRules in E.
  destruct (LoadRulesByPeerID _ db) as [[l|e|] db1]; [|injection E as <- <- <-; by split_and!|done].
  destruct (Firewallmanager.remove_loaded nodeID w l) as [w1| |] eqn:El; [|done..]. cbn [gobind] in E.
  destruct (DeleteAllPeerRules _ db1) as [[[]|e|] db2]; [| |done]; injection E as <- <- <-;
    by eapply remove_loaded_service.
Qed.

(** The last part of a deletion: the row is gone, the transport is told. *)
Lemma kick_deleted db db1 db3 w w1 peer peerId :
  db_ok db → db_ok db3 → node_ok nodeID w1 → tp_inv w1 → backed nodeID db1 w1 → (rules_seq db < 2 ^ 48)%Z →
  peer ∈ peers db → ID peer = i64 peerId → peers db1 = peers db →
  (∀ r, r ∈ peers_rules db1 ↔ r ∈ peers_rules db ∧ PeerID r ≠ i64 peerId) →
  peers db3 = filter (λ p, ID p ≠ i64 peerId) (peers db) →
  (∀ m, tp_registered w1 m = tp_registered w m) →
  (∀ r, r ∈ peers_rules db3 ↔ r ∈ peers_rules db ∧ PeerID r ≠ i64 peerId) →
  ∃ w2, (if tp_registered w1 (Type_ peer)
         then y <- tp_KickPeer w1 (Type_ peer) (u32 (VirtualIp peer));; Ok y.2 else Ok w1) = Ok w2 ∧
    db_ok db3 ∧ node_ok nodeID w2 ∧ backed nodeID db3 w2 ∧ tp_inv w2 ∧
    (∀ p, p ∈ peers db → ID p ≠ i64 peerId → p ∈ peers db3) ∧
    (None = @None string → 
       (∀ p, p ∈ peers db3 → ID p ≠ i64 peerId) ∧
       (∀ r, r ∈ peers_rules db3 → PeerID r ≠ i64 peerId) ∧
       (∀ r, r ∈ peers_rules db → PeerID r = i64 peerId → own nodeID w2 (Repos.RuleID r) = None) ∧
       (∀ p, p ∈ peers db → ID p = i64 peerId → tp_registered w (Type_ p) = true →
          tp_ExistsPeer w2 (Type_ p) (u32 (VirtualIp p)) = false)).
Proof.
  intros Hd Hd3 Hw1 Ht1 Hb1 Hs Hpeer Hid Ep1 Hr1 Ep3 Hreg Hr3.
  assert (Hkick : ∃ w2, (if tp_registered w1 (Type_ peer)
      then y <- tp_KickPeer w1 (Type_ peer) (u32 (VirtualIp peer));; Ok y.2 else Ok w1) = Ok w2 ∧
    node_ok nodeID w2 ∧ tp_inv w2 ∧ (∀ j, lr_rules w2 j = lr_rules w1 j) ∧
    (tp_registered w1 (Type_ peer) = true → tp_ExistsPeer w2 (Type_ peer) (u32 (VirtualIp peer)) = false)).
  { destruct (tp_registered w1 (Type_ peer)) eqn:Ereg; [|by exists w1].
    destruct (tp_kick_law w1 (Type_ peer) (u32 (VirtualIp peer)) Ht1 Ereg) as (b & w2 & Ek & Ht2 & _ & Hx2).
    destruct (nl_kick _ _ _ _ _ (proj1 Hw1) Ek) as (Hl2 & Hroom & Hrules). rewrite Ek. cbn [gobind snd].
    exists w2. split; [done|]. split; [split; [done|by apply Hroom, Hw1]|]. split; [done|]. split; [done|].
    intros _. rewrite Hx2. by rewrite decide_True. }
  destruct Hkick as (w2 & E & Hw2 & Ht2 & Hrules & Hgone). exists w2. split; [done|]. split; [done|]. split; [done|].
  assert (Hown : ∀ k, own nodeID w2 k = own nodeID w1 k) by (intros k; apply Hrules).
  split; [|split; [done|split; [|intros _; split; [|split; [|split]]]]].
  - intros k x Hk Hx. rewrite Hown in Hx. destruct (Hb1 k x Hk Hx) as (r & p & Hr & Hrk & Hp & Hpr & ->).
    exists r, p. apply Hr1 in Hr as [Hr Hne]. rewrite Ep1 in Hp.
    split; [by apply Hr3|]. split; [done|]. split; [|done]. rewrite Ep3. apply list_elem_of_filter.
    split; [congruence|done].
  - intros p Hp Hne. rewrite Ep3. by apply list_elem_of_filter.
  - intros p Hp. rewrite Ep3 in Hp. by apply list_elem_of_filter in Hp as [? _].
  - intros r Hr. by apply Hr3 in Hr as [_ ?].
  - intros r Hr Hrp. rewrite Hown. destruct (own nodeID w1 (Repos.RuleID r)) as [x|] eqn:Ex; [|done].
    destruct (rule_id_range db r Hd Hs Hr) as [Hrr _].
    destruct (Hb1 _ _ Hrr Ex) as (r2 & p & Hr2 & Hrk & _). apply Hr1 in Hr2 as [Hr2 Hne].
    exfalso. apply Hne. rewrite <- Hrp. f_equal.
    apply (row_by_key Repos.RuleID (peers_rules db)); [by apply sorted_NoDup, (dk_rule_ids _ Hd)|done..].
  - intros p Hp Hpid Hpr. assert (p = peer) as ->.
    { apply (row_by_key ID (peers db)); [by apply sorted_NoDup, (dk_ids _ Hd)|done|done|congruence]. }
    apply Hgone. by rewrite Hreg.
Qed.

Lemma DeletePeer_pm_spec db w peerId :
  nodeID ≠ ""%string → db_ok db → node_ok nodeID w → backed nodeID db w → tp_inv w → (rules_seq db < 2 ^ 48)%Z →
  ∃ err db' w', PeersManager.DeletePeer nodeID db w peerId = Ok (err, db', w') ∧
    db_ok db' ∧ node_ok nodeID w' ∧ backed nodeID db' w' ∧ tp_inv w' ∧
    (∀ p, p ∈ peers db → ID p ≠ i64 peerId → p ∈ peers db') ∧
    (err = None →
       (∀ p, p ∈ peers db' → ID p ≠ i64 peerId) ∧
       (∀ r, r ∈ peers_rules db' → PeerID r ≠ i64 peerId) ∧
       (∀ r, r ∈ peers_rules db → PeerID r = i64 peerId → own nodeID w' (Repos.RuleID r) = None) ∧
       (∀ p, p ∈ peers db → ID p = i64 peerId → tp_registered w (Type_ p) = true →
          tp_ExistsPeer w' (Type_ p) (u32 (VirtualIp p)) = false)).
Proof.
  intros Hn Hd Hw Hb Ht Hs. unfold PeersManager.DeletePeer.
  destruct (RemoveAllPeerRules_spec nodeID Hn db w peerId Hd Hw Hb Hs) as (err & db1 & w1 & E & Hd1 & Hw1 & Hb1 & Ep1 & Hok).
  rewrite E. cbn [gobind]. destruct (remove_all_service _ _ _ _ _ _ Ht E) as (Ht1 & Hreg1 & Hex1). clear E.
  destruct err as [e|].
  { eexists _, _, _. split; [reflexivity|]. split_and!; try done. intros p Hp _. by rewrite Ep1. }
  destruct (Hok eq_refl) as [Hrules1 _]. clear Hok.
  destruct (Repos.GetPeerByID (i64 peerId) db1) as [res db2] eqn:Eg.
  destruct (GetPeerByID_spec _ _ _ _ Eg) as (Hs2 & Hnp & Hfound). pose proof (same_tables_ok _ _ Hs2 Hd1) as Hd2.
  destruct (same_tables_peers _ _ Hs2) as (Ep2 & Er2 & _ & _).
  assert (Hb2 : backed nodeID db2 w1) by (by apply (same_backed nodeID _ _ w1 Hs2)).
  destruct res as [peer|e|]; [|eexists _, _, _; split; [reflexivity|]; split_and!; try done;
    intros p Hp _; by rewrite Ep2, Ep1|done].
  destruct (Hfound peer eq_refl) as [Hpeer Hid]. rewrite Ep1 in Hpeer.
  destruct (Repos.DeletePeer (i64 peerId) db2) as [res2 db3] eqn:Ed.
  pose proof (DeletePeer_spec _ _ _ _ Hd2 Ed) as Hdel. destruct res2 as [[]|e|]; [| |done].
  2: { destruct (same_tables_peers _ _ Hdel) as (Ep3 & _). eexists _, _, _. split; [reflexivity|].
       split; [by eapply same_tables_ok|]. split; [done|]. split; [by apply (same_backed nodeID _ _ w1 Hdel)|].
       split; [done|]. split; [|done]. intros p Hp _. by rewrite Ep3, Ep2, Ep1. }
  destruct Hdel as (Ep3 & Hsub3 & Hkeep3 & Hd3). rewrite Ep2, Ep1 in Ep3. rewrite Er2 in Hsub3, Hkeep3.
  destruct (kick_deleted db db1 db3 w w1 peer peerId) as (w2 & E & Hres); try done.
  { intros r. split; [intros Hr; by apply Hrules1, Hsub3|]. intros [Hr Hne]. apply Hkeep3; [by apply Hrules1|done]. }
  exists None, db3, w2. split; [|done]. destruct (tp_registered w1 (Type_ peer)); [|by injection E as ->].
  destruct (tp_KickPeer w1 _ _) as [[b w2']| |]; simpl in E |- *; congruence.
Qed.

(** C27: the deletion of a client removes it everywhere.  Whatever statements fail,
    [DeletePeer] returns, the firewall stays within the database and other clients
    keep their rows; when it reports success the client's row, its rules in the
    database and in the firewall, and its registration with the transport are
    gone. *)
Theorem delete_peer_removes_everywhere db w peerId :
  nodeID ≠ ""%string → db_ok db → node_ok nodeID w → backed nodeID db w → tp_inv w → (rules_seq db < 2 ^ 48)%Z →
  ∃ err db' w', PeersManager.DeletePeer nodeID db w peerId = Ok (err, db', w') ∧
    db_ok db' ∧ node_ok nodeID w' ∧ backed nodeID db' w' ∧ tp_inv w' ∧
    (∀ p, p ∈ peers db → ID p ≠ i64 peerId → p ∈ peers db') ∧
    (err = None →
       (∀ p, p ∈ peers db' → ID p ≠ i64 peerId) ∧
       (∀ r, r ∈ peers_rules db' → PeerID r ≠ i64 peerId) ∧
       (∀ r, r ∈ peers_rules db → PeerID r = i64 peerId → own nodeID w' (Repos.RuleID r) = None) ∧
       (∀ p, p ∈ peers db → ID p = i64 peerId → tp_registered w (Type_ p) = true →
          tp_ExistsPeer w' (Type_ p) (u32 (VirtualIp p)) = false)).
Proof. apply DeletePeer_pm_spec. Qed.

(** ** Synchronisation with the transports *)

(** A row that should be served. *)
Definition due (now : Z) (w : W) (row : Peer) : Prop :=
  Model.IsExpired now (peerFromRow row) = false ∧ tp_registered w (Type_ row) = true.

(** The rows for which the transport is called. *)
Definition called (skip : bool) (now : Z) (w : W) (row : Peer) : Prop :=
  due now w row ∧ (skip && tp_ExistsPeer w (Type_ row) (u32 (VirtualIp row))) = false.
#[local] Instance due_dec now w row : Decision (due now w row).
Proof. unfold due. apply _. Defined.
#[local] Instance called_dec skip now w row : Decision (called skip now w row).
Proof. unfold called. apply _. Defined.

Lemma filter_iff_in {A} (P Q : A → Prop) `{∀ x, Decision (P x), ∀ x, Decision (Q x)} (l : list A) :
  (∀ x, x ∈ l → P x ↔ Q x) → filter P l = filter Q l.
Proof.
  induction l as [|x l IH]; intros HPQ; [done|]. rewrite !filter_cons, IH by (intros y Hy; apply HPQ; by right).
  specialize (HPQ x (list_elem_of_here _ _)). repeat case_decide; tauto.
Qed.

(** The calls of [CreatePeer] that lead from one state to the other, each with its
    answer. *)
Inductive calls (now : Z) : list (Peer * option string) → W → W → Prop :=
| calls_none w : calls now [] w w
| calls_one row e w w1 log w' :
    tp_CreatePeer now w (Type_ row) (peerFromRow row) = Ok (e, w1) → calls now log w1 w' → calls now ((row, e) :: log) w w'.

(** What a run leaves of the clients that it was to prepare. *)
Record prepared (skip : bool) (now : Z) (rows : list Peer) (w w' : W) (log : list (Peer * option string)) : Prop := {
  pr_inv : tp_inv w';
  pr_calls : calls now log w w';
  pr_rows : log.*1 = filter (called skip now w) rows;
  pr_answer row e : (row, e) ∈ log → tp_ExistsPeer w' (Type_ row) (u32 (VirtualIp row)) = bool_decide (e = None);
  pr_others m ip : (∀ row, row ∈ log.*1 → ¬ (Type_ row = m ∧ u32 (VirtualIp row) = ip)) → tp_ExistsPeer w' m ip = tp_ExistsPeer w m ip }.

Lemma prepare_peers_spec skip now rows w :
  tp_inv w → NoDup ((λ row, u32 (VirtualIp row)) <$> rows) →
  ∃ w' log, PeersManager.prepare_peers skip now w rows = Ok w' ∧ prepared skip now rows w w' log.
Proof.
  revert w. induction rows as [|row rows IH]; intros w Hw HN.
  { exists w, []. split; [done|]. constructor; [done|constructor|done|by intros ? ? ?%elem_of_nil|done]. }
  rewrite fmap_cons in HN. apply NoDup_cons in HN as [Hni HN].
  assert (Hskip : ¬ called skip now w row →
    ∃ w' log, PeersManager.prepare_peers skip now w rows = Ok w' ∧ prepared skip now (row :: rows) w w' log).
  { intros Hno. destruct (IH w Hw HN) as (w' & log & E & [P1 P2 P3 P4 P5]). exists w', log. split; [done|].
    constructor; try done. by rewrite filter_cons_False. }
  simpl. destruct (Model.IsExpired now (peerFromRow row)) eqn:Eexp; [apply Hskip; intros [[? _] _]; congruence|].
  destruct (tp_registered w (Type_ row)) eqn:Ereg; [|apply Hskip; intros [[_ ?] _]; congruence].
  cbn [negb]. destruct (skip && _) eqn:Esk; [apply Hskip; intros [_ ?]; congruence|].
  destruct (tp_create_law now w (Type_ row) (peerFromRow row) Hw Ereg) as (e & w1 & Ec & Hw1 & Hr1 & Hx1).
  rewrite Ec. cbn [gobind snd]. destruct (IH w1 Hw1 HN) as (w' & log & E & [P1 P2 P3 P4 P5]).
  assert (Hfresh : ∀ row2, row2 ∈ rows → u32 (VirtualIp row2) ≠ u32 (VirtualIp row)).
  { intros row2 Hin Heq. apply Hni. rewrite <- Heq. by apply (list_elem_of_fmap_2 (λ row, u32 (VirtualIp row))). }
  assert (Hsub : ∀ row2, row2 ∈ log.*1 → row2 ∈ rows) by (intros row2; rewrite P3; by intros [_ ?]%list_elem_of_filter).
  exists w', ((row, e) :: log). split; [done|]. constructor; [done|by econstructor| | |].
  - rewrite fmap_cons, filter_cons_True by done. cbn [fst]. f_equal. rewrite P3. apply filter_iff_in.
    intros row2 Hin. unfold called, due. rewrite Hr1, Hx1, decide_False; [done|]. intros [_ Heq]. by apply (Hfresh row2).
  - intros row2 e2 [[= -> ->]|Hin]%elem_of_cons; [|by apply P4]. rewrite P5.
    + rewrite Hx1, decide_True by done. done.
    + intros row3 Hin [_ Heq]. by apply (Hfresh row3 (Hsub _ Hin)).
  - intros m ip Hno. rewrite fmap_cons in Hno. rewrite P5.
    + rewrite Hx1, decide_False; [done|]. intros [-> ->]. by apply (Hno row); [left|].
    + intros row2 Hin. apply Hno. by right.
Qed.

Lemma load_and_prepare_spec skip now db w :
  db_ok db → tp_inv w → (∀ p, p ∈ peers db → is_u32 (VirtualIp p)) →
  ∃ err db' w' log, PeersManager.load_and_prepare skip now db w = Ok (err, db', w') ∧ same_tables db db' ∧
    prepared skip now (if err then [] else peers db) w w' log.
Proof.
  intros Hd Hw Hu. unfold PeersManager.load_and_prepare, Repos.ListPeers.
  assert (HN : NoDup ((λ row, u32 (VirtualIp row)) <$> peers db)).
  { replace ((λ row, u32 (VirtualIp row)) <$> peers db) with (VirtualIp <$> peers db); [apply (dk_ips _ Hd)|].
    apply list_fmap_ext. intros i row Hi. symmetry. apply u32_small, Hu. by eapply list_elem_of_lookup_2. }
  destruct (stmt _ db) as [res db1] eqn:E. destruct res as [rows|e|].
  - apply stmt_Ok in E as [fs E]. injection E as <- <-. simpl.
    destruct (prepare_peers_spec skip now (peers db) w Hw HN) as (w' & log & -> & Hp). cbn [gobind].
    eexists None, _, w', log. split; [reflexivity|]. split; [by eexists|exact Hp].
  - apply stmt_Err in E. eexists (Some _), _, w, []. split; [reflexivity|]. split; [done|].
    constructor; [done|constructor|done|by intros ? ? ?%elem_of_nil|done].
  - unfold stmt in E. repeat case_match; simplify_eq.
Qed.

(** C31: every valid client is served.  A start ([skip] is false) or a round of
    [syncPeers] that could read the database calls the transport once for each client
    that has not expired and has a registered transport (a round only for those that
    it does not serve yet), in the order of the rows, and for no other client; the
    calls, one after the other, are all that it does to the transports.  Afterwards
    each such client is served, unless its own call in this run was answered with an
    error, and then it is not; and no other client is touched, so an expired one is not
    brought back. *)
Theorem valid_clients_are_served skip now db w :
  db_ok db → tp_inv w → (∀ p, p ∈ peers db → is_u32 (VirtualIp p)) →
  ∃ err db' w' log, PeersManager.load_and_prepare skip now db w = Ok (err, db', w') ∧ same_tables db db' ∧ tp_inv w' ∧
    calls now log w w' ∧ log.*1 = filter (called skip now w) (if err then [] else peers db) ∧
    (err = None → ∀ row, row ∈ peers db → due now w row →
       (tp_ExistsPeer w' (Type_ row) (u32 (VirtualIp row)) = true ∧ ∀ e, (row, e) ∈ log → e = None) ∨
       (tp_ExistsPeer w' (Type_ row) (u32 (VirtualIp row)) = false ∧ ∃ e, (row, Some e) ∈ log)) ∧
    (∀ m ip, (∀ row, row ∈ peers db → called skip now w row → ¬ (Type_ row = m ∧ u32 (VirtualIp row) = ip)) →
       tp_ExistsPeer w' m ip = tp_ExistsPeer w m ip).
Proof.
  intros Hd Hw Hu. destruct (load_and_prepare_spec skip now db w Hd Hw Hu) as (err & db' & w' & log & E & Hs & [P1 P2 P3 P4 P5]).
  exists err, db', w', log. split_and!; try done.
  - intros -> row Hrow Hdue. destruct (decide (called skip now w row)) as [Hc|Hc].
    + assert (Hin : row ∈ log.*1) by (rewrite P3; by apply list_elem_of_filter).
      apply list_elem_of_fmap in Hin as ([row' e] & -> & Hin). cbn [fst]. pose proof (P4 _ _ Hin) as Hx.
      destruct e as [e|]; [right; split; [exact Hx|by exists e]|left]. split; [exact Hx|].
      intros e Hin'. specialize (P4 _ _ Hin'). rewrite Hx in P4. by destruct e.
    + left. split.
      * assert (Ex : (skip && tp_ExistsPeer w (Type_ row) (u32 (VirtualIp row))) = true)
          by (apply not_false_iff_true; intros Ef; by apply Hc).
        apply andb_true_iff in Ex as [_ Ex]. rewrite P5; [exact Ex|]. intros row2. rewrite P3.
        intros [[_ Hc2] _]%list_elem_of_filter [Ht Hip]. apply Hc. split; [done|]. by rewrite <- Ht, <- Hip.
      * intros e Hin. destruct Hc. assert (Hin2 : row ∈ log.*1) by by apply (list_elem_of_fmap_2 fst log (row, e)).
        rewrite P3 in Hin2. by apply list_elem_of_filter in Hin2 as [].
  - intros m ip Hno. apply P5. intros row. rewrite P3. intros [Hc Hin]%list_elem_of_filter. apply Hno; [|done].
    destruct err; [by apply elem_of_nil in Hin|done].
Qed.

End PeersSpec.

End Services.
