(* ===== verification/Node.v ===== *)
(** * The node (internal/app/app.go: the wiring)

    One node as the application assembles it: the router, and the transports by
    the name they are registered with.  This file discharges the interfaces of
    Services.v with the router and the transports of this library, so the
    theorems on the managers hold of the assembled program.  Randomness for keys
    and the identifiers in links come from a source that the node reads in
    order. *)
From S2P Require Import Prelude Broker RoutingTable Firewall Router Repos Model AwgClient AwgTransport Services.
Import Broker Firewall.Firewall AwgTransport.AwgTransport.

Open Scope go_scope.

(** The [n]-th read of crypto/rand and the identifier of the next link. *)
Class Entropy := {
  rand_read : nat → gores (list Z);
  next_uuid : nat → string }.

(** Reading random bytes and the curve operation can fail, but do not panic. *)
Class EntropyLaws `{Entropy} `{Curve} := {
  rand_returns n : rand_read n ≠ Panic;
  curve_returns k : X25519_base k ≠ Panic }.

Module Node.

Section Node.
Context `{DV : Device} `{LK : Link} `{LM : Limiter} `{MR : MapRange} `{PF : Repos.Platform}.
Context `{EN : Entropy} `{CV : Curve} `{ZL : Zlib}.
Context (parse6 : list ascii → option (list Z)) (print6 : list Z → string).

Notation Router := Router.Router.Router.
Notation fw := Router.Router.firewall.
Notation routingsubs := Router.Router.routingsubs.
Notation firewallsubs := Router.Router.firewallsubs.

Record Node := mkNode {
  nd_router : Router;
  nd_transports : gmap string AWGTransport;
  nd_reads : nat }.

(** [RegisterTransport]: a name registered again replaces the transport. *)
Definition RegisterTransport (w : Node) (name : string) (t : AWGTransport) : Node :=
  mkNode (nd_router w) (<[name := t]> (nd_transports w)) (nd_reads w).

(** An operation of the transport [n] that also works on the router. *)
Definition with_transport {A} (w : Node) (n : string) (d : A)
    (f : AWGTransport → gores (A * (Router * AWGTransport))) : gores (A * Node) :=
  match nd_transports w !! n with
  | None => Panic
  | Some t => x <- f t;; Ok (x.1, mkNode x.2.1 (<[n := x.2.2]> (nd_transports w)) (nd_reads w))
  end.

#[export] Instance node_rules : LocalRules Node := {|
  lr_AddRule w i x :=
    y <- Router.Router.AddRule (nd_router w) i x;; Ok (y.1, mkNode y.2 (nd_transports w) (nd_reads w));
  lr_RemoveRule w i :=
    y <- Router.Router.RemoveRule (nd_router w) i;; Ok (y.1, mkNode y.2 (nd_transports w) (nd_reads w)) |}.

#[export] Instance node_transports : Transports Node := {|
  tp_registered w n := bool_decide (is_Some (nd_transports w !! n));
  tp_ExistsPeer w n ip := from_option (λ t, ExistsPeer t ip) false (nd_transports w !! n);
  tp_GeneratePeerKeys w n p :=
    (AwgClient.AwgClient.GeneratePeerKeys (rand_read (nd_reads w)) p,
     mkNode (nd_router w) (nd_transports w) (S (nd_reads w)));
  tp_CreatePeer now w n p := with_transport w n None (λ t, CreatePeer now (nd_router w) t p);
  tp_KickPeer w n ip := with_transport w n false (λ t, KickPeer (nd_router w) t ip);
  tp_GenerateClientConnectionString w n p addr name :=
    match nd_transports w !! n with
    | None => Panic
    | Some t => AwgClient.AwgClient.GenerateClientConnectionString parse6 print6 (cfg t) (publicKey t) p addr name
                  (next_uuid (nd_reads w))
    end |}.

(** ** Invariants *)

(** The clients of a transport are peer objects with their address. *)
Definition clients_ok (t : AWGTransport) : Prop :=
  ∀ ip ref, peersByIP t !! ip = Some ref → ∃ p, peer_objs t !! ref = Some p ∧ virtualIP p = ip.

Definition served_ok (w : Node) : Prop :=
  broker_ok (routingsubs (nd_router w)) ∧ map_Forall (λ _, clients_ok) (nd_transports w).

Definition rules_ok (w : Node) : Prop :=
  engine_ok (fw (nd_router w)) ∧ broker_ok (firewallsubs (nd_router w)).

(** What the operations of a transport leave of the router alone. *)
Definition routes_only (r r' : Router) : Prop :=
  fw r' = fw r ∧ firewallsubs r' = firewallsubs r ∧
  (broker_ok (routingsubs r) → broker_ok (routingsubs r')).

#[export] Instance routes_only_pre : PreOrder routes_only.
Proof.
  split; [by intros r|]. intros r1 r2 r3 (E1 & E2 & H12) (F1 & F2 & H23).
  split; [congruence|]. split; [congruence|auto].
Qed.

(** ** Lemmas *)

Lemma notify_routes r ev :
  broker_ok (routingsubs r) → ∃ r', Router.Router.notifyRoutingEvent r ev = Ok r' ∧ routes_only r r'.
Proof.
  intros Hb. unfold Router.Router.notifyRoutingEvent.
  destruct (notify_spec ev _ Hb) as (b' & -> & Hb' & _). by eexists.
Qed.

Lemma delete_routes r ip :
  broker_ok (routingsubs r) → ∃ r', Router.Router.DeleteRoutingObject r ip = Ok r' ∧ routes_only r r'.
Proof.
  intros Hb. unfold Router.Router.DeleteRoutingObject. destruct (RoutingTable.RoutingTable.GetByIP _ _) as [o|]; [|by exists r].
  by apply (notify_routes (Router.Router.set_table r _)).
Qed.

Lemma add_routes r obj :
  broker_ok (routingsubs r) → Router.Router.AddRoutingObject r obj ≠ Panic ∧
  ∀ r', Router.Router.AddRoutingObject r obj = Ok r' → routes_only r r'.
Proof.
  intros Hb. unfold Router.Router.AddRoutingObject, RoutingTable.RoutingTable.Add.
  destruct (Router.Router.table r !! _); cbn [gobind]; [done|].
  match goal with |- context [Router.Router.notifyRoutingEvent ?a ?b] =>
    destruct (notify_routes a b Hb) as (r' & -> & Hr) end.
  split; [done|]. by intros ? [= <-].
Qed.

Lemma remove_client r t p :
  broker_ok (routingsubs r) → ∃ r' t', removePeerInternal r t p = Ok (r', t') ∧ routes_only r r' ∧
    peersByIP t' = delete (virtualIP p) (peersByIP t) ∧ peer_objs t' = peer_objs t.
Proof.
  intros Hb. unfold removePeerInternal. destruct (delete_routes r (virtualIP p) Hb) as (r' & -> & Hr).
  eexists _, _. split; [reflexivity|]. by split_and!.
Qed.

Lemma clients_ok_delete t t' ip :
  clients_ok t → peersByIP t' = delete ip (peersByIP t) → peer_objs t' = peer_objs t → clients_ok t'.
Proof. intros Ht E Eo j ref. rewrite E, Eo, lookup_delete_Some. intros [_ Hj]. by apply Ht. Qed.

Lemma kick_client r t ip :
  broker_ok (routingsubs r) → clients_ok t →
  ∃ b r' t', KickPeer r t ip = Ok (b, (r', t')) ∧ routes_only r r' ∧ clients_ok t' ∧
    peersByIP t' = delete ip (peersByIP t).
Proof.
  intros Hb Ht. unfold KickPeer. destruct (peersByIP t !! ip) as [ref|] eqn:E.
  - destruct (Ht _ _ E) as (p & -> & Hp). destruct (remove_client r t p Hb) as (r' & t' & -> & Hr & Et & Eo).
    rewrite Hp in Et. cbn [gobind]. eexists _, _, _. split; [reflexivity|]. split; [done|].
    split; [by eapply clients_ok_delete|done].
  - eexists _, _, _. split; [reflexivity|]. split; [done|]. split; [done|]. by rewrite delete_id.
Qed.

Lemma routing_object_routes r t ref p : routes_only r (routing_object r t ref p).1.
Proof. unfold routing_object. case_decide; done. Qed.

Lemma kick_leaves_rules r t ip b r' t' :
  KickPeer r t ip = Ok (b, (r', t')) → fw r' = fw r ∧ firewallsubs r' = firewallsubs r.
Proof.
  unfold KickPeer, removePeerInternal, Router.Router.DeleteRoutingObject, Router.Router.notifyRoutingEvent.
  destruct (peersByIP t !! ip) as [ref|]; [|by intros [= _ <- _]]. destruct (peer_objs t !! ref) as [p|]; [|done].
  destruct (RoutingTable.RoutingTable.GetByIP _ _) as [o|]; [|by intros [= _ <- _]].
  destruct (notify _ _); cbn [gobind]; intros [= _ <- _]; done.
Qed.

(** The creation of a client, whatever the device and the routing table answer. *)
Lemma create_client now r t p :
  broker_ok (routingsubs r) → clients_ok t →
  ∃ e r' t', CreatePeer now r t p = Ok (e, (r', t')) ∧ routes_only r r' ∧ clients_ok t' ∧
    ∀ ip, ExistsPeer t' ip = if decide (ip = Model.VirtualIP p) then bool_decide (e = None) else ExistsPeer t ip.
Proof.
  intros Hb Ht. unfold CreatePeer.
  destruct (kick_client r t (Model.VirtualIP p) Hb Ht) as (b & r1 & t1 & -> & H1 & Ht1 & E1). cbn [gobind].
  set (ref := fresh (dom (peer_objs t1))). set (ap := NewAWGPeer _ _ _ _ _). set (t2 := set_objs t1 _ _).
  pose proof (routing_object_routes r1 t2 ref p) as H2. destruct (routing_object r1 t2 ref p) as [r2 obj]. simpl in H2.
  assert (H12 : routes_only r r2) by (by etrans). pose proof (proj2 (proj2 H12) Hb) as Hb2.
  assert (Hgone : ∀ m : gmap Z nat, m = delete (Model.VirtualIP p) (peersByIP t) → ∀ ip,
    bool_decide (is_Some (m !! ip)) = if decide (ip = Model.VirtualIP p) then false else ExistsPeer t ip).
  { intros m -> ip. unfold ExistsPeer. case_decide as Hip; [by rewrite Hip, lookup_delete_eq|by rewrite lookup_delete_ne]. }
  assert (Hfresh : ∀ m, m ⊆ peersByIP t1 → clients_ok (set_peers t2 m m)).
  { intros m Hm ip rf Hrf. destruct (Ht1 ip rf) as (q & Hq & Hv); [by eapply lookup_weaken|]. exists q. split; [|done].
    simpl. rewrite lookup_insert_ne; [done|]. intros <-.
    pose proof (is_fresh (dom (peer_objs t1))) as Hf. apply Hf, elem_of_dom. by eexists. }
  destruct (IpcSet _ _) as [[e|] d'].
  - eexists _, _, _. split; [reflexivity|]. split; [done|]. split; [by apply (Hfresh (peersByIP t1))|].
    intros ip. by apply Hgone.
  - set (t3 := set_peers _ _ _). destruct (add_routes r2 obj Hb2) as [Hnp Hadd].
    assert (Eip : virtualIP ap = Model.VirtualIP p) by done.
    destruct (Router.Router.AddRoutingObject r2 obj) as [r3|e|]; [| |done].
    + eexists _, _, _. split; [reflexivity|]. split; [etrans; [done|by apply Hadd]|]. split.
      * intros ip rf. simpl. rewrite lookup_insert_Some. intros [[<- <-]|[_ Hrf]].
        -- exists ap. by rewrite lookup_insert_eq.
        -- by apply (Hfresh (peersByIP t1)).
      * intros ip. unfold ExistsPeer. simpl. case_decide as Hip; [by rewrite Hip, lookup_insert_eq|].
        rewrite lookup_insert_ne, E1, lookup_delete_ne by done. done.
    + destruct (remove_client r2 t3 ap Hb2) as (r4 & t4 & -> & H4 & E4 & Eo4). cbn [gobind].
      rewrite Eip in E4. simpl in E4. rewrite delete_insert_eq, E1, delete_delete_eq in E4.
      eexists _, _, _. split; [reflexivity|]. split; [by etrans|]. split; [|intros ip; by apply Hgone].
      intros ip rf. rewrite E4, Eo4. intros Hrf. apply (Hfresh (peersByIP t1)); [done|]. simpl. by rewrite E1.
Qed.

Lemma lookup_nodes (w : Node) n m (t : AWGTransport) :
  <[n := t]> (nd_transports w) !! m = if decide (m = n) then Some t else nd_transports w !! m.
Proof. rewrite lookup_insert. by repeat case_decide; congruence. Qed.

(** An operation of one transport, at the node. *)
Lemma with_transport_spec {A} w n (d : A) f (P : A → AWGTransport → Prop) :
  served_ok w → is_Some (nd_transports w !! n) →
  (∀ t, nd_transports w !! n = Some t → clients_ok t → ∃ x r' t',
     f t = Ok (x, (r', t')) ∧ routes_only (nd_router w) r' ∧ clients_ok t' ∧ P x t') →
  ∃ x w' t', with_transport w n d f = Ok (x, w') ∧ served_ok w' ∧ routes_only (nd_router w) (nd_router w') ∧
    nd_transports w' = <[n := t']> (nd_transports w) ∧ P x t'.
Proof.
  intros [Hb Hc] [t Et] Hf. destruct (Hf t Et (Hc _ _ Et)) as (x & r' & t' & E & Hr & Hc' & HP).
  unfold with_transport. rewrite Et, E. cbn [gobind]. eexists _, _, t'. split; [reflexivity|].
  split; [|done]. split; [by apply Hr|]. simpl. by apply map_Forall_insert_2.
Qed.

Lemma registered_insert w n t' m :
  is_Some (nd_transports w !! n) →
  bool_decide (is_Some (<[n := t']> (nd_transports w) !! m)) = bool_decide (is_Some (nd_transports w !! m)).
Proof.
  intros Hn. apply bool_decide_ext. rewrite lookup_nodes. case_decide as Hm; [|done]. subst m.
  split; [done|by intros _; eexists].
Qed.

(** Numbers of nodes are never taken back. *)
Lemma AddRule_room f i x ok f' : NodeID i ≠ ""%string → AddRule f i x = (ok, f') → has_room f' (NodeID i).
Proof.
  intros Hn. unfold AddRule, insertRule. rewrite decide_False by done.
  assert (Hs : is_Some (shortIdByNodeId (getOrCreateShortID f (NodeID i)).2 !! NodeID i)).
  { unfold getOrCreateShortID. destruct (shortIdByNodeId f !! NodeID i) eqn:E; simpl; [by eexists|].
    rewrite lookup_insert_eq. by eexists. }
  destruct (getOrCreateShortID f (NodeID i)) as [s f1]. simpl in Hs.
  case_match; intros [= <- <-]; by left.
Qed.

Lemma RemoveRule_room f i ok f' : RemoveRule f i = (ok, f') → ∀ n, has_room f n → has_room f' n.
Proof.
  unfold RemoveRule, RemoveRule_locked, deleteRule. intros E n Hn.
  destruct (getShortID f (NodeID i)); [|by injection E as <- <-].
  destruct (rulesByID f !! _); [|by injection E as <- <-]. by injection E as <- <-.
Qed.

(** ** The interfaces hold of the node *)

#[export] Instance node_rules_laws : LocalRulesLaws Node.
Proof.
  refine {| lr_rules w := rule_at (fw (nd_router w)); lr_inv := rules_ok;
            lr_room w := has_room (fw (nd_router w)) |}.
  - intros w i x [Hk Hb] Hi Hroom. simpl. unfold Router.Router.AddRule.
    destruct (AddRule (fw (nd_router w)) i x) as [ok fw'] eqn:E.
    destruct (AddRule_spec _ _ _ _ _ Hk Hroom Hi E) as (Hk' & _ & Hok & Hr).
    assert (Hrr : ∀ j, wf_index j → rule_at fw' j =
      if decide (j = i ∧ rule_at (fw (nd_router w)) i = None) then Some (with_index i x) else rule_at (fw (nd_router w)) j).
    { intros j Hj. rewrite Hr by done. apply decide_ext. by rewrite Hok, bool_decide_eq_true. }
    pose proof (AddRule_room _ _ _ _ _ (proj1 Hi) E) as Hroom'.
    destruct ok; cbn [negb].
    + unfold Router.Router.notifyFirewallEvent. destruct (notify_spec (Router.Router.mkFEvent Router.Router.RuleAdded
        (NodeID i) (RuleID i) (Address x) (TargetAddress x) (RuleProtocol x) (PortRangeStart x) (PortRangeEnd x)) _ Hb)
        as (b' & Eb & Hb' & _). simpl. rewrite Eb. cbn [gobind]. eexists _, _. split; [reflexivity|]. by split_and!.
    + eexists _, _. split; [reflexivity|]. by split_and!.
  - intros w i [Hk Hb] Hi. simpl. unfold Router.Router.RemoveRule. rewrite RemoveRule_low.
    destruct (RemoveRule (fw (nd_router w)) (low_index i)) as [ok fw'] eqn:E.
    destruct (RemoveRule_spec _ _ _ _ Hk (low_index_wf i Hi) E) as (Hk' & _ & Hr & _).
    pose proof (RemoveRule_room _ _ _ _ E) as Hroom'.
    destruct ok; cbn [negb].
    + unfold Router.Router.notifyFirewallEvent. destruct (notify_spec (Router.Router.mkFEvent Router.Router.RuleRemoved
        (NodeID i) (RuleID i) 0%Z None EmptyString 0%Z None) _ Hb)
        as (b' & Eb & Hb' & _). simpl. rewrite Eb. cbn [gobind]. eexists _, _. split; [reflexivity|]. by split_and!.
    + eexists _, _. split; [reflexivity|]. by split_and!.
Defined.

#[export] Instance node_transports_laws `{!EntropyLaws} : TransportsLaws Node.
Proof.
  refine {| tp_inv := served_ok |}.
  - intros w n p Hw _. simpl. split; [|split; [done|]].
    + unfold AwgClient.AwgClient.GeneratePeerKeys, AwgClient.AwgClient.generateKeyPair.
      pose proof (rand_returns (nd_reads w)) as Hr. destruct (rand_read (nd_reads w)) as [k|e|]; [|done..].
      cbn [gobind]. pose proof (curve_returns k) as Hc. by destruct (X25519_base k).
    + split; [done|]. split; [done|]. unfold AwgClient.AwgClient.GeneratePeerKeys.
      destruct (AwgClient.AwgClient.generateKeyPair _) as [kp|e|]; [|done..]. intros p' [= <-]. by do 2 eexists.
  - intros now w n p Hw Hn. apply bool_decide_eq_true in Hn.
    destruct (with_transport_spec w n None (λ t, CreatePeer now (nd_router w) t p)
      (λ e t', ∀ t, nd_transports w !! n = Some t → ∀ ip,
         ExistsPeer t' ip = if decide (ip = Model.VirtualIP p) then bool_decide (e = None) else ExistsPeer t ip)
      Hw Hn) as (e & w' & t' & E & Hw' & _ & Et & Hx).
    { intros t Et Ht. destruct (create_client now (nd_router w) t p (proj1 Hw) Ht) as (e & r' & t' & E & Hr & Ht' & Hx).
      exists e, r', t'. split_and!; try done. intros t0 Et0. rewrite Et in Et0. by injection Et0 as <-. }
    exists e, w'. split; [exact E|]. split; [done|]. split; [intros m; cbn; rewrite Et; by apply registered_insert|].
    destruct Hn as [t Etn]. intros m ip. cbn. rewrite Et, lookup_nodes. destruct (decide (m = n)) as [->|Hm].
    + simpl. rewrite (Hx t Etn), Etn. simpl. apply decide_ext. by split; [|intros [_ ?]].
    + rewrite decide_False; [done|]. by intros [? _].
  - intros w n ip Hw Hn. apply bool_decide_eq_true in Hn.
    destruct (with_transport_spec w n false (λ t, KickPeer (nd_router w) t ip)
      (λ _ t', ∀ t, nd_transports w !! n = Some t → peersByIP t' = delete ip (peersByIP t)) Hw Hn)
      as (b & w' & t' & E & Hw' & _ & Et & Hx).
    { intros t Et Ht. destruct (kick_client (nd_router w) t ip (proj1 Hw) Ht) as (b & r' & t' & E & Hr & Ht' & Hx).
      exists b, r', t'. split_and!; try done. intros t0 Et0. rewrite Et in Et0. by injection Et0 as <-. }
    exists b, w'. split; [exact E|]. split; [done|]. split; [intros m; cbn; rewrite Et; by apply registered_insert|].
    destruct Hn as [t Etn]. intros m j. cbn. rewrite Et, lookup_nodes. destruct (decide (m = n)) as [->|Hm].
    + simpl. rewrite Etn. unfold ExistsPeer. rewrite (Hx t Etn). simpl. destruct (decide (j = ip)) as [->|Hj].
      * by rewrite lookup_delete_eq, decide_True.
      * rewrite lookup_delete_ne by done. rewrite decide_False; [done|]. by intros [_ ?].
    + rewrite decide_False; [done|]. by intros [? _].
  - intros w n p addr name _ Hn. apply bool_decide_eq_true in Hn as [t Et]. cbn. rewrite Et.
    apply AwgClient.AwgClient.connection_string_returns.
Defined.

#[export] Instance node_laws `{!EntropyLaws} : NodeLaws Node.
Proof.
  constructor.
  - intros w i x b w' Hw E. cbn in E. unfold Router.Router.AddRule, Router.Router.notifyFirewallEvent in E.
    destruct (AddRule _ i x) as [[] f]; cbn [negb] in E; [|by injection E as <- <-].
    destruct (notify _ _); cbn [gobind] in E; [|done..]. by injection E as <- <-.
  - intros w i b w' Hw E. cbn in E. unfold Router.Router.RemoveRule, Router.Router.notifyFirewallEvent in E.
    destruct (RemoveRule _ i) as [[] f]; cbn [negb] in E; [|by injection E as <- <-].
    destruct (notify _ _); cbn [gobind] in E; [|done..]. by injection E as <- <-.
  - intros w n p Hw. by split_and!.
  - intros now w n p e w' Hw Ht E. cbn in E. unfold with_transport in E.
    destruct (nd_transports w !! n) as [t|] eqn:Et; [|done].
    destruct (create_client now (nd_router w) t p (proj1 Ht) (proj2 Ht _ _ Et)) as (e' & r' & t' & Ec & (Ef & Es & _) & _).
    rewrite Ec in E. injection E as <- <-. unfold rules_kept. cbn. unfold rules_ok. cbn. by rewrite Ef, Es.
  - intros w n ip b w' Hw E. cbn in E. unfold with_transport in E.
    destruct (nd_transports w !! n) as [t|]; [|done].
    destruct (KickPeer (nd_router w) t ip) as [[b' [r' t']]| |] eqn:Ek; [|done..]. injection E as <- <-. simpl.
    destruct (kick_leaves_rules _ _ _ _ _ _ Ek) as [Ef Es]. unfold rules_kept. cbn. unfold rules_ok. cbn. by rewrite Ef, Es.
Defined.

End Node.

(** ** A concrete node *)

Import RoutingTable.RoutingTable.

Definition demo_entropy : Entropy :=
  {| rand_read _ := Ok (replicate 32 255%Z); next_uuid _ := "u"%string |}.
Notation demo_curve := AwgClient.AwgClient.demo_curve.
Lemma demo_entropy_laws : @EntropyLaws demo_entropy demo_curve.
Proof. done. Qed.

#[local] Existing Instance map_device.
#[local] Existing Instance map_device_laws.
#[local] Existing Instance AwgTransport.AwgTransport.demo_platform.
#[local] Existing Instance demo_entropy.
#[local] Existing Instance AwgClient.AwgClient.demo_curve.
#[local] Existing Instance AwgClient.AwgClient.demo_zlib.
#[local] Existing Instance demo_entropy_laws.

#[local] Instance demo_rules : LocalRules Node := node_rules.
#[local] Instance demo_transports : Transports Node := node_transports (λ _, None) (λ _, EmptyString).
#[local] Instance demo_rules_laws : LocalRulesLaws Node := node_rules_laws.
#[local] Instance demo_transports_laws : TransportsLaws Node := node_transports_laws _ _.
#[local] Instance demo_node_laws : NodeLaws Node := node_laws _ _.

(** A node with one transport, with no clients yet. *)
Definition demo_node : Node := mkNode Router.Router.demo_router {["awg"%string := demo_awg]} 0.

Lemma demo_served : tp_inv demo_node.
Proof.
  split; [apply empty_broker_ok|]. apply map_Forall_singleton. intros ip ref. simpl. by rewrite lookup_empty.
Qed.
Lemma demo_node_ok : Services.node_ok "node" demo_node.
Proof. split; [split; [apply New_ok|apply empty_broker_ok]|]. right. by vm_compute. Qed.
Lemma demo_empty k : Services.own "node" demo_node k = None.
Proof. unfold Services.own. cbn. unfold rule_at. cbn. by rewrite lookup_empty. Qed.
Lemma demo_backed db : Services.backed "node" db demo_node.
Proof.
  intros k x Hk Hx. by rewrite demo_empty in Hx.
Qed.

(** ** Witnesses of the theorems of Services.v *)

Lemma firewall_within_database_witness :
  ∃ err db' w' rule', Services.Firewallmanager.AddRule "node" Repos.demo_db1 demo_node 1
    (Model.mkPortRule 0 None "tcp" 80 None) = Ok (err, db', w', rule') ∧ Services.backed "node" db' w'.
Proof.
  destruct (Services.firewall_within_database "node" ltac:(done) Repos.demo_db1 demo_node) as (H & _).
  - exact Repos.demo_db1_ok.
  - exact demo_node_ok.
  - apply demo_backed.
  - by vm_compute.
  - destruct (H 1%Z (Model.mkPortRule 0 None "tcp" 80 None)) as (err & db' & w' & rule' & E & _ & _ & Hb & _);
      [by vm_compute|]. by exists err, db', w', rule'.
Defined.

#[local] Instance table_order : QueryPlan := {| plan_order _ l := l; plan_order_perm _ l := reflexivity l |}.

Lemma demo_db2_ok : Repos.db_ok Repos.demo_db2.
Proof.
  destruct (Repos.InsertPeerRule 1 None "tcp" 80 None Repos.demo_db1) as [res db'] eqn:E.
  pose proof (Repos.InsertPeerRule_spec _ _ _ _ _ _ _ _ Repos.demo_db1_ok E) as Hs.
  unfold Repos.demo_db2. rewrite E. vm_compute in E. injection E as <- <-. apply Hs.
Qed.

Lemma run_restores_rules_witness :
  ∃ err db' w', Services.Firewallmanager.Run "node" Repos.demo_db2 demo_node = Ok (err, db', w') ∧
    (err = None → Services.complete "node" db' w').
Proof.
  destruct (Services.run_restores_rules "node" ltac:(done) Repos.demo_db2 demo_node)
    as (err & db' & w' & E & _ & _ & _ & Hc).
  - exact demo_db2_ok.
  - exact demo_node_ok.
  - by vm_compute.
  - intros k Hk. apply (demo_empty k).
  - by exists err, db', w'.
Defined.

Lemma create_peer_is_atomic_witness :
  ∃ err db' w' peer', Services.PeersManager.CreatePeerAutoID 167837698 5 Repos.demo_db demo_node demo_client =
    Ok (err, db', w', peer').
Proof.
  destruct (Services.create_peer_is_atomic 167837698 5 Repos.demo_db demo_node demo_client Repos.demo_db_ok demo_served)
    as (err & db' & w' & peer' & E & _).
  exists err, db', w', peer'. exact E.
Defined.

Lemma delete_peer_removes_everywhere_witness :
  ∃ err db' w', Services.PeersManager.DeletePeer "node" Repos.demo_db1 demo_node 1 = Ok (err, db', w').
Proof.
  destruct (Services.delete_peer_removes_everywhere "node" Repos.demo_db1 demo_node 1) as (err & db' & w' & E & _).
  - done.
  - exact Repos.demo_db1_ok.
  - exact demo_node_ok.
  - apply demo_backed.
  - exact demo_served.
  - by vm_compute.
  - exists err, db', w'. exact E.
Defined.

Lemma valid_clients_are_served_witness :
  ∃ err db' w' (log : list (Repos.Peer * option string)), Services.PeersManager.load_and_prepare false 6 Repos.demo_db1 demo_node = Ok (err, db', w') ∧ tp_inv w' ∧
    log.*1 = filter (Services.called false 6 demo_node) (if err then [] else Repos.peers Repos.demo_db1).
Proof.
  destruct (Services.valid_clients_are_served false 6 Repos.demo_db1 demo_node) as (err & db' & w' & log & E & _ & Ht & _ & El & _).
  - exact Repos.demo_db1_ok.
  - exact demo_served.
  - intros p Hp. vm_compute in Hp. apply list_elem_of_singleton in Hp as ->. by vm_compute.
  - by exists err, db', w', log.
Defined.

End Node.
