(* ===== verification/TunLoops.v ===== *)
(** * The TUN interface: the packet loops (pkg/iface/iface.go: readLoop, writeLoop)

    [readLoop] takes batches of packets from the TUN device into the segments of
    one flat buffer and hands them to the router from a goroutine per batch;
    [writeLoop] collects messages of the router's queue into batches for the
    device.  What a read of the device yields is the argument of a step (a failure,
    or packets that fit the buffers, which is what [tun.Device] promises); a write
    is an output. *)
From S2P Require Import Prelude DgMessage RoutingTable Router.
Import DgMessage.DgMessage.

Open Scope go_scope.

Module TunLoops.

Definition tun_iface_offset : nat := 10.
Definition ringSize : nat := 3.
(** [math.MaxUint16]; it is never computed in unary. *)
Definition MaxUint16 : nat := Z.to_nat 65535.
Definition maxPacketLen : nat := tun_iface_offset + MaxUint16.
Lemma MaxUint16_value : Z.of_nat MaxUint16 = 65535%Z.
Proof. unfold MaxUint16. by rewrite Z2Nat.id. Qed.
#[global] Opaque MaxUint16.

Section Loops.
Context (batchSize : nat).

(** Where segment [i] of ring slot [idx] starts. *)
Definition flat_start (idx i : nat) : nat := idx * batchSize * maxPacketLen + i * maxPacketLen.

(** ** readLoop *)

Section ReadLoop.
Context `{LK : Link} `{LM : Limiter} `{MR : MapRange}.

Notation Router := Router.Router.Router.
Notation packetsPool := Router.Router.packetsPool.

(** [rl_workers]: the running goroutines, each with its slot, its number of
    packets and the next one to handle. *)
Record ReadLoop := mkRL {
  flatBuffer : list Z;
  ringSizes : list (list Z);
  bufferIndex : nat;
  locks : list bool;
  rl_workers : list (nat * nat * nat) }.

Definition new_read_loop : ReadLoop :=
  mkRL (replicate (ringSize * batchSize * maxPacketLen) 0%Z) (replicate ringSize (replicate batchSize 0%Z)) 0
    (replicate ringSize false) [].

(** [ifce.Read] into the segments of slot [idx], from segment [i] on. *)
Fixpoint put_packets (idx i : nat) (pkts : list (list Z)) (fb sizes : list Z) : list Z * list Z :=
  match pkts with
  | [] => (fb, sizes)
  | p :: rest =>
      put_packets idx (S i) rest (copy_at fb (flat_start idx i + tun_iface_offset) p) (<[i := golen p]> sizes)
  end.

(** Steps: the loop reads a batch ([None]: the device reports an error); goroutine
    [k] handles a packet, with a choice of the message pool; goroutine [k] ends. *)
Inductive read_act :=
| ARead (pkts : option (list (list Z)))
| APacket (k : nat) (pick : option nat)
| AUnlock (k : nat).

(** One packet to the router; a packet that is not accepted is skipped. *)
Definition hand_over (pick : option nat) (r : Router) (pkt : list Z) : gores Router :=
  match Router.Router.NewMessageCopyFrom pick r pkt with
  | Panic => Panic
  | Err _ => Ok r
  | Ok (r1, id) => Router.Router.HandleTunPacket r1 id
  end.

(** [None]: the step is not enabled, the loop waits for the lock.  The last
    component of the result is what is handed to the router. *)
Definition read_step (a : read_act) (st : ReadLoop) (r : Router) : option (gores (ReadLoop * Router * list (list Z))) :=
  match a with
  | ARead res =>
      match locks st !! bufferIndex st, ringSizes st !! bufferIndex st with
      | Some false, Some sizes =>
          Some (match res with
                | None | Some [] => Ok (st, r, [])
                | Some pkts =>
                    let '(fb, sz) := put_packets (bufferIndex st) 0 pkts (flatBuffer st) sizes in
                    Ok (mkRL fb (<[bufferIndex st := sz]> (ringSizes st)) (bufferIndex st)
                          (<[bufferIndex st := true]> (locks st))
                          (rl_workers st ++ [(bufferIndex st, length pkts, 0%nat)]), r, [])
                end)
      | Some true, _ => None
      | _, _ => Some Panic
      end
  | APacket k pick =>
      match rl_workers st !! k with
      | Some (idx, count, i) =>
          if decide (i < count)%nat then
            let st' := mkRL (flatBuffer st) (ringSizes st) (bufferIndex st) (locks st)
                         (<[k := (idx, count, S i)]> (rl_workers st)) in
            Some (
              sizes <- match ringSizes st !! idx with Some l => Ok l | None => Panic end;;
              size <- go_index sizes (Z.of_nat i);;
              if decide (size <= 0)%Z then Ok (st', r, []) else
              let flatStart := Z.of_nat (flat_start idx i + tun_iface_offset) in
              pkt <- go_slice (flatBuffer st) flatStart (flatStart + size);;
              r' <- hand_over pick r pkt;; Ok (st', r', [pkt]))
          else None
      | None => None
      end
  | AUnlock k =>
      match rl_workers st !! k with
      | Some (idx, count, i) =>
          if decide (i = count) then
            Some (Ok (mkRL (flatBuffer st) (ringSizes st) (bufferIndex st) (<[idx := false]> (locks st))
                        (delete k (rl_workers st)), r, []))
          else None
      | None => None
      end
  end.

Fixpoint run_read (acts : list read_act) (st : ReadLoop) (r : Router)
    : option (gores (ReadLoop * Router * list (list Z))) :=
  match acts with
  | [] => Some (Ok (st, r, []))
  | a :: rest =>
      match read_step a st r with
      | None => None
      | Some (Ok (st1, r1, out)) =>
          match run_read rest st1 r1 with
          | Some (Ok (st2, r2, out2)) => Some (Ok (st2, r2, out ++ out2))
          | res => res
          end
      | Some e => Some e
      end
  end.

(** What the device delivered in a run, without empty packets. *)
Definition nonempty (l : list (list Z)) : list (list Z) := filter (λ p, p ≠ []) l.
Definition batch_of (a : read_act) : list (list Z) :=
  match a with ARead (Some pkts) => pkts | _ => [] end.
Definition delivered (acts : list read_act) : list (list Z) := nonempty (acts ≫= batch_of).

(** The promise of the device: a batch fits the buffers. *)
Definition batch_fits (a : read_act) : Prop :=
  (length (batch_of a) <= batchSize)%nat ∧ Forall (λ p, length p <= MaxUint16)%nat (batch_of a).

End ReadLoop.

(** ** writeLoop *)

Section WriteLoop.
Context (mtu : Z).

(** [wl_late]: what arrives in the channel before each further look at it. *)
Record WriteLoop := mkWL {
  wl_flat : list Z;
  wl_msgs : list (option nat);
  wl_idx : nat;
  wl_pool : dgPool;
  wl_queue : list nat;
  wl_late : list (list nat) }.

Definition new_write_loop (p : dgPool) (q : list nat) (late : list (list nat)) : WriteLoop :=
  mkWL (replicate (batchSize * maxPacketLen) 0%Z) (replicate batchSize None) 0 p q late.

Definition wl_arrive (st : WriteLoop) : WriteLoop :=
  match wl_late st with
  | [] => st
  | l :: rest => mkWL (wl_flat st) (wl_msgs st) (wl_idx st) (wl_pool st) (wl_queue st ++ l) rest
  end.

Definition wl_pop (st : WriteLoop) (q : list nat) : WriteLoop :=
  mkWL (wl_flat st) (wl_msgs st) (wl_idx st) (wl_pool st) q (wl_late st).

Definition too_long (m : DatagramMessage) : bool :=
  bool_decide (length (dm_data m) = 0%nat) || bool_decide (mtu < golen (dm_data m))%Z.

(** A message received from the channel: released, or copied into the batch. *)
Definition take_msg (id : nat) (st : WriteLoop) : gores WriteLoop :=
  match pool_heap (wl_pool st) !! id with
  | None => Panic
  | Some m =>
      if too_long m then
        Ok (mkWL (wl_flat st) (wl_msgs st) (wl_idx st) (Free (wl_pool st) id) (wl_queue st) (wl_late st))
      else
        let flatStart := (wl_idx st * maxPacketLen + tun_iface_offset)%nat in
        _ <- go_slice (wl_flat st) (Z.of_nat flatStart) (golen (wl_flat st));;
        _ <- go_index (wl_msgs st) (Z.of_nat (wl_idx st));;
        Ok (mkWL (copy_at (wl_flat st) flatStart (dm_data m)) (<[wl_idx st := Some id]> (wl_msgs st)) (S (wl_idx st))
              (wl_pool st) (wl_queue st) (wl_late st))
  end.

(** The loop that fills the batch; [None]: out of fuel. *)
Fixpoint fill (fuel : nat) (st : WriteLoop) : option (gores WriteLoop) :=
  match fuel with
  | O => None
  | S f =>
      if decide (wl_idx st < batchSize)%nat then
        let st1 := wl_arrive st in
        match wl_queue st1 with
        | [] => Some (Ok st1)
        | id :: q =>
            match take_msg id (wl_pop st1 q) with
            | Ok st2 => fill f st2
            | e => Some e
            end
        end
      else Some (Ok st)
  end.

(** The buffers of a batch, from message [i] on. *)
Fixpoint projections (i : nat) (msgs : list (option nat)) (st : WriteLoop) : gores (list (list Z)) :=
  match msgs with
  | [] => Ok []
  | None :: _ => Panic
  | Some id :: rest =>
      match pool_heap (wl_pool st) !! id with
      | None => Panic
      | Some m =>
          let start := Z.of_nat (i * maxPacketLen) in
          b <- go_slice (wl_flat st) start (start + Z.of_nat tun_iface_offset + golen (dm_data m));;
          l <- projections (S i) rest st;; Ok (b :: l)
      end
  end.

Definition free_all (p : dgPool) (msgs : list (option nat)) : dgPool :=
  foldl (λ p o, match o with Some id => Free p id | None => p end) p msgs.

(** The send at the end of a round; the outcome of the write is only logged. *)
Definition send (st : WriteLoop) : gores (WriteLoop * list (list Z)) :=
  if decide (wl_idx st = 0%nat) then Ok (st, []) else
  let msgs := take (wl_idx st) (wl_msgs st) in
  batch <- projections 0 msgs st;;
  Ok (mkWL (wl_flat st) (replicate (wl_idx st) None ++ drop (wl_idx st) (wl_msgs st)) 0 (free_all (wl_pool st) msgs)
        (wl_queue st) (wl_late st), batch).

Definition arrivals (st : WriteLoop) : list nat := wl_queue st ++ concat (wl_late st).

(** A turn of the loop: the batch written, if any.  [None]: it waits for a
    message. *)
Definition write_round (st : WriteLoop) : option (gores (WriteLoop * list (list Z))) :=
  match wl_queue st with
  | [] => None
  | id :: q =>
      match take_msg id (wl_pop st q) with
      | Ok st1 =>
          if decide (wl_idx st1 = wl_idx st) then Some (Ok (st1, [])) else
          match fill (S (length (arrivals st1))) st1 with
          | Some (Ok st2) => Some (send st2)
          | Some (Err e) => Some (Err e)
          | _ => Some Panic
          end
      | Err e => Some (Err e)
      | Panic => Some Panic
      end
  end.

(** Turns until the loop waits, at most [n] of them. *)
Fixpoint drain (n : nat) (st : WriteLoop) : gores (WriteLoop * list (list Z)) :=
  match n with
  | O => Ok (st, [])
  | S n' =>
      match write_round st with
      | None => Ok (st, [])
      | Some res => x <- res;; y <- drain n' x.1;; Ok (y.1, x.2 ++ y.2)
      end
  end.

End WriteLoop.
End Loops.

(** * Specification *)

(** The numbers the segments are made of. *)
Lemma segment_end i n : (n <= MaxUint16)%nat → (i * maxPacketLen + tun_iface_offset + n <= S i * maxPacketLen)%nat.
Proof. intros Hn. rewrite Nat.mul_succ_l; unfold maxPacketLen. lia. Qed.

Lemma segments_apart i j : (i < j)%nat → (S i * maxPacketLen <= j * maxPacketLen)%nat.
Proof. intros Hij. by apply Nat.mul_le_mono_r. Qed.

Section WriteSpec.
Context (batchSize : nat) (mtu : Z).

(** Messages that go into a batch. *)
Definition fits (p : dgPool) (id : nat) : Prop :=
  match pool_heap p !! id with Some m => too_long mtu m = false | None => False end.
#[export] Instance fits_dec p id : Decision (fits p id).
Proof. unfold fits. destruct (pool_heap p !! id); apply _. Defined.

Definition data_of (p : dgPool) (id : nat) : list Z := from_option dm_data [] (pool_heap p !! id).

(** Between two turns: the messages of the channel are distinct and in use. *)
Record wl_ok (st : WriteLoop) (live : gset nat) : Prop := {
  wo_flat : length (wl_flat st) = (batchSize * maxPacketLen)%nat;
  wo_msgs : wl_msgs st = replicate batchSize None;
  wo_idx : wl_idx st = 0%nat;
  wo_pool : pool_ok (wl_pool st) live;
  wo_max : (maxSize (wl_pool st) <= MaxUint16)%nat;
  wo_queue : NoDup (arrivals st);
  wo_live : ∀ id, id ∈ arrivals st → id ∈ live ∧ ∀ m, pool_heap (wl_pool st) !! id = Some m → dm_owned m = true }.

(** Within a turn that began in [st0]: the messages [c] have been received. *)
Record mid (st0 st : WriteLoop) (live : gset nat) (c : list nat) : Prop := {
  md_stream : arrivals st0 = c ++ arrivals st;
  md_late : wl_late st `suffix_of` wl_late st0;
  md_flat : length (wl_flat st) = (batchSize * maxPacketLen)%nat;
  md_idx : wl_idx st = length (filter (fits (wl_pool st0)) c);
  md_le : (wl_idx st <= batchSize)%nat;
  md_msgs : wl_msgs st = (Some <$> filter (fits (wl_pool st0)) c) ++ replicate (batchSize - wl_idx st) None;
  md_items : pool_items (wl_pool st) = pool_items (wl_pool st0) ++ filter (λ id, ¬ fits (wl_pool st0) id) c;
  md_pool : pool_ok (wl_pool st) (live ∖ list_to_set (filter (λ id, ¬ fits (wl_pool st0) id) c));
  md_heap : ∀ j, j ∉ filter (λ id, ¬ fits (wl_pool st0) id) c →
    pool_heap (wl_pool st) !! j = pool_heap (wl_pool st0) !! j;
  md_max : maxSize (wl_pool st) = maxSize (wl_pool st0);
  md_data : ∀ i id, filter (fits (wl_pool st0)) c !! i = Some id →
    take (length (data_of (wl_pool st0) id)) (drop (i * maxPacketLen + tun_iface_offset) (wl_flat st)) =
      data_of (wl_pool st0) id }.

Lemma free_step p live id m :
  pool_ok p live → id ∈ live → pool_heap p !! id = Some m → dm_owned m = true →
  pool_ok (Free p id) (live ∖ {[id]}) ∧ pool_items (Free p id) = pool_items p ++ [id] ∧
  (∀ j, j ≠ id → pool_heap (Free p id) !! j = pool_heap p !! j) ∧ maxSize (Free p id) = maxSize p.
Proof.
  intros Hp Hid Hm Ho. destruct (Free_ok p live id Hp Hid) as [Hp' Hj].
  { intros m'. rewrite Hm. by intros [= <-]. }
  split; [done|]. unfold Free in *. rewrite Hm, Ho in *. by split_and!.
Qed.

Lemma data_length p live id :
  pool_ok p live → (maxSize p <= MaxUint16)%nat → (length (data_of p id) <= MaxUint16)%nat.
Proof.
  intros Hp Hm. unfold data_of. destruct (pool_heap p !! id) as [m|] eqn:E; simpl; [|lia].
  unfold dm_data. rewrite length_take, (pok_cap _ _ Hp _ _ E). lia.
Qed.

Lemma mid_start st live : wl_ok st live → mid st st live [].
Proof.
  intros [? Hm Hi ? ? ? ?]. constructor; simpl; rewrite ?Hi, ?app_nil_r, ?Nat.sub_0_r; try done; [lia|].
  by rewrite difference_empty_L.
Qed.

Lemma filter_last {A} (keep : A → Prop) `{KD : !∀ m, Decision (keep m)} msgs m :
  filter keep (msgs ++ [m]) = if decide (keep m) then filter keep msgs ++ [m] else filter keep msgs.
Proof. rewrite filter_app, filter_cons. case_decide; [done|by rewrite app_nil_r]. Qed.

(** A message that does not fit is released. *)
Lemma release_mid st0 st live c id m q :
  mid st0 st live c → (wl_idx st < batchSize)%nat → arrivals st0 = (c ++ [id]) ++ q ++ concat (wl_late st) →
  id ∉ filter (λ id, ¬ fits (wl_pool st0) id) c → id ∈ live → pool_heap (wl_pool st) !! id = Some m → dm_owned m = true →
  ¬ fits (wl_pool st0) id →
  mid st0 (mkWL (wl_flat st) (wl_msgs st) (wl_idx st) (Free (wl_pool st) id) q (wl_late st)) live (c ++ [id]).
Proof.
  intros Hm Hlt Hstream Hidc Hlive Em Hown Hn.
  destruct (free_step (wl_pool st) (live ∖ list_to_set (filter (λ id, ¬ fits (wl_pool st0) id) c)) id m
    (md_pool _ _ _ _ Hm)) as (Hp' & Hi' & Hj' & Hx'); [|done|done|].
  { apply elem_of_difference. split; [done|]. by rewrite elem_of_list_to_set. }
  constructor; simpl; rewrite ?filter_last, ?(decide_False (P := fits (wl_pool st0) id)), ?(decide_True (P := ¬ fits (wl_pool st0) id)), ?app_nil_r by done;
    try by apply Hm.
  - exact Hstream.
  - rewrite Hi', (md_items _ _ _ _ Hm). by rewrite <- (assoc_L app).
  - replace (live ∖ _) with (live ∖ list_to_set (filter (λ id, ¬ fits (wl_pool st0) id) c) ∖ {[id]}); [exact Hp'|].
    rewrite list_to_set_app_L, <- difference_difference_l_L. simpl. by rewrite union_empty_r_L.
  - intros j. rewrite elem_of_app, list_elem_of_singleton. intros Hj. rewrite Hj' by tauto. apply (md_heap _ _ _ _ Hm). tauto.
  - rewrite Hx'. apply (md_max _ _ _ _ Hm).
Qed.

(** A message that fits is copied into the next segment. *)
Lemma store_mid st0 st live c id m q :
  wl_ok st0 live → mid st0 st live c → (wl_idx st < batchSize)%nat → arrivals st0 = (c ++ [id]) ++ q ++ concat (wl_late st) →
  pool_heap (wl_pool st0) !! id = Some m → fits (wl_pool st0) id → (length (dm_data m) <= MaxUint16)%nat →
  mid st0 (mkWL (copy_at (wl_flat st) (wl_idx st * maxPacketLen + tun_iface_offset) (dm_data m)) (<[wl_idx st := Some id]> (wl_msgs st))
             (S (wl_idx st)) (wl_pool st) q (wl_late st)) live (c ++ [id]).
Proof.
  intros H0 Hm Hlt Hstream Em Hy Hdl.
  pose proof (segment_end (wl_idx st) _ Hdl) as Hend. pose proof (segments_apart (wl_idx st) batchSize Hlt) as Hap.
  constructor; simpl; rewrite ?filter_last, ?(decide_True (P := fits (wl_pool st0) id)), ?(decide_False (P := ¬ fits (wl_pool st0) id)), ?app_nil_r by tauto;
    try by apply Hm.
  - exact Hstream.
  - rewrite copy_at_length; [apply Hm|]. rewrite (md_flat _ _ _ _ Hm). lia.
  - rewrite length_app, <- (md_idx _ _ _ _ Hm). simpl. lia.
  - exact Hlt.
  - rewrite (md_msgs _ _ _ _ Hm) at 1. rewrite insert_app_r_alt by (rewrite length_fmap, <- (md_idx _ _ _ _ Hm); lia).
    rewrite length_fmap, <- (md_idx _ _ _ _ Hm), Nat.sub_diag.
    replace (batchSize - wl_idx st)%nat with (S (batchSize - S (wl_idx st))) by lia. simpl.
    rewrite fmap_app. simpl. by rewrite <- (assoc_L app).
  - intros i j Hi. apply lookup_app_Some in Hi as [Hi|[Hge Hi]].
    + pose proof (lookup_lt_Some _ _ _ Hi) as Hlti. rewrite <- (md_idx _ _ _ _ Hm) in Hlti.
      pose proof (data_length _ _ j (wo_pool _ _ H0) (wo_max _ _ H0)) as Hd.
      rewrite copy_at_disjoint; [by apply (md_data _ _ _ _ Hm)| |rewrite (md_flat _ _ _ _ Hm); lia].
      left. pose proof (segment_end i _ Hd). pose proof (segments_apart i (wl_idx st) Hlti). lia.
    + rewrite <- (md_idx _ _ _ _ Hm) in Hge, Hi. apply list_lookup_singleton_Some in Hi as [Hz <-].
      replace i with (wl_idx st) by lia. unfold data_of. rewrite Em. simpl.
      apply copy_at_same. rewrite (md_flat _ _ _ _ Hm). lia.
Qed.

(** Receiving one message. *)
Lemma take_msg_mid st0 st live c id q :
  wl_ok st0 live → mid st0 st live c → (wl_idx st < batchSize)%nat → wl_queue st = id :: q →
  ∃ st', take_msg mtu id (wl_pop st q) = Ok st' ∧ mid st0 st' live (c ++ [id]) ∧ wl_late st' = wl_late st ∧ wl_queue st' = q.
Proof.
  intros H0 Hm Hlt Eq.
  assert (Hstream : arrivals st0 = (c ++ [id]) ++ q ++ concat (wl_late st)).
  { rewrite (md_stream _ _ _ _ Hm). unfold arrivals. rewrite Eq. by rewrite <- (assoc_L app). }
  pose proof (wo_queue _ _ H0) as HN. rewrite Hstream in HN. apply NoDup_app in HN as (HN & _ & _).
  apply NoDup_app in HN as (_ & Hnc & _).
  assert (Hidc : id ∉ filter (λ id, ¬ fits (wl_pool st0) id) c).
  { intros [_ Hin]%list_elem_of_filter. apply (Hnc id Hin). by left. }
  destruct (wo_live _ _ H0 id) as [Hlive Hown].
  { rewrite Hstream. apply elem_of_app. left. apply elem_of_app. right. by left. }
  destruct (pok_live_heap _ _ (wo_pool _ _ H0) id Hlive) as [m Em].
  pose proof (md_heap _ _ _ _ Hm id Hidc) as Eh. rewrite Em in Eh.
  unfold take_msg, wl_pop. cbn [wl_pool wl_idx wl_flat wl_msgs wl_queue wl_late]. rewrite Eh.
  assert (Hfit : fits (wl_pool st0) id ↔ too_long mtu m = false) by (unfold fits; by rewrite Em).
  destruct (too_long mtu m) eqn:El.
  - eexists. split; [reflexivity|]. split; [|done].
    apply (release_mid st0 st live c id m q); try done; [by apply Hown|by rewrite Hfit].
  - assert (Hdl : (length (dm_data m) <= MaxUint16)%nat).
    { pose proof (data_length _ _ id (wo_pool _ _ H0) (wo_max _ _ H0)) as Hd. unfold data_of in Hd. by rewrite Em in Hd. }
    pose proof (segment_end (wl_idx st) _ Hdl) as Hend. pose proof (segments_apart (wl_idx st) batchSize Hlt) as Hap.
    rewrite go_slice_ok by (rewrite (md_flat _ _ _ _ Hm); lia). cbn [gobind].
    destruct (go_index_ok (wl_msgs st) (Z.of_nat (wl_idx st))) as (o & -> & _).
    { rewrite (md_msgs _ _ _ _ Hm), length_app, length_fmap, length_replicate, <- (md_idx _ _ _ _ Hm). lia. }
    cbn [gobind]. eexists. split; [reflexivity|]. split; [|done].
    apply (store_mid st0 st live c id m q); try done. by rewrite Hfit.
Qed.

(** What the taken and the released messages of a turn are. *)
Lemma split_perm {A} (P : A → Prop) `{∀ x, Decision (P x)} l :
  filter (λ x, ¬ P x) l ++ filter P l ≡ₚ l.
Proof.
  induction l as [|x l IH]; [done|]. rewrite !filter_cons. destruct (decide (P x)).
  - rewrite decide_False by tauto. rewrite <- Permutation_middle. by constructor.
  - rewrite decide_True by done. simpl. by constructor.
Qed.

Lemma mid_arrive st0 st live c : mid st0 st live c → mid st0 (wl_arrive st) live c.
Proof.
  intros [Hs Hla ? ? ? ? ? ? ? ? ?]. unfold wl_arrive. destruct (wl_late st) as [|l late] eqn:El; [constructor; try done; by rewrite El|].
  constructor; try done; simpl; [|by eapply suffix_cons_l]. rewrite Hs. unfold arrivals. simpl. rewrite El. simpl. by rewrite (assoc_L app (wl_queue st)).
Qed.

(** The fuel of [fill] is enough: a message is received for each unit of it. *)
Lemma fill_mid fuel st0 st live c :
  wl_ok st0 live → mid st0 st live c → (length (arrivals st) < fuel)%nat →
  ∃ st' c', fill batchSize mtu fuel st = Some (Ok st') ∧ mid st0 st' live (c ++ c').
Proof.
  intros H0. revert st c. induction fuel as [|fuel IH]; intros st c Hm Hf; [lia|]. simpl.
  case_decide as Hi; [|exists st, []; by rewrite app_nil_r].
  pose proof (mid_arrive _ _ _ _ Hm) as Hm1. set (st1 := wl_arrive st) in *.
  assert (Ea : arrivals st1 = arrivals st).
  { apply (app_inv_head c). by rewrite <- (md_stream _ _ _ _ Hm), <- (md_stream _ _ _ _ Hm1). }
  assert (Ei : wl_idx st1 = wl_idx st) by (subst st1; unfold wl_arrive; by destruct (wl_late st)).
  destruct (wl_queue st1) as [|id q] eqn:Eq; [exists st1, []; by rewrite app_nil_r|].
  destruct (take_msg_mid st0 st1 live c id q H0 Hm1 ltac:(lia) Eq) as (st2 & -> & Hm2 & El2 & Eq2).
  destruct (IH st2 _ Hm2) as (st' & c' & -> & Hm').
  - enough (length (arrivals st1) = S (length (arrivals st2))) by (rewrite Ea in *; lia).
    unfold arrivals. rewrite Eq, Eq2, El2. done.
  - exists st', (id :: c'). split; [done|]. by rewrite <- (assoc_L app) in Hm'.
Qed.

Lemma projections_mid st0 st live c :
  wl_ok st0 live → mid st0 st live c →
  ∃ batch, projections 0 (Some <$> filter (fits (wl_pool st0)) c) st = Ok batch ∧
    drop tun_iface_offset <$> batch = data_of (wl_pool st0) <$> filter (fits (wl_pool st0)) c.
Proof.
  intros H0 Hm. set (taken := filter _ c).
  assert (Hall : ∀ l i, drop i taken = l → ∃ batch, projections i (Some <$> l) st = Ok batch ∧
    drop tun_iface_offset <$> batch = data_of (wl_pool st0) <$> l); [|by apply (Hall taken 0%nat)].
  induction l as [|id l IH]; intros i Hl; [by exists []|].
  assert (Hi : taken !! i = Some id) by (rewrite <- (Nat.add_0_r i), <- lookup_drop, Hl; done).
  destruct (IH (S i)) as (batch & Eb & Ed).
  { change (S i) with (1 + i)%nat. rewrite Nat.add_comm, <- drop_drop, Hl. done. }
  assert (Hfit : fits (wl_pool st0) id) by (apply list_elem_of_lookup_2, list_elem_of_filter in Hi; tauto).
  assert (Hpool : pool_heap (wl_pool st) !! id = pool_heap (wl_pool st0) !! id).
  { apply (md_heap _ _ _ _ Hm). rewrite list_elem_of_filter. tauto. }
  pose proof (md_data _ _ _ _ Hm i id Hi) as Hd. pose proof (data_length _ _ id (wo_pool _ _ H0) (wo_max _ _ H0)) as Hlen.
  pose proof (lookup_lt_Some _ _ _ Hi) as Hlt. unfold taken in Hlt. rewrite <- (md_idx _ _ _ _ Hm) in Hlt.
  pose proof (segment_end i _ Hlen) as Hend.
  pose proof (segments_apart i batchSize ltac:(pose proof (md_le _ _ _ _ Hm); lia)) as Hap.
  unfold data_of in *. unfold fits in Hfit. simpl. rewrite Hpool.
  destruct (pool_heap (wl_pool st0) !! id) as [m|] eqn:Em; [|done]. cbn [from_option] in *.
  rewrite go_slice_ok by (rewrite (md_flat _ _ _ _ Hm); lia). cbn [gobind].
  change (list_fmap nat (option nat) Some l) with (Some <$> l). rewrite Eb. cbn [gobind].
  eexists. split; [reflexivity|]. rewrite fmap_cons, Ed. f_equal.
  replace (Z.to_nat _) with (tun_iface_offset + length (dm_data m))%nat by lia.
  rewrite Nat2Z.id, <- take_drop_commute, drop_drop. exact Hd.
Qed.

Lemma free_all_spec ids p live :
  pool_ok p live → NoDup ids →
  (∀ id, id ∈ ids → id ∈ live ∧ ∀ m, pool_heap p !! id = Some m → dm_owned m = true) →
  pool_ok (free_all p (Some <$> ids)) (live ∖ list_to_set ids) ∧
  pool_items (free_all p (Some <$> ids)) = pool_items p ++ ids ∧
  (∀ j, j ∉ ids → pool_heap (free_all p (Some <$> ids)) !! j = pool_heap p !! j) ∧
  maxSize (free_all p (Some <$> ids)) = maxSize p.
Proof.
  revert p live. induction ids as [|id ids IH]; intros p live Hp HN Hids.
  { simpl. rewrite app_nil_r, difference_empty_L. by split_and!. }
  apply NoDup_cons in HN as [Hni HN]. destruct (Hids id ltac:(by left)) as [Hl Ho].
  destruct (pok_live_heap _ _ Hp id Hl) as [m Em].
  destruct (free_step p live id m Hp Hl Em (Ho m Em)) as (Hp1 & Hi1 & Hj1 & Hx1).
  change (free_all p (Some <$> id :: ids)) with (free_all (Free p id) (Some <$> ids)). destruct (IH (Free p id) (live ∖ {[id]}) Hp1 HN) as (Hp2 & Hi2 & Hj2 & Hx2).
  - intros j Hj. assert (Hne : j ≠ id) by (by intros ->). destruct (Hids j ltac:(by right)) as [Hjl Hjo].
    split; [apply elem_of_difference; by rewrite elem_of_singleton|]. intros m'. rewrite Hj1 by done. apply Hjo.
  - rewrite Hi2, Hx2, Hi1, Hx1. cbn [list_to_set].
    split; [by rewrite <- difference_difference_l_L|].
    split; [by rewrite <- (assoc_L app)|]. split; [|done]. intros j. rewrite elem_of_cons. intros Hj.
    rewrite Hj2, Hj1 by tauto. done.
Qed.

(** The end of a turn in which [c] was received. *)
Lemma send_mid st0 st live c :
  wl_ok st0 live → mid st0 st live c →
  ∃ st' batch, send st = Ok (st', batch) ∧ arrivals st' = arrivals st ∧ wl_late st' = wl_late st ∧ wl_ok st' (live ∖ list_to_set c) ∧
    (length batch <= batchSize)%nat ∧
    drop tun_iface_offset <$> batch = data_of (wl_pool st0) <$> filter (fits (wl_pool st0)) c ∧
    pool_items (wl_pool st') ≡ₚ pool_items (wl_pool st0) ++ c ∧
    (∀ j, j ∉ c → pool_heap (wl_pool st') !! j = pool_heap (wl_pool st0) !! j).
Proof.
  intros H0 Hm. set (taken := filter (fits (wl_pool st0)) c). set (gone := filter (λ id, ¬ fits (wl_pool st0) id) c).
  assert (Hall : gone ++ taken ≡ₚ c) by apply split_perm.
  pose proof (wo_queue _ _ H0) as HN. rewrite (md_stream _ _ _ _ Hm) in HN. apply NoDup_app in HN as (HNc & Hrest & HNr).
  assert (Hset : live ∖ list_to_set gone ∖ list_to_set taken = live ∖ list_to_set c).
  { rewrite difference_difference_l_L, <- list_to_set_app_L. f_equal. by rewrite Hall. }
  rewrite <- Hall in HNc. apply NoDup_app in HNc as (_ & Hgt & HNt).
  destruct (free_all_spec taken (wl_pool st) (live ∖ list_to_set gone)) as (Hp & Hi & Hj & Hx); [apply Hm|done| |].
  { intros id Hid. assert (Hng : id ∉ gone) by (intros ?; by apply (Hgt id)).
    destruct (wo_live _ _ H0 id) as [Hl Ho].
    { rewrite (md_stream _ _ _ _ Hm). apply elem_of_app. left. rewrite <- Hall. apply elem_of_app. by right. }
    split; [apply elem_of_difference; by rewrite elem_of_list_to_set|]. by rewrite (md_heap _ _ _ _ Hm). }
  assert (Hheap : ∀ j, j ∉ c → pool_heap (free_all (wl_pool st) (Some <$> taken)) !! j = pool_heap (wl_pool st0) !! j).
  { intros j. rewrite <- Hall, elem_of_app. intros Hjc. rewrite Hj by tauto. apply (md_heap _ _ _ _ Hm). tauto. }
  assert (Hitems : pool_items (free_all (wl_pool st) (Some <$> taken)) ≡ₚ pool_items (wl_pool st0) ++ c).
  { rewrite Hi, (md_items _ _ _ _ Hm), <- (assoc_L app). fold gone. by rewrite Hall. }
  assert (Hok : ∀ st', wl_flat st' = wl_flat st → wl_msgs st' = replicate batchSize None → wl_idx st' = 0%nat →
    wl_pool st' = free_all (wl_pool st) (Some <$> taken) → arrivals st' = arrivals st → wl_ok st' (live ∖ list_to_set c)).
  { intros st' Ef Em Ex Ep Ea. constructor; rewrite ?Ep, ?Ea; try done.
    - rewrite Ef. apply Hm.
    - by rewrite <- Hset.
    - rewrite Hx, (md_max _ _ _ _ Hm). apply (wo_max _ _ H0).
    - intros id Hid. assert (Hnc : id ∉ c) by (intros ?; by apply (Hrest id)).
      destruct (wo_live _ _ H0 id) as [Hl Ho]; [rewrite (md_stream _ _ _ _ Hm); apply elem_of_app; by right|].
      split; [apply elem_of_difference; by rewrite elem_of_list_to_set|]. by rewrite Hheap. }
  unfold send. pose proof (md_idx _ _ _ _ Hm) as Hidx. fold taken in Hidx.
  pose proof (md_msgs _ _ _ _ Hm) as Hmsgs. fold taken in Hmsgs. pose proof (md_le _ _ _ _ Hm) as Hle.
  case_decide as Hz.
  - assert (Et : taken = []) by (destruct taken; [done|simpl in Hidx; lia]).
    rewrite Et in *. simpl in *. eexists _, []. split; [reflexivity|]. split; [done|]. split; [done|].
    split; [apply Hok; try done; rewrite Hmsgs, Hz; f_equal; lia|]. split; [simpl; lia|]. by split_and!.
  - assert (Etake : take (wl_idx st) (wl_msgs st) = Some <$> taken).
    { rewrite Hmsgs, Hidx. by rewrite <- (length_fmap Some taken), take_app_length. }
    rewrite Etake. destruct (projections_mid st0 st live c H0 Hm) as (batch & Eb & Ed). fold taken in Eb, Ed.
    rewrite Eb. cbn [gobind]. eexists _, batch. split; [reflexivity|]. split; [done|]. split; [done|]. split.
    + apply Hok; try done. simpl. rewrite Hmsgs, Hidx. rewrite <- (length_fmap Some taken) at 2.
      rewrite drop_app_length, <- replicate_add. f_equal. lia.
    + split; [|by split_and!]. apply (f_equal length) in Ed. rewrite !length_fmap in Ed. lia.
Qed.

(** What a turn of the loop does with the messages [c] that it received. *)
Definition turn_of (st st' : WriteLoop) (live : gset nat) (batch : list (list Z)) (c : list nat) : Prop :=
  c ≠ [] ∧ arrivals st = c ++ arrivals st' ∧ wl_late st' `suffix_of` wl_late st ∧ wl_ok st' (live ∖ list_to_set c) ∧ (length batch <= batchSize)%nat ∧
  drop tun_iface_offset <$> batch = data_of (wl_pool st) <$> filter (fits (wl_pool st)) c ∧
  pool_items (wl_pool st') ≡ₚ pool_items (wl_pool st) ++ c ∧
  (∀ j, j ∉ c → pool_heap (wl_pool st') !! j = pool_heap (wl_pool st) !! j).

Lemma mid_nonempty st0 st1 st2 live c1 c2 : c1 ≠ [] →
  mid st0 st1 live c1 → mid st0 st2 live (c1 ++ c2) → c1 ++ c2 ≠ [].
Proof. by destruct c1. Qed.

Lemma write_round_spec st live :
  (0 < batchSize)%nat → wl_ok st live → wl_queue st ≠ [] →
  ∃ st' batch c, write_round batchSize mtu st = Some (Ok (st', batch)) ∧ turn_of st st' live batch c.
Proof.
  intros Hb H0 Hq. unfold write_round. destruct (wl_queue st) as [|id q] eqn:Eq; [done|].
  pose proof (mid_start st live H0) as Hm0. pose proof (wo_idx _ _ H0) as Hi0.
  destruct (take_msg_mid st st live [] id q H0 Hm0 ltac:(lia) Eq) as (st1 & -> & Hm1 & _ & _).
  pose proof (md_idx _ _ _ _ Hm1) as Hi1. simpl in Hi1. case_decide as Hz.
  - assert (Hf : filter (fits (wl_pool st)) [id] = []) by (apply length_zero_iff_nil; simpl; lia).
    destruct (send_mid st st1 live [id] H0 Hm1) as (st' & batch & Es & Ha & _ & Hok & Hlen & Hd & Hitems & Hheap).
    unfold send in Es. rewrite decide_True in Es by lia. injection Es as <- <-.
    exists st1, [], [id]. split; [done|]. split; [done|]. split; [apply (md_stream _ _ _ _ Hm1)|].
    split; [apply (md_late _ _ _ _ Hm1)|]. by split_and!.
  - destruct (fill_mid (S (length (arrivals st1))) st st1 live _ H0 Hm1 ltac:(lia)) as (st2 & c' & -> & Hm2).
    destruct (send_mid st st2 live _ H0 Hm2) as (st' & batch & -> & Ha & El & Hrest).
    exists st', batch, (([] ++ [id]) ++ c'). split; [done|]. split; [done|]. split; [|split; [|done]].
    + rewrite Ha. apply (md_stream _ _ _ _ Hm2).
    + rewrite El. apply (md_late _ _ _ _ Hm2).
Qed.

(** The data of messages that stay in use stays. *)
Lemma turn_keeps st st' live batch c : turn_of st st' live batch c → wl_ok st live →
  data_of (wl_pool st') <$> filter (fits (wl_pool st')) (arrivals st') =
  data_of (wl_pool st) <$> filter (fits (wl_pool st)) (arrivals st').
Proof.
  intros (_ & Ha & _ & _ & _ & _ & _ & Hheap) H0. pose proof (wo_queue _ _ H0) as HN. rewrite Ha in HN.
  apply NoDup_app in HN as (_ & Hd & _).
  assert (Hin : ∀ j, j ∈ arrivals st' → pool_heap (wl_pool st') !! j = pool_heap (wl_pool st) !! j).
  { intros j Hj. apply Hheap. intros Hc. by apply (Hd j). }
  clear -Hin. induction (arrivals st') as [|j l IH]; [done|]. rewrite !filter_cons.
  specialize (IH ltac:(intros k Hk; apply Hin; by right)). specialize (Hin j ltac:(by left)).
  assert (Hf : fits (wl_pool st') j ↔ fits (wl_pool st) j) by (unfold fits; by rewrite Hin).
  repeat case_decide; try tauto. rewrite !fmap_cons, IH. f_equal. unfold data_of. by rewrite Hin.
Qed.

(** a turn of the write loop.  A turn that finds a message returns; it takes
    messages from the channel in order, writes those that are not empty and fit
    the interface, in order, in one batch of at most [batchSize], each behind the
    headroom, and gives every message it took back to the pool once. *)
Theorem write_turn_delivers st live :
  (0 < batchSize)%nat → wl_ok st live → wl_queue st ≠ [] →
  ∃ st' batch c, write_round batchSize mtu st = Some (Ok (st', batch)) ∧ turn_of st st' live batch c.
Proof. apply write_round_spec. Qed.

(** C38: the write loop drains its channel.  With [n] messages in the channel and
    no more to come, at most [n] turns leave the channel empty, after every
    message that fits was written exactly once, in order, and every message went
    back to the pool. *)
Theorem write_loop_drains st live :
  (0 < batchSize)%nat → wl_ok st live → wl_late st = [] →
  ∃ st' out, drain batchSize mtu (length (wl_queue st)) st = Ok (st', out) ∧ wl_queue st' = [] ∧
    drop tun_iface_offset <$> out = data_of (wl_pool st) <$> filter (fits (wl_pool st)) (wl_queue st) ∧
    pool_items (wl_pool st') ≡ₚ pool_items (wl_pool st) ++ wl_queue st.
Proof.
  intros Hb. remember (length (wl_queue st)) as n eqn:En.
  assert (Hn : (length (wl_queue st) <= n)%nat) by lia. clear En. revert st live Hn.
  induction n as [|n IH]; intros st live Hn H0 Hl.
  { assert (Eq : wl_queue st = []) by (destruct (wl_queue st); [done|simpl in Hn; lia]).
    exists st, []. rewrite Eq, app_nil_r. by split_and!. }
  simpl. destruct (wl_queue st) as [|id q] eqn:Eq.
  { unfold write_round. rewrite Eq. exists st, []. rewrite Eq, app_nil_r. by split_and!. }
  destruct (write_round_spec st live Hb H0 ltac:(by rewrite Eq)) as (st1 & batch & c & -> & Ht).
  pose proof (turn_keeps _ _ _ _ _ Ht H0) as Hk. destruct Ht as (Hc & Ha & Hsuf & Hok & _ & Hd & Hi & _). cbn [gobind fst snd].
  assert (Hst : arrivals st = id :: q) by (unfold arrivals; by rewrite Hl, Eq, app_nil_r).
  assert (Hl1 : wl_late st1 = []) by (rewrite Hl in Hsuf; by apply suffix_nil_inv in Hsuf).
  assert (Ha1 : arrivals st1 = wl_queue st1) by (unfold arrivals; by rewrite Hl1, app_nil_r).
  destruct (IH st1 _ ltac:(rewrite Hst, Ha1 in Ha; apply (f_equal length) in Ha; rewrite length_app in Ha; destruct c; simpl in *; [done|lia]) Hok Hl1)
    as (st' & out & -> & Hq' & Hd' & Hi'). cbn [gobind fst snd].
  exists st', (batch ++ out). split; [done|]. split; [done|]. rewrite <- Hst, Ha. split.
  - rewrite fmap_app, Hd, Hd', filter_app, fmap_app. by rewrite <- Hk, Ha1.
  - rewrite Hi', Hi, Ha1. by rewrite <- (assoc_L app).
Qed.

End WriteSpec.
Section ReadSpec.
Context (batchSize : nat) `{LK : Link} `{LM : Limiter} `{MR : MapRange}.

Notation Router := Router.Router.Router.
Notation packetsPool := Router.Router.packetsPool.
Notation shardedWorkers := Router.Router.shardedWorkers.
Notation queued r := (concat (shardedWorkers r)).

(** The router has workers and a sound pool. *)
Definition tun_router (r : Router) (live : gset nat) : Prop :=
  pool_ok (packetsPool r) live ∧ (0 < golen (shardedWorkers r) < 2 ^ 32)%Z.

(** From [r] on, the packets [out] were handed over: those that the router accepts
    are queued, each once, with their bytes. *)
Definition router_grew (r : Router) (live : gset nat) (r' : Router) (live' : gset nat) (out : list (list Z)) : Prop :=
  tun_router r' live' ∧ live ⊆ live' ∧ maxSize (packetsPool r') = maxSize (packetsPool r) ∧
  (∀ j, j ∈ live → pool_heap (packetsPool r') !! j = pool_heap (packetsPool r) !! j) ∧
  ∃ ids, queued r' ≡ₚ queued r ++ ((λ id, (id, Router.Router.fromTun)) <$> ids) ∧ Forall (.∈ live') ids ∧
    Forall2 (λ id pkt, ∃ m, pool_heap (packetsPool r') !! id = Some m ∧ message_for pkt m) ids
      (filter (λ pkt, accepts (maxSize (packetsPool r)) pkt = true) out).

Lemma router_grew_refl r live : tun_router r live → router_grew r live r live [].
Proof. intros Hr. split_and!; try done. exists []. rewrite app_nil_r. split_and!; [done|constructor|constructor]. Qed.

Lemma router_grew_trans r l r1 l1 o1 r2 l2 o2 :
  router_grew r l r1 l1 o1 → router_grew r1 l1 r2 l2 o2 → router_grew r l r2 l2 (o1 ++ o2).
Proof.
  intros (_ & Hl1 & Hm1 & Hh1 & ids1 & Hq1 & Hi1 & Hf1) (Hr2 & Hl2 & Hm2 & Hh2 & ids2 & Hq2 & Hi2 & Hf2).
  split; [done|]. split; [set_solver|]. split; [congruence|]. split; [intros j Hj; rewrite Hh2 by set_solver; auto|].
  exists (ids1 ++ ids2). split; [rewrite Hq2, Hq1, fmap_app; by rewrite (assoc_L app)|]. split.
  - apply Forall_app. split; [|done]. eapply Forall_impl; [exact Hi1|]. intros x Hx. simpl in *. set_solver.
  - rewrite filter_app. apply Forall2_app; [|by rewrite <- Hm1].
    clear -Hf1 Hi1 Hh2. induction Hf1 as [|id pkt ids pkts (m & Em & Hm) Hf IH]; [constructor|].
    apply Forall_cons in Hi1 as [Hid Hi1]. constructor; [|by apply IH]. exists m. by rewrite Hh2.
Qed.

Lemma concat_alter {A} (l : list (list A)) i x :
  (i < length l)%nat → concat (alter (λ q, q ++ [x]) i l) ≡ₚ concat l ++ [x].
Proof.
  revert i. induction l as [|q l IH]; intros i Hi; [simpl in Hi; lia|]. destruct i as [|i]; simpl.
  - rewrite <- !(assoc_L app). f_equiv. simpl. apply Permutation_cons_append.
  - rewrite (IH i) by (simpl in Hi; lia). by rewrite (assoc_L app).
Qed.

(** Handing one packet to the router. *)
Lemma hand_over_grew pick r live pkt :
  tun_router r live → ∃ r' live', hand_over pick r pkt = Ok r' ∧ router_grew r live r' live' [pkt].
Proof.
  intros [Hp Hw]. unfold hand_over, Router.Router.NewMessageCopyFrom.
  destruct (accepts (maxSize (packetsPool r)) pkt) eqn:Ea.
  - destruct (NewMessageCopyFrom_accept pick _ _ _ Hp Ea) as (p' & id & m & -> & Hp' & Hid & Hm & Em & Hmsg & Hh).
    cbn [gobind]. unfold Router.Router.HandleTunPacket, Router.Router.enqueue. cbn [Router.Router.packetsPool Router.Router.set_data].
    rewrite Em. destruct (Router.Router.getWorker_total (Router.Router.set_data r p' (Router.Router.shapes r) (Router.Router.links r)) (dm_hole m) Hw)
      as (i & -> & Hi). cbn [gobind]. eexists _, ({[id]} ∪ live). split; [reflexivity|].
    split; [split; [done|]; simpl; by rewrite length_alter|]. split; [set_solver|]. split; [done|]. split; [done|].
    exists [id]. split; [by apply (concat_alter (shardedWorkers r))|]. split; [repeat constructor; set_solver|].
    rewrite filter_cons, decide_True by done. constructor; [by exists m|constructor].
  - destruct (NewMessageCopyFrom_reject pick _ _ Ea) as [e ->]. cbn [gobind]. exists r, live. split; [done|].
    pose proof (router_grew_refl r live (conj Hp Hw)) as (H1 & H2 & H3 & H4 & ids & H5 & H6 & H7).
    split_and!; try done. exists ids. split_and!; try done. rewrite filter_cons, decide_False by (by rewrite Ea). done.
Qed.

(** ** The buffer *)

Notation flat_start := (flat_start batchSize).
Notation flat_length := (ringSize * batchSize * maxPacketLen)%nat.

Lemma slot_end idx i n : (idx < ringSize)%nat → (i < batchSize)%nat → (n <= MaxUint16)%nat →
  (flat_start idx i + tun_iface_offset + n <= flat_length)%nat.
Proof.
  intros Hx Hi Hn. unfold TunLoops.flat_start. pose proof (segment_end i n Hn). pose proof (segments_apart i batchSize Hi).
  pose proof (Nat.mul_le_mono_r (S idx) ringSize (batchSize * maxPacketLen) Hx).
  rewrite <- !(Nat.mul_assoc _ batchSize). lia.
Qed.

Lemma put_packets_spec idx pkts i fb sizes :
  (idx < ringSize)%nat → (i + length pkts <= batchSize)%nat → length fb = flat_length → length sizes = batchSize →
  Forall (λ p, length p <= MaxUint16)%nat pkts →
  let '(fb', sz') := put_packets batchSize idx i pkts fb sizes in
  length fb' = flat_length ∧ length sz' = batchSize ∧
  (∀ j p, pkts !! j = Some p → sz' !! (i + j)%nat = Some (golen p) ∧
     take (length p) (drop (flat_start idx (i + j) + tun_iface_offset) fb') = p) ∧
  (∀ j n, (j < i)%nat → (n <= MaxUint16)%nat →
     sz' !! j = sizes !! j ∧
     take n (drop (flat_start idx j + tun_iface_offset) fb') = take n (drop (flat_start idx j + tun_iface_offset) fb)).
Proof.
  intros Hx. revert i fb sizes. induction pkts as [|p pkts IH]; intros i fb sizes Hi Hf Hs HF; [by split_and!|].
  apply Forall_cons in HF as [Hp HF]. simpl in Hi. pose proof (slot_end idx i (length p) Hx ltac:(lia) Hp) as He.
  cbn [put_packets]. specialize (IH (S i) (copy_at fb (flat_start idx i + tun_iface_offset) p) (<[i:=golen p]> sizes)
    ltac:(lia) ltac:(rewrite copy_at_length; lia) ltac:(by rewrite length_insert) HF).
  destruct (put_packets _ _ _ _ _ _) as [fb' sz']. destruct IH as (Hf' & Hs' & Hnew & Hold).
  split; [done|]. split; [done|]. split.
  - intros [|j] q Hq.
    + injection Hq as <-. rewrite Nat.add_0_r. destruct (Hold i (length p) ltac:(lia) Hp) as [-> ->].
      rewrite list_lookup_insert_eq by lia. split; [done|]. apply copy_at_same. lia.
    + simpl in Hq. replace (i + S j)%nat with (S i + j)%nat by lia. by apply Hnew.
  - intros j n Hj Hn. destruct (Hold j n ltac:(lia) Hn) as [-> ->].
    rewrite list_lookup_insert_ne by lia. split; [done|]. apply copy_at_disjoint; [|lia]. left.
    pose proof (segment_end j n Hn). pose proof (segments_apart j i Hj). unfold TunLoops.flat_start. lia.
Qed.

(** ** The loop and its goroutine *)

(** Either the loop may read, or one goroutine holds the lock of slot 0 and has
    [pending] still to hand over. *)
Definition rl_inv (st : ReadLoop) (pending : list (list Z)) : Prop :=
  length (flatBuffer st) = flat_length ∧ bufferIndex st = 0%nat ∧
  length (ringSizes st) = ringSize ∧ Forall (λ l, length l = batchSize) (ringSizes st) ∧
  ((locks st = [false; false; false] ∧ rl_workers st = [] ∧ pending = []) ∨
   (locks st = [true; false; false] ∧ ∃ pkts i sizes, rl_workers st = [(0, length pkts, i)%nat] ∧
      (i <= length pkts <= batchSize)%nat ∧ ringSizes st !! 0%nat = Some sizes ∧
      (∀ j p, pkts !! j = Some p → (length p <= MaxUint16)%nat ∧ sizes !! j = Some (golen p) ∧
         take (length p) (drop (flat_start 0 j + tun_iface_offset) (flatBuffer st)) = p) ∧
      pending = nonempty (drop i pkts))).

Lemma new_read_loop_inv : rl_inv (new_read_loop batchSize) [].
Proof.
  unfold new_read_loop, rl_inv. cbn [flatBuffer bufferIndex ringSizes locks rl_workers].
  rewrite !length_replicate. split_and!; try done; [|by left]. apply Forall_replicate, length_replicate.
Qed.

(** A read of the device. *)
Lemma read_inv st pkts pending :
  rl_inv st pending → batch_fits batchSize (ARead (Some pkts)) → pkts ≠ [] → locks st !! bufferIndex st = Some false →
  ∃ sizes, ringSizes st !! bufferIndex st = Some sizes ∧
    let '(fb, sz) := put_packets batchSize (bufferIndex st) 0 pkts (flatBuffer st) sizes in
    rl_inv (mkRL fb (<[bufferIndex st := sz]> (ringSizes st)) (bufferIndex st) (<[bufferIndex st := true]> (locks st))
              (rl_workers st ++ [(bufferIndex st, length pkts, 0%nat)])) (nonempty pkts) ∧ pending = [].
Proof.
  intros (Hf & Hb & Hr & Hs & Hst) [Hn Hp] Hne Hl. rewrite Hb in *.
  destruct Hst as [(El & Ew & ->)|(El & _)]; [|rewrite El in Hl; done].
  destruct (lookup_lt_is_Some_2 (ringSizes st) 0) as [sizes Es]; [rewrite Hr; unfold ringSize; lia|].
  exists sizes. split; [done|]. rewrite Forall_lookup in Hs.
  pose proof (put_packets_spec 0 pkts 0 (flatBuffer st) sizes ltac:(unfold ringSize; lia) Hn Hf (Hs _ _ Es) Hp) as Hput.
  destruct (put_packets _ _ _ _ _ _) as [fb sz]. destruct Hput as (Hf' & Hs' & Hnew & _). split; [|done].
  rewrite El, Ew. unfold rl_inv. cbn [flatBuffer bufferIndex ringSizes locks rl_workers].
  split; [done|]. split; [done|]. split; [by rewrite length_insert|]. split.
  - apply Forall_insert; [by apply Forall_lookup|done].
  - right. split; [done|]. exists pkts, 0%nat, sz. split; [done|]. split; [simpl in Hn; lia|].
    split; [apply list_lookup_insert_eq; rewrite Hr; unfold ringSize; lia|]. split; [|done].
    intros j p Hj. split; [by eapply (Forall_lookup_1 _ _ _ _ Hp)|]. by apply (Hnew j p).
Qed.

(** What is known of a running goroutine. *)
Lemma goroutine_of st pending k idx count i :
  rl_inv st pending → rl_workers st !! k = Some (idx, count, i) →
  k = 0%nat ∧ idx = 0%nat ∧ locks st = [true; false; false] ∧ rl_workers st = [(0%nat, count, i)] ∧
  ∃ pkts sizes, count = length pkts ∧ (i <= length pkts <= batchSize)%nat ∧ ringSizes st !! 0%nat = Some sizes ∧
    (∀ j p, pkts !! j = Some p → (length p <= MaxUint16)%nat ∧ sizes !! j = Some (golen p) ∧
       take (length p) (drop (flat_start 0 j + tun_iface_offset) (flatBuffer st)) = p) ∧
    pending = nonempty (drop i pkts).
Proof.
  intros (_ & _ & _ & _ & [(_ & E & _)|(El & pkts & i0 & sizes & E & Hn & Es & Hp & ->)]) Ew; [by rewrite E in Ew|].
  rewrite E in Ew. apply list_lookup_singleton_Some in Ew as [-> [= <- <- <-]]. split_and!; try done.
  by exists pkts, sizes.
Qed.

(** The goroutine moves on by one packet, or ends. *)
Lemma goroutine_moves st pending count i pkts sizes i' :
  rl_inv st pending → locks st = [true; false; false] → rl_workers st = [(0%nat, count, i)] →
  count = length pkts → (i' <= length pkts <= batchSize)%nat → ringSizes st !! 0%nat = Some sizes →
  (∀ j p, pkts !! j = Some p → (length p <= MaxUint16)%nat ∧ sizes !! j = Some (golen p) ∧
     take (length p) (drop (flat_start 0 j + tun_iface_offset) (flatBuffer st)) = p) →
  rl_inv (mkRL (flatBuffer st) (ringSizes st) (bufferIndex st) (locks st) (<[0%nat := (0%nat, count, i')]> (rl_workers st)))
    (nonempty (drop i' pkts)) ∧
  rl_inv (mkRL (flatBuffer st) (ringSizes st) (bufferIndex st) (<[0%nat := false]> (locks st)) (delete 0%nat (rl_workers st))) [].
Proof.
  intros (Hf & Hb & Hrs & Hs & _) El Ew -> Hi' Es Hp. unfold rl_inv. cbn [flatBuffer bufferIndex ringSizes locks rl_workers].
  rewrite Ew, El. split; split_and!; try done; [|by left]. right. split; [done|]. exists pkts, i', sizes. split_and!; try done; apply Hi'.
Qed.

(** A packet of a goroutine. *)
Lemma packet_step_inv k pick st r live pending :
  rl_inv st pending → tun_router r live →
  match read_step batchSize (APacket k pick) st r with
  | None => True
  | Some res => ∃ st' r' live' out pending', res = Ok (st', r', out) ∧ rl_inv st' pending' ∧
      router_grew r live r' live' out ∧ pending = out ++ pending'
  end.
Proof.
  intros Hi Hr. cbn [read_step]. destruct (rl_workers st !! k) as [[[idx count] i]|] eqn:Ek; [|done].
  case_decide as Hlt; [|done].
  destruct (goroutine_of _ _ _ _ _ _ Hi Ek) as (-> & -> & El & Ew & pkts & sizes & Hc & Hn & Es & Hp & ->).
  destruct (goroutine_moves st _ count i pkts sizes (S i) Hi El Ew Hc ltac:(lia) Es Hp) as [Hinv _].
  rewrite Hc in Hlt. rewrite Es. cbn [gobind]. destruct (lookup_lt_is_Some_2 pkts i Hlt) as [p Ep].
  destruct (Hp _ _ Ep) as (Hpl & Ez & Eb).
  assert (Ex : go_index sizes (Z.of_nat i) = Ok (golen p)).
  { unfold go_index. apply lookup_lt_Some in Ez as Hz. rewrite decide_True by lia. by rewrite Nat2Z.id, Ez. }
  rewrite Ex. cbn [gobind]. rewrite (drop_S pkts p i Ep). unfold nonempty at 1. rewrite filter_cons.
  destruct p as [|b p].
  - rewrite (decide_True (P := (golen (@nil Z) <= 0)%Z)) by done. rewrite (decide_False (P := (@nil Z) ≠ [])) by tauto.
    eexists _, r, live, [], (nonempty (drop (S i) pkts)). split; [reflexivity|]. split; [done|].
    split; [by apply router_grew_refl|done].
  - rewrite (decide_False (P := (golen (b :: p) <= 0)%Z)) by (simpl; lia). rewrite (decide_True (P := b :: p ≠ [])) by done.
    pose proof (slot_end 0 i (length (b :: p)) ltac:(unfold ringSize; lia) ltac:(lia) Hpl) as He.
    destruct Hi as (Hf & _). rewrite go_slice_ok by (rewrite Hf; lia). cbn [gobind].
    replace (Z.to_nat _) with (length (b :: p)) by lia. rewrite Nat2Z.id, Eb.
    destruct (hand_over_grew pick r live (b :: p) Hr) as (r' & live' & -> & Hg). cbn [gobind].
    by eexists _, r', live', [b :: p], (nonempty (drop (S i) pkts)).
Qed.

(** One step of the loop or of its goroutine. *)
Lemma read_step_inv a st r live pending :
  rl_inv st pending → tun_router r live → batch_fits batchSize a →
  match read_step batchSize a st r with
  | None => True
  | Some res => ∃ st' r' live' out pending', res = Ok (st', r', out) ∧ rl_inv st' pending' ∧
      router_grew r live r' live' out ∧ pending ++ nonempty (batch_of a) = out ++ pending'
  end.
Proof.
  intros Hi Hr Ha. pose proof (router_grew_refl r live Hr) as Hrefl.
  destruct a as [res|k pick|k]; [|rewrite app_nil_r; by apply packet_step_inv|]; cbn [read_step batch_of].
  - destruct (locks st !! bufferIndex st) as [[]|] eqn:El; [done| |].
    2: { exfalso. destruct Hi as (_ & Hb & _ & _ & [(E & _)|(E & _)]); by rewrite Hb, E in El. }
    destruct res as [[|p pkts]|].
    2: { destruct (read_inv st (p :: pkts) pending Hi Ha ltac:(done) El) as (sizes & Es & Hput). rewrite Es.
         destruct (put_packets _ _ _ _ _ _) as [fb sz]. destruct Hput as [Hinv ->].
         eexists _, r, live, [], _. by split_and!. }
    all: destruct (ringSizes st !! bufferIndex st) eqn:Es;
      [exists st, r, live, [], pending; split_and!; try done; by rewrite app_nil_r|].
    all: exfalso; destruct Hi as (_ & Hb & Hrs & _); rewrite Hb in Es; apply lookup_ge_None in Es;
      rewrite Hrs in Es; unfold ringSize in Es; lia.
  - destruct (rl_workers st !! k) as [[[idx count] i]|] eqn:Ek; [|done]. case_decide as Heq; [|done].
    destruct (goroutine_of _ _ _ _ _ _ Hi Ek) as (-> & -> & El & Ew & pkts & sizes & Hc & Hn & Es & Hp & ->).
    destruct (goroutine_moves st _ count i pkts sizes i Hi El Ew Hc Hn Es Hp) as [_ Hinv].
    eexists _, r, live, [], []. split; [reflexivity|]. split; [done|]. split; [done|].
    by rewrite Heq, Hc, drop_all.
Qed.

(** the read loop hands over what the device delivers.  In every interleaving
    of the loop and its goroutines, whatever batches the device yields within its
    promise, no step panics; what was handed to the router is, in order, what the
    device delivered, up to what the running goroutine still holds; every accepted
    packet is queued for a worker exactly once, with its bytes.  At most one
    goroutine runs at a time, and only it makes the loop wait: the ring of three
    buffers is never used beyond its first slot. *)
Theorem read_loop_hands_over acts r live :
  tun_router r live → Forall (batch_fits batchSize) acts →
  match run_read batchSize acts (new_read_loop batchSize) r with
  | None => True
  | Some res => ∃ st r' live' out rest, res = Ok (st, r', out) ∧ delivered acts = out ++ rest ∧
      router_grew r live r' live' out ∧ (length (rl_workers st) <= 1)%nat ∧ bufferIndex st = 0%nat ∧
      (rl_workers st = [] → rest = [] ∧ ∀ b, read_step batchSize (ARead b) st r' ≠ None)
  end.
Proof.
  intros Hr Ha. unfold delivered.
  assert (Hrun : ∀ acts, Forall (batch_fits batchSize) acts → ∀ st r live pending, rl_inv st pending → tun_router r live →
    match run_read batchSize acts st r with
    | None => True
    | Some res => ∃ st' r' live' out rest, res = Ok (st', r', out) ∧
        pending ++ nonempty (acts ≫= batch_of) = out ++ rest ∧ router_grew r live r' live' out ∧ rl_inv st' rest
    end).
  { clear. induction 1 as [|a acts Ha _ IH]; intros st r live pending Hi Hr.
    - exists st, r, live, [], pending. split_and!; try done; [by rewrite app_nil_r|by apply router_grew_refl].
    - pose proof (read_step_inv a st r live pending Hi Hr Ha) as Hs. cbn [run_read].
      destruct (read_step batchSize a st r) as [res|]; [|done].
      destruct Hs as (st1 & r1 & live1 & out1 & p1 & -> & Hi1 & Hg1 & Ep). specialize (IH st1 r1 live1 p1 Hi1 (proj1 Hg1)).
      destruct (run_read batchSize acts st1 r1) as [res|]; [|done].
      destruct IH as (st2 & r2 & live2 & out2 & rest & -> & Eo & Hg2 & Hi2).
      exists st2, r2, live2, (out1 ++ out2), rest. split; [done|]. split; [|split; [by eapply router_grew_trans|done]].
      cbn [mbind list_bind]. unfold nonempty in *. rewrite filter_app, (assoc_L app), Ep, <- (assoc_L app).
      rewrite <- (assoc_L app out1). by f_equal. }
  specialize (Hrun acts Ha (new_read_loop batchSize) r live [] new_read_loop_inv Hr).
  destruct (run_read _ _ _ _) as [res|]; [|done].
  destruct Hrun as (st & r' & live' & out & rest & -> & E & Hg & Hi). exists st, r', live', out, rest.
  split; [done|]. split; [done|]. split; [done|].
  destruct Hi as (_ & Hb & Hrs & _ & [(El & Ew & ->)|(El & pkts & i & sizes & Ew & _)]); rewrite Ew; simpl; split_and!; try done; try lia.
  intros _. split; [done|]. intros b. rewrite Hb, El. simpl.
  destruct (lookup_lt_is_Some_2 (ringSizes st) 0) as [l ->]; [rewrite Hrs; unfold ringSize; lia|done].
Qed.

End ReadSpec.
(** ** Witnesses *)

Import RoutingTable.RoutingTable.

(** Two messages of a pool in the channel, the second too long for the interface. *)
Definition demo_pool2 : dgPool :=
  mkPool 60 [] {[0%nat := mkMessage (demo_packet ++ replicate (60 - length demo_packet) 0%Z) (length demo_packet) 4 demo_hole true;
                 1%nat := mkMessage (replicate 60 1%Z) 60 4 demo_hole true]} 2.

Lemma demo_write_ok : wl_ok 4 (new_write_loop 4 demo_pool2 [1; 0]%nat []) {[0%nat; 1%nat]}.
Proof.
  assert (Hh : ∀ id m, pool_heap demo_pool2 !! id = Some m → (id < 2)%nat ∧ length (dm_buf m) = 60%nat ∧ dm_owned m = true).
  { intros id m. unfold demo_pool2. cbn [pool_heap]. rewrite lookup_insert_Some, lookup_singleton_Some.
    intros [[<- <-]|[_ [<- <-]]]; (split; [lia|split; [by vm_compute|done]]). }
  constructor; unfold new_write_loop; cbn [wl_flat wl_msgs wl_idx wl_pool wl_queue wl_late].
  - apply length_replicate.
  - done.
  - done.
  - constructor.
    + intros id m Hm. by apply Hh in Hm as (_ & ? & _).
    + intros id [m Hm]. by apply Hh in Hm as (? & _).
    + constructor.
    + by intros id ?%not_elem_of_nil.
    + intros id [->%elem_of_singleton| ->%elem_of_singleton]%elem_of_union; by eexists.
    + by intros id _ ?%not_elem_of_nil.
  - pose proof MaxUint16_value. change (maxSize demo_pool2) with 60%nat. lia.
  - unfold arrivals. apply (bool_decide_eq_true_1 (NoDup [1; 0]%nat)). by vm_compute.
  - intros id Hid. split; [|intros m Hm; by apply Hh in Hm as (_ & _ & ?)].
    unfold arrivals in Hid. cbn in Hid. set_solver.
Qed.

Lemma write_turn_delivers_witness :
  ∃ st' batch, write_round 4 50 (new_write_loop 4 demo_pool2 [1; 0]%nat []) = Some (Ok (st', batch)).
Proof.
  destruct (write_turn_delivers 4 50 (new_write_loop 4 demo_pool2 [1; 0]%nat []) {[0%nat; 1%nat]}) as (st' & batch & c & E & _).
  - lia.
  - exact demo_write_ok.
  - done.
  - exists st', batch. exact E.
Defined.

Lemma write_loop_drains_witness :
  ∃ st' out, drain 4 50 2 (new_write_loop 4 demo_pool2 [1; 0]%nat []) = Ok (st', out) ∧
    drop tun_iface_offset <$> out = [demo_packet].
Proof.
  destruct (write_loop_drains 4 50 (new_write_loop 4 demo_pool2 [1; 0]%nat []) {[0%nat; 1%nat]}) as (st' & out & E & _ & Ho & _).
  - lia.
  - exact demo_write_ok.
  - done.
  - exists st', out. split; [exact E|]. rewrite Ho. by vm_compute.
Defined.

Lemma read_loop_hands_over_witness :
  match run_read 4 [ARead (Some [demo_packet; []]); APacket 0 None; APacket 0 None; AUnlock 0] (new_read_loop 4)
          Router.Router.demo_router with
  | Some (Ok (_, _, out)) => ∃ rest, [demo_packet] = out ++ rest
  | _ => True
  end.
Proof.
  pose proof (read_loop_hands_over 4 [ARead (Some [demo_packet; []]); APacket 0 None; APacket 0 None; AUnlock 0]
    Router.Router.demo_router {[0%nat]}) as H.
  destruct (run_read _ _ _ _) as [res|]; [|done]. destruct H as (st & r' & live' & out & rest & -> & E & _).
  - split; [exact demo_pool_ok|by vm_compute].
  - pose proof MaxUint16_value. repeat constructor; simpl; lia.
  - exists rest. exact E.
Defined.

End TunLoops.
