(* ===== verification/TunSetup.v ===== *)
(** * The TUN interface: creation and removal (pkg/iface/iface.go: NewTUN, setupNAT, Close)

    The kernel (netlink), the TUN device and iptables are the interface [Host]:
    its operations take the state of the host and return the result and the new
    state.  A rule of iptables is the list of its arguments. *)
From S2P Require Import Prelude NetUtils Encodings AwgClient.
Import NetUtils.NetUtils.

Open Scope go_scope.

(** A route of the kernel: the address of its destination, if it has one, and
    the index of its link. *)
Record Route := mkRoute { r_Dst : option IP; r_LinkIndex : Z }.

Class Host := {
  host : Type;
  RouteList : host → gores (list Route);
  LinkByIndex : host → Z → gores string;
  LinkByName : host → string → gores Z;
  CreateTUN : string → Z → host → gores () * host;
  CloseTUN : host → host;
  AddrAdd : Z → IPNet → host → gores () * host;
  LinkSetMTU : Z → Z → host → gores () * host;
  LinkSetUp : Z → host → gores () * host;
  LinkDel : Z → host → gores () * host;
  NewIPT : host → gores ();
  Append : string → string → list string → host → gores () * host;
  DeleteRule : string → string → list string → host → gores () * host }.

(** [ipt_rules h table chain]: the rules in order.  [same_spec]: the two argument
    lists name the same rule.  A rule is appended at the end of its chain; a
    deletion removes one rule that the arguments name, or fails; the other
    operations, and failing ones, leave the rules alone. *)
Class HostLaws `{Host} := {
  ipt_rules : host → string → string → list (list string);
  same_spec : list string → list string → bool;
  dev_open : host → bool;
  append_law t c s h : match Append t c s h with
    | (Ok _, h') => dev_open h' = dev_open h ∧
        ∀ t' c', ipt_rules h' t' c' = if decide (t' = t ∧ c' = c) then ipt_rules h t c ++ [s] else ipt_rules h t' c'
    | (_, h') => dev_open h' = dev_open h ∧ ipt_rules h' = ipt_rules h
    end;
  delete_law t c s h : match DeleteRule t c s h with
    | (Ok _, h') => dev_open h' = dev_open h ∧
        (∃ pre x post, ipt_rules h t c = pre ++ x :: post ∧ same_spec x s = true ∧ ipt_rules h' t c = pre ++ post) ∧
        ∀ t' c', ¬ (t' = t ∧ c' = c) → ipt_rules h' t' c' = ipt_rules h t' c'
    | (_, h') => dev_open h' = dev_open h ∧ ipt_rules h' = ipt_rules h
    end;
  create_law n m h : ipt_rules (CreateTUN n m h).2 = ipt_rules h ∧
    dev_open (CreateTUN n m h).2 = match (CreateTUN n m h).1 with Ok _ => true | _ => dev_open h end;
  close_law h : ipt_rules (CloseTUN h) = ipt_rules h ∧ dev_open (CloseTUN h) = false;
  addr_law l n h : ipt_rules (AddrAdd l n h).2 = ipt_rules h ∧ dev_open (AddrAdd l n h).2 = dev_open h;
  mtu_law l n h : ipt_rules (LinkSetMTU l n h).2 = ipt_rules h ∧ dev_open (LinkSetMTU l n h).2 = dev_open h;
  up_law l h : ipt_rules (LinkSetUp l h).2 = ipt_rules h ∧ dev_open (LinkSetUp l h).2 = dev_open h;
  del_law l h : ipt_rules (LinkDel l h).2 = ipt_rules h ∧ dev_open (LinkDel l h).2 = dev_open h }.

Module TunSetup.

(** [TUNConfig] of internal/appconfig. *)
Record TUNConfig := mkTunConfig { IfaceInName : string; IfaceOutName : string; MTU : Z }.

(** [IP.IsUnspecified]; false of a nil address. *)
Definition IsUnspecified (ip : IP) : bool :=
  bool_decide (ip = replicate 4 0%Z ∨ ip = v4InV6Prefix ++ replicate 4 0%Z ∨ ip = replicate 16 0%Z).

(** [simpleMaskLength]: the number of leading ones, if only zeros follow. *)
Fixpoint leading_ones (n : nat) (v : Z) : nat :=
  match n with
  | O => O
  | S n' => if Z.testbit v (Z.of_nat n') then S (leading_ones n' v) else O
  end.
Fixpoint simpleMaskLength (m : list Z) : option nat :=
  match m with
  | [] => Some 0%nat
  | v :: rest =>
      if decide (v = 255%Z) then (λ n, (8 + n)%nat) <$> simpleMaskLength rest else
      let k := leading_ones 8 v in
      if decide (v = (255 - (2 ^ (8 - Z.of_nat k) - 1))%Z ∧ Forall (λ x, x = 0%Z) rest) then Some k else None
  end.

Section Setup.
Context `{HO : Host}.
Context (parse6 : list ascii → option (list Z)) (print6 : list Z → string).

(** [IPNet.String] *)
Definition IPNet_String (n : IPNet) : string :=
  let ip := match To4 (NetIP n) with [] => NetIP n | v4 => v4 end in
  let m := if decide (length (NetMask n) = 16%nat ∧ length ip = 4%nat) then drop 12 (NetMask n) else NetMask n in
  if decide (length ip ≠ 4%nat ∧ length ip ≠ 16%nat ∨ length m ≠ length ip) then "<nil>"%string else
  AwgClient.AwgClient.IP_String print6 ip +:+ "/" +:+
    match simpleMaskLength m with Some l => pretty l | None => Encodings.EncodeToString m end.

(** [TUNIface]: [eg_ifce] and [eg_ipt] say whether the device and the iptables
    handle are set, [eg_closed] whether [closeOnce] has run. *)
Record TUNIface := mkTun {
  eg_cfg : TUNConfig;
  eg_ifce : bool;
  eg_ipNet : option IPNet;
  eg_ipt : bool;
  eg_closed : bool }.

(** ** The outbound interface *)

Fixpoint find_gateway (h : host) (routes : list Route) : gores string :=
  match routes with
  | [] => Err "default outbound gateway route (0.0.0.0/0) not found"
  | r :: rest =>
      if match r_Dst r with None => true | Some ip => IsUnspecified ip end then
        if decide (r_LinkIndex r <= 0)%Z then find_gateway h rest else
        match LinkByIndex h (r_LinkIndex r) with
        | Ok name => Ok name
        | Err _ => Err "failed to resolve link index"
        | Panic => Panic
        end
      else find_gateway h rest
  end.

Definition getDefaultGatewayInterface (h : host) : gores string :=
  match RouteList h with
  | Ok routes => find_gateway h routes
  | Err _ => Err "failed to list kernel routes"
  | Panic => Panic
  end.

Fixpoint find_default (h : host) (routes : list Route) : gores string :=
  match routes with
  | [] => Err "failed to get default iface"
  | r :: rest =>
      if match r_Dst r with None => true | Some ip => negb (bool_decide (ip = [])) && IsUnspecified ip end then
        if decide (0 < r_LinkIndex r)%Z then LinkByIndex h (r_LinkIndex r) else find_default h rest
      else find_default h rest
  end.

Definition getDefaultInterface (h : host) : gores string := routes <- RouteList h;; find_default h routes.

(** ** NAT *)

Definition mss_rule : list string :=
  ["-p"; "tcp"; "--tcp-flags"; "SYN,RST"; "SYN"; "-j"; "TCPMSS"; "--clamp-mss-to-pmtu"]%string.
Definition masquerade_rule (tunNet out : string) : list string :=
  ["-s"; tunNet; "-o"; out; "-j"; "MASQUERADE"]%string.
Definition forward_out_rule (ifin out : string) : list string :=
  ["-i"; ifin; "-o"; out; "-j"; "ACCEPT"]%string.
Definition forward_in_rule (ifin out : string) : list string :=
  ["-i"; out; "-o"; ifin; "-m"; "conntrack"; "--ctstate"; "RELATED,ESTABLISHED"; "-j"; "ACCEPT"]%string.

(** Appending rules until one fails; the error is the message of that rule. *)
Fixpoint append_rules (l : list (string * string * list string * string)) (h : host) : gores () * host :=
  match l with
  | [] => (Ok tt, h)
  | (t, c, spec, msg) :: rest =>
      match Append t c spec h with
      | (Ok _, h1) => append_rules rest h1
      | (Err _, h1) => (Err msg, h1)
      | (Panic, h1) => (Panic, h1)
      end
  end.

Definition nat_rules (ifin out tunNet : string) : list (string * string * list string * string) :=
  [("mangle", "FORWARD", mss_rule, "failed to setup MSS Clamping");
   ("nat", "POSTROUTING", masquerade_rule tunNet out, "failed to setup NAT");
   ("filter", "FORWARD", forward_out_rule ifin out, "failed to setup FORWARD IN->OUT");
   ("filter", "FORWARD", forward_in_rule ifin out, "failed to setup FORWARD OUT->IN")]%string.

Definition with_out (eg : TUNIface) (out : string) : TUNIface :=
  mkTun (mkTunConfig (IfaceInName (eg_cfg eg)) out (MTU (eg_cfg eg))) (eg_ifce eg) (eg_ipNet eg) (eg_ipt eg) (eg_closed eg).

(** The second component is the object, whose configuration may have changed. *)
Definition setupNAT (eg : TUNIface) (h : host) : gores () * TUNIface * host :=
  let out := if decide (IfaceOutName (eg_cfg eg) = "") then getDefaultInterface h else Ok (IfaceOutName (eg_cfg eg)) in
  match out with
  | Panic => (Panic, eg, h)
  | Err _ => (Err "failed to get default iface", eg, h)
  | Ok name =>
      let eg1 := with_out eg name in
      match eg_ipNet eg with
      | None => (Panic, eg1, h)
      | Some n =>
          let tunNet := IPNet_String (mkIPNet (Mask (NetIP n) (NetMask n)) (NetMask n)) in
          let '(res, h1) := append_rules (nat_rules (IfaceInName (eg_cfg eg)) name tunNet) h in (res, eg1, h1)
      end
  end.

(** ** Removal *)

(** Deleting rules; the messages of the failures. *)
Fixpoint delete_rules (l : list (string * string * list string * string)) (h : host) : list string * host :=
  match l with
  | [] => ([], h)
  | (t, c, spec, msg) :: rest =>
      let '(res, h1) := DeleteRule t c spec h in
      let '(errs, h2) := delete_rules rest h1 in
      ((match res with Ok _ => [] | _ => [msg] end) ++ errs, h2)
  end.

Definition drop_rules (ifin out tunNet : string) : list (string * string * list string * string) :=
  [("nat", "POSTROUTING", masquerade_rule tunNet out, "failed to remove NAT");
   ("filter", "FORWARD", ["-i"; ifin; "-j"; "ACCEPT"], "failed to remove FORWARD");
   ("filter", "FORWARD", ["-o"; ifin; "-j"; "ACCEPT"], "failed to remove FORWARD")]%string.

Definition remove_link (eg : TUNIface) (h : host) : list string * host :=
  if eg_ifce eg then
    match LinkByName h (IfaceInName (eg_cfg eg)) with
    | Ok link => let '(res, h1) := LinkDel link h in
                 (match res with Ok _ => [] | _ => ["failed to remove iface"%string] end, h1)
    | _ => (["failed to find iface"%string], h)
    end
  else ([], h).

(** [close]: the messages of what failed. *)
Definition close (eg : TUNIface) (h : host) : list string * host :=
  let h1 := if eg_ifce eg then CloseTUN h else h in
  let '(errs1, h2) :=
    match eg_ipNet eg with
    | Some n => if eg_ipt eg && negb (bool_decide (IfaceOutName (eg_cfg eg) = ""%string))
                then delete_rules (drop_rules (IfaceInName (eg_cfg eg)) (IfaceOutName (eg_cfg eg)) (IPNet_String n)) h1
                else ([], h1)
    | None => ([], h1)
    end in
  let '(errs2, h3) := remove_link eg h2 in (errs1 ++ errs2, h3).

Definition Close (eg : TUNIface) (h : host) : list string * TUNIface * host :=
  if eg_closed eg then ([], eg, h) else
  let '(errs, h1) := close eg h in
  (errs, mkTun (eg_cfg eg) (eg_ifce eg) (eg_ipNet eg) (eg_ipt eg) true, h1).

(** ** Creation *)

(** A step of [NewTUN] after the device exists: a failure closes everything. *)
Definition or_close {A B} (eg : TUNIface) (msg : string) (m : gores A * host) (k : A → host → gores B * host)
    : gores B * host :=
  match m with
  | (Ok a, h) => k a h
  | (Err _, h) => (Err msg, (Close eg h).2)
  | (Panic, h) => (Panic, h)
  end.

Definition NewTUN (cfg : TUNConfig) (ipCIDR : string) (h : host) : gores TUNIface * host :=
  let eg0 := mkTun cfg false None false false in
  match (if decide (IfaceOutName cfg = "") then getDefaultGatewayInterface h else Ok (IfaceOutName cfg)) with
  | Panic => (Panic, h)
  | Err _ => (Err "failed to get default out interface", h)
  | Ok _ =>
      match CreateTUN (IfaceInName cfg) (MTU cfg) h with
      | (Panic, h1) => (Panic, h1)
      | (Err _, h1) => (Err "failed to create TUn", h1)
      | (Ok _, h1) =>
          let eg1 := mkTun cfg true None false false in
          or_close eg1 "invalid CIDR" (ParseCIDR parse6 ipCIDR, h1) (λ x h2,
          let n := mkIPNet x.1 (NetMask x.2) in
          let eg2 := mkTun cfg true (Some n) false false in
          or_close eg2 "failed to get iface with name" (LinkByName h2 (IfaceInName cfg), h2) (λ link h3,
          or_close eg2 "failed to add IP" (AddrAdd link n h3) (λ _ h4,
          or_close eg2 "failed to set MTU" (if decide (0 < MTU cfg)%Z then LinkSetMTU link (MTU cfg) h4 else (Ok tt, h4))
            (λ _ h5,
          or_close eg2 "failed to up iface" (LinkSetUp link h5) (λ _ h6,
          or_close eg2 "failed to initialize iptables" (NewIPT h6, h6) (λ _ h7,
          let '(res, eg3, h8) := setupNAT (mkTun cfg true (Some n) true false) h7 in
          match res with
          | Ok _ => (Ok eg3, h8)
          | Err e => (Err e, (Close eg3 h8).2)
          | Panic => (Panic, h8)
          end))))))
      end
  end.

End Setup.

(** * Specification *)

Section Specs.
Context `{HL : HostLaws}.
Context (parse6 : list ascii → option (list Z)) (print6 : list Z → string).

(** What a list of rules adds to a chain. *)
Definition added (l : list (string * string * list string * string)) (t c : string) : list (list string) :=
  omap (λ x, if decide (x.1.1 = (t, c)) then Some x.1.2 else None) l.

(** ** Lemmas *)

Lemma append_rules_spec l h res h' :
  append_rules l h = (res, h') →
  dev_open h' = dev_open h ∧ ∃ k, (res = Ok tt → k = length l) ∧
    ∀ t c, ipt_rules h' t c = ipt_rules h t c ++ added (take k l) t c.
Proof.
  revert h. induction l as [|[[[t c] s] msg] l IH]; intros h E; simpl in E.
  { injection E as <- <-. split; [done|]. exists 0%nat. split; [done|]. intros t c. by rewrite app_nil_r. }
  pose proof (append_law t c s h) as Hl. destruct (Append t c s h) as [[[]|e|] h1].
  - destruct Hl as [Ho Hr]. destruct (IH h1 E) as (Ho' & k & Hk & Hr'). split; [congruence|]. exists (S k).
    split; [intros Hres; simpl; by rewrite Hk|]. intros t' c'. rewrite Hr', Hr. cbn [take added omap list_omap fst snd].
    destruct (decide (t' = t ∧ c' = c)) as [[-> ->]|Hne].
    + rewrite decide_True by done. by rewrite <- (assoc_L app).
    + rewrite decide_False; [done|]. intros [= -> ->]. by apply Hne.
  - destruct Hl as [Ho Hr]. injection E as <- <-. split; [done|]. exists 0%nat. split; [done|].
    intros t' c'. by rewrite Hr, app_nil_r.
  - destruct Hl as [Ho Hr]. injection E as <- <-. split; [done|]. exists 0%nat. split; [done|].
    intros t' c'. by rewrite Hr, app_nil_r.
Qed.

(** Deletions touch only the chains they name. *)
Lemma delete_rules_spec l h errs h' :
  delete_rules l h = (errs, h') → dev_open h' = dev_open h ∧
  ∀ t c, (∀ x, x ∈ l → x.1.1 = (t, c) → Forall (λ r, same_spec r x.1.2 = false) (ipt_rules h t c)) →
    ipt_rules h' t c = ipt_rules h t c ∧ ((∃ x, x ∈ l ∧ x.1.1 = (t, c)) → errs ≠ []).
Proof.
  revert h errs h'. induction l as [|[[[t0 c0] s] msg] l IH]; intros h errs h' E; simpl in E.
  { injection E as <- <-. split; [done|]. intros t c _. split; [done|]. by intros (x & ?%not_elem_of_nil & _). }
  pose proof (delete_law t0 c0 s h) as Hl. destruct (DeleteRule t0 c0 s h) as [res h1].
  destruct (delete_rules l h1) as [errs2 h2] eqn:E2. injection E as <- <-. destruct (IH _ _ _ E2) as [Ho Hr].
  assert (Hres : dev_open h1 = dev_open h) by (destruct res; by destruct Hl).
  split; [congruence|]. intros t c Hno.
  assert (Hsame : ipt_rules h1 t c = ipt_rules h t c ∧ ((t0, c0) = (t, c) → ∀ a, res ≠ Ok a)).
  { destruct (decide ((t0, c0) = (t, c))) as [[= -> ->]|Hne].
    - specialize (Hno ((t, c), s, msg) ltac:(by left) eq_refl). simpl in Hno.
      destruct res; [|destruct Hl as [_ ->]; done|destruct Hl as [_ ->]; done].
      destruct Hl as (_ & (pre & x & post & Er & Hx & _) & _). rewrite Er, Forall_app, Forall_cons in Hno.
      destruct Hno as (_ & Hx' & _). congruence.
    - split; [|done]. destruct res; [|destruct Hl as [_ ->]; done|destruct Hl as [_ ->]; done].
      destruct Hl as (_ & _ & Hoth). apply Hoth. intros [-> ->]. by apply Hne. }
  destruct Hsame as [Er Hne]. destruct (Hr t c) as [Er2 Herr].
  { intros x Hx Hxc. rewrite Er. by apply Hno; [right|]. }
  split; [congruence|]. intros (x & Hx & Hxc). apply elem_of_cons in Hx as [->|Hx].
  - specialize (Hne Hxc). destruct res as [a|e|]; [by destruct (Hne a)|done|done].
  - intros [_ He]%app_nil. apply Herr; [by exists x|done].
Qed.

Lemma remove_link_spec eg h errs h' :
  remove_link eg h = (errs, h') → ipt_rules h' = ipt_rules h ∧ dev_open h' = dev_open h.
Proof.
  unfold remove_link. intros E. destruct (eg_ifce eg); [|by injection E as <- <-].
  destruct (LinkByName h _) as [link|e|]; [|by injection E as <- <-|by injection E as <- <-].
  destruct (del_law link h) as [Hr Ho]. destruct (LinkDel link h) as [res h1]. by injection E as <- <-.
Qed.

(** The device is closed by any close of an open interface. *)
Lemma Close_device eg h : eg_ifce eg = true → eg_closed eg = false → dev_open (Close print6 eg h).2 = false.
Proof.
  intros Hi Hc. unfold Close, close. rewrite Hc, Hi. destruct (close_law h) as [_ Ho].
  assert (Hd : ∀ l errs h2, delete_rules l (CloseTUN h) = (errs, h2) → dev_open h2 = false).
  { intros l errs h2 E. apply delete_rules_spec in E as [-> _]. done. }
  destruct (match eg_ipNet eg with Some _ => _ | None => _ end) as [errs1 h2] eqn:E1.
  assert (Ho2 : dev_open h2 = false).
  { destruct (eg_ipNet eg); [destruct (_ && _)|]; [by eapply Hd|by injection E1 as <- <-|by injection E1 as <- <-]. }
  destruct (remove_link eg h2) as [errs2 h3] eqn:E2. apply remove_link_spec in E2 as [_ Ho3]. simpl. congruence.
Qed.

Lemma Close_twice eg h errs eg' h' : Close print6 eg h = (errs, eg', h') → Close print6 eg' h' = ([], eg', h').
Proof.
  unfold Close. intros E. destruct (eg_closed eg) eqn:Hc; [injection E as <- <- <-; by rewrite Hc|].
  destruct (close print6 eg h). by injection E as <- <- <-.
Qed.

(** A step of the creation that keeps the rules and the device. *)
Definition quiet {A} (h : host) (m : gores A * host) : Prop :=
  ipt_rules m.2 = ipt_rules h ∧ dev_open m.2 = dev_open h.

Lemma or_close_spec {A B} eg msg (m : gores A * host) (k : A → host → gores B * host) h res h' :
  eg_ifce eg = true → eg_closed eg = false → quiet h m → or_close print6 eg msg m k = (res, h') →
  (∃ a h1, quiet h (Ok a, h1) ∧ k a h1 = (res, h')) ∨ (is_ok res = false ∧ (res = Panic ∨ dev_open h' = false)).
Proof.
  intros Hi Hc Hq E. unfold or_close in E. destruct m as [[a|e|] h1].
  - left. by exists a, h1.
  - right. injection E as <- <-. split; [done|]. right. by apply Close_device.
  - right. injection E as <- <-. split; [done|]. by left.
Qed.

Lemma quiet_trans {A B} h (m : gores A * host) (m' : gores B * host) : quiet h m → quiet m.2 m' → quiet h m'.
Proof. intros [E1 E2] [F1 F2]. split; congruence. Qed.

(** The parts of a removal. *)
Lemma close_parts ifin out mtu n h errs h' :
  close print6 (mkTun (mkTunConfig ifin out mtu) true (Some n) true false) h = (errs, h') →
  ∃ errs1 h3 errs2, errs = errs1 ++ errs2 ∧ ipt_rules h' = ipt_rules h3 ∧
    if decide (out = ""%string) then errs1 = [] ∧ h3 = CloseTUN h
    else delete_rules (drop_rules ifin out (IPNet_String print6 n)) (CloseTUN h) = (errs1, h3).
Proof.
  unfold close. cbn [eg_ifce eg_ipNet eg_ipt eg_cfg IfaceInName IfaceOutName].
  destruct (decide (out = ""%string)) as [Hout|Hout].
  - rewrite bool_decide_true by done. cbn [negb andb]. destruct (remove_link _ _) as [errs2 h4] eqn:E.
    intros [= <- <-]. apply remove_link_spec in E as [E _]. by exists [], (CloseTUN h), errs2.
  - rewrite bool_decide_false by done. cbn [negb andb].
    destruct (delete_rules _ _) as [errs1 h3]. destruct (remove_link _ _) as [errs2 h4] eqn:E.
    intros [= <- <-]. apply remove_link_spec in E as [E _]. by exists errs1, h3, errs2.
Qed.

(** The rules of [nat_rules], chain by chain. *)
Lemma added_nat ifin out net :
  added (nat_rules ifin out net) "mangle" "FORWARD" = [mss_rule] ∧
  added (nat_rules ifin out net) "nat" "POSTROUTING" = [masquerade_rule net out] ∧
  added (nat_rules ifin out net) "filter" "FORWARD" = [forward_out_rule ifin out; forward_in_rule ifin out].
Proof. repeat split. Qed.

(** What the creation of the interface leaves. *)
Lemma NewTUN_spec cfg cidr h res h' :
  NewTUN parse6 print6 cfg cidr h = (res, h') →
  match res with
  | Ok eg => dev_open h' = true ∧ ∃ n out,
      eg = mkTun (mkTunConfig (IfaceInName cfg) out (MTU cfg)) true (Some n) true false ∧
      ∀ t c, ipt_rules h' t c = ipt_rules h t c ++ added (nat_rules (IfaceInName cfg) out
                 (IPNet_String print6 (mkIPNet (Mask (NetIP n) (NetMask n)) (NetMask n)))) t c
  | Err _ => dev_open h = false → dev_open h' = false
  | Panic => True
  end.
Proof.
  unfold NewTUN. intros E.
  destruct (if decide _ then _ else _) as [o|e|]; [|by injection E as <- <-|by injection E as <- <-].
  pose proof (create_law (IfaceInName cfg) (MTU cfg) h) as [Cr Co].
  destruct (CreateTUN _ _ h) as [[[]|e|] h1]; simpl in Cr, Co; [|injection E as <- <-; congruence|by injection E as <- <-].
  assert (Hend : is_ok res = false ∧ (res = Panic ∨ dev_open h' = false) →
    match res with Ok _ => False | Err _ => dev_open h = false → dev_open h' = false | Panic => True end).
  { intros [Hr [->|Hd]]; [done|]. by destruct res. }
  assert (Hfin : is_ok res = false ∧ (res = Panic ∨ dev_open h' = false) ∨ ∃ n h7,
    ipt_rules h7 = ipt_rules h1 ∧ dev_open h7 = true ∧
    (let '(res, eg3, h8) := setupNAT print6 (mkTun cfg true (Some n) true false) h7 in
     match res with Ok _ => (Ok eg3, h8) | Err e => (Err e, (Close print6 eg3 h8).2) | Panic => (Panic, h8) end) = (res, h')).
  { apply or_close_spec with (h := h1) in E as [(x & h2 & Q2 & E)|?]; [|by left|done..].
    apply or_close_spec with (h := h2) in E as [(link & h3 & Q3 & E)|?]; [|by left|done..].
    pose proof (addr_law link (mkIPNet x.1 (NetMask x.2)) h3) as Q4.
    apply or_close_spec with (h := h3) in E as [(u4 & h4 & Q4' & E)|?]; [|by left|done|done|exact Q4].
    assert (Q5 : quiet h4 (if decide (0 < MTU cfg)%Z then LinkSetMTU link (MTU cfg) h4 else (Ok tt, h4))).
    { case_decide; [apply mtu_law|done]. }
    apply or_close_spec with (h := h4) in E as [(u5 & h5 & Q5' & E)|?]; [|by left|done|done|exact Q5].
    apply or_close_spec with (h := h5) in E as [(u6 & h6 & Q6 & E)|?]; [|by left|done|done|apply up_law].
    apply or_close_spec with (h := h6) in E as [(u7 & h7 & Q7 & E)|?]; [|by left|done..].
    right. eexists _, h7. split; [|split; [|exact E]].
    - destruct Q2, Q3, Q4', Q5', Q6, Q7; simpl in *. congruence.
    - destruct Q2, Q3, Q4', Q5', Q6, Q7; simpl in *. congruence. }
  destruct Hfin as [Hf|(n & h7 & Er & Eo & E7)]; [specialize (Hend Hf); by destruct res|].
  unfold setupNAT in E7. cbn [eg_cfg eg_ipNet] in E7.
  destruct (if decide _ then _ else _) as [out|e|]; [| |by injection E7 as <- <-].
  2: { injection E7 as <- <-. intros _. by apply Close_device. }
  destruct (append_rules _ h7) as [nres h8] eqn:Ea. apply append_rules_spec in Ea as (Ho8 & k & Hk & Hr8).
  destruct nres as [[]|e|]; injection E7 as <- <-; [| |done].
  - split; [congruence|]. exists n, out. split; [done|]. intros t c. rewrite Hr8, Er, Cr. f_equal.
    by rewrite (Hk eq_refl), firstn_all.
  - intros _. by apply Close_device.
Qed.

(** ** Theorems *)

(** the two searches for the outbound interface agree.  [NewTUN] and
    [setupNAT] each look for the default route with code of their own; on every
    table of routes they find the same interface, or both fail. *)
Theorem default_interfaces_agree h :
  match getDefaultGatewayInterface h, getDefaultInterface h with
  | Ok a, Ok b => a = b
  | Err _, Err _ | Panic, Panic => True
  | _, _ => False
  end.
Proof.
  unfold getDefaultGatewayInterface, getDefaultInterface. destruct (RouteList h) as [l|e|]; [|done..]. cbn [gobind].
  induction l as [|r l IH]; [done|]. simpl.
  assert (Hd : match r_Dst r with None => true | Some ip => negb (bool_decide (ip = [])) && IsUnspecified ip end =
               match r_Dst r with None => true | Some ip => IsUnspecified ip end).
  { destruct (r_Dst r) as [[|b ip]|]; done. }
  rewrite Hd. generalize (match r_Dst r with None => true | Some ip => IsUnspecified ip end). intros []; [|exact IH].
  destruct (decide (r_LinkIndex r <= 0)%Z), (decide (0 < r_LinkIndex r)%Z); try lia; [exact IH|].
  by destruct (LinkByIndex h _).
Qed.

(** what the creation of the TUN interface leaves.  When [NewTUN] succeeds the
    device is open and exactly the four rules of [setupNAT] have been added, each
    at the end of its chain; when it fails, whatever step failed, no device is
    left open. *)
Theorem new_tun_installs_or_closes cfg cidr h res h' :
  NewTUN parse6 print6 cfg cidr h = (res, h') →
  match res with
  | Ok eg => dev_open h' = true ∧ ∃ n out,
      eg = mkTun (mkTunConfig (IfaceInName cfg) out (MTU cfg)) true (Some n) true false ∧
      ∀ t c, ipt_rules h' t c = ipt_rules h t c ++ added (nat_rules (IfaceInName cfg) out
                 (IPNet_String print6 (mkIPNet (Mask (NetIP n) (NetMask n)) (NetMask n)))) t c
  | Err _ => dev_open h = false → dev_open h' = false
  | Panic => True
  end.
Proof. apply NewTUN_spec. Qed.

(** what the removal of the TUN interface leaves behind.  [Close] closes the
    device and is idempotent, but the clamping rule of the mangle table stays,
    and so do both FORWARD rules unless iptables takes them for the shorter rules
    that [Close] names; then [Close] reports an error.  A node that is started
    again adds them again. *)
Theorem close_leaves_rules cfg cidr h eg h1 errs eg' h2 :
  NewTUN parse6 print6 cfg cidr h = (Ok eg, h1) → Close print6 eg h1 = (errs, eg', h2) →
  let ifin := IfaceInName cfg in let out := IfaceOutName (eg_cfg eg) in
  dev_open h2 = false ∧ Close print6 eg' h2 = ([], eg', h2) ∧
  ipt_rules h2 "mangle" "FORWARD" = ipt_rules h "mangle" "FORWARD" ++ [mss_rule] ∧
  ((∀ r s, r ∈ ipt_rules h "filter" "FORWARD" ++ [forward_out_rule ifin out; forward_in_rule ifin out] →
      s ∈ [["-i"; ifin; "-j"; "ACCEPT"]; ["-o"; ifin; "-j"; "ACCEPT"]]%string → same_spec r s = false) →
   ipt_rules h2 "filter" "FORWARD" =
     ipt_rules h "filter" "FORWARD" ++ [forward_out_rule ifin out; forward_in_rule ifin out] ∧
   (out ≠ ""%string → errs ≠ [])).
Proof.
  intros E1 E2 ifin out. pose proof (NewTUN_spec _ _ _ _ _ E1) as (Ho & n & out' & Eeg & Hr1). subst eg.
  cbn [eg_cfg IfaceOutName] in out. subst ifin out. pose proof (Close_twice _ _ _ _ _ E2) as Htwice.
  pose proof (Close_device (mkTun (mkTunConfig (IfaceInName cfg) out' (MTU cfg)) true (Some n) true false) h1 eq_refl eq_refl) as Hdev.
  rewrite E2 in Hdev. split; [done|]. split; [done|].
  unfold Close in E2. cbn [eg_closed] in E2. destruct (close print6 _ h1) as [errs0 h0] eqn:Ec.
  injection E2 as <- _ <-. apply close_parts in Ec as (errs1 & h3 & errs2 & -> & Er & Hdel). rewrite Er.
  destruct (close_law h1) as [Hcl _]. pose proof (Hr1 "mangle"%string "FORWARD"%string) as Hmangle.
  pose proof (Hr1 "filter"%string "FORWARD"%string) as Hfwd. rewrite <- Hcl in Hmangle, Hfwd.
  destruct (added_nat (IfaceInName cfg) out' (IPNet_String print6 (mkIPNet (Mask (NetIP n) (NetMask n)) (NetMask n))))
    as (Am & _ & Af). rewrite Am in Hmangle. rewrite Af in Hfwd.
  destruct (decide (out' = ""%string)) as [->|Hne].
  { destruct Hdel as [-> ->]. split; [done|]. intros _. by split. }
  apply delete_rules_spec in Hdel as [_ Hd]. split.
  - rewrite <- Hmangle. apply Hd. intros x Hx Hc. exfalso. unfold drop_rules in Hx.
    rewrite !elem_of_cons in Hx. destruct Hx as [->|[->|[->|Hx]]]; try done. by apply not_elem_of_nil in Hx.
  - intros Hno. rewrite <- Hfwd in Hno. destruct (Hd "filter" "FORWARD")%string as [Hf Herr].
    { intros x Hx Hc. apply Forall_forall. intros r Hrr. apply Hno; [exact Hrr|]. unfold drop_rules in Hx.
      rewrite !elem_of_cons in Hx. destruct Hx as [->|[->|[->|Hx]]]; try done; [by left|by right; left|].
      by apply not_elem_of_nil in Hx. }
    split; [by rewrite Hf|]. intros _ [He _]%app_nil. apply Herr; [|done].
    eexists ("filter"%string, "FORWARD"%string, _, _). split; [right; left|]; done.
Qed.

End Specs.

(** ** Witnesses: a host whose rules are a function of table and chain *)

Record demo_host := mkDemo { dh_rules : string → string → list (list string); dh_open : bool }.

Fixpoint remove_first (s : list string) (l : list (list string)) : option (list (list string)) :=
  match l with
  | [] => None
  | x :: r => if bool_decide (x = s) then Some r else cons x <$> remove_first s r
  end.

Definition with_chain (h : demo_host) (t c : string) (l : list (list string)) : demo_host :=
  mkDemo (λ t' c', if decide (t' = t ∧ c' = c) then l else dh_rules h t' c') (dh_open h).

#[local] Instance demo_ops : Host := {
  host := demo_host;
  RouteList _ := Ok [mkRoute (Some [10; 0; 0; 0]) 1; mkRoute (Some [0; 0; 0; 0]) 2]%Z;
  LinkByIndex _ i := if decide (i = 2)%Z then Ok "eth0"%string else Err "link not found";
  LinkByName _ _ := Ok 3%Z;
  CreateTUN _ _ h := (Ok tt, mkDemo (dh_rules h) true);
  CloseTUN h := mkDemo (dh_rules h) false;
  AddrAdd _ _ h := (Ok tt, h);
  LinkSetMTU _ _ h := (Ok tt, h);
  LinkSetUp _ h := (Ok tt, h);
  LinkDel _ h := (Ok tt, h);
  NewIPT _ := Ok tt;
  Append t c s h := (Ok tt, with_chain h t c (dh_rules h t c ++ [s]));
  DeleteRule t c s h := match remove_first s (dh_rules h t c) with
    | Some l => (Ok tt, with_chain h t c l)
    | None => (Err "no such rule", h)
    end }.

Lemma remove_first_spec s l l' :
  remove_first s l = Some l' → ∃ pre x post, l = pre ++ x :: post ∧ bool_decide (x = s) = true ∧ l' = pre ++ post.
Proof.
  revert l'. induction l as [|y l IH]; intros l' E; [done|]. simpl in E. destruct (bool_decide (y = s)) eqn:Ey.
  - injection E as <-. by exists [], y, l.
  - apply fmap_Some in E as (r & Er & ->). destruct (IH _ Er) as (pre & x & post & -> & Hx & ->).
    by exists (y :: pre), x, post.
Qed.

#[local] Instance demo_laws : HostLaws.
Proof.
  refine {| ipt_rules := dh_rules : host → _; same_spec r s := bool_decide (r = s); dev_open := dh_open : host → bool |};
    try done.
  intros t c s h. cbn [DeleteRule demo_ops]. destruct (remove_first s (dh_rules h t c)) as [l|] eqn:E; [|done].
  split; [done|]. apply remove_first_spec in E as (pre & x & post & E & Hx & ->). split.
  - exists pre, x, post. split; [exact E|]. split; [exact Hx|]. cbn. by rewrite decide_True.
  - intros t' c' Hne. cbn. by rewrite decide_False.
Defined.

Definition demo_cfg : TUNConfig := mkTunConfig "tun0" "" 1400.
Definition demo_empty : demo_host := mkDemo (λ _ _, []) false.
Definition no6 : list ascii → option (list Z) := λ _, None.
Definition demo_new : gores TUNIface * demo_host := NewTUN no6 (λ _, ""%string) demo_cfg "10.8.0.1/16" demo_empty.
Definition demo_tun : TUNIface :=
  match demo_new.1 with Ok eg => eg | _ => mkTun demo_cfg false None false false end.
Definition demo_end : list string * TUNIface * demo_host := Close (λ _, ""%string) demo_tun demo_new.2.

Lemma demo_new_ok :
  NewTUN no6 (λ _, ""%string) demo_cfg "10.8.0.1/16" demo_empty = (Ok demo_tun, demo_new.2).
Proof. vm_compute. reflexivity. Qed.

Lemma new_tun_installs_or_closes_witness :
  dev_open demo_new.2 = true ∧ ipt_rules demo_new.2 "nat" "POSTROUTING" = [masquerade_rule "10.8.0.0/16" "eth0"].
Proof.
  destruct (new_tun_installs_or_closes _ _ _ _ _ _ _ demo_new_ok) as (Ho & n & out & E & Hr). split; [exact Ho|].
  rewrite Hr. vm_compute in E. injection E as <- <-. vm_compute. reflexivity.
Defined.

Lemma close_leaves_rules_witness :
  dev_open demo_end.2 = false ∧
  ipt_rules demo_end.2 "mangle" "FORWARD" = [mss_rule] ∧
  ipt_rules demo_end.2 "filter" "FORWARD" = [forward_out_rule "tun0" "eth0"; forward_in_rule "tun0" "eth0"].
Proof.
  assert (E2 : Close (λ _, ""%string) demo_tun demo_new.2 = (demo_end.1.1, demo_end.1.2, demo_end.2)).
  { fold demo_end. by destruct demo_end as [[??]?]. }
  destruct (close_leaves_rules _ _ _ _ _ _ _ _ _ _ demo_new_ok E2) as (Ho & _ & Hm & Hf).
  split; [exact Ho|]. split; [exact Hm|]. destruct Hf as [Hf _]; [|exact Hf].
  assert (Hno : Forall (λ r, Forall (λ s, same_spec r s = false)
      [["-i"; "tun0"; "-j"; "ACCEPT"]; ["-o"; "tun0"; "-j"; "ACCEPT"]]%string)
      [forward_out_rule "tun0" "eth0"; forward_in_rule "tun0" "eth0"]) by (vm_compute; repeat constructor).
  intros r s Hr Hs. rewrite Forall_forall in Hno. specialize (Hno r Hr). rewrite Forall_forall in Hno. exact (Hno s Hs).
Defined.

End TunSetup.
