(* ===== verification/TunRun.v ===== *)
(** * The run of the TUN interface (pkg/iface/iface.go: Run)

    [Run] starts the two loops of TunLoops.v and closes the interface of TunSetup.v
    when both have returned.  The read loop knows nothing of the context while it is
    inside [Read]: a function that the context calls closes the device under it.
    What the loops do with packets is in TunLoops.v; here is when they end. *)
From S2P Require Import Prelude NetUtils TunSetup.
Import TunSetup.TunSetup.

Open Scope go_scope.

Module TunRun.

Section Run.
Context `{HL : HostLaws}.
Context (print6 : list Z → string).

(** Where the read loop is: before the check of the context, at the lock of the
    buffer, inside [Read] with the lock, asleep after an error, returned. *)
Inductive reader := Top | Locking | Reading | Asleep | Left.

(** [ru_armed]: the function of [AfterFunc] may still be called; [ru_busy]: the
    goroutine of a batch holds the lock of the buffer; [ru_over]: [Run] returned. *)
Record Running := mkRunning {
  ru_eg : TUNIface;
  ru_host : host;
  ru_cancelled : bool;
  ru_armed : bool;
  ru_reader : reader;
  ru_busy : bool;
  ru_writer : bool;
  ru_over : bool }.

Definition Run (eg : TUNIface) (h : host) : Running := mkRunning eg h false true Top false true false.

Definition set_reader (s : Running) (r : reader) (busy : bool) : Running :=
  mkRunning (ru_eg s) (ru_host s) (ru_cancelled s) (ru_armed s) r busy (ru_writer s) (ru_over s).

(** What [Read] yields on an open device: it blocks ([None]), fails, or reads
    packets, of which there may be none. *)
Definition read_result := option (gores nat).

(** A step of the read loop. *)
Definition reader_turn (res : read_result) (s : Running) : Running :=
  match ru_reader s with
  | Top => set_reader s (if ru_cancelled s then Left else Locking) (ru_busy s)
  | Locking => if ru_busy s then s else set_reader s Reading (ru_busy s)
  | Reading =>
      match (if dev_open (ru_host s) then res else Some (Err "file already closed")) with
      | None => s
      | Some (Ok n) => set_reader s Top (negb (bool_decide (n = 0%nat)))
      | Some _ => set_reader s Asleep (ru_busy s)
      end
  | Asleep => set_reader s Top (ru_busy s)
  | Left => s
  end.

Inductive act :=
| Cancel
| AfterFunc
| ReaderTurn (res : read_result)
| BatchDone
| WriterTurn (pick_done : bool)
| Return.

(** [WriterTurn]: with the context done and a message in the channel, [select]
    chooses.  [Return]: [wg.Wait] returns when both loops have, and [Run] closes the
    interface; [stopWatch] does not stop a function that the context has called. *)
Definition step (x : act) (s : Running) : Running :=
  match x with
  | Cancel => mkRunning (ru_eg s) (ru_host s) true (ru_armed s) (ru_reader s) (ru_busy s) (ru_writer s) (ru_over s)
  | AfterFunc =>
      if ru_cancelled s && ru_armed s
      then mkRunning (ru_eg s) (CloseTUN (ru_host s)) (ru_cancelled s) false (ru_reader s) (ru_busy s) (ru_writer s) (ru_over s)
      else s
  | ReaderTurn res => reader_turn res s
  | BatchDone => set_reader s (ru_reader s) false
  | WriterTurn pick =>
      if ru_cancelled s && pick
      then mkRunning (ru_eg s) (ru_host s) (ru_cancelled s) (ru_armed s) (ru_reader s) (ru_busy s) false (ru_over s)
      else s
  | Return =>
      if bool_decide (ru_over s = false) && negb (ru_writer s) && match ru_reader s with Left => true | _ => false end then
        let '(_, eg', h') := Close print6 (ru_eg s) (ru_host s) in
        mkRunning eg' h' (ru_cancelled s) (ru_armed s && ru_cancelled s) Left (ru_busy s) false true
      else s
  end.

Definition run (xs : list act) (s : Running) : Running := foldl (λ s x, step x s) s xs.

(** * Specification *)

Record run_ok (eg : TUNIface) (h : host) (s : Running) : Prop := {
  rk_before : ru_cancelled s = false →
    ru_eg s = eg ∧ ru_host s = h ∧ ru_armed s = true ∧ ru_reader s ≠ Left ∧ ru_writer s = true ∧ ru_over s = false;
  rk_fired : ru_armed s = false → dev_open (ru_host s) = false;
  rk_device : eg_ifce (ru_eg s) = true;
  rk_open : ru_over s = false → eg_closed (ru_eg s) = false;
  rk_over : ru_over s = true → eg_closed (ru_eg s) = true ∧ dev_open (ru_host s) = false }.

Lemma run_start eg h : eg_ifce eg = true → eg_closed eg = false → run_ok eg h (Run eg h).
Proof. intros H1 H2. by constructor. Qed.

Lemma Close_closes eg h eg' h' errs :
  eg_ifce eg = true → eg_closed eg = false → Close print6 eg h = (errs, eg', h') →
  eg_ifce eg' = true ∧ eg_closed eg' = true ∧ dev_open h' = false.
Proof.
  intros Hi Hc E. pose proof (Close_device print6 eg h Hi Hc) as Hd. rewrite E in Hd. revert E. unfold Close. rewrite Hc.
  destruct (close print6 eg h). by intros [= _ <- <-].
Qed.

Lemma reader_turn_ok eg h res s : run_ok eg h s → run_ok eg h (reader_turn res s).
Proof.
  intros Hs. pose proof Hs as [H1 HA H2 H3 H4]. unfold reader_turn.
  assert (Hset : ∀ r b, (ru_cancelled s = false → r ≠ Left) → run_ok eg h (set_reader s r b)).
  { intros r b Hr. constructor; simpl; try done. intros Hc. destruct (H1 Hc) as (? & ? & ? & _ & ? & ?). split_and!; try done. by apply Hr. }
  destruct (ru_reader s); [apply Hset; by intros ->|destruct (ru_busy s); [done|by apply Hset]| |by apply Hset|done].
  destruct (if dev_open (ru_host s) then res else _) as [[n| |]|]; [by apply Hset..|done].
Qed.

Lemma step_ok eg h x s : run_ok eg h s → run_ok eg h (step x s).
Proof.
  intros Hs. pose proof Hs as [H1 HA H2 H3 H4]. destruct x as [| |res| |pick|]; cbn [step].
  - by constructor.
  - destruct (ru_cancelled s && ru_armed s) eqn:E; [|done]. apply andb_true_iff in E as [Ec _].
    constructor; simpl; [congruence|intros _; apply close_law|done|done|]. intros Ho. split; [by apply H4|]. apply close_law.
  - by apply reader_turn_ok.
  - constructor; simpl; try done.
  - destruct (ru_cancelled s && pick) eqn:E; [|done]. apply andb_true_iff in E as [Ec _]. constructor; simpl; try done. congruence.
  - case_bool_decide as Ho; [|done]. destruct (ru_writer s) eqn:Ew; [done|]. destruct (ru_reader s) eqn:Er; try done. simpl.
    assert (Ec : ru_cancelled s = true) by (destruct (ru_cancelled s) eqn:Ec; [done|]; destruct (H1 eq_refl) as (_ & _ & _ & [] & _); done).
    destruct (Close print6 (ru_eg s) (ru_host s)) as [[errs eg'] h'] eqn:E. destruct (Close_closes _ _ _ _ _ H2 (H3 Ho) E) as (? & ? & ?).
    by constructor; simpl; try done; rewrite ?Ec.
Qed.

Lemma run_stays (P : Running → Prop) xs s : (∀ x s, P s → P (step x s)) → P s → P (run xs s).
Proof. intros Hstep. revert s. induction xs as [|x xs IH]; intros s Hs; [done|]. by apply IH, Hstep. Qed.

(** Nothing opens what the end has closed. *)
Definition ending (s : Running) : Prop := ru_cancelled s = true ∧ dev_open (ru_host s) = false.
Definition idle (s : Running) : Prop := ending s ∧ ru_busy s = false.
Definition rank (r : reader) : nat := match r with Locking => 4 | Reading => 3 | Asleep => 2 | Top => 1 | Left => 0 end.
Definition is_turn (x : act) : Prop := match x with ReaderTurn _ => True | _ => False end.
#[export] Instance is_turn_dec x : Decision (is_turn x).
Proof. destruct x; simpl; apply _. Defined.

Lemma cancelled_stays x s : ru_cancelled s = true → ru_cancelled (step x s) = true.
Proof.
  intros Hc. destruct x as [| |res| |pick|]; cbn [step]; try done.
  - by destruct (_ && _).
  - unfold reader_turn. destruct (ru_reader s); try done; [by destruct (ru_busy s)|].
    by destruct (if dev_open (ru_host s) then res else _) as [[| |]|].
  - by destruct (_ && _).
  - destruct (_ && _); [|done]. by destruct (Close _ _ _) as [[? ?] ?].
Qed.

Lemma writer_stays x s : ru_writer s = false → ru_writer (step x s) = false.
Proof.
  intros Hc. destruct x as [| |res| |pick|]; cbn [step]; try done.
  - by destruct (_ && _).
  - unfold reader_turn. destruct (ru_reader s); try done; [by destruct (ru_busy s)|].
    by destruct (if dev_open (ru_host s) then res else _) as [[| |]|].
  - by destruct (_ && _).
  - destruct (_ && _); [|done]. by destruct (Close _ _ _) as [[? ?] ?].
Qed.

Lemma ending_step eg h x s : run_ok eg h s → ending s → ending (step x s) ∧ (ru_busy s = false → ru_busy (step x s) = false) ∧
  (rank (ru_reader (step x s)) <= rank (ru_reader s))%nat ∧
  (is_turn x → ru_busy s = false → ru_reader s ≠ Left → (rank (ru_reader (step x s)) < rank (ru_reader s))%nat).
Proof.
  intros [H1 HA H2 H3 H4] [Hc Hd]. pose proof (cancelled_stays x s Hc) as Hc'. split; [split; [done|]|].
  - destruct x as [| |res| |pick|]; cbn [step]; try done.
    + destruct (_ && _); [apply close_law|done].
    + unfold reader_turn. destruct (ru_reader s); try done; [by destruct (ru_busy s)|]. by destruct (if dev_open (ru_host s) then res else _) as [[| |]|].
    + by destruct (_ && _).
    + case_bool_decide as Ho; [|done]. destruct (_ && _); [|done]. destruct (Close print6 (ru_eg s) (ru_host s)) as [[errs eg'] h'] eqn:E.
      by destruct (Close_closes _ _ _ _ _ H2 (H3 Ho) E) as (? & ? & ?).
  - destruct x as [| |res| |pick|]; cbn [step is_turn]; try (split_and!; [done|simpl; lia|done]).
    + destruct (_ && _); by split_and!.
    + unfold reader_turn. rewrite Hc, Hd. destruct (ru_reader s) eqn:Er; simpl; rewrite ?Er; try (split_and!; simpl; [done|lia|lia]).
      * destruct (ru_busy s) eqn:Eb; simpl; rewrite ?Er; split_and!; simpl; try done; lia.
      * split_and!; [done|simpl; lia|done].
    + destruct (_ && _); split_and!; simpl; try done; lia.
    + destruct (_ && _ && _) eqn:E; [|by split_and!]. destruct (Close _ _ _) as [[? ?] ?]. split_and!; simpl; [done|lia|done].
Qed.

Lemma ending_run eg h xs s : run_ok eg h s → ending s → run_ok eg h (run xs s) ∧ ending (run xs s).
Proof.
  intros H1 H2. apply (run_stays (λ s, run_ok eg h s ∧ ending s)); [|done]. intros x s' [Hs He].
  split; [by apply step_ok|by apply (ending_step eg h)].
Qed.

(** Enough turns bring the read loop out, if nobody holds the lock. *)
Lemma idle_run eg h xs s :
  run_ok eg h s → idle s → (rank (ru_reader s) <= length (filter is_turn xs))%nat → ru_reader (run xs s) = Left.
Proof.
  revert s. induction xs as [|x xs IH]; intros s Hs [He Hb] Hn; simpl in *.
  { destruct (ru_reader s); simpl in Hn; [lia..|done]. }
  destruct (ending_step eg h x s Hs He) as (He' & Hb' & Hle & Hlt). apply IH; [by apply step_ok|split; [done|by apply Hb']|].
  rewrite filter_cons in Hn. case_decide as Ht; simpl in Hn; [|lia].
  destruct (ru_reader s) eqn:Er; simpl in Hle; [..|lia]; specialize (Hlt Ht Hb ltac:(done)); lia.
Qed.

Lemma writer_leaves xs s : ru_cancelled s = true → WriterTurn true ∈ xs → ru_writer (run xs s) = false.
Proof.
  revert s. induction xs as [|x xs IH]; intros s Hc Hin; [by apply not_elem_of_nil in Hin|].
  apply elem_of_cons in Hin as [<-|Hin]; simpl; [|apply IH; [by apply cancelled_stays|done]].
  apply (run_stays (λ s, ru_writer s = false)); [intros x' s'; by apply writer_stays|]. by rewrite Hc.
Qed.

Lemma return_when_left s : ru_over s = false → ru_writer s = false → ru_reader s = Left → ru_over (step Return s) = true.
Proof. intros H1 H2 H3. cbn [step]. rewrite H1, H2, H3. simpl. by destruct (Close print6 (ru_eg s) (ru_host s)) as [[? ?] ?]. Qed.

(** C37: the interface ends with the node, and not before.  Whatever the device yields,
    errors included, and in whatever order the loops run: until the context is cancelled
    no loop returns and the interface is as it was.  Once it is cancelled and the device
    has been closed under the reader, when the packets of the last batch are handed over,
    four more turns of the read loop and a turn of the write loop that sees the context
    let [Run] return, however they are mixed and whatever else happens; the interface is
    closed then, by [Close], and the device too. *)
Theorem run_ends eg h xs :
  eg_ifce eg = true → eg_closed eg = false → dev_open h = true →
  let s := run xs (Run eg h) in
  (ru_cancelled s = false → ru_eg s = eg ∧ dev_open (ru_host s) = true ∧ ru_reader s ≠ Left ∧ ru_writer s = true ∧ ru_over s = false) ∧
  ∀ ys zs, (4 <= length (filter is_turn zs))%nat → WriterTurn true ∈ zs →
    let s' := run (Cancel :: AfterFunc :: ys ++ BatchDone :: zs ++ [Return]) s in
    ru_over s' = true ∧ eg_closed (ru_eg s') = true ∧ dev_open (ru_host s') = false.
Proof.
  intros Hi Hc Ho s. assert (Hs : run_ok eg h s) by (apply run_stays; [intros x s'; apply step_ok|by apply run_start]). split.
  { intros Hn. destruct (rk_before _ _ _ Hs Hn) as (-> & -> & _ & ? & ? & ?). by split_and!. }
  intros ys zs Hz Hw. set (s1 := step AfterFunc (step Cancel s)).
  assert (H1 : run_ok eg h s1 ∧ ending s1).
  { subst s1. split; [by do 2 apply step_ok|]. cbn [step]. simpl. destruct (ru_armed s) eqn:Ea; simpl; split; try done; [apply close_law|].
    by apply (rk_fired _ _ _ Hs). }
  destruct H1 as [H1 E1]. destruct (ending_run eg h ys s1 H1 E1) as [H2 E2]. set (s3 := step BatchDone (run ys s1)).
  assert (H3 : run_ok eg h s3) by by apply step_ok. assert (E3 : idle s3) by (split; [exact E2|done]).
  destruct (ending_run eg h zs s3 H3 (proj1 E3)) as [H4 _].
  assert (Hl : ru_reader (run zs s3) = Left) by (apply (idle_run eg h); [done|done|]; destruct (ru_reader s3); simpl; lia).
  assert (Hwr : ru_writer (run zs s3) = false) by (apply writer_leaves; [apply E3|done]).
  assert (Es : run (Cancel :: AfterFunc :: ys ++ BatchDone :: zs ++ [Return]) s = step Return (run zs s3)).
  { unfold run. cbn [foldl]. rewrite foldl_app. cbn [foldl]. by rewrite foldl_app. }
  rewrite Es. assert (Hover : ru_over (step Return (run zs s3)) = true).
  { destruct (ru_over (run zs s3)) eqn:Eo; [cbn [step]; by rewrite Eo|by apply return_when_left]. }
  split; [done|]. by apply (rk_over _ _ _ (step_ok eg h Return _ H4)).
Qed.

End Run.

(** ** Witness *)

#[local] Existing Instance demo_ops.
#[local] Existing Instance demo_laws.

(** A batch is under way and the loop waits for its buffer when the node ends. *)
Definition some_work : list act := [ReaderTurn None; ReaderTurn None; ReaderTurn (Some (Ok 2%nat)); ReaderTurn None; ReaderTurn None].

Lemma run_ends_witness :
  let s := run (λ _, ""%string) some_work (Run demo_tun demo_new.2) in
  ru_over s = false ∧ ru_busy s = true ∧
  ru_over (run (λ _, ""%string) (Cancel :: AfterFunc :: [ReaderTurn None] ++ BatchDone ::
    [ReaderTurn None; WriterTurn false; ReaderTurn None; WriterTurn true; ReaderTurn None; ReaderTurn None] ++ [Return]) s) = true.
Proof.
  intros s. destruct (@run_ends demo_ops demo_laws (λ _, ""%string) demo_tun demo_new.2 some_work eq_refl eq_refl eq_refl) as [_ H].
  destruct (H [ReaderTurn None] [ReaderTurn None; WriterTurn false; ReaderTurn None; WriterTurn true; ReaderTurn None; ReaderTurn None])
    as (Ho & _); [by vm_compute; lia|do 3 apply list_elem_of_further; apply list_elem_of_here|].
  split; [vm_compute; reflexivity|]. split; [vm_compute; reflexivity|]. exact Ho.
Defined.

End TunRun.
