(* ===== verification/Api.v ===== *)
(** * The control plane (pkg/api/controllers, pkg/model)

    The handlers of the gRPC services and of the HTTP endpoints, and the check of
    the bearer token in front of both.  The JWT library is the interface [JWT];
    the managers are those of Services.v, over any firewall and transports with
    their laws. *)
From S2P Require Import Prelude Firewall Router Repos Model Encodings Services.
Import Firewall.Firewall.

Open Scope go_scope.

(** [ParseWithClaims methods secret now token]: [token.Valid] and the claims, for
    a signature by one of the methods; the claims of the token by name. *)
Class JWT := {
  Claims : Type;
  ParseWithClaims : list string → string → Z → string → gores (bool * Claims);
  has_claim : Claims → string → bool }.

Class JWTLaws `{JWT} := {
  jwt_returns methods secret now token : ParseWithClaims methods secret now token ≠ Panic }.

Module Api.
Import Services.

(** ** Answers *)

(** The codes of google.golang.org/grpc/codes that the handlers answer with; an
    error without a status has the code [Unknown]. *)
Inductive Code := Unauthenticated | InvalidArgument | NotFound | Internal | Unknown.

Inductive rpc (A : Type) :=
| Reply (a : A)
| Status (c : Code) (msg : string).
Arguments Reply {A} _.
Arguments Status {A} _ _.

Record HTTPResponse := mkResponse { r_status : Z; r_contentType : string; r_body : string }.

(** [%q] of a text without quotes, backslashes or control characters. *)
Definition quoted (s : string) : string := String Encodings.quote (s +:+ String Encodings.quote "").

Definition respondWithError (code : Z) (message : string) : HTTPResponse :=
  mkResponse code "application/json" ("{" +:+ quoted "error" +:+ ":" +:+ quoted message +:+ "}").

(** ** The bearer token *)

(** [strings.Split] with a separator of one character. *)
Fixpoint Split (sep : ascii) (s : string) : list string :=
  match s with
  | EmptyString => [EmptyString]
  | String c rest =>
      if decide (c = sep) then EmptyString :: Split sep rest else
      match Split sep rest with
      | w :: ws => String c w :: ws
      | [] => [String c EmptyString]
      end
  end.

Definition to_lower (c : ascii) : ascii :=
  if decide (65 <= Encodings.byte_of c <= 90)%Z then Encodings.char_of (Encodings.byte_of c + 32) else c.
Fixpoint lower (s : string) : string :=
  match s with EmptyString => EmptyString | String c r => String (to_lower c) (lower r) end.

(** [strings.EqualFold] against a text whose letters fold to ASCII letters only
    (that excludes k and s), as those of "Bearer" do. *)
Definition EqualFold (s t : string) : bool := bool_decide (lower s = lower t).

Definition hmac_methods : list string := ["HS256"; "HS384"; "HS512"]%string.

Section Auth.
Context `{JW : JWT} (jwtSecret : string) (now : Z).

(** [md]: the values under "authorization" in the metadata of the call, if there
    is metadata at all. *)
Definition UnaryAuthInterceptor {A S} (md : option (list string)) (handler : S → gores (rpc A * S)) (s : S)
    : gores (rpc A * S) :=
  match md with
  | None => Ok (Status Unauthenticated "metadata is not provided", s)
  | Some [] => Ok (Status Unauthenticated "authorization token is missing", s)
  | Some (authHeader :: _) =>
      match Split " "%char authHeader with
      | [scheme; tokenString] =>
          if negb (EqualFold scheme "Bearer")
          then Ok (Status Unauthenticated "authorization header format must be 'Bearer <token>'", s) else
          match ParseWithClaims hmac_methods jwtSecret now tokenString with
          | Panic => Panic
          | Err _ => Ok (Status Unauthenticated "invalid or expired token", s)
          | Ok (valid, claims) =>
              if negb valid then Ok (Status Unauthenticated "invalid or expired token", s) else
              if negb (has_claim claims "exp")
              then Ok (Status Unauthenticated "token must have an expiration", s)
              else handler s
          end
      | _ => Ok (Status Unauthenticated "authorization header format must be 'Bearer <token>'", s)
      end
  end.

(** [authHeader]: the first value of the header, empty if there is none. *)
Definition HTTPAuthMiddleware (authHeader : string) (next : gores HTTPResponse) : gores HTTPResponse :=
  if decide (authHeader = "") then Ok (respondWithError 401 "missing authorization header") else
  match Split " "%char authHeader with
  | [scheme; tokenString] =>
      if negb (EqualFold scheme "Bearer")
      then Ok (respondWithError 401 "authorization header format must be 'Bearer <token>'") else
      match ParseWithClaims hmac_methods jwtSecret now tokenString with
      | Panic => Panic
      | Err _ => Ok (respondWithError 401 "invalid or expired token")
      | Ok (valid, claims) =>
          if negb valid then Ok (respondWithError 401 "invalid or expired token") else
          if negb (has_claim claims "exp") then Ok (respondWithError 401 "token must have an expiration")
          else next
      end
  | _ => Ok (respondWithError 401 "authorization header format must be 'Bearer <token>'")
  end.

End Auth.

(** ** HTTP *)

(** A struct as encoding/json writes it: when several fields have the same name,
    none of them is written. *)
Definition json_struct (fields : list (string * string)) : string :=
  Encodings.json_object (filter (λ f, length (filter (λ n, n = f.1) fields.*1) = 1%nat) fields).

Record ConnectivityState := mkConn { cs_Id : string; cs_Addr : string; cs_TotalSent : Z; cs_TotalRecv : Z }.

Definition json_connectivity (c : ConnectivityState) : string :=
  json_struct [("id", Encodings.json_string (cs_Id c)); ("addr", Encodings.json_string (cs_Addr c));
               ("total_sent", pretty (cs_TotalSent c)); ("total_recv", pretty (cs_TotalRecv c))]%string.

(** All three fields are tagged "from_iface". *)
Definition json_stats (st : Router.Router.RouterStats) : string :=
  json_struct [("from_iface", pretty (Router.Router.TotalFromIface st));
               ("from_iface", pretty (Router.Router.TotalFromMesh st));
               ("from_iface", pretty (Router.Router.TotalFromPeers st))]%string.

Definition newline : string := String "010"%char "".

Definition http_get (method body : string) : HTTPResponse :=
  if decide (method ≠ "GET"%string)
  then mkResponse 405 "text/plain; charset=utf-8" ("Method not allowed" +:+ newline)
  else mkResponse 200 "application/json" (body +:+ newline).

Definition handleConnectivity (connectivity : list ConnectivityState) (method : string) : HTTPResponse :=
  http_get method (Encodings.json_list (json_connectivity <$> connectivity)).

Definition handleStats (stats : Router.Router.RouterStats) (method : string) : HTTPResponse :=
  http_get method (json_stats stats).

(** The paths of the two services. *)
Definition http_mux (connectivity : list ConnectivityState) (stats : Router.Router.RouterStats)
    (path method : string) : HTTPResponse :=
  if decide (path = "/mesh/connectivity"%string) then handleConnectivity connectivity method else
  if decide (path = "/router/stats"%string) then handleStats stats method else
  mkResponse 404 "text/plain; charset=utf-8" ("404 page not found" +:+ newline).

(** ** gRPC messages *)

Module Pb.

Record PortRule := mkPortRule {
  PeerId : Z; TargetAddress : option Z; Protocol : string; PortRangeStart : Z; PortRangeEnd : option Z }.

(** A timestamp is its time, in nanoseconds. *)
Record CreatePeerAutoIDRequest := mkCreate {
  Type_ : string; ExpirationDate : option Z;
  TrafficLimitGb : option Repos.Repos.float64; SpeedLimitMbps : option Repos.Repos.float64 }.

Record CreatePeerResponse := mkCreated {
  cp_Id : Z; cp_VirtualIp : Z; cp_AwgPrivateKey : string; cp_AwgPublicKey : string }.

Record Peer := mkPeer {
  Id : Z; PType : string; VirtualIp : Z; LastSeen : Z; PExpirationDate : option Z;
  FromPeerTotal : Z; ToPeerTotal : Z; AwgPrivateKey : string; AwgPublicKey : string;
  PTrafficLimitGb : option Repos.Repos.float64; PSpeedLimitMbps : option Repos.Repos.float64 }.

End Pb.

(** [AsTime] of a missing timestamp is the epoch. *)
Definition AsTime (t : option Z) : Z := default 0%Z t.

Definition convertToPbPeer (p : Model.Peer) : Pb.Peer :=
  Pb.mkPeer (Model.ID p) (Model.Type_ p) (Model.VirtualIP p) (Model.LastSeen p) (Model.ExpirationDate p)
    (Model.FromPeerTotal p) (Model.ToPeerTotal p) (Model.AwgPrivateKey p) (Model.AwgPublicKey p)
    (Model.TrafficLimitGb p) (Model.SpeedLimitMbps p).

(** ** gRPC handlers *)

Section Handlers.
Context {W : Type} `{LR : LocalRules W} `{TP : Transports W} (nodeID : string) (startingIP : Z).

Notation State := (Repos.Repos.DB * W)%type.

Definition domain_rule (req : Pb.PortRule) : Model.PortRule :=
  Model.mkPortRule 0 (Pb.TargetAddress req) (Pb.Protocol req) (u16 (Pb.PortRangeStart req))
    (u16 <$> Pb.PortRangeEnd req).

Definition AddRule (req : Pb.PortRule) (s : State) : gores (rpc Z * State) :=
  x <- Firewallmanager.AddRule nodeID s.1 s.2 (Pb.PeerId req) (domain_rule req);;
  let '(err, db, w, rule) := x in
  match err with
  | Some _ => Ok (Status Internal "failed to add rule", (db, w))
  | None => Ok (Reply (Model.RuleID rule), (db, w))
  end.

Definition pb_rule (peerId : Z) (v : Model.PortRule) : Pb.PortRule :=
  Pb.mkPortRule peerId (Model.TargetAddress v) (Model.Protocol v) (Model.PortRangeStart v) (Model.PortRangeEnd v).

Definition ListPeerRules (peerId : Z) (s : State) : gores (rpc (list Pb.PortRule) * State) :=
  match Firewallmanager.ListPeerRules s.1 peerId with
  | (Ok r, db) => Ok (Reply (pb_rule peerId <$> r), (db, s.2))
  | (Err e, db) => Ok (Status Unknown e, (db, s.2))
  | (Panic, _) => Panic
  end.

(** The answer without content to an operation of a manager. *)
Definition empty_reply (msg : string) (m : gores (option string * Repos.Repos.DB * W)) : gores (rpc () * State) :=
  x <- m;; let '(err, db, w) := x in
  match err with
  | Some _ => Ok (Status Internal msg, (db, w))
  | None => Ok (Reply tt, (db, w))
  end.

Definition RemoveRule (ruleId : Z) (s : State) : gores (rpc () * State) :=
  if decide (ruleId = 0%Z) then Ok (Status InvalidArgument "rule_id cannot be 0", s) else
  empty_reply "failed to remove rule" (Firewallmanager.RemoveRule nodeID s.1 s.2 ruleId).

Definition RemoveAllPeerRules (peerId : Z) (s : State) : gores (rpc () * State) :=
  if decide (peerId = 0%Z) then Ok (Status InvalidArgument "peer_id cannot be 0", s) else
  empty_reply "failed to remove all peer rules" (Firewallmanager.RemoveAllPeerRules nodeID s.1 s.2 peerId).

Definition domain_peer (req : Pb.CreatePeerAutoIDRequest) : Model.Peer :=
  Model.mkPeer 0 (Pb.Type_ req) 0 0 (Pb.ExpirationDate req) 0 0 (Pb.TrafficLimitGb req) (Pb.SpeedLimitMbps req) "" "".

Definition CreatePeerAutoID (now : Z) (req : Pb.CreatePeerAutoIDRequest) (s : State)
    : gores (rpc Pb.CreatePeerResponse * State) :=
  x <- PeersManager.CreatePeerAutoID startingIP now s.1 s.2 (domain_peer req);;
  let '(err, db, w, p) := x in
  match err with
  | Some _ => Ok (Status Internal "failed to create peer", (db, w))
  | None => Ok (Reply (Pb.mkCreated (Model.ID p) (Model.VirtualIP p) (Model.AwgPrivateKey p) (Model.AwgPublicKey p)), (db, w))
  end.

Definition GetPeer (id : Z) (s : State) : gores (rpc Pb.Peer * State) :=
  if decide (id = 0%Z) then Ok (Status InvalidArgument "id cannot be 0", s) else
  match PeersManager.GetPeerByID s.1 id with
  | (Ok p, db) => Ok (Reply (convertToPbPeer p), (db, s.2))
  | (Err _, db) => Ok (Status NotFound "peer not found", (db, s.2))
  | (Panic, _) => Panic
  end.

Definition ListPeers (s : State) : gores (rpc (list Pb.Peer) * State) :=
  match PeersManager.ListPeers s.1 with
  | (Ok l, db) => Ok (Reply (convertToPbPeer <$> l), (db, s.2))
  | (Err _, db) => Ok (Status Internal "failed to list peers", (db, s.2))
  | (Panic, _) => Panic
  end.

Definition DeletePeer (id : Z) (s : State) : gores (rpc () * State) :=
  if decide (id = 0%Z) then Ok (Status InvalidArgument "id cannot be 0", s) else
  empty_reply "failed to delete peer" (PeersManager.DeletePeer nodeID s.1 s.2 id).

Definition ProlongPeer (id : Z) (newExpirationDate : option Z) (s : State) : gores (rpc () * State) :=
  match PeersManager.ProlongPeer s.1 id (AsTime newExpirationDate) with
  | (Ok _, db) => Ok (Reply tt, (db, s.2))
  | (Err e, db) => Ok (Status Unknown e, (db, s.2))
  | (Panic, _) => Panic
  end.

Definition GenerateClientKey (peerId : Z) (addr name : string) (s : State) : gores (rpc string * State) :=
  match PeersManager.GenerateClientKey s.1 s.2 peerId addr name with
  | (Ok key, db) => Ok (Reply key, (db, s.2))
  | (Err e, db) => Ok (Status Unknown e, (db, s.2))
  | (Panic, _) => Panic
  end.

(** ** Calls *)

Inductive Request :=
| RqAddRule (req : Pb.PortRule)
| RqListPeerRules (peerId : Z)
| RqRemoveRule (ruleId : Z)
| RqRemoveAllPeerRules (peerId : Z)
| RqCreatePeer (req : Pb.CreatePeerAutoIDRequest)
| RqGetPeer (id : Z)
| RqListPeers
| RqDeletePeer (id : Z)
| RqProlongPeer (id : Z) (newExpirationDate : option Z)
| RqGenerateClientKey (peerId : Z) (addr name : string).

Inductive Response :=
| RsRule (id : Z)
| RsRules (l : list Pb.PortRule)
| RsEmpty
| RsCreated (r : Pb.CreatePeerResponse)
| RsPeer (p : Pb.Peer)
| RsPeers (l : list Pb.Peer)
| RsKey (key : string).

Definition rpc_map {A B} (f : A → B) (r : rpc A) : rpc B :=
  match r with Reply a => Reply (f a) | Status c m => Status c m end.
Definition answer {A} (f : A → Response) (m : gores (rpc A * State)) : gores (rpc Response * State) :=
  x <- m;; Ok (rpc_map f x.1, x.2).

Definition handle (now : Z) (rq : Request) (s : State) : gores (rpc Response * State) :=
  match rq with
  | RqAddRule req => answer RsRule (AddRule req s)
  | RqListPeerRules id => answer RsRules (ListPeerRules id s)
  | RqRemoveRule id => answer (λ _, RsEmpty) (RemoveRule id s)
  | RqRemoveAllPeerRules id => answer (λ _, RsEmpty) (RemoveAllPeerRules id s)
  | RqCreatePeer req => answer RsCreated (CreatePeerAutoID now req s)
  | RqGetPeer id => answer RsPeer (GetPeer id s)
  | RqListPeers => answer RsPeers (ListPeers s)
  | RqDeletePeer id => answer (λ _, RsEmpty) (DeletePeer id s)
  | RqProlongPeer id t => answer (λ _, RsEmpty) (ProlongPeer id t s)
  | RqGenerateClientKey id addr name => answer RsKey (GenerateClientKey id addr name s)
  end.

End Handlers.

(** * Specification *)

(** ** The bearer token *)

Section AuthSpec.
Context `{JW : JWT} `{JL : !JWTLaws} (jwtSecret : string) (now : Z).

(** The value of the header is a scheme, a space and a token without further
    spaces; the token is accepted and has an expiration. *)
Definition admitted (header : string) : Prop :=
  ∃ scheme token claims, header = scheme +:+ String " " token ∧
    " "%char ∉ Encodings.chars scheme ∧ " "%char ∉ Encodings.chars token ∧ lower scheme = "bearer"%string ∧
    ParseWithClaims hmac_methods jwtSecret now token = Ok (true, claims) ∧ has_claim claims "exp" = true.

Lemma Split_nonempty sep s : Split sep s ≠ [].
Proof. destruct s as [|c s]; [done|]. simpl. case_decide; [done|]. by destruct (Split sep s). Qed.

Lemma Split_one sep s b : Split sep s = [b] ↔ b = s ∧ sep ∉ Encodings.chars s.
Proof.
  revert b. induction s as [|c s IH]; intros b; simpl.
  { split; [intros [= <-]; split; [done|apply not_elem_of_nil]|by intros [-> _]]. }
  rewrite not_elem_of_cons. pose proof (Split_nonempty sep s) as Hne. case_decide as Hc.
  - split; [by intros [= _ E]|]. intros (_ & Hc' & _). congruence.
  - destruct (Split sep s) as [|w ws]; [done|]. split.
    + intros [= <- ->]. destruct (proj1 (IH w) eq_refl) as [-> Hs]. by split_and!.
    + intros (-> & _ & Hs). by injection (proj2 (IH s) (conj eq_refl Hs)) as -> ->.
Qed.

Lemma Split_pair sep s a b :
  Split sep s = [a; b] ↔ s = a +:+ String sep b ∧ sep ∉ Encodings.chars a ∧ sep ∉ Encodings.chars b.
Proof.
  revert a. induction s as [|c s IH]; intros a; simpl; [split; [done|]; intros [E _]; by destruct a|].
  case_decide as Hc.
  - subst c. split.
    + intros [= <- [-> Hs]%Split_one]. split_and!; [done|apply not_elem_of_nil|done].
    + intros (E & Ha & Hb). destruct a as [|x a].
      * injection E as ->. f_equal. by apply Split_one.
      * injection E as <- _. simpl in Ha. by apply not_elem_of_cons in Ha as [? _].
  - pose proof (Split_nonempty sep s) as Hne. destruct (Split sep s) as [|w ws]; [done|]. split.
    + intros [= <- ->]. destruct (proj1 (IH w) eq_refl) as (-> & Hw & Hb). split_and!; [done| |done].
      simpl. by apply not_elem_of_cons.
    + intros (E & Ha & Hb). destruct a as [|x a]; [by injection E|]. injection E as <- E.
      simpl in Ha. apply not_elem_of_cons in Ha as [_ Ha]. by injection (proj2 (IH a) (conj E (conj Ha Hb))) as -> ->.
Qed.

(** What the servers look at. *)
Lemma admitted_checks header :
  admitted header ↔ ∃ scheme token claims, Split " "%char header = [scheme; token] ∧
    EqualFold scheme "Bearer" = true ∧ ParseWithClaims hmac_methods jwtSecret now token = Ok (true, claims) ∧
    has_claim claims "exp" = true.
Proof.
  split; intros (scheme & token & claims & H); exists scheme, token, claims; rewrite Split_pair in *;
    unfold EqualFold in *; rewrite bool_decide_eq_true in *; tauto.
Qed.

Lemma unary_auth {A S} header rest (handler : S → gores (rpc A * S)) s :
  (admitted header ∧ UnaryAuthInterceptor jwtSecret now (Some (header :: rest)) handler s = handler s) ∨
  (¬ admitted header ∧ ∃ msg,
     UnaryAuthInterceptor jwtSecret now (Some (header :: rest)) handler s = Ok (Status Unauthenticated msg, s)).
Proof.
  rewrite admitted_checks. unfold UnaryAuthInterceptor.
  destruct (Split " "%char header) as [|scheme [|token [|? ?]]];
    try (right; split; [by intros (? & ? & ? & [= ] & _)|by eexists]).
  destruct (EqualFold scheme "Bearer") eqn:Ef; cbn [negb];
    [|right; split; [intros (? & ? & ? & [= <- <-] & ? & _); congruence|by eexists]].
  pose proof (jwt_returns hmac_methods jwtSecret now token) as Hj.
  destruct (ParseWithClaims hmac_methods jwtSecret now token) as [[[] claims]|e|] eqn:Ep; [| | |done]; cbn [negb];
    [|right; split; [intros (? & ? & ? & [= <- <-] & _ & ? & _); congruence|by eexists]..].
  destruct (has_claim claims "exp") eqn:Ec; cbn [negb].
  - left. split; [|done]. by exists scheme, token, claims.
  - right. split; [intros (? & ? & ? & [= <- <-] & _ & ? & ?); congruence|by eexists].
Qed.

Lemma http_auth header :
  (admitted header ∧ ∀ next, HTTPAuthMiddleware jwtSecret now header next = next) ∨
  (¬ admitted header ∧ ∃ resp, r_status resp = 401%Z ∧ ∀ next, HTTPAuthMiddleware jwtSecret now header next = Ok resp).
Proof.
  rewrite admitted_checks. unfold HTTPAuthMiddleware. destruct (decide (header = ""%string)) as [->|_];
    [right; split; [by intros (? & ? & ? & E & _)|eexists (respondWithError 401 _); by split]|].
  destruct (Split " "%char header) as [|scheme [|token [|? ?]]];
    try (right; split; [by intros (? & ? & ? & [= ] & _)|eexists (respondWithError 401 _); by split]).
  destruct (EqualFold scheme "Bearer") eqn:Ef; cbn [negb];
    [|right; split; [intros (? & ? & ? & [= <- <-] & ? & _); congruence|eexists (respondWithError 401 _); by split]].
  pose proof (jwt_returns hmac_methods jwtSecret now token) as Hj.
  destruct (ParseWithClaims hmac_methods jwtSecret now token) as [[[] claims]|e|] eqn:Ep; [| | |done]; cbn [negb];
    [|right; split; [intros (? & ? & ? & [= <- <-] & _ & ? & _); congruence|eexists (respondWithError 401 _); by split]..].
  destruct (has_claim claims "exp") eqn:Ec; cbn [negb].
  - left. split; [|done]. by exists scheme, token, claims.
  - right. split; [intros (? & ? & ? & [= <- <-] & _ & ? & ?); congruence|eexists (respondWithError 401 _); by split].
Qed.

(** C22: a bearer token is required.  A gRPC handler runs exactly when the call has
    an authorization value that is a scheme "bearer" in any case, one space and a
    token that the library accepts for an HMAC signature with the secret of the
    node and that has an expiration; otherwise the call is answered
    [Unauthenticated] and the state is untouched. *)
Theorem bearer_token_required {A S} md (handler : S → gores (rpc A * S)) s :
  (∃ header rest, md = Some (header :: rest) ∧ admitted header ∧
     UnaryAuthInterceptor jwtSecret now md handler s = handler s) ∨
  ((∀ header rest, md = Some (header :: rest) → ¬ admitted header) ∧
   ∃ msg, UnaryAuthInterceptor jwtSecret now md handler s = Ok (Status Unauthenticated msg, s)).
Proof.
  destruct md as [[|header rest]|]; [right; split; [done|by eexists]| |right; split; [done|by eexists]].
  destruct (unary_auth header rest handler s) as [[Ha E]|[Ha E]]; [left; by exists header, rest|right].
  split; [|done]. by intros ? ? [= <- <-].
Qed.

(** the two servers admit the same tokens.  For one value of the header the
    HTTP server calls its handler exactly when the gRPC server calls its; in the
    other case HTTP answers 401 and gRPC [Unauthenticated]. *)
Theorem servers_admit_the_same header :
  ((∀ next, HTTPAuthMiddleware jwtSecret now header next = next) ∧
   ∀ A S (handler : S → gores (rpc A * S)) s, UnaryAuthInterceptor jwtSecret now (Some [header]) handler s = handler s) ∨
  ((∃ resp, r_status resp = 401%Z ∧ ∀ next, HTTPAuthMiddleware jwtSecret now header next = Ok resp) ∧
   ∀ A S (handler : S → gores (rpc A * S)) s, ∃ msg,
     UnaryAuthInterceptor jwtSecret now (Some [header]) handler s = Ok (Status Unauthenticated msg, s)).
Proof.
  destruct (http_auth header) as [[Ha Hh]|[Ha Hh]]; [left|right]; split; [done| |done|]; intros A S handler s;
    by destruct (unary_auth header [] handler s) as [[? E]|[? E]].
Qed.

End AuthSpec.

(** ** Rules over the API *)

Lemma filter_keeps {A} (keep : A → Prop) `{KD : !∀ m, Decision (keep m)} (l : list A) :
  (∀ m, m ∈ l → keep m) → filter keep l = l.
Proof.
  induction l as [|m l IH]; [done|]. intros Hk. rewrite filter_cons, decide_True by (apply Hk; by left).
  f_equal. apply IH. intros m' Hm'. apply Hk. by right.
Qed.

Section RulesSpec.
Context {W : Type} `{NL : NodeLaws W} (nodeID : string) (node_named : nodeID ≠ ""%string).
Import Repos.Repos.

(** A successful [AddRule] leaves its row. *)
Lemma AddRule_row req db w id s' :
  db_ok db → AddRule nodeID req (db, w) = Ok (Reply id, s') →
  peers_rules s'.1 = peers_rules db ++
    [mkRuleRow (rules_seq db + 1) (i64 (Pb.PeerId req)) (Pb.TargetAddress req) (Pb.Protocol req)
       (u16 (Pb.PortRangeStart req)) (u16 <$> Pb.PortRangeEnd req)] ∧ id = u64 (rules_seq db + 1).
Proof.
  intros Hd E. unfold AddRule, Firewallmanager.AddRule in E. simpl in E.
  destruct (InsertPeerRule _ _ _ _ _ db) as [[n|e|] db1] eqn:Ei; [|done..].
  pose proof (InsertPeerRule_spec _ _ _ _ _ _ _ _ Hd Ei) as (-> & _ & _ & _ & Er).
  destruct (GetPeerByID _ db1) as [[p|e|] db2] eqn:Eg; [|done..].
  destruct (GetPeerByID_spec _ _ _ _ Eg) as ([fs ->] & _). destruct (lr_AddRule w _ _) as [[b w']|e|]; [|done..].
  cbn [gobind snd] in E. injection E as <- <-. split; [exact Er|done].
Qed.

(** a rule added over the API is listed back.  After [AddRule] answers with an
    id, [ListPeerRules] of that peer, when it answers, contains the rule as
    requested, with its ports reduced to 16 bits (a port of 65536 or more is not
    refused), and the rules the peer had before. *)
Theorem added_rule_is_listed req db w id s' :
  db_ok db → AddRule nodeID req (db, w) = Ok (Reply id, s') →
  match ListPeerRules (Pb.PeerId req) s' with
  | Ok (Reply l, _) => ∃ old, l = old ++ [Pb.mkPortRule (Pb.PeerId req) (Pb.TargetAddress req) (Pb.Protocol req)
        (Pb.PortRangeStart req mod 2 ^ 16) ((λ e, e mod 2 ^ 16)%Z <$> Pb.PortRangeEnd req)] ∧
      length old = length (filter (λ r, PeerID r = i64 (Pb.PeerId req)) (peers_rules db))
  | Ok (Status c _, _) => c = Unknown ∧ db_faults s'.1 ≠ []
  | _ => False
  end.
Proof.
  intros Hd E. apply AddRule_row in E as [Er _]; [|done]. unfold ListPeerRules, Firewallmanager.ListPeerRules.
  destruct (LoadRulesByPeerID (i64 (Pb.PeerId req)) s'.1) as [res db1] eqn:El.
  destruct (LoadRulesByPeerID_spec _ _ _ _ El) as (_ & Hnp & Hl).
  destruct res as [l|e|]; [| |done].
  - rewrite (Hl l eq_refl), Er, filter_app, !fmap_app.
    exists (pb_rule (Pb.PeerId req) <$> (portRuleFromRow <$> filter (λ r, PeerID r = i64 (Pb.PeerId req)) (peers_rules db))).
    split; [|by rewrite !length_fmap]. f_equal.
    rewrite filter_cons, decide_True by done. cbn. unfold pb_rule, portRuleFromRow. cbn.
    by rewrite (u16_small (u16 _)) by apply u16_range.
  - split; [done|]. intros Hf. unfold LoadRulesByPeerID in El. by rewrite stmt_run in El.
Qed.

(** C39: the firewall takes a rule number modulo 2^48.  Removing the number 2^48 + n
    succeeds, deletes no row, and revokes the rule n of the firewall, so a client
    loses an access that the database still gives it. *)
Theorem large_rule_id_revokes_another db w r p :
  db_ok db → node_ok nodeID w → complete nodeID db w → (rules_seq db < 2 ^ 48)%Z → db_faults db = [] →
  r ∈ peers_rules db → p ∈ peers db → ID p = PeerID r →
  own nodeID w (Repos.RuleID r) = Some (fw_of nodeID r p) ∧
  ∃ db' w', RemoveRule nodeID (2 ^ 48 + Repos.RuleID r) (db, w) = Ok (Reply tt, (db', w')) ∧
    peers_rules db' = peers_rules db ∧ peers db' = peers db ∧ own nodeID w' (Repos.RuleID r) = None.
Proof.
  intros Hd Hw Hc Hs Hf Hr Hp Hid. split; [by apply Hc|]. destruct (rule_id_range db r Hd Hs Hr) as [Hrr _].
  unfold RemoveRule. rewrite decide_False by lia. unfold empty_reply, Firewallmanager.RemoveRule. cbn [fst snd].
  assert (Hi : i64 (2 ^ 48 + Repos.RuleID r) = (2 ^ 48 + Repos.RuleID r)%Z) by (clear -Hrr; word_lia).
  rewrite Hi. unfold DeletePeerRule. rewrite stmt_run by done.
  destruct (remove_own_any nodeID node_named w (2 ^ 48 + Repos.RuleID r) Hw) as (b & w' & -> & _ & Hown).
  cbn [gobind snd]. eexists _, w'. split; [reflexivity|]. simpl. split; [|split; [done|]].
  - apply filter_keeps. intros r' Hr'. destruct (rule_id_range db r' Hd Hs Hr') as [? _]. lia.
  - rewrite Hown by done. rewrite decide_True; [done|]. clear -Hrr. word_lia.
Qed.

End RulesSpec.

(** The statistics of the router over HTTP are always empty. *)
Lemma stats_are_empty st : handleStats st "GET" = mkResponse 200 "application/json" ("{}" +:+ newline).
Proof. reflexivity. Qed.

End Api.
