(* ===== verification/NodeLife.v ===== *)
(** * The life of a node (internal/app/app.go: Run; the API, the synchronisation and the statistics together)

    A node starts from its database and then lives through calls of the API,
    rounds of synchronisation and items of statistics, in any order, while any
    statement of the database may fail.  The theorems say what holds after every
    such run. *)
From S2P Require Import Prelude Firewall Router Repos Model Services Api Node.
Import Firewall.Firewall.

Open Scope go_scope.

Module NodeLife.
Import Services Api.Api.

Section Life.
Context {W : Type} `{LR : LocalRules W} `{TP : Transports W} (nodeID : string) (startingIP : Z).

Notation State := (Repos.Repos.DB * W)%type.

(** What happens to a running node: a call with its metadata at a time, a round of
    [syncPeers], an item of statistics. *)
Inductive event :=
| ECall (now : Z) (md : option (list string)) (rq : Request)
| ESync (now : Z)
| EStats (ip lastSeen deltaToPeer deltaFromPeer : Z).

Definition step `{JWT} (jwtSecret : string) (e : event) (s : State) : gores State :=
  match e with
  | ECall now md rq => x <- UnaryAuthInterceptor jwtSecret now md (handle nodeID startingIP now rq) s;; Ok x.2
  | ESync now => x <- PeersManager.syncPeers now s.1 s.2;; Ok (x.1.2, x.2)
  | EStats ip seen toPeer fromPeer => Ok ((PeersManager.drain_stats s.1 ip seen toPeer fromPeer).2, s.2)
  end.

Fixpoint run `{JWT} (jwtSecret : string) (es : list event) (s : State) : gores State :=
  match es with
  | [] => Ok s
  | e :: rest => s1 <- step jwtSecret e s;; run jwtSecret rest s1
  end.

(** [App.Run] up to its servers: the rules, then the clients; the error of either
    ends the start. *)
Definition boot `{QueryPlan} (now : Z) (db : Repos.Repos.DB) (w : W) : gores (option string * State) :=
  x <- Firewallmanager.Run nodeID db w;;
  let '(err, db1, w1) := x in
  match err with
  | Some _ => Ok (Some "failed to start firewall manager"%string, (db1, w1))
  | None =>
      y <- PeersManager.Run now db1 w1;;
      let '(err2, db2, w2) := y in
      match err2 with
      | Some _ => Ok (Some "failed to start peers manager"%string, (db2, w2))
      | None => Ok (None, (db2, w2))
      end
  end.

End Life.

(** * Specification *)

(** ** What the operations do to the counter of rules *)

Import Repos.Repos.

Lemma stmt_seq {A} (f : DB → gores (A * DB)) db :
  (∀ fs a db2, f (set_faults db fs) = Ok (a, db2) → rules_seq db2 = rules_seq db) →
  rules_seq (stmt f db).2 = rules_seq db.
Proof.
  intros Hf. destruct (stmt f db) as [[a|e|] db'] eqn:E; simpl.
  - apply stmt_Ok in E as [fs E]. by eapply Hf.
  - by apply stmt_Err in E as [fs ->].
  - unfold stmt in E. by repeat case_match; simplify_eq.
Qed.

Lemma tx_seq db : rules_seq (PeersManager.tx_control db).2 = rules_seq db.
Proof. apply stmt_seq. by intros fs a db2 [= <- <-]. Qed.
Lemma get_peer_seq id db : rules_seq (Repos.GetPeerByID id db).2 = rules_seq db.
Proof. apply stmt_seq. intros fs a db2. simpl. by destruct (one_row _); intros [= <- <-]. Qed.
Lemma delete_rule_seq id db : rules_seq (DeletePeerRule id db).2 = rules_seq db.
Proof. apply stmt_seq. by intros fs a db2 [= <- <-]. Qed.
Lemma delete_rules_seq id db : rules_seq (DeleteAllPeerRules id db).2 = rules_seq db.
Proof. apply stmt_seq. by intros fs a db2 [= <- <-]. Qed.
Lemma load_rules_seq id db : rules_seq (LoadRulesByPeerID id db).2 = rules_seq db.
Proof. apply stmt_seq. by intros fs a db2 [= <- <-]. Qed.
Lemma list_peers_seq db : rules_seq (Repos.ListPeers db).2 = rules_seq db.
Proof. apply stmt_seq. by intros fs a db2 [= <- <-]. Qed.
Lemma delete_peer_seq id db : rules_seq (Repos.DeletePeer id db).2 = rules_seq db.
Proof. apply stmt_seq. intros fs a db2 [= <- <-]. by destruct (foreign_keys _). Qed.
Lemma prolong_seq t id db : rules_seq (Repos.ProlongPeer t id db).2 = rules_seq db.
Proof. by apply stmt_seq. Qed.

#[local] Hint Rewrite tx_seq get_peer_seq delete_rule_seq delete_rules_seq load_rules_seq list_peers_seq
  delete_peer_seq prolong_seq : rules_seq.

(** Splits the results of the statements in [E], remembering their counters. *)
Ltac split_statements E :=
  repeat match type of E with
  | context [match ?f ?db with pair _ _ => _ end] =>
      let H := fresh "Hseq" in
      assert (H : rules_seq (f db).2 = rules_seq db) by (autorewrite with rules_seq; reflexivity);
      destruct (f db) as [[?|?|] ?]; simpl in H, E; try discriminate E
  end.

(** A statement that only reads. *)
Lemma stmt_read {A} (f : DB → gores (A * DB)) db :
  (∀ fs a db2, f (set_faults db fs) = Ok (a, db2) → db2 = set_faults db fs) → same_tables db (stmt f db).2.
Proof.
  intros Hf. destruct (stmt f db) as [[a|e|] db'] eqn:E; simpl.
  - apply stmt_Ok in E as [fs E]. apply Hf in E. by exists fs.
  - by apply stmt_Err in E.
  - unfold stmt in E. repeat case_match; simplify_eq; by eexists.
Qed.

Section LifeSpec.
Context {W : Type} `{NL : NodeLaws W} (nodeID : string) (node_named : nodeID ≠ ""%string) (startingIP : Z).

Notation State := (DB * W)%type.

Lemma add_rule_effect db w peerID rule err db' w' rule' :
  db_ok db → tp_inv w → Firewallmanager.AddRule nodeID db w peerID rule = Ok (err, db', w', rule') →
  tp_inv w' ∧ (rules_seq db' <= rules_seq db + 1)%Z.
Proof.
  intros Hd Hw E. unfold Firewallmanager.AddRule in E. destruct (InsertPeerRule _ _ _ _ _ db) as [res db1] eqn:Ei.
  pose proof (InsertPeerRule_spec _ _ _ _ _ _ _ _ Hd Ei) as Hi.
  destruct res as [n|e|]; [|destruct Hi as [fs ->]; injection E as <- <- <- <-; split; [done|simpl; lia]|done].
  destruct Hi as (-> & _ & Hs1 & _). split_statements E.
  - destruct (lr_AddRule w _ _) as [[b w1]|?|] eqn:Ea; [|done..]. cbn [gobind snd] in E. injection E as <- <- <- <-.
    split; [apply (nl_add _ _ _ _ _ Hw Ea)|lia].
  - injection E as <- <- <- <-. split; [done|lia].
Qed.

Lemma remove_rule_effect db w ruleID err db' w' :
  tp_inv w → Firewallmanager.RemoveRule nodeID db w ruleID = Ok (err, db', w') →
  tp_inv w' ∧ rules_seq db' = rules_seq db.
Proof.
  intros Hw E. unfold Firewallmanager.RemoveRule in E. split_statements E.
  - destruct (lr_RemoveRule w _) as [[b w1]|?|] eqn:Ea; [|done..]. cbn [gobind snd] in E. injection E as <- <- <-.
    split; [apply (nl_remove _ _ _ _ Hw Ea)|done].
  - by injection E as <- <- <-.
Qed.

Lemma remove_all_seq db w peerID err db' w' :
  Firewallmanager.RemoveAllPeerRules nodeID db w peerID = Ok (err, db', w') → rules_seq db' = rules_seq db.
Proof.
  intros E. unfold Firewallmanager.RemoveAllPeerRules in E. split_statements E;
    try (destruct (Firewallmanager.remove_loaded _ _ _); [|done..]); cbn [gobind] in E; simplify_eq; congruence.
Qed.

Lemma delete_peer_effect db w id err db' w' :
  PeersManager.DeletePeer nodeID db w id = Ok (err, db', w') → rules_seq db' = rules_seq db.
Proof.
  intros E. unfold PeersManager.DeletePeer in E.
  destruct (Firewallmanager.RemoveAllPeerRules nodeID db w id) as [[[[e|] db1] w1]|?|] eqn:Er; [..|done|done];
    apply remove_all_seq in Er; cbn [gobind] in E; [by injection E as <- <- <-|].
  split_statements E; try (destruct (tp_registered _ _); [destruct (tp_KickPeer _ _ _); [|done..]|]);
    cbn [gobind] in E; simplify_eq; congruence.
Qed.

Lemma create_peer_effect now db w p err db' w' p' :
  db_ok db → PeersManager.CreatePeerAutoID startingIP now db w p = Ok (err, db', w', p') → rules_seq db' = rules_seq db.
Proof.
  intros Hd E. unfold PeersManager.CreatePeerAutoID, PeersManager.create_in_tx in E.
  destruct (tp_registered w _); cbn [negb] in E; [|by injection E as <- <- <- <-].
  destruct (tp_GeneratePeerKeys w _ p) as [[p1|?|] w1]; [|by injection E as <- <- <- <-|done].
  destruct (PeersManager.tx_control db) as [r1 db1] eqn:E1. destruct (tx_control_spec _ _ _ E1) as [[fs ->] _].
  destruct r1 as [[]|?|]; [|by injection E as <- <- <- <-|done].
  destruct (Repos.CreatePeerAutoID now _ _) as [r2 db2] eqn:E2.
  pose proof (CreatePeerAutoID_spec _ _ _ _ _ (db_ok_faults _ fs Hd) E2) as Hc.
  destruct r2 as [row|?|]; [|by injection E as <- <- <- <-|done].
  destruct (tp_CreatePeer _ _ _ _) as [[[?|] w2]|?|]; [by injection E as <- <- <- <-| |done..]. cbn [gobind] in E.
  split_statements E; injection E as <- <- <- <-; [|done]. rewrite Hseq. apply Hc.
Qed.

(** ** The invariant *)

(** [n]: how many rules can still be added before their numbers leave 48 bits. *)
Definition alive (n : Z) (s : State) : Prop :=
  db_ok s.1 ∧ node_ok nodeID s.2 ∧ backed nodeID s.1 s.2 ∧ tp_inv s.2 ∧ (rules_seq s.1 + n < 2 ^ 48)%Z.

Lemma alive_intro n db w :
  db_ok db → node_ok nodeID w → backed nodeID db w → tp_inv w → (rules_seq db + n < 2 ^ 48)%Z → alive n (db, w).
Proof. done. Qed.

Lemma alive_less n m s : (m <= n)%Z → alive n s → alive m s.
Proof. intros Hm (? & ? & ? & ? & ?). destruct s. apply alive_intro; try done. simpl in *. lia. Qed.

(** The rules stay, the clients keep their ids and addresses. *)
Lemma backed_keep db db' w w' :
  backed nodeID db w → peers_rules db' = peers_rules db → (∀ j, lr_rules w' j = lr_rules w j) →
  (∀ p, p ∈ peers db → ∃ p', p' ∈ peers db' ∧ ID p' = ID p ∧ VirtualIp p' = VirtualIp p) → backed nodeID db' w'.
Proof.
  intros Hb Er Hl Hp k x Hk Hx. unfold own in Hx. rewrite Hl in Hx.
  destruct (Hb k x Hk Hx) as (r & p & Hr & Hrk & Hpp & Hid & ->). destruct (Hp p Hpp) as (p' & Hp' & Hid' & Hv).
  exists r, p'. rewrite Er. split_and!; try done; [congruence|]. unfold fw_of. by rewrite Hv.
Qed.

Lemma alive_kept n db w db' w' :
  alive n (db, w) → db_ok db' → peers_rules db' = peers_rules db → rules_seq db' = rules_seq db →
  (∀ p, p ∈ peers db → ∃ p', p' ∈ peers db' ∧ ID p' = ID p ∧ VirtualIp p' = VirtualIp p) →
  rules_kept w w' → tp_inv w' → alive n (db', w').
Proof.
  intros (Hd & [Hl Hr] & Hb & Ht & Hs) Hd' Er Es Hp (Hl' & Hr' & Hk) Ht'. simpl in *.
  split; [done|]. split; [by split; [|apply Hr']|]. split; [by eapply backed_keep|]. split; [done|]. simpl. by rewrite Es.
Qed.

Lemma alive_same n db w db' : alive n (db, w) → same_tables db db' → alive n (db', w).
Proof.
  intros Ha Hs. pose proof Ha as (Hd & [Hl _] & _ & Ht & _). simpl in *.
  pose proof (same_tables_ok _ _ Hs Hd). destruct Hs as [fs ->]. apply (alive_kept n db w); try done.
  intros p Hp. by exists p.
Qed.

(** ** One event *)

(** Rule numbers of requests are unsigned 64-bit integers. *)
Definition wf_request (rq : Request) : Prop :=
  match rq with RqRemoveRule id => is_u64 id | _ => True end.
Definition wf_event (e : event) : Prop :=
  match e with ECall _ _ rq => wf_request rq | _ => True end.

Lemma answer_alive {A} n (f : A → Response) (m : gores (rpc A * State)) :
  (∃ r s', m = Ok (r, s') ∧ alive n s') → ∃ r s', answer f m = Ok (r, s') ∧ alive n s'.
Proof. intros (r & s' & -> & Ha). by eexists _, _. Qed.

Lemma empty_alive n msg (m : gores (option string * DB * W)) :
  (∃ err db' w', m = Ok (err, db', w') ∧ alive n (db', w')) → ∃ r s', empty_reply msg m = Ok (r, s') ∧ alive n s'.
Proof. intros (err & db' & w' & -> & Ha). destruct err; by eexists _, _. Qed.

Lemma rules_calls_alive n db w :
  alive (n + 1) (db, w) → (0 <= n)%Z →
  (∀ req, ∃ r s', AddRule nodeID req (db, w) = Ok (r, s') ∧ alive n s') ∧
  (∀ id, is_u64 id → ∃ r s', RemoveRule nodeID id (db, w) = Ok (r, s') ∧ alive n s') ∧
  (∀ id, ∃ r s', RemoveAllPeerRules nodeID id (db, w) = Ok (r, s') ∧ alive n s') ∧
  (∀ id, ∃ r s', Api.Api.DeletePeer nodeID id (db, w) = Ok (r, s') ∧ alive n s').
Proof.
  intros (Hd & Hw & Hb & Ht & Hs) Hn. simpl in *.
  assert (Hhere : alive n (db, w)) by (apply alive_intro; try done; lia). split_and!.
  - intros req. destruct (AddRule_fm_spec nodeID node_named db w (Pb.PeerId req) (domain_rule req) Hd Hw Hb
      ltac:(lia) (u16_range _)) as (err & db' & w' & rule' & E & Hd' & Hw' & Hb' & _).
    unfold AddRule. simpl. rewrite E. destruct (add_rule_effect _ _ _ _ _ _ _ _ Hd Ht E) as [Ht' Hs'].
    assert (alive n (db', w')) by (apply alive_intro; try done; lia). destruct err; by eexists _, _.
  - intros id Hid. unfold RemoveRule. case_decide; [by eexists _, _|]. apply empty_alive. simpl.
    destruct (RemoveRule_fm_spec nodeID node_named db w id Hd Hw Hb ltac:(lia) Hid) as (err & db' & w' & E & ? & ? & ? & _).
    destruct (remove_rule_effect _ _ _ _ _ _ Ht E) as [? Hs']. exists err, db', w'. split; [done|].
    apply alive_intro; try done. lia.
  - intros id. unfold RemoveAllPeerRules. case_decide; [by eexists _, _|]. apply empty_alive. simpl.
    destruct (RemoveAllPeerRules_spec nodeID node_named db w id Hd Hw Hb ltac:(lia)) as (err & db' & w' & E & ? & ? & ? & _).
    pose proof (remove_all_seq _ _ _ _ _ _ E). pose proof (remove_all_service nodeID _ _ _ _ _ _ Ht E) as (? & _).
    exists err, db', w'. split; [done|]. apply alive_intro; try done. lia.
  - intros id. unfold Api.Api.DeletePeer. case_decide; [by eexists _, _|]. apply empty_alive. simpl.
    destruct (DeletePeer_pm_spec nodeID db w id node_named Hd Hw Hb Ht ltac:(lia)) as (err & db' & w' & E & ? & ? & ? & ? & _).
    pose proof (delete_peer_effect _ _ _ _ _ _ E). exists err, db', w'. split; [done|]. apply alive_intro; try done. lia.
Qed.

Lemma list_peers_same db res db' : Repos.ListPeers db = (res, db') → same_tables db db' ∧ res ≠ Panic.
Proof.
  intros E. split.
  - pose proof (stmt_read (λ db, Ok (peers db, db)) db ltac:(by intros fs a db2 [= _ <-])) as Hs.
    unfold Repos.ListPeers in E. by rewrite E in Hs.
  - intros ->. unfold Repos.ListPeers, stmt in E. by repeat case_match; simplify_eq.
Qed.

Lemma reads_alive n db w :
  alive n (db, w) →
  (∀ id, ∃ r s', ListPeerRules id (db, w) = Ok (r, s') ∧ alive n s') ∧
  (∀ id, ∃ r s', GetPeer id (db, w) = Ok (r, s') ∧ alive n s') ∧
  (∃ r s', Api.Api.ListPeers (db, w) = Ok (r, s') ∧ alive n s') ∧
  (∀ id t, ∃ r s', Api.Api.ProlongPeer id t (db, w) = Ok (r, s') ∧ alive n s') ∧
  (∀ id addr name, ∃ r s', GenerateClientKey id addr name (db, w) = Ok (r, s') ∧ alive n s').
Proof.
  intros Ha. split_and!.
  - intros id. unfold ListPeerRules, Firewallmanager.ListPeerRules. cbn [fst snd].
    destruct (LoadRulesByPeerID _ db) as [res db1] eqn:E. destruct (LoadRulesByPeerID_spec _ _ _ _ E) as (Hs & Hp & _).
    pose proof (alive_same n db w db1 Ha Hs). destruct res; [by eexists _, _..|done].
  - intros id. unfold GetPeer, PeersManager.GetPeerByID. cbn [fst snd]. case_decide; [by eexists _, _|].
    destruct (Repos.GetPeerByID _ db) as [res db1] eqn:E. destruct (GetPeerByID_spec _ _ _ _ E) as (Hs & Hp & _).
    pose proof (alive_same n db w db1 Ha Hs). destruct res; [by eexists _, _..|done].
  - unfold Api.Api.ListPeers, PeersManager.ListPeers. cbn [fst snd].
    destruct (Repos.ListPeers db) as [res db1] eqn:E. destruct (list_peers_same _ _ _ E) as [Hs Hp].
    pose proof (alive_same n db w db1 Ha Hs). destruct res; [by eexists _, _..|done].
  - intros id t. unfold Api.Api.ProlongPeer, PeersManager.ProlongPeer. cbn [fst snd].
    destruct (Repos.ProlongPeer _ _ db) as [res db1] eqn:E.
    assert (Hs : same_tables db db1 ∧ res ≠ Panic).
    { unfold Repos.ProlongPeer, stmt in E. by repeat case_match; simplify_eq; (split; [eexists|]). }
    pose proof (alive_same n db w db1 Ha (proj1 Hs)). destruct Hs as [_ Hp]. destruct res; [by eexists _, _..|done].
  - intros id addr name. unfold GenerateClientKey, PeersManager.GenerateClientKey, PeersManager.GetPeerByID. cbn [fst snd].
    destruct (Repos.GetPeerByID _ db) as [res db1] eqn:E. destruct (GetPeerByID_spec _ _ _ _ E) as (Hs & Hp & _).
    pose proof (alive_same n db w db1 Ha Hs). destruct res as [row|?|]; [|by eexists _, _|done].
    destruct (tp_registered w _) eqn:Er; [|by eexists _, _]. destruct Ha as (_ & _ & _ & Ht & _).
    pose proof (tp_link_law w _ (peerFromRow row) addr name Ht Er) as Hl.
    destruct (tp_GenerateClientConnectionString w _ _ addr name); [by eexists _, _..|done].
Qed.

Lemma create_call_alive n now req db w :
  alive n (db, w) → ∃ r s', Api.Api.CreatePeerAutoID startingIP now req (db, w) = Ok (r, s') ∧ alive n s'.
Proof.
  intros Ha. pose proof Ha as (Hd & [Hl _] & _ & Ht & _). cbn [fst snd] in *.
  destruct (CreatePeer_pm_spec startingIP now db w (domain_peer req) Hd Ht) as (err & db' & w' & p' & E & Hd' & Ht' & Hdb & _).
  pose proof (create_keeps_rules startingIP _ _ _ _ _ _ _ _ Hl Ht E) as Hk.
  pose proof (create_peer_effect _ _ _ _ _ _ _ _ Hd E) as Hs.
  unfold Api.Api.CreatePeerAutoID. cbn [fst snd]. rewrite E. cbn [gobind].
  assert (alive n (db', w')); [|by destruct err; eexists _, _]. destruct err as [e|].
  - apply (alive_kept n db w); try done; [by destruct Hdb as [fs ->]|]. intros p Hp. exists p. by destruct Hdb as [fs ->].
  - destruct Hdb as (Er & row & Ep & _). apply (alive_kept n db w); try done. intros p Hp. exists p. rewrite Ep.
    split_and!; try done. apply elem_of_app. by left.
Qed.

Lemma handle_alive n now rq s :
  alive (n + 1) s → (0 <= n)%Z → wf_request rq →
  ∃ r s', handle nodeID startingIP now rq s = Ok (r, s') ∧ alive n s'.
Proof.
  destruct s as [db w]. intros Ha Hn Hr. destruct (rules_calls_alive n db w Ha Hn) as (Hadd & Hrem & Hall & Hdel).
  apply (alive_less _ n) in Ha; [|lia]. destruct (reads_alive n db w Ha) as (Hlist & Hget & Hpeers & Hlong & Hkey).
  destruct rq; cbn [handle]; apply answer_alive; auto. by apply create_call_alive.
Qed.

(** Every client of the list that is due is given to its transport. *)
Lemma prepare_returns skip now rows w :
  tp_inv w → ∃ w', PeersManager.prepare_peers skip now w rows = Ok w' ∧ tp_inv w'.
Proof.
  revert w. induction rows as [|row rows IH]; intros w Hw; simpl; [by eexists|].
  destruct (Model.IsExpired _ _); [by apply IH|]. destruct (tp_registered w _) eqn:Er; cbn [negb]; [|by apply IH].
  destruct (skip && _); [by apply IH|].
  destruct (tp_create_law now w _ (peerFromRow row) Hw Er) as (e & w1 & -> & Hw1 & _). by apply IH.
Qed.

Lemma prepare_alive n skip now db w :
  alive n (db, w) → ∃ err db' w', PeersManager.load_and_prepare skip now db w = Ok (err, db', w') ∧
    alive n (db', w') ∧ same_tables db db' ∧ rules_kept w w'.
Proof.
  intros Ha. pose proof Ha as (_ & [Hl _] & _ & Ht & _). cbn [fst snd] in *. unfold PeersManager.load_and_prepare.
  destruct (Repos.ListPeers db) as [res db1] eqn:E. destruct (list_peers_same _ _ _ E) as [Hs Hp].
  pose proof (alive_same n db w db1 Ha Hs) as Ha1. destruct res as [rows|e|]; [| |done].
  - destruct (prepare_returns skip now rows w Ht) as (w' & Ew & Ht'). rewrite Ew. cbn [gobind].
    destruct (prepare_keeps_rules skip now rows w w' Hl Ht Ew) as [_ Hk].
    eexists _, _, _. split; [reflexivity|]. split; [|done]. apply (alive_kept n db1 w); try done; [apply Ha1|].
    intros p Hpp. by exists p.
  - eexists _, _, _. split; [reflexivity|]. split; [done|]. split; [done|]. by split_and!.
Qed.

(** The start of the firewall manager leaves the transports alone. *)
Lemma start_effect `{QueryPlan} db w err db' w' :
  tp_inv w → Firewallmanager.Run nodeID db w = Ok (err, db', w') → tp_inv w' ∧ rules_seq db' = rules_seq db.
Proof.
  intros Ht E. unfold Firewallmanager.Run in E. destruct (LoadAllRules db) as [res db2] eqn:El.
  destruct (LoadAllRules_spec _ _ _ El) as ([fs ->] & _ & _). destruct res as [l|e|]; [|by injection E as <- <- <-|done].
  destruct (Firewallmanager.add_loaded nodeID w l) as [w2| |] eqn:Ea; [|done..]. injection E as <- <- <-. split; [|done].
  clear El. revert w Ht Ea. induction l as [|a l IH]; intros w Ht Ea; simpl in Ea; [by injection Ea as <-|].
  destruct (lr_AddRule w _ _) as [[b w3]| |] eqn:E3; [|done..]. apply (IH w3); [|done]. apply (nl_add _ _ _ _ _ Ht E3).
Qed.

Context `{JW : JWT} `{JL : !JWTLaws} (jwtSecret : string).

Lemma step_alive n e s :
  alive (n + 1) s → (0 <= n)%Z → wf_event e →
  ∃ s', step nodeID startingIP jwtSecret e s = Ok s' ∧ alive n s'.
Proof.
  intros Ha Hn He. pose proof (alive_less (n + 1) n s ltac:(lia) Ha) as Ha'. destruct e as [now md rq|now|ip seen toPeer fromPeer]; cbn [step].
  - destruct (handle_alive n now rq s Ha Hn He) as (r & s' & E & Hs').
    destruct md as [[|header rest]|]; [by eexists| |by eexists].
    destruct (unary_auth jwtSecret now header rest (handle nodeID startingIP now rq) s) as [[_ ->]|[_ [msg ->]]];
      [rewrite E|]; by eexists.
  - destruct s as [db w]. destruct (prepare_alive n true now db w Ha') as (err & db' & w' & E & Hs' & _).
    unfold PeersManager.syncPeers. cbn [fst snd]. rewrite E. by eexists.
  - eexists. split; [reflexivity|]. destruct s as [db w]. cbn [fst snd]. unfold PeersManager.drain_stats.
    destruct (UpdatePeerStats _ _ _ _ db) as [res db'] eqn:E.
    destruct (UpdatePeerStats_spec _ _ _ _ _ _ _ (proj1 Ha') E) as (Hd & Er & Es & Hp).
    apply (alive_kept n db w); try done; [|apply Ha']. split_and!; try done. apply Ha'.
Qed.

Lemma run_alive n es s :
  alive (n + Z.of_nat (length es)) s → (0 <= n)%Z → Forall wf_event es →
  ∃ s', run nodeID startingIP jwtSecret es s = Ok s' ∧ alive n s'.
Proof.
  revert s. induction es as [|e es IH]; intros s Ha Hn Hes; cbn [run].
  { exists s. split; [done|]. eapply alive_less; [|done]. simpl. lia. }
  apply Forall_cons in Hes as [He Hes].
  destruct (step_alive (n + Z.of_nat (length es)) e s) as (s1 & -> & Hs1); [|lia|done|].
  { eapply alive_less; [|done]. simpl. lia. }
  by apply IH.
Qed.

(** ** Theorems *)

(** C19: the life of a node.  From any consistent database and a node without
    rules of its own, the start returns; after a start without error the firewall
    has exactly the rules of the database, and whatever calls, synchronisations
    and statistics follow, with or without valid tokens, and whatever statements
    fail, no step panics and the firewall never has a rule of this node that the
    database does not back. *)
Theorem node_life `{QueryPlan} now db w es :
  db_ok db → node_ok nodeID w → tp_inv w → (∀ k, (0 <= k < 2 ^ 48)%Z → own nodeID w k = None) →
  (rules_seq db + Z.of_nat (length es) < 2 ^ 48)%Z → Forall wf_event es →
  ∃ err s0, boot nodeID now db w = Ok (err, s0) ∧
    (err = None → complete nodeID s0.1 s0.2 ∧ backed nodeID s0.1 s0.2) ∧
    ∃ s, run nodeID startingIP jwtSecret es s0 = Ok s ∧ db_ok s.1 ∧ backed nodeID s.1 s.2.
Proof.
  intros Hd Hw Ht Hn Hs Hes. unfold boot.
  destruct (Run_fm_spec nodeID node_named db w Hd Hw ltac:(lia) Hn) as (err & db1 & w1 & E & Hd1 & Hw1 & Hb1 & Hc1).
  destruct (start_effect _ _ _ _ _ Ht E) as [Ht1 Hs1]. rewrite E. cbn [gobind].
  assert (Ha1 : alive (0 + Z.of_nat (length es)) (db1, w1)) by (apply alive_intro; try done; lia).
  destruct err as [e|].
  { eexists _, _. split; [reflexivity|]. split; [done|].
    destruct (run_alive 0 es _ Ha1 ltac:(lia) Hes) as (s & Er & Hf). exists s. split; [done|]. split; apply Hf. }
  destruct (prepare_alive _ false now db1 w1 Ha1) as (err2 & db2 & w2 & E2 & Ha2 & [fs ->] & Hk2).
  unfold PeersManager.Run. rewrite E2. cbn [gobind].
  destruct (run_alive 0 es _ Ha2 ltac:(lia) Hes) as (s & Er & Hf).
  destruct err2 as [e|]; (eexists _, _; split; [reflexivity|]; split; [|by exists s; split; [|split; apply Hf]]); [done|].
  intros _. split; [|apply Ha2]. intros r p Hr Hp Hid. unfold own. rewrite (proj2 (proj2 Hk2)). by apply Hc1.
Qed.

(** What identifies a client and what it may do; the counters and the time of its
    last packet are left out. *)
Definition identity (p : Peer) :=
  (ID p, Type_ p, VirtualIp p, ExpirationDate p, TrafficLimitGb p, SpeedLimitMbps p, AwgPrivateKey p, AwgPublicKey p).

Definition unadmitted (e : event) : Prop :=
  match e with
  | ECall now md _ => ∀ header rest, md = Some (header :: rest) → ¬ admitted jwtSecret now header
  | _ => True
  end.

Lemma stats_identity fromInc toInc seen ip db :
  identity <$> peers (UpdatePeerStats fromInc toInc seen ip db).2 = identity <$> peers db.
Proof.
  destruct (UpdatePeerStats fromInc toInc seen ip db) as [[a|e|] db'] eqn:E; simpl.
  - apply stmt_Ok in E as [fs E]. injection E as <- <-. simpl. rewrite <- list_fmap_compose.
    apply list_fmap_ext. intros i p _. simpl. by case_decide.
  - by apply stmt_Err in E as [fs ->].
  - unfold UpdatePeerStats, stmt in E. by repeat case_match; simplify_eq.
Qed.

Lemma step_unadmitted n e s s' :
  alive n s → unadmitted e → step nodeID startingIP jwtSecret e s = Ok s' →
  identity <$> peers s'.1 = identity <$> peers s.1 ∧ peers_rules s'.1 = peers_rules s.1 ∧
  ∀ j, lr_rules s'.2 j = lr_rules s.2 j.
Proof.
  intros Ha He E. destruct e as [now md rq|now|ip seen toPeer fromPeer]; cbn [step] in E.
  - assert (∃ msg, UnaryAuthInterceptor jwtSecret now md (handle nodeID startingIP now rq) s = Ok (Status Unauthenticated msg, s))
      as [msg Em]; [|rewrite Em in E; by injection E as <-].
    destruct md as [[|header rest]|]; [by eexists| |by eexists].
    destruct (unary_auth jwtSecret now header rest (handle nodeID startingIP now rq) s) as [[Had _]|[_ ?]]; [|done].
    by destruct (He header rest eq_refl).
  - destruct s as [db w]. destruct (prepare_alive n true now db w Ha) as (err & db' & w' & E' & _ & [fs ->] & Hk).
    unfold PeersManager.syncPeers in E. cbn [fst snd] in E. rewrite E' in E. injection E as <-. by split_and!; [..|apply Hk].
  - injection E as <-. cbn [fst snd]. unfold PeersManager.drain_stats.
    split; [apply stats_identity|]. split; [|done].
    destruct (UpdatePeerStats _ _ _ _ s.1) as [res db'] eqn:Eu.
    destruct (UpdatePeerStats_spec _ _ _ _ _ _ _ (proj1 Ha) Eu) as (_ & Er & _). exact Er.
Qed.

(** without a valid token nothing is administered.  In a run whose calls all
    lack an admitted token, no client is added, removed or changed but for its
    counters, and no rule is added or removed, neither in the database nor in the
    firewall. *)
Theorem no_token_no_change es s s' :
  alive (Z.of_nat (length es)) s → Forall wf_event es → Forall unadmitted es →
  run nodeID startingIP jwtSecret es s = Ok s' →
  identity <$> peers s'.1 = identity <$> peers s.1 ∧ peers_rules s'.1 = peers_rules s.1 ∧
  ∀ j, lr_rules s'.2 j = lr_rules s.2 j.
Proof.
  revert s. induction es as [|e es IH]; intros s Ha Hwf Hun E; cbn [run] in E; [by injection E as <-|].
  apply Forall_cons in Hwf as [Hw Hwf]. apply Forall_cons in Hun as [Hu Hun].
  destruct (step_alive (Z.of_nat (length es)) e s) as (s1 & E1 & Hs1); [|lia|done|].
  { eapply alive_less; [|done]. simpl. lia. }
  destruct (step_unadmitted _ e s s1 Ha Hu E1) as (I1 & R1 & L1). rewrite E1 in E. cbn [gobind] in E.
  destruct (IH s1 Hs1 Hwf Hun E) as (I2 & R2 & L2). rewrite I2, R2. split_and!; [done..|]. intros j. by rewrite L2.
Qed.

End LifeSpec.

(** ** Witnesses: the node of Node.v *)

Import AwgTransport.AwgTransport.

#[local] Existing Instance map_device.
#[local] Existing Instance map_device_laws.
#[local] Existing Instance demo_platform.
#[local] Existing Instance Node.Node.demo_entropy.
#[local] Existing Instance AwgClient.AwgClient.demo_curve.
#[local] Existing Instance AwgClient.AwgClient.demo_zlib.
#[local] Existing Instance Node.Node.demo_entropy_laws.
#[local] Existing Instance Node.Node.demo_rules.
#[local] Existing Instance Node.Node.demo_transports.
#[local] Existing Instance Node.Node.demo_rules_laws.
#[local] Existing Instance Node.Node.demo_transports_laws.
#[local] Existing Instance Node.Node.demo_node_laws.
#[local] Existing Instance Node.Node.table_order.

(** A library that accepts one token. *)
Definition demo_jwt : JWT :=
  {| Claims := ();
     ParseWithClaims _ _ _ token := if decide (token = "good"%string) then Ok (true, ()) else Err "bad token";
     has_claim _ name := bool_decide (name = "exp"%string) |}.
#[local] Existing Instance demo_jwt.
#[local] Instance demo_jwt_laws : JWTLaws.
Proof. constructor. intros methods secret now token. simpl. by case_decide. Defined.

Lemma bearer_token_required_witness :
  UnaryAuthInterceptor "secret" 0 (Some ["bEARER good"%string]) (λ s : nat, Ok (Reply tt, S s)) 1%nat = Ok (Reply tt, 2%nat) ∧
  ∃ msg, UnaryAuthInterceptor "secret" 0 (Some ["Bearer bad"%string]) (λ s : nat, Ok (Reply tt, S s)) 1%nat =
    Ok (Status Unauthenticated msg, 1%nat).
Proof.
  split.
  - destruct (bearer_token_required "secret" 0 (Some ["bEARER good"%string]) (λ s : nat, Ok (Reply tt, S s)) 1%nat)
      as [(header & rest & _ & _ & E)|(_ & msg & E)]; [exact E|vm_compute in E; discriminate E].
  - destruct (bearer_token_required "secret" 0 (Some ["Bearer bad"%string]) (λ s : nat, Ok (Reply tt, S s)) 1%nat)
      as [(header & rest & _ & _ & E)|(_ & msg & E)]; [vm_compute in E; discriminate E|by exists msg].
Defined.

Lemma servers_admit_the_same_witness :
  HTTPAuthMiddleware "secret" 0 "Bearer good" (Ok (mkResponse 200 "" "")) = Ok (mkResponse 200 "" "").
Proof.
  destruct (servers_admit_the_same "secret" 0 "Bearer good") as [[H _]|[_ H]]; [exact (H (Ok (mkResponse 200 "" "")))|].
  destruct (H unit nat (λ s, Ok (Reply tt, S s)) 1%nat) as [msg E]. vm_compute in E. discriminate E.
Defined.

Definition demo_request : Pb.PortRule := Pb.mkPortRule 1 None "udp" (65536 + 53) (Some 65590%Z).

Lemma added_rule_is_listed_witness :
  match AddRule "node" demo_request (demo_db1, Node.Node.demo_node) with
  | Ok (Reply id, s') => match ListPeerRules 1 s' with
                         | Ok (Reply l, _) => last l = Some (Pb.mkPortRule 1 None "udp" 53 (Some 54%Z))
                         | _ => True
                         end
  | _ => False
  end.
Proof.
  assert (Hok : match AddRule "node" demo_request (demo_db1, Node.Node.demo_node) with
                | Ok (Reply _, _) => true | _ => false end = true) by (vm_compute; reflexivity).
  destruct (AddRule "node" demo_request (demo_db1, Node.Node.demo_node)) as [[[id|c m] s']|e|] eqn:E; try discriminate Hok.
  pose proof (added_rule_is_listed "node" demo_request demo_db1 Node.Node.demo_node id s' demo_db1_ok E) as Hl.
  change (Pb.PeerId demo_request) with 1%Z in Hl. destruct (ListPeerRules 1 s') as [[[l|? ?] ?]|?|]; try done.
  destruct Hl as (old & -> & _). rewrite last_snoc. by vm_compute.
Defined.

(** The node after it has loaded the rules of [demo_db2]. *)
Lemma demo_loaded : ∃ w, node_ok "node" w ∧ complete "node" demo_db2 w.
Proof.
  destruct (Run_fm_spec "node" ltac:(done) demo_db2 Node.Node.demo_node Node.Node.demo_db2_ok Node.Node.demo_node_ok
    ltac:(by vm_compute) (λ k _, Node.Node.demo_empty k)) as (err & db' & w' & E & _ & Hw & _ & Hc).
  exists w'. split; [done|]. unfold Firewallmanager.Run in E.
  destruct (LoadAllRules demo_db2) as [res db2] eqn:El. destruct (LoadAllRules_spec _ _ _ El) as ([fs ->] & _).
  destruct res as [l|e|]; [|vm_compute in El; discriminate El..].
  destruct (Firewallmanager.add_loaded _ _ l); [|done..]. injection E as <- <- <-. by apply Hc.
Qed.

Lemma large_rule_id_revokes_another_witness :
  ∃ w, own "node" w 1 ≠ None ∧
    ∃ db' w', RemoveRule "node" (2 ^ 48 + 1) (demo_db2, w) = Ok (Reply tt, (db', w')) ∧ own "node" w' 1 = None.
Proof.
  destruct demo_loaded as (w & Hw & Hc). exists w.
  assert (Hr : ∃ r p, peers_rules demo_db2 = [r] ∧ peers demo_db2 = [p] ∧ Repos.RuleID r = 1%Z ∧ ID p = PeerID r)
    by (vm_compute; by do 2 eexists).
  destruct Hr as (r & p & Er & Ep & Hid & Hp).
  destruct (large_rule_id_revokes_another "node" ltac:(done) demo_db2 w r p) as (Hown & db' & w' & E & _ & _ & Hn).
  - exact Node.Node.demo_db2_ok.
  - exact Hw.
  - exact Hc.
  - by vm_compute.
  - by vm_compute.
  - rewrite Er. by left.
  - rewrite Ep. by left.
  - exact Hp.
  - rewrite Hid in Hown, E, Hn. split; [by rewrite Hown|]. by exists db', w'.
Defined.

Definition demo_events : list event :=
  [ECall 6 (Some ["Bearer good"%string]) (RqAddRule demo_request); ESync 7; EStats 167837698 8 10 20;
   ECall 9 (Some ["Bearer bad"%string]) (RqDeletePeer 1); ECall 10 None (RqRemoveRule 1)].

Lemma node_life_witness :
  ∃ err s0, boot "node" 5 demo_db2 Node.Node.demo_node = Ok (err, s0) ∧
    ∃ s, run "node" 167837698 "secret" demo_events s0 = Ok s ∧ backed "node" s.1 s.2.
Proof.
  destruct (node_life "node" ltac:(done) 167837698 "secret" 5 demo_db2 Node.Node.demo_node demo_events)
    as (err & s0 & E & _ & s & Er & _ & Hb).
  - exact Node.Node.demo_db2_ok.
  - exact Node.Node.demo_node_ok.
  - exact Node.Node.demo_served.
  - intros k _. apply Node.Node.demo_empty.
  - by vm_compute.
  - by repeat constructor.
  - exists err, s0. split; [exact E|]. by exists s.
Defined.

Lemma no_token_no_change_witness :
  match run "node" 167837698 "secret" (tail demo_events) (demo_db1, Node.Node.demo_node) with
  | Ok s' => peers_rules s'.1 = peers_rules demo_db1
  | _ => False
  end.
Proof.
  assert (Ha : alive "node" 4 (demo_db1, Node.Node.demo_node)).
  { apply alive_intro; [exact demo_db1_ok|exact Node.Node.demo_node_ok|apply Node.Node.demo_backed|
      exact Node.Node.demo_served|by vm_compute]. }
  destruct (run_alive "node" ltac:(done) 167837698 "secret" 0 (tail demo_events) _ Ha ltac:(done) ltac:(by repeat constructor))
    as (s' & E & _). rewrite E.
  apply (no_token_no_change "node" ltac:(done) 167837698 "secret" (tail demo_events) (demo_db1, Node.Node.demo_node) s').
  - exact Ha.
  - by repeat constructor.
  - repeat constructor.
    + intros header rest [= <- <-] (scheme & token & claims & Es & _ & Ep & _)%admitted_checks.
      vm_compute in Es. injection Es as <- <-. vm_compute in Ep. discriminate Ep.
    + by intros header rest [= ].
  - exact E.
Defined.

End NodeLife.
