(* ===== verification/App.v ===== *)
(** * The application (internal/app/app.go: New, Run, stopRuntime, closeResources)

    The networks a node derives from its certificate, the check of the secret, and
    who owns what outside the process: the listener of the API, the database, the
    QUIC listener of the mesh (its UDP socket is in MeshTransport.v), the TUN device
    (TunSetup.v) and the VPN devices.  What the outside
    answers to each step of a start is the record [Outside].  A VPN device
    (amneziawg-go) is closed by the loop of its transport, or closes itself when the
    reader of its TUN, [ChannelTun.Read], reports that the TUN is closed. *)
From S2P Require Import Prelude DgMessage NetUtils Router Encodings AwgClient AwgTransport TunSetup Api.
Import NetUtils.NetUtils TunSetup.

Open Scope go_scope.

(** The errors of its TUN on which a VPN device closes itself; documented: a TUN that
    is closed ([os.ErrClosed]) is one of them. *)
Class DeviceReader := { closes_on : string → bool }.
Class DeviceReaderLaws `{DeviceReader} := { closes_when_closed : closes_on "file already closed" = true }.

Module App.

(** ** The secret *)

Definition weak_secrets : list string := ["sraka"; "secret"; "changeme"; "password"]%string.

(** [strings.ToLower] on ASCII text. *)
Definition validateJWTSecret (secret : string) : gores () :=
  if decide (String.length secret < 16)%nat then Err "auth.jwt_secret must be at least 16 chars; generate a random one" else
  if decide (Api.Api.lower secret ∈ weak_secrets)
  then Err "auth.jwt_secret is a known weak/default value; set a random secret" else Ok tt.

(** ** The networks *)

Definition IPv4 (b0 b1 b2 b3 : Z) : IP := v4InV6Prefix ++ [b0; b1; b2; b3].

(** From the first address of the certificate: the prefix of the node, with the
    address of its gateway, and the global prefix. *)
Definition node_networks (print6 : list Z → string) (cert_ip : IP) : gores (string * string) :=
  let ip := To4 cert_ip in
  let nodeIP := Mask ip (CIDRMask 16 32) in
  b0 <- go_index nodeIP 0;; b1 <- go_index nodeIP 1;; b2 <- go_index nodeIP 2;;
  Ok (AwgClient.AwgClient.IP_String print6 (IPv4 b0 b1 b2 1) +:+ "/" +:+ pretty 16%Z,
      AwgClient.AwgClient.IP_String print6 (Mask ip (CIDRMask 8 32)) +:+ "/" +:+ pretty 8%Z).

(** [peersmanager.New]: the first address for clients; an error leaves 0. *)
Definition first_client (parse6 : list ascii → option (list Z)) (nodeNet : string) : Z :=
  match NewNativeIPNet parse6 nodeNet with Ok (ip, _) => u32 (ip + 1) | _ => 1%Z end.

(** ** A start *)

Section App.
Context `{HO : Host} `{DR : DeviceReader}.
Context (parse6 : list ascii → option (list Z)) (print6 : list Z → string).

(** What is held outside the process; [w_mesh]: the mesh accepts connections;
    [w_devices]: the VPN devices that are up; [w_stopping]: those that are up while
    their context has ended. *)
Record World := mkWorld {
  w_host : host; w_listener : bool; w_db : bool; w_mesh : bool; w_devices : list string; w_stopping : list string }.

(** The fields of the application that are set. *)
Record App := mkApp {
  a_cancelled : bool;
  a_grpcLis : bool;
  a_db : bool;
  a_node : bool;
  a_tunIface : option TUNIface;
  a_transports : list string }.

(** The outcomes of a start: the root certificate; the key pair, with the
    addresses of its leaf if it has one; the listener; opening, pinging and
    migrating the database; the transport of the mesh; and, for the transports in
    the order the map is visited, the type, the parsed configuration and the start
    of the device. *)
Record Outside := mkOutside {
  o_root : gores ();
  o_cert : gores (option (list IP));
  o_listen : gores ();
  o_open : gores ();
  o_ping : gores ();
  o_migrate : gores ();
  o_mesh : gores ();
  o_transports : list (string * (option string * gores () * gores ())) }.

Definition cancel (a : App) : App :=
  mkApp true (a_grpcLis a) (a_db a) (a_node a) (a_tunIface a) (a_transports a).

(** The errors of closing are dropped or logged.  The transports have the context
    that is cancelled. *)
Definition stopRuntime (a : App) (w : World) : App * World :=
  let '(tun, h) := match a_tunIface a with
                   | Some t => let '(_, t', h') := Close print6 t (w_host w) in (Some t', h')
                   | None => (None, w_host w)
                   end in
  (mkApp true (a_grpcLis a) (a_db a) (a_node a) tun (a_transports a),
   mkWorld h (if a_grpcLis a then false else w_listener w) (w_db w) (if a_node a then false else w_mesh w)
     (filter (λ n, n ∉ a_transports a) (w_devices w)) (w_stopping w ++ filter (λ n, n ∈ a_transports a) (w_devices w))).

Definition close_db (a : App) (w : World) : World :=
  if a_db a then mkWorld (w_host w) (w_listener w) false (w_mesh w) (w_devices w) (w_stopping w) else w.

Definition closeResources (a : App) (w : World) : World :=
  let '(a', w') := stopRuntime a w in close_db a' w'.

(** A step of [New]: an error, or a panic, runs the deferred [closeResources]. *)
Definition or_release {A B} (a : App) (w : World) (msg : string) (r : gores A) (k : A → gores B * World)
    : gores B * World :=
  match r with
  | Ok x => k x
  | Err _ => (Err msg, closeResources a w)
  | Panic => (Panic, closeResources a w)
  end.

Definition add_transport (a : App) (name : string) : App :=
  mkApp (a_cancelled a) (a_grpcLis a) (a_db a) (a_node a) (a_tunIface a) (a_transports a ++ [name]).

(** The loop over the configured transports. *)
Fixpoint build_transports (l : list (string * (option string * gores () * gores ()))) (a : App) (w : World)
    : gores App * World :=
  match l with
  | [] => (Ok a, w)
  | (name, (typ, parsed, started)) :: rest =>
      if decide (name ∈ a_transports a) then (Err "duplicated transport name", closeResources a w) else
      match typ with
      | None => (Err "type for transport is not provided", closeResources a w)
      | Some ty =>
          if decide (ty = "awg"%string) then
            or_release a w "failed to parse transport config" parsed (λ _,
            or_release a w "failed to create transport" started (λ _,
            build_transports rest (add_transport a name)
              (mkWorld (w_host w) (w_listener w) (w_db w) (w_mesh w) (w_devices w ++ [name]) (w_stopping w))))
          else (Err "unknown transport type", closeResources a w)
      end
  end.

Definition opened (w : World) (lis db mesh : bool) : World := mkWorld (w_host w) lis db mesh (w_devices w) (w_stopping w).

Definition New (cfg : TUNConfig) (secret : string) (o : Outside) (w : World) : gores App * World :=
  let a0 := mkApp false false false false None [] in
  match validateJWTSecret secret with
  | Err e => (Err e, closeResources a0 w)
  | Panic => (Panic, closeResources a0 w)
  | Ok _ =>
  or_release a0 w "failed to load root cert" (o_root o) (λ _,
  or_release a0 w "failed to load node cert" (o_cert o) (λ leaf,
  or_release a0 w "node cert leaf empty" (match leaf with Some ips => Ok ips | None => Err "" end) (λ ips,
  or_release a0 w "no ips in node cert" (match ips with ip :: _ => Ok ip | [] => Err "" end) (λ ip,
  or_release a0 w "" (node_networks print6 ip) (λ nets,
  or_release a0 w "failed to launch grpc server" (o_listen o) (λ _,
  let a1 := mkApp false true false false None [] in
  let w1 := opened w true (w_db w) (w_mesh w) in
  or_release a1 w1 "failed to open database" (o_open o) (λ _,
  let a2 := mkApp false true true false None [] in
  let w2 := opened w1 true true (w_mesh w1) in
  or_release a2 w2 "failed to ping database" (o_ping o) (λ _,
  or_release a2 w2 "failed to migrate database" (o_migrate o) (λ _,
  or_release a2 w2 "failed to create router"
    (_ <- NewNativeIPNet parse6 nets.1;; NewNativeIPNet parse6 nets.2) (λ _,
  or_release a2 w2 "failed to create mesh node" (o_mesh o) (λ _,
  let a3 := mkApp false true true true None [] in
  let w3 := opened w2 true true true in
  let '(tun, h) := NewTUN parse6 print6 cfg nets.1 (w_host w3) in
  let w4 := mkWorld h true true true (w_devices w3) (w_stopping w3) in
  or_release a3 w4 "failed to create tun iface" tun (λ t,
  build_transports (o_transports o) (mkApp false true true true (Some t) []) w4))))))))))))
  end.

(** ** A run, from the start of the managers on

    [managers]: the error of [boot]; [first], if a server ended before the context
    was cancelled, is what it reported, and [second] what is read from the channel
    otherwise: the error of a server, if any, and whether that is the gRPC server's
    "stopped".  [close_err]: the error of closing the database. *)
Record Ending := mkEnding {
  e_managers : option string;
  e_first : option (option (string * bool));
  e_second : option (string * bool);
  e_close : option string }.

Definition serve_error (r : option (string * bool)) : option string :=
  match r with
  | Some (e, stopped) => if stopped : bool then None else Some ("gRPC server stopped: " +:+ e)
  | None => None
  end.

(** [Run] of a transport closes its device when the context is cancelled. *)
Definition workers_end (a : App) (w : World) : World :=
  mkWorld (w_host w) (w_listener w) (w_db w) (w_mesh w) (filter (λ n, n ∉ a_transports a) (w_devices w))
    (filter (λ n, n ∉ a_transports a) (w_stopping w)).

(** A turn of the goroutine with which the device [n] reads its TUN. *)
Definition device_turn (n : string) (pick : bool) (heap : gmap nat DgMessage.DgMessage.DatagramMessage) (offset : nat)
    (st : AwgTransport.AwgTransport.read_state) (w : World) : World :=
  match AwgTransport.AwgTransport.Read (bool_decide (n ∈ w_stopping w)) pick heap offset st with
  | Some (Ok (_, Some e, _)) =>
      if closes_on e
      then mkWorld (w_host w) (w_listener w) (w_db w) (w_mesh w) (filter (λ m, m ≠ n) (w_devices w)) (filter (λ m, m ≠ n) (w_stopping w))
      else w
  | _ => w
  end.

(** Every way out goes through the deferred stop, after the explicit one; the
    workers only run once the managers have started. *)
Definition Run (en : Ending) (a : App) (w : World) : option string * World :=
  let '(err, a1, w1) :=
    match e_managers en with
    | Some e => (Some e, a, w)
    | None =>
        let '(a1, w1) := stopRuntime (match e_first en with Some _ => cancel a | None => a end) w in
        (serve_error (match e_first en with Some r => r | None => e_second en end), a1, workers_end a1 w1)
    end in
  let '(a2, w2) := stopRuntime a1 w1 in
  (match err with
   | Some e => Some e
   | None => match e_close en with Some e => Some ("failed to close database: " +:+ e) | None => None end
   end, close_db a2 w2).

End App.

(** * Specification *)

(** ** The secret and the networks *)

Lemma lower_length s : String.length (Api.Api.lower s) = String.length s.
Proof. induction s as [|c s IH]; [done|]. simpl. by rewrite IH. Qed.

Lemma CIDRMask_16_8 : CIDRMask 16 32 = [255; 255; 0; 0]%Z ∧ CIDRMask 8 32 = [255; 0; 0; 0]%Z.
Proof. by vm_compute. Qed.

(** the list of weak secrets refuses nothing.  Every secret on the list is
    shorter than the 16 characters that are required anyway, so a secret is
    accepted exactly when it is long enough. *)
Theorem weak_secrets_unreachable s : validateJWTSecret s = Ok tt ↔ (16 <= String.length s)%nat.
Proof.
  unfold validateJWTSecret. case_decide; [split; [done|lia]|]. case_decide as Hw; [|split; [lia|done]]. exfalso.
  pose proof (lower_length s) as Hl. unfold weak_secrets in Hw. rewrite !elem_of_cons in Hw.
  destruct Hw as [E|[E|[E|[E|E]]]]; [rewrite E in Hl; simpl in Hl; lia..|]. by apply not_elem_of_nil in E.
Qed.

(** The networks of an IPv4 address. *)
Lemma node_networks_v4 print6 ip b0 b1 b2 b3 :
  To4 ip = [b0; b1; b2; b3] → is_u8 b0 → is_u8 b1 → is_u8 b2 → is_u8 b3 →
  node_networks print6 ip = Ok (ip4_string b0 b1 0 1 +:+ "/" +:+ pretty 16%Z, ip4_string b0 0 0 0 +:+ "/" +:+ pretty 8%Z).
Proof.
  intros E H0 H1 H2 H3. unfold node_networks. rewrite E. destruct CIDRMask_16_8 as [-> ->].
  assert (Hz : ∀ b, is_u8 b → Z.land b 255 = b ∧ Z.land b 0 = 0%Z).
  { intros b Hb. split; [|apply Z.land_0_r]. change 255%Z with (Z.ones 8). rewrite Z.land_ones by lia.
    unfold is_u8 in Hb. by rewrite Z.mod_small. }
  assert (M16 : Mask [b0; b1; b2; b3] [255; 255; 0; 0]%Z = [b0; b1; 0; 0]%Z).
  { unfold Mask. simpl. by rewrite (proj1 (Hz b0 H0)), (proj1 (Hz b1 H1)), (proj2 (Hz b2 H2)), (proj2 (Hz b3 H3)). }
  assert (M8 : Mask [b0; b1; b2; b3] [255; 0; 0; 0]%Z = [b0; 0; 0; 0]%Z).
  { unfold Mask. simpl. by rewrite (proj1 (Hz b0 H0)), (proj2 (Hz b1 H1)), (proj2 (Hz b2 H2)), (proj2 (Hz b3 H3)). }
  rewrite M16, M8. done.
Qed.

(** An address as [NewNativeIPNet] reads it back. *)
Lemma ip4_native parse6 b0 b1 b2 b3 p :
  is_u8 b0 → is_u8 b1 → is_u8 b2 → is_u8 b3 → (p <= 32)%nat →
  NewNativeIPNet parse6 (ip4_string b0 b1 b2 b3 +:+ "/" +:+ pretty (Z.of_nat p)) =
  Ok (word4 b0 b1 b2 b3, mkNet (word4 b0 b1 b2 b3 / 2 ^ (32 - Z.of_nat p) * 2 ^ (32 - Z.of_nat p))
                               (Z.shiftl (Z.ones (Z.of_nat p)) (32 - Z.of_nat p))).
Proof.
  intros H0 H1 H2 H3 Hp. unfold NewNativeIPNet. rewrite ParseCIDR_string by done.
  destruct (mask_facts p Hp) as [(m0 & m1 & m2 & m3 & -> & ? & ? & ? & ? & Em) _]. simpl.
  rewrite !lor_word4 by auto using land_u8. rewrite <- word4_land, Em by done. rewrite land_prefix_mask; [done|done|].
  clear -H0 H1 H2 H3. unfold word4. word_lia.
Qed.

(** the networks of a certificate.  From an IPv4 address the node gets its /16
    with the host number 1 as gateway, and the /8 as the global network; both are
    read back by the router exactly, the gateway is inside, and clients start
    right after it.  An address that is not IPv4 makes the start panic. *)
Theorem certificate_networks parse6 print6 cert_ip :
  (∀ b0 b1 b2 b3, To4 cert_ip = [b0; b1; b2; b3] → is_u8 b0 → is_u8 b1 → is_u8 b2 → is_u8 b3 →
   ∃ nodeNet globalNet net gnet gaddr, node_networks print6 cert_ip = Ok (nodeNet, globalNet) ∧
     NewNativeIPNet parse6 nodeNet = Ok (word4 b0 b1 0 1, net) ∧ NewNativeIPNet parse6 globalNet = Ok (gaddr, gnet) ∧
     (∀ ip, is_u32 ip → Contains net ip = same_prefix 16 ip (word4 b0 b1 b2 b3) ∧
                        Contains gnet ip = same_prefix 8 ip (word4 b0 b1 b2 b3)) ∧
     Contains net (word4 b0 b1 0 1) = true ∧ first_client parse6 nodeNet = (word4 b0 b1 0 1 + 1)%Z) ∧
  (To4 cert_ip = [] → node_networks print6 cert_ip = Panic).
Proof.
  split; [|by intros E; unfold node_networks; rewrite E].
  intros b0 b1 b2 b3 E H0 H1 H2 H3. rewrite (node_networks_v4 _ _ _ _ _ _ E) by done.
  assert (U0 : is_u8 0) by done. assert (U1 : is_u8 1) by done.
  pose proof (ip4_native parse6 b0 b1 0 1 16 H0 H1 U0 U1 ltac:(lia)) as E16.
  pose proof (ip4_native parse6 b0 0 0 0 8 H0 U0 U0 U0 ltac:(lia)) as E8.
  eexists _, _, _, _, _. split; [reflexivity|]. split; [exact E16|]. split; [exact E8|].
  assert (P : (word4 b0 b1 0 1 / 2 ^ (32 - Z.of_nat 16) = word4 b0 b1 b2 b3 / 2 ^ (32 - Z.of_nat 16) ∧
               word4 b0 0 0 0 / 2 ^ (32 - Z.of_nat 8) = word4 b0 b1 b2 b3 / 2 ^ (32 - Z.of_nat 8))%Z).
  { clear -H0 H1 H2 H3. unfold word4. change (2 ^ (32 - Z.of_nat 16))%Z with 65536%Z.
    change (2 ^ (32 - Z.of_nat 8))%Z with 16777216%Z. word_lia. }
  destruct P as [P16 P8]. assert (Ug : is_u32 (word4 b0 b1 0 1)) by (clear -H0 H1; unfold word4; word_lia).
  split; [|split].
  - intros ip Hip. rewrite !Contains_prefix by (done || lia). unfold same_prefix. by rewrite P16, P8.
  - rewrite Contains_prefix by (done || lia). unfold same_prefix. by apply bool_decide_eq_true.
  - unfold first_client. change (pretty 16%Z) with (pretty (Z.of_nat 16)). rewrite E16. apply u32_small.
    clear -H0 H1. unfold word4. word_lia.
Qed.

(** ** Who owns what *)

Section Specs.
Context `{HL : HostLaws} `{DL : DeviceReaderLaws}.
Context (parse6 : list ascii → option (list Z)) (print6 : list Z → string).

(** What is open belongs to a field of the application. *)
Definition owned (a : App) (w : World) : Prop :=
  (w_listener w = true → a_grpcLis a = true) ∧ (w_db w = true → a_db a = true) ∧ (w_mesh w = true → a_node a = true) ∧
  (dev_open (w_host w) = true → ∃ t, a_tunIface a = Some t ∧ eg_ifce t = true ∧ eg_closed t = false) ∧
  (∀ n, n ∈ w_devices w → n ∈ a_transports a).

(** Nothing is open, and no VPN device is up with a context that lasts. *)
Definition released (w : World) : Prop :=
  w_listener w = false ∧ w_db w = false ∧ w_mesh w = false ∧ dev_open (w_host w) = false ∧ w_devices w = [].

Lemma released_owned a w : released w → owned a w.
Proof. intros (El & Ed & Em & Eh & Ev). unfold owned. rewrite El, Ed, Em, Eh, Ev. split_and!; try done. by intros n ?%elem_of_nil. Qed.

Lemma filter_all {A} (P : A → Prop) `{∀ x, Decision (P x)} (l : list A) : (∀ x, x ∈ l → P x) → filter P l = l.
Proof.
  induction l as [|x l IH]; intros Hl; [done|]. rewrite filter_cons_True by (apply Hl; by left).
  f_equal. apply IH. intros y Hy. apply Hl. by right.
Qed.
Lemma filter_none {A} (P : A → Prop) `{∀ x, Decision (P x)} (l : list A) : (∀ x, x ∈ l → ¬ P x) → filter P l = [].
Proof.
  induction l as [|x l IH]; intros Hl; [done|]. rewrite filter_cons_False by (apply Hl; by left).
  apply IH. intros y Hy. apply Hl. by right.
Qed.

(** Closing a closed interface changes nothing; any other close of an open
    interface closes the device, and no close opens it. *)
Lemma Close_keeps_closed t h : dev_open h = false → dev_open (Close print6 t h).2 = false.
Proof.
  intros Ho. unfold Close, close. destruct (eg_closed t); [done|].
  assert (H1 : dev_open (if eg_ifce t then CloseTUN h else h) = false)
    by (destruct (eg_ifce t); [apply close_law|done]).
  destruct (match eg_ipNet t with Some _ => _ | None => _ end) as [errs1 h2] eqn:E1.
  assert (H2 : dev_open h2 = false).
  { destruct (eg_ipNet t); [destruct (_ && _)|]; [apply delete_rules_spec in E1 as [-> _]; done|by injection E1 as <- <-..]. }
  destruct (remove_link t h2) as [errs2 h3] eqn:E2. apply remove_link_spec in E2 as [_ E2]. simpl. congruence.
Qed.

Lemma stopRuntime_spec a w a' w' :
  owned a w → stopRuntime print6 a w = (a', w') →
  w_listener w' = false ∧ w_mesh w' = false ∧ dev_open (w_host w') = false ∧ w_db w' = w_db w ∧
  w_devices w' = [] ∧ w_stopping w' = w_stopping w ++ w_devices w ∧ a_db a' = a_db a ∧ a_transports a' = a_transports a ∧ a_cancelled a' = true ∧ owned a' w'.
Proof.
  intros (Hl & Hd & Hm & Ht & Hv) E. unfold stopRuntime in E.
  destruct (match a_tunIface a with Some _ => _ | None => _ end) as [tun h] eqn:Et. injection E as <- <-. simpl.
  assert (Ho : dev_open h = false).
  { destruct (a_tunIface a) as [t|] eqn:Ea.
    - destruct (dev_open (w_host w)) eqn:Eo.
      + destruct (Ht eq_refl) as (t' & [= <-] & Hi & Hc). pose proof (Close_device print6 t (w_host w) Hi Hc) as Hx.
        destruct (Close print6 t (w_host w)) as [[? ?] h']. by injection Et as _ <-.
      + pose proof (Close_keeps_closed t (w_host w) Eo) as Hx.
        destruct (Close print6 t (w_host w)) as [[? ?] h']. by injection Et as _ <-.
    - injection Et as _ <-. destruct (dev_open (w_host w)); [|done]. by destruct (Ht eq_refl) as (? & ? & _). }
  assert (Hl' : (if a_grpcLis a then false else w_listener w) = false).
  { destruct (a_grpcLis a); [done|]. destruct (w_listener w); [|done]. by discriminate Hl. }
  assert (Hm' : (if a_node a then false else w_mesh w) = false).
  { destruct (a_node a); [done|]. destruct (w_mesh w); [|done]. by discriminate Hm. }
  assert (Hg : filter (λ n, n ∉ a_transports a) (w_devices w) = []) by (apply filter_none; intros n Hn Hx; by apply Hx, Hv).
  rewrite Hl', Hm', Hg, filter_all by done. unfold owned. simpl. rewrite Ho. split_and!; try done. by intros n ?%elem_of_nil.
Qed.

Lemma closeResources_spec a w :
  owned a w → released (closeResources print6 a w) ∧ w_stopping (closeResources print6 a w) = w_stopping w ++ w_devices w.
Proof.
  intros Ho. unfold closeResources. destruct (stopRuntime print6 a w) as [a' w'] eqn:E.
  destruct (stopRuntime_spec _ _ _ _ Ho E) as (Hl & Hm & Ht & Ed & Ev & Es & Ea & _). unfold close_db, released. rewrite Ea.
  destruct Ho as (_ & Hd & _). destruct (a_db a); simpl; [done|]. rewrite Ed. by destruct (w_db w); [discriminate Hd|].
Qed.

(** A step that fails releases everything. *)
Lemma or_release_spec {A B} a w msg (r : gores A) (k : A → gores B * World) res w' :
  owned a w → or_release print6 a w msg r k = (res, w') →
  (∃ x, r = Ok x ∧ k x = (res, w')) ∨ (is_ok res = false ∧ released w' ∧ w_stopping w' = w_stopping w ++ w_devices w).
Proof.
  intros Ho E. unfold or_release in E. destruct r as [x|e|]; [left; by exists x|right..];
    injection E as <- <-; destruct (closeResources_spec a w Ho); by split_and!.
Qed.

Lemma build_transports_spec l a w res w' :
  owned a w → build_transports print6 l a w = (res, w') →
  match res with
  | Ok a' => w' = mkWorld (w_host w) (w_listener w) (w_db w) (w_mesh w) (w_devices w ++ l.*1) (w_stopping w) ∧
      a' = mkApp (a_cancelled a) (a_grpcLis a) (a_db a) (a_node a) (a_tunIface a) (a_transports a ++ l.*1)
  | _ => released w' ∧ ∃ k, w_stopping w' = w_stopping w ++ w_devices w ++ take k l.*1
  end.
Proof.
  revert a w. induction l as [|[name [[typ parsed] started]] l IH]; intros a w Ho E; simpl in E.
  { injection E as <- <-. rewrite !app_nil_r. by destruct a, w. }
  assert (Hfail : is_ok res = false ∧ released w' ∧ w_stopping w' = w_stopping w ++ w_devices w →
    match res with Ok _ => False | _ => released w' ∧ ∃ k, w_stopping w' = w_stopping w ++ w_devices w ++ take k (name :: l.*1) end).
  { intros (Hr & Hrel & Hdev). assert (∃ k, w_stopping w' = w_stopping w ++ w_devices w ++ take k (name :: l.*1)).
    { exists 0%nat. by rewrite app_nil_r. } by destruct res. }
  destruct (decide (name ∈ a_transports a)).
  { injection E as <- <-. destruct (closeResources_spec a w Ho). apply Hfail. by split_and!. }
  destruct typ as [ty|]; [|injection E as <- <-; destruct (closeResources_spec a w Ho); apply Hfail; by split_and!].
  destruct (decide (ty = "awg"%string)); [|injection E as <- <-; destruct (closeResources_spec a w Ho); apply Hfail; by split_and!].
  apply or_release_spec in E as [(u & _ & E)|E]; [|specialize (Hfail E); by destruct res|done].
  apply or_release_spec in E as [(u' & _ & E)|E]; [|specialize (Hfail E); by destruct res|done].
  apply IH in E.
  2: { destruct Ho as (H1 & H2 & H3 & H4 & H5). unfold owned. simpl. split_and!; try done.
       intros x [Hx|Hx]%elem_of_app; apply elem_of_app; [left; auto|by right]. }
  destruct res as [a'|msg|].
  - destruct E as [-> ->]. simpl. by rewrite <- !(assoc_L app).
  - destruct E as [Hr [k Ek]]. split; [done|]. exists (S k). rewrite Ek. simpl. by rewrite <- (assoc_L app).
  - destruct E as [Hr [k Ek]]. split; [done|]. exists (S k). rewrite Ek. simpl. by rewrite <- (assoc_L app).
Qed.

(** What a start leaves. *)
(** A step before the transports. *)
Lemma or_release_early {A B} a w msg (r : gores A) (k : A → gores B * World) res w' :
  owned a w → w_devices w = [] → or_release print6 a w msg r k = (res, w') →
  (∃ x, r = Ok x ∧ k x = (res, w')) ∨ (is_ok res = false ∧ released w' ∧ w_stopping w' = w_stopping w).
Proof.
  intros Ho Hv E. apply or_release_spec in E as [?|(? & ? & E)]; [by left| |done]. right. by rewrite E, Hv, app_nil_r.
Qed.

Lemma New_spec cfg secret o w res w' :
  released w → New parse6 print6 cfg secret o w = (res, w') →
  match res with
  | Ok a => owned a w' ∧ w_listener w' = true ∧ w_db w' = true ∧ w_mesh w' = true ∧ dev_open (w_host w') = true ∧
      a_transports a = (o_transports o).*1 ∧ w_devices w' = a_transports a ∧ w_stopping w' = w_stopping w
  | Err _ => released w' ∧ ∃ k, w_stopping w' = w_stopping w ++ take k (o_transports o).*1
  | Panic => True
  end.
Proof.
  intros Hw E. pose proof (released_owned (mkApp false false false false None []) w Hw) as Hown.
  destruct w as [h0 l0 d0 m0 v0 s0]. destruct Hw as (Hl & Hd & Hm & Hh & Hv). simpl in Hl, Hd, Hm, Hh, Hv. subst l0 d0 m0 v0.
  set (w := mkWorld h0 false false false [] s0) in *.
  assert (Hnil : ∀ n a, n ∈ [] → n ∈ a_transports a) by (by intros n a ?%elem_of_nil).
  assert (Hfail : is_ok res = false ∧ released w' ∧ w_stopping w' = s0 →
    match res with Err _ => released w' ∧ ∃ k, w_stopping w' = s0 ++ take k (o_transports o).*1
                 | Ok _ => False | Panic => True end).
  { intros (Hr & Hrel & Hdev). destruct res; [done| |done]. split; [done|]. exists 0%nat. by rewrite app_nil_r. }
  assert (Hdone : is_ok res = false ∧ released w' ∧ w_stopping w' = s0 ∨
    ∃ nets t h, NewTUN parse6 print6 cfg nets h0 = (t, h) ∧
      or_release print6 (mkApp false true true true None []) (mkWorld h true true true [] s0) "failed to create tun iface" t
        (λ t, build_transports print6 (o_transports o) (mkApp false true true true (Some t) []) (mkWorld h true true true [] s0))
      = (res, w')).
  { unfold New in E. destruct (validateJWTSecret secret) as [u|msg|];
      [|left; injection E as <- <-; destruct (closeResources_spec _ _ Hown) as [? E0]; rewrite app_nil_r in E0; by split_and!..].
    do 6 (apply or_release_early in E as [(? & _ & E)|E]; [|by left|exact Hown|done]).
    assert (Ho1 : owned (mkApp false true false false None []) (opened w true (w_db w) (w_mesh w)))
      by (unfold owned, opened; simpl; rewrite Hh; split_and!; try done; by intros ? ?%elem_of_nil).
    apply or_release_early in E as [(? & _ & E)|E]; [|by left|exact Ho1|done].
    assert (Ho2 : owned (mkApp false true true false None []) (opened (opened w true (w_db w) (w_mesh w)) true true (w_mesh w)))
      by (unfold owned, opened; simpl; rewrite Hh; split_and!; try done; by intros ? ?%elem_of_nil).
    do 4 (apply or_release_early in E as [(? & _ & E)|E]; [|by left|exact Ho2|done]).
    right. simpl in E. destruct (NewTUN _ _ _ _ _) as [t h] eqn:Et. by eexists _, t, h. }
  destruct Hdone as [Hx|(nets & t & h & Et & E')]; [specialize (Hfail Hx); by destruct res|].
  pose proof (NewTUN_spec _ _ _ _ _ _ _ Et) as Ht. destruct t as [t|msg|]; [| |by injection E' as <- _].
  - destruct Ht as (Ho & n & out & -> & _). cbn [or_release] in E'.
    apply build_transports_spec in E'; [|unfold owned; simpl; split_and!; try done; first [intros _; by eexists|by intros ? ?%elem_of_nil]].
    destruct res as [a|msg|]; [|exact E'|done]. destruct E' as [-> ->]. simpl. split_and!; try done.
    unfold owned. simpl. split_and!; try done. all: first [intros _; by eexists|by intros ? ?%elem_of_nil].
  - specialize (Ht Hh). cbn [or_release] in E'. injection E' as <- <-.
    destruct (closeResources_spec (mkApp false true true true None []) (mkWorld h true true true [] s0)) as [Hr Hs];
      [unfold owned; simpl; rewrite Ht; split_and!; try done; by intros ? ?%elem_of_nil|]. split; [done|]. exists 0%nat. by rewrite Hs.
Qed.

(** The reader of a stopping device finds the end of its context: the device closes. *)
Lemma device_turn_spec n pick heap offset st w :
  n ∈ w_stopping w → AwgTransport.AwgTransport.rd_queue st = [] ∨ pick = false →
  ∀ m, m ∈ w_stopping (device_turn n pick heap offset st w) ↔ m ∈ w_stopping w ∧ m ≠ n.
Proof.
  intros Hn Hq m. unfold device_turn. rewrite bool_decide_true by done.
  assert (E : AwgTransport.AwgTransport.Read true pick heap offset st = Some (Ok (0%nat, Some "file already closed"%string, st))).
  { unfold AwgTransport.AwgTransport.Read. destruct (AwgTransport.AwgTransport.rd_queue st); [done|]. by destruct Hq as [| ->]. }
  rewrite E, closes_when_closed. simpl. rewrite list_elem_of_filter. tauto.
Qed.

(** C40: a start owns what it opens, or releases it.  From a world in which nothing
    of the node is open, a successful [New] has opened everything and knows it;
    when it fails with an error, at whatever step, both listeners, the database and the
    TUN device are closed again, and the VPN devices of the transports that were
    started before the failure are all told to stop, as their context has ended; each
    of them closes itself, and no other, when its reader finds that out, which it does
    at the latest when no packet waits for it any more. *)
Theorem start_owns_or_releases cfg secret o w res w' :
  released w → New parse6 print6 cfg secret o w = (res, w') →
  match res with
  | Ok a => owned a w' ∧ w_listener w' = true ∧ w_db w' = true ∧ w_mesh w' = true ∧ dev_open (w_host w') = true ∧
      a_transports a = (o_transports o).*1 ∧ w_devices w' = a_transports a ∧ w_stopping w' = w_stopping w
  | Err _ => released w' ∧ (∃ k, w_stopping w' = w_stopping w ++ take k (o_transports o).*1) ∧
      ∀ n pick heap offset st, n ∈ w_stopping w' → AwgTransport.AwgTransport.rd_queue st = [] ∨ pick = false →
        ∀ m, m ∈ w_stopping (device_turn n pick heap offset st w') ↔ m ∈ w_stopping w' ∧ m ≠ n
  | Panic => True
  end.
Proof.
  intros Hw E. pose proof (New_spec cfg secret o w res w' Hw E) as Hn. destruct res; [done| |done].
  destruct Hn as [Hrel Hk]. split; [done|]. split; [done|]. intros. by apply device_turn_spec.
Qed.

(** What a run leaves. *)
Lemma Run_spec en a w err w' :
  owned a w → Run print6 en a w = (err, w') →
  released w' ∧ (e_managers en = None → ∀ n, n ∈ a_transports a → n ∉ w_stopping w') ∧
  (err = None ↔ e_managers en = None ∧ e_close en = None ∧
     match (match e_first en with Some r => r | None => e_second en end) with Some (_, stopped) => stopped = true | None => True end).
Proof.
  intros Ho E. unfold Run in E.
  assert (Hend : ∀ a1 w1 err1, owned a1 w1 →
    (let '(a2, w2) := stopRuntime print6 a1 w1 in
     (match err1 with
      | Some e => Some e
      | None => match e_close en with Some e => Some ("failed to close database: " +:+ e) | None => None end
      end, close_db a2 w2)) = (err, w') →
    released w' ∧ w_stopping w' = w_stopping w1 ++ w_devices w1 ∧ (err = None ↔ err1 = None ∧ e_close en = None)).
  { intros a1 w1 err1 H1 E1. pose proof (closeResources_spec a1 w1 H1) as [Hr Hd]. unfold closeResources in Hr, Hd.
    destruct (stopRuntime print6 a1 w1) as [a2 w2]. injection E1 as <- <-. split; [done|]. split; [done|].
    destruct err1; [split; [done|by intros [? _]]|]. destruct (e_close en); split; try done; by intros [_ ?]. }
  destruct (e_managers en) as [e|].
  { destruct (Hend a w (Some e) Ho E) as (Hr & _ & He). split; [done|]. split; [done|]. rewrite He. split; [by intros [? _]|by intros [? _]]. }
  set (a0 := match e_first en with Some _ => cancel a | None => a end) in E.
  assert (Ho0 : owned a0 w) by (subst a0; by destruct (e_first en)).
  destruct (stopRuntime print6 a0 w) as [a1 w1] eqn:E1.
  destruct (stopRuntime_spec _ _ _ _ Ho0 E1) as (_ & _ & _ & _ & Ed & _ & _ & Et & _ & Ho1).
  assert (Et0 : a_transports a1 = a_transports a) by (rewrite Et; subst a0; by destruct (e_first en)).
  assert (Ho2 : owned a1 (workers_end a1 w1)).
  { destruct Ho1 as (K1 & K2 & K3 & K4 & K5). unfold owned. simpl. split_and!; try done. intros n [_ Hn]%list_elem_of_filter. auto. }
  destruct (Hend a1 (workers_end a1 w1) _ Ho2 E) as (Hr & Hdv & He). split; [done|]. split.
  - intros _ n Hn. rewrite Hdv. simpl. rewrite Ed, app_nil_r, list_elem_of_filter, Et0. tauto.
  - rewrite He. unfold serve_error. destruct (match e_first en with Some r => r | None => e_second en end) as [[m []]|]; naive_solver.
Qed.

(** a run gives everything back.  However a run ends, by an error of the
    managers, a cancelled context or a server, both listeners, the database and the
    TUN device are closed when it returns, the VPN devices are told to stop, and once
    the managers had started they are closed too; it returns no error exactly when the managers
    started, no server reported one but the gRPC server's own stop, and the
    database closed. *)
Theorem run_releases en a w err w' :
  owned a w → Run print6 en a w = (err, w') →
  released w' ∧ (e_managers en = None → ∀ n, n ∈ a_transports a → n ∉ w_stopping w') ∧
  (err = None ↔ e_managers en = None ∧ e_close en = None ∧
     match (match e_first en with Some r => r | None => e_second en end) with Some (_, stopped) => stopped = true | None => True end).
Proof. apply Run_spec. Qed.

End Specs.

(** ** Witnesses: the host of TunSetup.v *)

#[local] Existing Instance demo_ops.
#[local] Existing Instance demo_laws.

Definition demo_world : World := mkWorld (demo_empty : host) false false false [] [].
#[local] Instance demo_reader : DeviceReader := {| closes_on e := String.eqb e "file already closed" |}.
#[local] Instance demo_reader_laws : DeviceReaderLaws.
Proof. done. Qed.
Definition demo_outside (second : string) : Outside :=
  mkOutside (Ok tt) (Ok (Some [[10; 8; 3; 4]%Z])) (Ok tt) (Ok tt) (Ok tt) (Ok tt) (Ok tt)
    [("a", (Some "awg", Ok tt, Ok tt)); ("b", (Some second, Ok tt, Ok tt))]%string.
Definition demo_start (second : string) : gores App * World :=
  New no6 (λ _, ""%string) demo_cfg "0123456789abcdef" (demo_outside second) demo_world.

Lemma demo_released : released demo_world.
Proof. done. Qed.

(** The second transport has a type nobody knows: the first one's device is told to
    stop, and closes when its reader has had a turn. *)
Definition demo_idle : AwgTransport.AwgTransport.read_state := AwgTransport.AwgTransport.mkRead [] [] [] [].
Lemma start_owns_or_releases_witness :
  (w_db (demo_start "awg").2 = true ∧ dev_open (w_host (demo_start "awg").2) = true) ∧
  released (demo_start "quic").2 ∧ w_stopping (demo_start "quic").2 = ["a"%string] ∧
  "a"%string ∉ w_stopping (device_turn "a" true ∅ 0 demo_idle (demo_start "quic").2).
Proof.
  split.
  - assert (Hok : is_ok (demo_start "awg").1 = true) by (vm_compute; reflexivity).
    destruct (demo_start "awg").1 as [a|e|] eqn:E; try discriminate Hok.
    pose proof (start_owns_or_releases no6 (λ _, ""%string) demo_cfg "0123456789abcdef" (demo_outside "awg") demo_world
      (demo_start "awg").1 (demo_start "awg").2 demo_released (surjective_pairing (demo_start "awg"))) as H.
    rewrite E in H. destruct H as (_ & _ & Hdb & _ & Hdev & _). exact (conj Hdb Hdev).
  - assert (Hok : match (demo_start "quic").1 with Err _ => true | _ => false end = true) by (vm_compute; reflexivity).
    destruct (demo_start "quic").1 as [a|e|] eqn:E; try discriminate Hok.
    pose proof (start_owns_or_releases no6 (λ _, ""%string) demo_cfg "0123456789abcdef" (demo_outside "quic") demo_world
      (demo_start "quic").1 (demo_start "quic").2 demo_released (surjective_pairing (demo_start "quic"))) as H.
    rewrite E in H. destruct H as (H1 & _ & H2). assert (Ew : w_stopping (demo_start "quic").2 = ["a"%string]) by (vm_compute; reflexivity).
    split; [exact H1|]. split; [exact Ew|]. intros Hin. assert (Ha : "a"%string ∈ w_stopping (demo_start "quic").2) by (rewrite Ew; by left).
    exact (proj2 (proj1 (H2 "a"%string true ∅ 0%nat demo_idle Ha (or_introl eq_refl) "a"%string) Hin) eq_refl).
Defined.

Lemma run_releases_witness :
  match (demo_start "awg").1 with
  | Ok a => released (Run (λ _, ""%string) (mkEnding None None None None) a (demo_start "awg").2).2
  | _ => False
  end.
Proof.
  pose proof (New_spec no6 (λ _, ""%string) demo_cfg "0123456789abcdef" (demo_outside "awg") demo_world
      (demo_start "awg").1 (demo_start "awg").2 demo_released (surjective_pairing (demo_start "awg"))) as H.
  assert (Hok : is_ok (demo_start "awg").1 = true) by (vm_compute; reflexivity).
  destruct (demo_start "awg").1 as [a|e|] eqn:E; try discriminate Hok.
  destruct (Run (λ _, ""%string) (mkEnding None None None None) a (demo_start "awg").2) as [err w'] eqn:Er.
  exact (proj1 (run_releases (λ _, ""%string) (mkEnding None None None None) a (demo_start "awg").2 err w' (proj1 H) Er)).
Defined.

End App.
