(* ===== verification/Process.v ===== *)
(** * The process around the application

    From the command line to the end (cmd/node/main.go), the configuration
    (internal/appconfig), the query for the node's country (internal/infra/ipapi)
    and the handlers that report about the node (pkg/api/controllers/grpc:
    node_handler.go, router_handler.go).  The YAML reader is third-party code and
    an argument; the tokens of a JSON text are a value of type [json]. *)
From S2P Require Import Prelude SafeMap Router TunSetup App.
Import TunSetup App.App.

Open Scope go_scope.

Module Process.

(** ** ipapi *)

(** A JSON value, as far as text fields go: numbers, booleans and arrays are all
    refused where text is expected. *)
Inductive json := JNull | JString (s : string) | JObject (fields : list (string * json)) | JOther.

Record IPInfo := mkIPInfo {
  IP_ : string; City : string; Region : string; CountryCode : string; Loc : string;
  Org : string; Postal : string; Timezone : string; Readme : string }.

Definition empty_info : IPInfo := mkIPInfo "" "" "" "" "" "" "" "" "".

(** encoding/json compares names up to case; of the letters outside ASCII only the
    long s and the Kelvin sign have ASCII forms. *)
Fixpoint fold_name (l : list Z) : list Z :=
  match l with
  | 197%Z :: 191%Z :: rest => 115%Z :: fold_name rest
  | 226%Z :: 132%Z :: 170%Z :: rest => 107%Z :: fold_name rest
  | c :: rest => (if decide (65 <= c <= 90)%Z then c + 32 else c)%Z :: fold_name rest
  | [] => []
  end.
Definition bytes_of (s : string) : list Z := (λ c, Z.of_nat (nat_of_ascii c)) <$> String.list_ascii_of_string s.
Definition named (name key : string) : bool := bool_decide (fold_name (bytes_of key) = fold_name (bytes_of name)).

(** The names of the fields and how each is set. *)
Definition info_fields : list (string * (string → IPInfo → IPInfo)) :=
  [("ip", λ v i, mkIPInfo v (City i) (Region i) (CountryCode i) (Loc i) (Org i) (Postal i) (Timezone i) (Readme i));
   ("city", λ v i, mkIPInfo (IP_ i) v (Region i) (CountryCode i) (Loc i) (Org i) (Postal i) (Timezone i) (Readme i));
   ("region", λ v i, mkIPInfo (IP_ i) (City i) v (CountryCode i) (Loc i) (Org i) (Postal i) (Timezone i) (Readme i));
   ("country", λ v i, mkIPInfo (IP_ i) (City i) (Region i) v (Loc i) (Org i) (Postal i) (Timezone i) (Readme i));
   ("loc", λ v i, mkIPInfo (IP_ i) (City i) (Region i) (CountryCode i) v (Org i) (Postal i) (Timezone i) (Readme i));
   ("org", λ v i, mkIPInfo (IP_ i) (City i) (Region i) (CountryCode i) (Loc i) v (Postal i) (Timezone i) (Readme i));
   ("postal", λ v i, mkIPInfo (IP_ i) (City i) (Region i) (CountryCode i) (Loc i) (Org i) v (Timezone i) (Readme i));
   ("timezone", λ v i, mkIPInfo (IP_ i) (City i) (Region i) (CountryCode i) (Loc i) (Org i) (Postal i) v (Readme i));
   ("readme", λ v i, mkIPInfo (IP_ i) (City i) (Region i) (CountryCode i) (Loc i) (Org i) (Postal i) (Timezone i) v)]%string.

Definition field_of (key : string) : option (string → IPInfo → IPInfo) :=
  snd <$> find (λ f, named f.1 key) info_fields.

(** One member of the object: null changes nothing, an unknown name is skipped, a
    value of another type is remembered as the error while decoding goes on. *)
Definition decode_member (acc : IPInfo * bool) (m : string * json) : IPInfo * bool :=
  match field_of m.1, m.2 with
  | Some set, JString s => (set s acc.1, acc.2)
  | Some _, (JObject _ | JOther) => (acc.1, false)
  | _, _ => acc
  end.

(** [None] is a text that is no JSON. *)
Definition Decode (body : option json) : gores IPInfo :=
  match body with
  | None => Err "invalid character"
  | Some JNull => Ok empty_info
  | Some (JObject members) =>
      let '(info, fine) := foldl decode_member (empty_info, true) members in
      if fine then Ok info else Err "json: cannot unmarshal into Go struct field"
  | Some _ => Err "json: cannot unmarshal into Go value of type ipapi.IPInfo"
  end.

(** The request and the answer: its status with its text, and the body. *)
Definition getIpInfo (request : gores ()) (response : gores (Z * string * option json)) : gores IPInfo :=
  _ <- request;; r <- response;;
  let '(code, status, body) := r in
  if decide (code < 200 ∨ 300 <= code)%Z then Err ("IP API returned " +:+ status) else Decode body.

(** app.go, [New]: a failed query is logged. *)
Definition app_ipInfo (m : gores IPInfo) : IPInfo :=
  match m with Ok i => i | _ => mkIPInfo "" "" "" "UNKNOWN" "" "" "" "" "" end.

(** ** Handlers *)

Record PongMessage := mkPong { NodeId : string; PongCountryCode : string }.
Definition Ping (nodeID : string) (ipInfo : IPInfo) : PongMessage := mkPong nodeID (CountryCode ipInfo).

(** [Type] of a transport is its method of that name. *)
Definition ListTransportTypes {T} `{MapRange} (Type_ : T → string) (s : SafeMap.SafeMap.store (K := string) (V := T)) (transports : nat) : list string :=
  SafeMap.SafeMap.Foreach (K := string) s transports (λ types _ t, types ++ [Type_ t]) [].

(** The message of the gRPC interface, from the router's [GetStats]. *)
Record pb_RouterStats := mkPbStats { pb_TotalFromIface : Z; pb_TotalFromMesh : Z; pb_TotalFromPeers : Z }.
Definition grpc_GetStats (stats : Router.Router.RouterStats) : pb_RouterStats :=
  mkPbStats (Router.Router.TotalFromIface stats) (Router.Router.TotalFromMesh stats) (Router.Router.TotalFromPeers stats).

(** ** appconfig *)

(** A value of a YAML document of any type. *)
Inductive any := AnyString (s : string) | AnyOther.

Record AuthConfig := mkAuth { JWTSecret : string; CertFile : string; KeyFile : string; RootCert : string }.
Record RouterConfig := mkRouterConfig { Transports : gmap string (gmap string any) }.
Record MeshConfig := mkMeshConfig {
  ListenAddr : string; BootstrapAddrs : list string; PeersStore : string; RTTUpdateInterval : Z }.
Record MetricsConfig := mkMetrics { MetricsListenAddr : string }.
Record DatabaseConfig := mkDatabase { File : string }.
Record ApiConfig := mkApi { GrpcListenAddr : string; HttpListenAddr : string }.
Record AppConfig := mkAppConfig {
  Auth : AuthConfig; TunConfig : TUNConfig; RouterCfg : RouterConfig; Mesh : MeshConfig;
  Database : DatabaseConfig; Metrics : MetricsConfig; ApiCfg : ApiConfig }.

(** [cleanenv.ReadConfig] is the argument. *)
Definition LoadAppConfig (ReadConfig : string → gores AppConfig) (configFile : string) : gores AppConfig :=
  ReadConfig configFile.

(** The type of a configured transport; a value that is no text names none. *)
Definition transport_type (iconf : gmap string any) : option string :=
  match iconf !! "type"%string with
  | Some (AnyString s) => Some s
  | Some AnyOther => Some ""%string
  | None => None
  end.

(** ** cmd/node *)

(** [Returned]; [Panicked] by [log.Panicf]; [Exited] by [log.Fatalf]; [Crashed] by a
    run-time panic. *)
Inductive exit := Returned | Panicked | Exited | Crashed.

Section Main.
Context `{HO : Host} `{MR : MapRange}.
Context (parse6 : list ascii → option (list Z)) (print6 : list Z → string).

(** The transports of the configuration with their outcomes. *)
Definition with_transports (cfg : AppConfig) (parsed started : string → gores ()) (o : Outside) : Outside :=
  mkOutside (o_root o) (o_cert o) (o_listen o) (o_open o) (o_ping o) (o_migrate o) (o_mesh o)
    ((λ p, (p.1, (transport_type p.2, parsed p.1, started p.1))) <$> map_range (Transports (RouterCfg cfg))).

Definition main (args : list string) (ReadConfig : string → gores AppConfig) (parsed started : string → gores ())
    (o : Outside) (en : Ending) (w : World) : exit * World :=
  match args with
  | _ :: configFile :: _ =>
      match LoadAppConfig ReadConfig configFile with
      | Ok cfg =>
          match New parse6 print6 (TunConfig cfg) (JWTSecret (Auth cfg)) (with_transports cfg parsed started o) w with
          | (Ok app, w1) =>
              match Run print6 en app w1 with
              | (Some _, w2) => (Exited, w2)
              | (None, w2) => (Returned, w2)
              end
          | (Err _, w1) => (Panicked, w1)
          | (Panic, w1) => (Crashed, w1)
          end
      | Err _ => (Panicked, w)
      | Panic => (Crashed, w)
      end
  | _ => (Returned, w)
  end.

End Main.

(** * Specification *)

(** ** The country *)

(** The last text under a name. *)
Definition last_text (name : string) (members : list (string * json)) : string :=
  foldl (λ acc m, if named name m.1 then match m.2 with JString s => s | _ => acc end else acc) ""%string members.
Definition known (key : string) : bool := existsb (λ f, named f.1 key) info_fields.
Definition well_typed (m : string * json) : Prop :=
  known m.1 = true → match m.2 with JString _ | JNull => True | _ => False end.

Lemma named_apart n1 n2 key : named n1 key = true → named n1 n2 = false → named n2 n1 = false → named n2 key = false.
Proof.
  unfold named. rewrite !bool_decide_eq_false, bool_decide_eq_true. intros -> H1 H2 H3. by apply H2.
Qed.

Lemma field_of_known key : is_Some (field_of key) ↔ known key = true.
Proof.
  unfold field_of, known. rewrite fmap_is_Some. induction info_fields as [|f l IH]; simpl.
  - split; [by intros []|done].
  - destruct (named f.1 key); simpl; [split; [done|by eexists]|exact IH].
Qed.

Lemma decode_members_fine members acc :
  (foldl decode_member acc members).2 = true ↔ acc.2 = true ∧ Forall well_typed members.
Proof.
  revert acc. induction members as [|m l IH]; intros acc; cbn [foldl].
  { rewrite Forall_nil. tauto. }
  rewrite IH, Forall_cons. unfold decode_member, well_typed.
  pose proof (field_of_known m.1) as Hk. destruct (field_of m.1) as [set|].
  - rewrite (proj1 Hk) by done. destruct m.2; simpl; naive_solver.
  - destruct (known m.1); [by destruct (proj2 Hk eq_refl)|]. naive_solver.
Qed.

Lemma country_member acc m :
  CountryCode (decode_member acc m).1 =
  if named "country" m.1 then match m.2 with JString s => s | _ => CountryCode acc.1 end else CountryCode acc.1.
Proof.
  unfold decode_member, field_of, info_fields. destruct m as [k v]. cbn [fst snd].
  destruct (named "country" k) eqn:Ec.
  - assert (H : ∀ n, named n "country" = false → named "country" n = false → named n k = false)
      by (intros n; intros; by apply (named_apart "country")).
    cbn [find fst]. rewrite !H by (by vm_compute). rewrite Ec. by destruct v.
  - cbn [find fst]. rewrite Ec.
    repeat match goal with |- context [if named ?n k then Some _ else _] => destruct (named n k) end; by destruct v.
Qed.

(** The country that a node reports.  The query succeeds exactly when the service
    answers with a 2xx status and a JSON object whose known members are texts or
    null (or null itself); the node then tells everyone who pings it its own
    identity and the last country of the answer, and UNKNOWN otherwise. *)
Theorem ping_reports_country nodeID code status body :
  let m := getIpInfo (Ok tt) (Ok (code, status, body)) in
  NodeId (Ping nodeID (app_ipInfo m)) = nodeID ∧
  (is_ok m = true ↔ (200 <= code < 300)%Z ∧
     (body = Some JNull ∨ ∃ members, body = Some (JObject members) ∧ Forall well_typed members)) ∧
  (is_ok m = false → PongCountryCode (Ping nodeID (app_ipInfo m)) = "UNKNOWN"%string) ∧
  (is_ok m = true → ∀ members, body = Some (JObject members) →
     PongCountryCode (Ping nodeID (app_ipInfo m)) = last_text "country" members).
Proof.
  intros m. split; [done|]. subst m. unfold getIpInfo. cbn [gobind]. case_decide as Hc.
  { split; [split; [done|intros [? _]; lia]|]. by split. }
  assert (Hcode : (200 <= code < 300)%Z) by lia.
  destruct body as [[| |members|]|]; simpl.
  1,2,4,5: split; [naive_solver|]; split; naive_solver.
  pose proof (decode_members_fine members (empty_info, true)) as Hf.
  assert (Hcountry : ∀ acc, CountryCode (foldl decode_member acc members).1 =
    foldl (λ c m, if named "country" m.1 then match m.2 with JString s => s | _ => c end else c) (CountryCode acc.1) members).
  { induction members as [|x l IH]; intros acc; [done|]. cbn [foldl]. rewrite IH; [|apply decode_members_fine]. by rewrite country_member. }
  specialize (Hcountry (empty_info, true)). destruct (foldl decode_member (empty_info, true) members) as [info []]; simpl in *.
  - split; [split; [intros _; split; [done|right; exists members; split; [done|by apply Hf]]|done]|]. split; [done|].
    intros _ members' [= <-]. exact Hcountry.
  - split; [split; [done|]|by split]. intros (_ & [?|(members' & [= <-] & Ht)]); [done|]. destruct Hf as [_ Hf].
    discriminate Hf. by split.
Qed.

(** One type for each transport. *)
Lemma ListTransportTypes_spec {T} `{MapRange} (Type_ : T → string) s h :
  ListTransportTypes Type_ s h = Type_ <$> (map_range (SafeMap.SafeMap.data s h)).*2.
Proof.
  unfold ListTransportTypes, SafeMap.SafeMap.Foreach. set (l := map_range _).
  assert (H' : ∀ acc, foldl (λ (st : list string) (kv : string * T), st ++ [Type_ kv.2]) acc l = acc ++ (Type_ <$> l.*2)).
  { induction l as [|kv l IH]; intros acc; simpl; [by rewrite app_nil_r|]. by rewrite IH, <- app_assoc. }
  apply H'.
Qed.

(** ** The end of the process *)

Section Specs.
Context `{HL : HostLaws} `{MR : MapRange}.
Context (parse6 : list ascii → option (list Z)) (print6 : list Z → string).

(** However the process ends, but for a crash of [New], it has given back both
    listeners, the database and the TUN device, and told every VPN device to stop.  It
    returns without an error only when it was called without a configuration, or after
    the managers had started, no server had failed, the database had closed, and then
    the VPN devices of all configured transports are down. *)
Theorem process_releases args ReadConfig parsed started o en w ex w' :
  released w → main parse6 print6 args ReadConfig parsed started o en w = (ex, w') → ex ≠ Crashed →
  released w' ∧
  (ex = Returned → (length args < 2)%nat ∧ w' = w ∨
    ∃ file cfg, args !! 1%nat = Some file ∧ ReadConfig file = Ok cfg ∧ e_managers en = None ∧ e_close en = None ∧
      ∀ n, n ∈ dom (Transports (RouterCfg cfg)) → n ∉ w_stopping w').
Proof.
  intros Hw E Hx. unfold main, LoadAppConfig in E.
  destruct args as [|prog [|file rest]]; [injection E as <- <-; split; [done|intros _; left; split; [simpl; lia|done]]..|].
  destruct (ReadConfig file) as [cfg|e|] eqn:Ec; [|by injection E as <- <-|by injection E as <- <-].
  destruct (New _ _ _ _ _ w) as [res w1] eqn:En. pose proof (New_spec _ _ _ _ _ _ _ _ Hw En) as Hn.
  destruct res as [app|e|]; [|injection E as <- <-; by destruct Hn|by injection E as <- <-].
  destruct Hn as (Ho & _ & _ & _ & _ & Et & _). destruct (Run print6 en app w1) as [err w2] eqn:Er.
  destruct (Run_spec print6 en app w1 err w2 Ho Er) as (Hrel & Hdev & Hok).
  destruct err as [e|]; injection E as <- <-; split; try done.
  intros _. right. destruct (proj1 Hok eq_refl) as (Hm & Hcl & _). exists file, cfg. do 4 (split; [done|]).
  intros n Hin. apply Hdev; [done|]. rewrite Et. simpl. rewrite <- list_fmap_compose.
  apply elem_of_dom in Hin as [c Hc]. apply list_elem_of_fmap. exists (n, c). split; [done|]. by apply elem_of_map_range.
Qed.

End Specs.

(** ** Witness *)

#[local] Existing Instance demo_ops.
#[local] Existing Instance demo_laws.

Definition demo_config : AppConfig :=
  mkAppConfig (mkAuth "0123456789abcdef" "node.crt" "node.key" "root.crt") demo_cfg
    (mkRouterConfig {["awg0" := {["type" := AnyString "awg"]}]}) (mkMeshConfig ":9000" [] "peers.json" 0) (mkDatabase "node.db")
    (mkMetrics "") (mkApi ":9001" ":9002").
Definition demo_main : exit * World :=
  main no6 (λ _, ""%string) ["node"; "config.yaml"]%string (λ _, Ok demo_config) (λ _, Ok tt) (λ _, Ok tt)
    (demo_outside "awg") (mkEnding None None None None) demo_world.

Lemma process_releases_witness : demo_main.1 = Returned ∧ released demo_main.2 ∧ "awg0"%string ∉ w_stopping demo_main.2.
Proof.
  assert (Er : demo_main.1 = Returned) by (vm_compute; reflexivity). split; [exact Er|].
  destruct (process_releases no6 (λ _, ""%string) ["node"; "config.yaml"]%string (λ _, Ok demo_config) (λ _, Ok tt) (λ _, Ok tt)
    (demo_outside "awg") (mkEnding None None None None) demo_world demo_main.1 demo_main.2 demo_released
    (surjective_pairing demo_main) ltac:(by rewrite Er)) as [Hr Hd].
  split; [exact Hr|]. destruct (Hd Er) as [[Hl _]|(file & cfg & _ & [= <-] & _ & _ & Hn)]; [simpl in Hl; lia|].
  apply Hn. by vm_compute.
Defined.

End Process.
