(* ===== verification/Certs.v ===== *)
(** * Certificates (internal/utils/cert, cmd/certgen)

    The certificates that make a mesh: the root and the nodes' (generate.go), the
    PEM files that hold them and their keys (file.go), and the program that issues
    a root and ten nodes (cmd/certgen/main.go).  crypto/x509, crypto/ed25519,
    encoding/pem and PKCS#8 are interfaces with their documented behaviour.  Times
    are nanoseconds, keys are bytes. *)
From S2P Require Import Prelude NetUtils App.
Import NetUtils.NetUtils.

Open Scope go_scope.

Inductive KeyUsage := KeyUsageDigitalSignature | KeyUsageCertSign | KeyUsageCRLSign.
Inductive ExtKeyUsage := ExtKeyUsageServerAuth | ExtKeyUsageClientAuth.

#[export] Instance KeyUsage_eq_dec : EqDecision KeyUsage.
Proof. solve_decision. Defined.
#[export] Instance ExtKeyUsage_eq_dec : EqDecision ExtKeyUsage.
Proof. solve_decision. Defined.

(** [x509.Certificate]; a template has no encoding and no key. *)
Record Cert := mkX509 {
  Raw : list Z; PubKey : list Z; SerialNumber : Z; NotBefore : Z; NotAfter : Z;
  KeyUsages : list KeyUsage; ExtKeyUsages : list ExtKeyUsage;
  BasicConstraintsValid : bool; IsCA : bool; CommonName : string;
  DNSNames : list string; IPAddresses : list IP }.

(** crypto/x509 and crypto/ed25519. *)
Class X509 := {
  Public : list Z → list Z;
  CreateCertificate (template parent : Cert) (pub priv : list Z) : gores (list Z);
  ParseX509 : list Z → gores Cert;
  CheckSignatureFrom (c parent : Cert) : bool;
  Verify (roots : list Cert) (now : Z) (usages : list ExtKeyUsage) (c : Cert) : gores () }.

Definition second : Z := 1000000000.

(** What an encoding keeps of a template: times have whole seconds, an IPv4
    address has four bytes. *)
Definition issued (t : Cert) (der pub : list Z) : Cert :=
  mkX509 der pub (SerialNumber t) (NotBefore t / second * second) (NotAfter t / second * second)
    (KeyUsages t) (ExtKeyUsages t) (BasicConstraintsValid t) (IsCA t) (CommonName t) (DNSNames t)
    ((λ ip, match To4 ip with [] => ip | ip4 => ip4 end) <$> IPAddresses t).

Definition valid_at (now : Z) (c : Cert) : Prop := (NotBefore c <= now <= NotAfter c)%Z.

(** A certificate that may sign others. *)
Definition can_sign (c : Cert) : Prop :=
  BasicConstraintsValid c = true ∧ IsCA c = true ∧ KeyUsageCertSign ∈ KeyUsages c.

(** ASN.1 times end with the year 9999; DNS names are ASCII; addresses have 4 or
    16 bytes. *)
Record encodable (t : Cert) : Prop := {
  en_serial : (0 <= SerialNumber t)%Z;
  en_times : (0 <= NotBefore t < 253402300800 * second ∧ 0 <= NotAfter t < 253402300800 * second)%Z;
  en_ca : IsCA t = true → BasicConstraintsValid t = true;
  en_names : Forall (λ n, Forall (λ c, nat_of_ascii c < 128)%nat (String.list_ascii_of_string n)) (DNSNames t);
  en_ips : Forall (λ ip : IP, length ip = 4%nat ∨ length ip = 16%nat) (IPAddresses t) }.

(** Documented: [CreateCertificate] signs with [priv], which must be the key of a
    parent that has one; [Verify] without intermediates accepts a certificate that
    a valid root signed, or that is one, within its validity and for one of the
    usages. *)
Class X509Laws `{X509} := {
  x_create t p pub priv :
    encodable t → PubKey p = [] ∨ PubKey p = Public priv →
    ∃ der, CreateCertificate t p pub priv = Ok der ∧ ParseX509 der = Ok (issued t der pub) ∧
      ∀ parent, PubKey parent = Public priv → CommonName parent = CommonName p → can_sign parent →
        CheckSignatureFrom (issued t der pub) parent = true;
  x_verify_sound roots now usages c :
    Verify roots now usages c = Ok tt →
    valid_at now c ∧ ∃ root, root ∈ roots ∧ (c = root ∨ CheckSignatureFrom c root = true);
  x_verify_complete roots now usages c root :
    root ∈ roots → CheckSignatureFrom c root = true → valid_at now c → valid_at now root →
    (∃ u, u ∈ usages ∧ u ∈ ExtKeyUsages c) → ExtKeyUsages root = [] → can_sign root →
    Verify roots now usages c = Ok tt }.

(** encoding/pem: a block is a type and bytes. *)
Class Pem := {
  EncodeToMemory : string * list Z → list Z;
  Decode : list Z → option (string * list Z) }.
Class PemLaws `{Pem} := { pem_law b : Decode (EncodeToMemory b) = Some b }.

(** PKCS#8 holds keys of several kinds. *)
Inductive AnyKey := Ed25519Key (k : list Z) | OtherKey.
Class PKCS8 := {
  MarshalPKCS8PrivateKey : list Z → gores (list Z);
  ParsePKCS8PrivateKey : list Z → gores AnyKey }.
Class PKCS8Laws `{PKCS8} := {
  pkcs8_law k : length k = 64%nat → ∃ der, MarshalPKCS8PrivateKey k = Ok der ∧ ParsePKCS8PrivateKey der = Ok (Ed25519Key k) }.

Module Certs.

(** ** generate.go *)

Section Generate.
Context `{XX : X509}.

Definition hour : Z := (3600 * second)%Z.

(** [serial] is the result of [rand.Int] below 2^128. *)
Definition root_template (serial now : Z) : Cert :=
  mkX509 [] [] serial (now - hour) (now + 3650 * 24 * hour)
    [KeyUsageDigitalSignature; KeyUsageCertSign; KeyUsageCRLSign] [] true true "Liberator Root" [] [].

Definition GenerateRootCA (serial : gores Z) (now : Z) (privKey : list Z) : gores Cert :=
  n <- serial;;
  let template := root_template n now in
  certDER <- CreateCertificate template template (Public privKey) privKey;;
  ParseX509 certDER.

Definition node_template (serial now : Z) (nodeName : string) (nodeIP : IP) : Cert :=
  mkX509 [] [] serial (now - hour) (now + 365 * 24 * hour)
    [KeyUsageDigitalSignature] [ExtKeyUsageServerAuth; ExtKeyUsageClientAuth] true false nodeName [nodeName] [nodeIP].

Definition IssueNodeCertificate (serial : gores Z) (now : Z) (nodePrivKey : list Z) (nodeName : string)
    (caCert : Cert) (caPrivKey : list Z) (nodeIP : IP) : gores Cert :=
  n <- serial;;
  certDER <- CreateCertificate (node_template n now nodeName nodeIP) caCert (Public nodePrivKey) caPrivKey;;
  ParseX509 certDER.

(** A certificate with its key, as TLS takes them. *)
Record tls_Certificate := mkTls { Certificate : list (list Z); PrivateKey : list Z }.
Definition X509ToTLSCertificate (cert : Cert) (privKey : list Z) : tls_Certificate := mkTls [Raw cert] privKey.

End Generate.

(** ** file.go *)

(** Permissions and contents. *)
Notation files := (gmap string (Z * list Z)).

(** [os.WriteFile]: permissions are those of a file that exists; [failed] is what
    a failed write leaves behind. *)
Definition WriteFile (failed : option files) (name : string) (data : list Z) (perm : Z) (fs : files) : gores () * files :=
  match failed with
  | Some fs' => (Err "write error", fs')
  | None => (Ok tt, <[name := (match fs !! name with Some (p, _) => p | None => perm end, data)]> fs)
  end.

Definition ReadFile (name : string) (fs : files) : gores (list Z) :=
  match fs !! name with Some (_, data) => Ok data | None => Err "no such file or directory" end.

Section Files.
Context `{XX : X509} `{PM : Pem} `{PK : PKCS8}.

Definition WriteCertificateToFile (failed : option files) (filename : string) (cert : Cert) (fs : files) : gores () * files :=
  WriteFile failed filename (EncodeToMemory ("CERTIFICATE"%string, Raw cert)) 420 fs.

Definition WritePrivateKeyToFile (failed : option files) (filename : string) (privKey : list Z) (fs : files) : gores () * files :=
  match MarshalPKCS8PrivateKey privKey with
  | Ok privBytes => WriteFile failed filename (EncodeToMemory ("PRIVATE KEY"%string, privBytes)) 384 fs
  | Err e => (Err e, fs)
  | Panic => (Panic, fs)
  end.

Definition ReadCertificateFromFile (filename : string) (fs : files) : gores Cert :=
  data <- ReadFile filename fs;;
  match Decode data with
  | None => Err "failed to decode PEM block"
  | Some (typ, der) =>
      if decide (typ ≠ "CERTIFICATE"%string) then Err "PEM block is not a certificate" else ParseX509 der
  end.

Definition ReadPrivateKeyFromFile (filename : string) (fs : files) : gores (list Z) :=
  data <- ReadFile filename fs;;
  match Decode data with
  | None => Err "failed to decode PEM block"
  | Some (typ, der) =>
      if decide (typ ≠ "PRIVATE KEY"%string) then Err "PEM block is not a private key" else
      key <- ParsePKCS8PrivateKey der;;
      match key with Ed25519Key k => Ok k | OtherKey => Err "key is not ed25519" end
  end.

(** ** cmd/certgen/main.go *)

(** An error is a panic of the program. *)
Definition must {A} (m : gores A) : gores A := match m with Err _ => Panic | _ => m end.
Definition wrote (m : gores () * files) : gores files := match m with (Ok _, fs) => Ok fs | _ => Panic end.

Definition targetDir : string := "certs/".
Definition node_name (i : nat) : string := "node_" +:+ pretty (N.of_nat i).
Definition key_file (name : string) : string := targetDir +:+ name +:+ ".key".
Definition crt_file (name : string) : string := targetDir +:+ name +:+ ".crt".
Definition node_ip (i : nat) : IP := App.App.IPv4 10 (u8 (Z.of_nat i + 1)) 0 0.

(** The keys, serial numbers and times that the outside yields, number 0 for the
    root and number [i + 1] for node [i], and the writes that fail. *)
Record Source := mkSource {
  src_key : nat → gores (list Z); src_serial : nat → gores Z; src_now : nat → Z;
  src_key_fails : nat → option files; src_crt_fails : nat → option files }.

Definition issue_node (src : Source) (rootCert : Cert) (rootPrivate : list Z) (i : nat) (fs : files) : gores files :=
  igPriv <- must (src_key src (S i));;
  targetCert <- must (IssueNodeCertificate (src_serial src (S i)) (src_now src (S i)) igPriv (node_name i)
    rootCert rootPrivate (node_ip i));;
  fs1 <- wrote (WritePrivateKeyToFile (src_key_fails src (S i)) (key_file (node_name i)) igPriv fs);;
  wrote (WriteCertificateToFile (src_crt_fails src (S i)) (crt_file (node_name i)) targetCert fs1).

Fixpoint issue_nodes (src : Source) (rootCert : Cert) (rootPrivate : list Z) (todo : list nat) (fs : files) : gores files :=
  match todo with
  | [] => Ok fs
  | i :: rest => fs1 <- issue_node src rootCert rootPrivate i fs;; issue_nodes src rootCert rootPrivate rest fs1
  end.

Definition main (src : Source) (fs : files) : gores files :=
  rootPrivate <- must (src_key src 0);;
  rootCert <- must (GenerateRootCA (src_serial src 0) (src_now src 0) rootPrivate);;
  fs1 <- wrote (WritePrivateKeyToFile (src_key_fails src 0) (key_file "root") rootPrivate fs);;
  fs2 <- wrote (WriteCertificateToFile (src_crt_fails src 0) (crt_file "root") rootCert fs1);;
  issue_nodes src rootCert rootPrivate (seq 0 10) fs2.

End Files.

(** * Specification *)

Section Specs.
Context `{XX : X509} `{XL : !X509Laws} `{PM : Pem} `{PL : !PemLaws} `{PK : PKCS8} `{KL : !PKCS8Laws}.

(** A root of a mesh and its key. *)
Record is_root (root : Cert) (priv : list Z) : Prop := {
  ir_key : PubKey root = Public priv;
  ir_sign : can_sign root;
  ir_name : CommonName root = "Liberator Root"%string;
  ir_usages : ExtKeyUsages root = [];
  ir_parse : ParseX509 (Raw root) = Ok root }.

(** The clock is within the times that a certificate can state. *)
Definition clock_ok (now : Z) : Prop := (hour <= now ∧ now + 3650 * 24 * hour < 253402300800 * second)%Z.
Definition window (now from days : Z) : Prop := (from <= now ∧ now <= from + days * 24 * hour - second)%Z.

Lemma floor_second t : (t - second < t / second * second <= t)%Z.
Proof. unfold second. pose proof (Z.div_mod t 1000000000 ltac:(lia)). pose proof (Z.mod_pos_bound t 1000000000 ltac:(lia)). lia. Qed.

Lemma window_valid now from days c :
  NotBefore c = ((from - hour) / second * second)%Z → NotAfter c = ((from + days * 24 * hour) / second * second)%Z →
  window now from days → valid_at now c.
Proof.
  intros E1 E2 [H1 H2]. unfold valid_at. rewrite E1, E2. pose proof (floor_second (from - hour)). pose proof (floor_second (from + days * 24 * hour)).
  unfold hour, second in *. lia.
Qed.

Lemma GenerateRootCA_spec serial now priv :
  (0 <= serial)%Z → clock_ok now → ∃ root, GenerateRootCA (Ok serial) now priv = Ok root ∧ is_root root priv ∧
    ∀ now', window now' now 3650 → valid_at now' root.
Proof.
  intros Hs [H1 H2]. set (t := root_template serial now).
  destruct (x_create t t (Public priv) priv) as (der & E & Ep & _).
  { constructor; simpl; [done|unfold hour, second in *; lia|done|constructor|constructor]. }
  { by left. }
  exists (issued t der (Public priv)). unfold GenerateRootCA. cbn [gobind]. fold t. rewrite E. cbn [gobind]. split; [exact Ep|].
  split; [|intros now' Hw; by apply (window_valid now' now 3650)].
  constructor; try done. split; [done|]. split; [done|]. apply list_elem_of_further, list_elem_of_here.
Qed.

(** A name that fits in a certificate. *)
Definition ascii_name (n : string) : Prop := Forall (λ c, nat_of_ascii c < 128)%nat (String.list_ascii_of_string n).

Lemma IssueNodeCertificate_spec serial now nodePriv name root priv (ip : IP) :
  (0 <= serial)%Z → clock_ok now → ascii_name name → length ip = 4%nat ∨ length ip = 16%nat → is_root root priv →
  ∃ c, IssueNodeCertificate (Ok serial) now nodePriv name root priv ip = Ok c ∧
    PubKey c = Public nodePriv ∧ ParseX509 (Raw c) = Ok c ∧ CheckSignatureFrom c root = true ∧
    ExtKeyUsages c = [ExtKeyUsageServerAuth; ExtKeyUsageClientAuth] ∧
    IPAddresses c = [match To4 ip with [] => ip | ip4 => ip4 end] ∧
    NotAfter c = ((now + 365 * 24 * hour) / second * second)%Z ∧
    ∀ now', window now' now 365 → valid_at now' c.
Proof.
  intros Hs [H1 H2] Hn Hip Hr. set (t := node_template serial now name ip).
  destruct (x_create t root (Public nodePriv) priv) as (der & E & Ep & Hsig).
  { constructor; simpl; [done|unfold hour, second in *; lia|done|by apply Forall_singleton|by apply Forall_singleton]. }
  { right. apply Hr. }
  exists (issued t der (Public nodePriv)). unfold IssueNodeCertificate. cbn [gobind]. fold t. rewrite E. cbn [gobind].
  split; [exact Ep|]. split; [done|]. split; [exact Ep|]. split; [apply Hsig; [apply Hr|done|apply Hr]|].
  do 3 (split; [done|]). intros now' Hw. by apply (window_valid now' now 365).
Qed.

(** ** Files *)

Lemma write_read_cert filename c fs :
  ParseX509 (Raw c) = Ok c → ∃ fs', wrote (WriteCertificateToFile None filename c fs) = Ok fs' ∧
    ReadCertificateFromFile filename fs' = Ok c ∧ ∀ n, n ≠ filename → fs' !! n = fs !! n.
Proof.
  intros Hp. eexists. split; [reflexivity|]. split; [|intros n Hn; by rewrite lookup_insert_ne].
  unfold ReadCertificateFromFile, ReadFile. rewrite lookup_insert_eq. cbn [gobind]. rewrite pem_law. by rewrite decide_False by auto.
Qed.

Lemma write_read_key filename k fs :
  length k = 64%nat → ∃ fs', wrote (WritePrivateKeyToFile None filename k fs) = Ok fs' ∧
    ReadPrivateKeyFromFile filename fs' = Ok k ∧ ∀ n, n ≠ filename → fs' !! n = fs !! n.
Proof.
  intros Hk. destruct (pkcs8_law k Hk) as (der & E & Ep). unfold WritePrivateKeyToFile. rewrite E.
  eexists. split; [reflexivity|]. split; [|intros n Hn; by rewrite lookup_insert_ne].
  unfold ReadPrivateKeyFromFile, ReadFile. rewrite lookup_insert_eq. cbn [gobind]. rewrite pem_law.
  rewrite decide_False by auto. by rewrite Ep.
Qed.

(** ** The mesh of certgen *)

(** The outside yields keys, serial numbers and times, and no write fails. *)
Record sound (src : Source) : Prop := {
  sd_key i : ∃ k, src_key src i = Ok k ∧ length k = 64%nat;
  sd_serial i : ∃ n, src_serial src i = Ok n ∧ (0 <= n)%Z;
  sd_now i : clock_ok (src_now src i);
  sd_writes i : src_key_fails src i = None ∧ src_crt_fails src i = None }.

(** The files of node [i]. *)
Definition node_done (src : Source) (root : Cert) (i : nat) (fs : files) : Prop :=
  ∃ k c, src_key src (S i) = Ok k ∧ ReadPrivateKeyFromFile (key_file (node_name i)) fs = Ok k ∧
    ReadCertificateFromFile (crt_file (node_name i)) fs = Ok c ∧ PubKey c = Public k ∧
    IPAddresses c = [[10; Z.of_nat i + 1; 0; 0]%Z] ∧
    ∀ now, window now (src_now src (S i)) 365 → valid_at now root →
      Verify [root] now [ExtKeyUsageServerAuth; ExtKeyUsageClientAuth] c = Ok tt.

Definition names_apart (i j : nat) : bool :=
  bool_decide (key_file (node_name i) ≠ crt_file (node_name j)) &&
  (bool_decide (i = j) || bool_decide (key_file (node_name i) ≠ key_file (node_name j) ∧ crt_file (node_name i) ≠ crt_file (node_name j))).

Lemma names_distinct i j :
  (i < 10)%nat → (j < 10)%nat →
  key_file (node_name i) ≠ crt_file (node_name j) ∧
  (i ≠ j → key_file (node_name i) ≠ key_file (node_name j) ∧ crt_file (node_name i) ≠ crt_file (node_name j)).
Proof.
  intros Hi Hj. assert (H : forallb (λ i, forallb (names_apart i) (seq 0 10)) (seq 0 10) = true) by (vm_compute; reflexivity).
  rewrite forallb_forall in H. specialize (H i ltac:(apply in_seq; lia)). rewrite forallb_forall in H.
  specialize (H j ltac:(apply in_seq; lia)). unfold names_apart in H.
  apply andb_true_iff in H as [H1%bool_decide_eq_true H2]. split; [done|]. intros Hne.
  apply orb_true_iff in H2 as [?%bool_decide_eq_true|?%bool_decide_eq_true]; done.
Qed.

Lemma node_done_ext src root i fs fs' :
  fs' !! key_file (node_name i) = fs !! key_file (node_name i) → fs' !! crt_file (node_name i) = fs !! crt_file (node_name i) →
  node_done src root i fs → node_done src root i fs'.
Proof.
  intros E1 E2 (k & c & H1 & H2 & H3 & H4). exists k, c. split; [done|].
  unfold ReadPrivateKeyFromFile, ReadCertificateFromFile, ReadFile in *. rewrite E1, E2. by split.
Qed.

Lemma node_name_ascii i : (i < 10)%nat → ascii_name (node_name i).
Proof.
  intros Hi. assert (H : forallb (λ i, forallb (λ c, Nat.ltb (nat_of_ascii c) 128) (String.list_ascii_of_string (node_name i))) (seq 0 10) = true)
    by (vm_compute; reflexivity).
  rewrite forallb_forall in H. specialize (H i ltac:(apply in_seq; lia)). rewrite forallb_forall in H.
  apply Forall_forall. intros c Hc. apply Nat.ltb_lt, H. by apply list_elem_of_In.
Qed.

Lemma issue_node_spec src root priv i fs :
  sound src → is_root root priv → (i < 10)%nat →
  ∃ fs', issue_node src root priv i fs = Ok fs' ∧ node_done src root i fs' ∧
    ∀ n, n ≠ key_file (node_name i) → n ≠ crt_file (node_name i) → fs' !! n = fs !! n.
Proof.
  intros Hs Hr Hi. destruct (sd_key _ Hs (S i)) as (k & Ek & Hk). destruct (sd_serial _ Hs (S i)) as (n & En & Hn).
  destruct (sd_writes _ Hs (S i)) as [E1 E2].
  destruct (IssueNodeCertificate_spec n (src_now src (S i)) k (node_name i) root priv (node_ip i) Hn (sd_now _ Hs (S i))
    (node_name_ascii i Hi) ltac:(by right) Hr) as (c & Ec & Hkey & Hparse & Hsig & Heku & Hip & _ & Hval).
  destruct (write_read_key (key_file (node_name i)) k fs Hk) as (fs1 & Ew1 & Er1 & Ho1).
  destruct (write_read_cert (crt_file (node_name i)) c fs1 Hparse) as (fs2 & Ew2 & Er2 & Ho2).
  destruct (names_distinct i i Hi Hi) as [Hne _].
  exists fs2. unfold issue_node. rewrite Ek, En, E1, E2. cbn [must gobind]. rewrite Ec. cbn [must gobind]. rewrite Ew1. cbn [gobind].
  split; [exact Ew2|]. split; [|intros m H1 H2; by rewrite Ho2, Ho1].
  exists k, c. split; [done|]. split; [|split; [done|split; [done|split]]].
  - revert Er1. unfold ReadPrivateKeyFromFile, ReadFile. by rewrite Ho2.
  - rewrite Hip. unfold node_ip, App.App.IPv4. rewrite To4_mapped by done. replace (u8 (Z.of_nat i + 1)) with (Z.of_nat i + 1)%Z by word_lia. done.
  - intros now Hw Hroot. apply (x_verify_complete _ _ _ _ root); [apply list_elem_of_here|done|by apply Hval|done| |apply Hr|apply Hr].
    exists ExtKeyUsageServerAuth. rewrite Heku. split; apply list_elem_of_here.
Qed.

Lemma issue_nodes_spec src root priv todo fs :
  sound src → is_root root priv → NoDup todo → (∀ i, i ∈ todo → (i < 10)%nat) →
  ∃ fs', issue_nodes src root priv todo fs = Ok fs' ∧ (∀ i, i ∈ todo → node_done src root i fs') ∧
    ∀ n, (∀ i, i ∈ todo → n ≠ key_file (node_name i) ∧ n ≠ crt_file (node_name i)) → fs' !! n = fs !! n.
Proof.
  intros Hs Hr. revert fs. induction todo as [|i todo IH]; intros fs HN Hlt.
  { exists fs. split; [done|]. split; [intros i Hi; by apply not_elem_of_nil in Hi|done]. }
  apply NoDup_cons in HN as [Hni HN]. assert (Hi : (i < 10)%nat) by (apply Hlt, list_elem_of_here).
  destruct (issue_node_spec src root priv i fs Hs Hr Hi) as (fs1 & E1 & Hd1 & Ho1).
  destruct (IH fs1 HN) as (fs2 & E2 & Hd2 & Ho2); [intros j Hj; by apply Hlt, list_elem_of_further|].
  exists fs2. cbn [issue_nodes]. rewrite E1. split; [exact E2|].
  assert (Hap : ∀ j, j ∈ todo → i ≠ j ∧ (j < 10)%nat) by (intros j Hj; split; [by intros ->|by apply Hlt, list_elem_of_further]).
  split.
  - intros j [->|Hj]%elem_of_cons; [|by apply Hd2]. eapply node_done_ext; [..|exact Hd1]; apply Ho2; intros j' Hj';
      destruct (Hap j' Hj') as [Hne Hlt']; destruct (names_distinct i j' Hi Hlt') as [A1 A2]; destruct (names_distinct j' i Hlt' Hi) as [A3 _].
    + split; [by apply A2|done].
    + split; [by apply not_eq_sym|by apply A2].
  - intros n Hn. rewrite Ho2 by (intros j Hj; by apply Hn, list_elem_of_further). destruct (Hn i (list_elem_of_here _ _)). by apply Ho1.
Qed.

(** certgen makes a mesh.  When the outside cooperates, the program ends with a
    root and ten nodes in its directory: each node's key file holds its key and its
    certificate file a certificate for that key and for the address 10.(i+1).0.0, which
    the root of root.crt vouches for, from its issue until a year later. *)
Theorem certgen_makes_a_mesh src fs :
  sound src → ∃ fs' root rootKey, main src fs = Ok fs' ∧ src_key src 0 = Ok rootKey ∧
    ReadCertificateFromFile (crt_file "root") fs' = Ok root ∧ ReadPrivateKeyFromFile (key_file "root") fs' = Ok rootKey ∧
    PubKey root = Public rootKey ∧ (∀ now, window now (src_now src 0) 3650 → valid_at now root) ∧
    ∀ i, (i < 10)%nat → node_done src root i fs'.
Proof.
  intros Hs. destruct (sd_key _ Hs 0) as (k & Ek & Hk). destruct (sd_serial _ Hs 0) as (n & En & Hn).
  destruct (sd_writes _ Hs 0) as [E1 E2].
  destruct (GenerateRootCA_spec n (src_now src 0) k Hn (sd_now _ Hs 0)) as (root & Er & Hr & Hval).
  destruct (write_read_key (key_file "root") k fs Hk) as (fs1 & Ew1 & Er1 & Ho1).
  destruct (write_read_cert (crt_file "root") root fs1 (ir_parse _ _ Hr)) as (fs2 & Ew2 & Er2 & Ho2).
  destruct (issue_nodes_spec src root k (seq 0 10) fs2 Hs Hr) as (fs3 & E3 & Hd & Ho3);
    [apply NoDup_seq|intros i Hi%elem_of_seq; lia|].
  exists fs3, root, k. unfold main. rewrite Ek, En, E1, E2. cbn [must gobind]. rewrite Er. cbn [must gobind].
  rewrite Ew1. cbn [gobind]. rewrite Ew2. split; [exact E3|]. split; [done|].
  assert (Hroot : forallb (λ i, negb (bool_decide (key_file "root" = key_file (node_name i)) || bool_decide (key_file "root" = crt_file (node_name i)) ||
    bool_decide (crt_file "root" = key_file (node_name i)) || bool_decide (crt_file "root" = crt_file (node_name i)))) (seq 0 10) = true)
    by (vm_compute; reflexivity).
  assert (Hk3 : fs3 !! key_file "root" = fs2 !! key_file "root" ∧ fs3 !! crt_file "root" = fs2 !! crt_file "root").
  { rewrite forallb_forall in Hroot. split; apply Ho3; intros i Hi; specialize (Hroot i (proj1 (list_elem_of_In _ _) Hi));
      apply negb_true_iff in Hroot; repeat apply orb_false_iff in Hroot as [Hroot ?];
      rewrite !bool_decide_eq_false in *; done. }
  destruct Hk3 as [K1 K2]. split; [|split; [|split; [apply Hr|split; [done|]]]].
  - revert Er2. unfold ReadCertificateFromFile, ReadFile. by rewrite K2.
  - revert Er1. unfold ReadPrivateKeyFromFile, ReadFile. rewrite K1. by rewrite Ho2 by (by vm_compute).
  - intros i Hi. apply Hd, elem_of_seq. lia.
Qed.

(** A key file is no certificate and a certificate no key. *)
Lemma files_keep_their_kind filename k c fs :
  length k = 64%nat →
  (∀ fs', wrote (WritePrivateKeyToFile None filename k fs) = Ok fs' →
     ReadCertificateFromFile filename fs' = Err "PEM block is not a certificate") ∧
  (∀ fs', wrote (WriteCertificateToFile None filename c fs) = Ok fs' →
     ReadPrivateKeyFromFile filename fs' = Err "PEM block is not a private key").
Proof.
  intros Hk. destruct (pkcs8_law k Hk) as (der & E & _). split; intros fs'.
  - unfold WritePrivateKeyToFile. rewrite E. intros [= <-]. unfold ReadCertificateFromFile, ReadFile. rewrite lookup_insert_eq.
    cbn [gobind]. rewrite pem_law. by rewrite decide_True.
  - intros [= <-]. unfold ReadPrivateKeyFromFile, ReadFile. rewrite lookup_insert_eq.
    cbn [gobind]. rewrite pem_law. by rewrite decide_True.
Qed.

End Specs.

(** The networks that two of the ten nodes derive from their certificates share no
    address, and lie in the one global network. *)
Theorem nodes_have_own_networks parse6 print6 i j :
  (i < 10)%nat → (j < 10)%nat → i ≠ j →
  ∃ si sj g gi gj gg ni nj gn,
    App.App.node_networks print6 [10; Z.of_nat i + 1; 0; 0]%Z = Ok (si, g) ∧
    App.App.node_networks print6 [10; Z.of_nat j + 1; 0; 0]%Z = Ok (sj, g) ∧
    NewNativeIPNet parse6 si = Ok (gi, ni) ∧ NewNativeIPNet parse6 sj = Ok (gj, nj) ∧ NewNativeIPNet parse6 g = Ok (gg, gn) ∧
    ∀ ip, is_u32 ip → Contains ni ip = true → Contains nj ip = false ∧ Contains gn ip = true.
Proof.
  intros Hi Hj Hne.
  assert (Hb : ∀ k, (k < 10)%nat → is_u8 10 ∧ is_u8 (Z.of_nat k + 1) ∧ is_u8 0) by (intros k Hk; split_and!; word_lia).
  destruct (Hb i Hi) as (U1 & U2 & U3). destruct (Hb j Hj) as (_ & U4 & _).
  destruct (proj1 (App.App.certificate_networks parse6 print6 [10; Z.of_nat i + 1; 0; 0]%Z) 10%Z (Z.of_nat i + 1)%Z 0%Z 0%Z eq_refl U1 U2 U3 U3)
    as (si & gs & ni & gn & gg & E1 & E2 & E3 & Hin & _).
  destruct (proj1 (App.App.certificate_networks parse6 print6 [10; Z.of_nat j + 1; 0; 0]%Z) 10%Z (Z.of_nat j + 1)%Z 0%Z 0%Z eq_refl U1 U4 U3 U3)
    as (sj & gs' & nj & gn' & gg' & E4 & E5 & E6 & Hjn & _).
  assert (gs' = gs) as ->.
  { rewrite (App.App.node_networks_v4 _ _ 10 (Z.of_nat i + 1) 0 0) in E1 by done.
    rewrite (App.App.node_networks_v4 _ _ 10 (Z.of_nat j + 1) 0 0) in E4 by done. congruence. }
  exists si, sj, gs, (word4 10 (Z.of_nat i + 1) 0 1), (word4 10 (Z.of_nat j + 1) 0 1), gg, ni, nj, gn.
  do 5 (split; [done|]). intros ip Hip Hc. destruct (Hin ip Hip) as [H1 H2]. destruct (Hjn ip Hip) as [H3 _].
  rewrite H1 in Hc. rewrite H2, H3. unfold same_prefix in *. apply bool_decide_eq_true in Hc.
  rewrite bool_decide_eq_false, bool_decide_eq_true. unfold word4 in *. change (32 - Z.of_nat 16)%Z with 16%Z in *.
  change (32 - Z.of_nat 8)%Z with 24%Z. word_lia.
Qed.

(** * Witnesses

    A toy X.509: the encoding of a certificate is a number that holds its fields, the
    key of its signer and the name of its issuer. *)

#[local] Instance KeyUsage_countable : Countable KeyUsage.
Proof.
  apply (inj_countable' (λ u, match u with KeyUsageDigitalSignature => 0%nat | KeyUsageCertSign => 1%nat | KeyUsageCRLSign => 2%nat end)
    (λ n, match n with O => KeyUsageDigitalSignature | S O => KeyUsageCertSign | _ => KeyUsageCRLSign end)). by intros [].
Defined.
#[local] Instance ExtKeyUsage_countable : Countable ExtKeyUsage.
Proof.
  apply (inj_countable' (λ u, match u with ExtKeyUsageServerAuth => 0%nat | ExtKeyUsageClientAuth => 1%nat end)
    (λ n, match n with O => ExtKeyUsageServerAuth | _ => ExtKeyUsageClientAuth end)). by intros [].
Defined.
#[local] Instance Cert_eq_dec : EqDecision Cert.
Proof. solve_decision. Defined.
#[local] Instance valid_at_dec now c : Decision (valid_at now c).
Proof. unfold valid_at. apply _. Defined.
#[local] Instance can_sign_dec c : Decision (can_sign c).
Proof. unfold can_sign. apply _. Defined.

Notation toy_fields := ((list Z * string) * (list Z * Z * (Z * Z)) * (list KeyUsage * list ExtKeyUsage) * (bool * bool) * (string * list string) * list (list Z))%type.
Definition toy_der (signer : list Z) (issuer : string) (c : Cert) : list Z :=
  [Z.pos (encode (((signer, issuer), (PubKey c, SerialNumber c, (NotBefore c, NotAfter c)), (KeyUsages c, ExtKeyUsages c),
    (BasicConstraintsValid c, IsCA c), (CommonName c, DNSNames c), IPAddresses c) : toy_fields))].
Definition toy_parse (der : list Z) : option ((list Z * string) * Cert) :=
  match der with
  | [Z.pos p] =>
      '((si, iss), (k, sn, (nb, na)), (ku, eku), (bc, ca), (cn, dns), ips) ← (decode p : option toy_fields);
      Some ((si, iss), mkX509 der k sn nb na ku eku bc ca cn dns ips)
  | _ => None
  end.

Lemma toy_parse_der signer issuer c :
  toy_parse (toy_der signer issuer c) = Some ((signer, issuer), mkX509 (toy_der signer issuer c) (PubKey c) (SerialNumber c) (NotBefore c)
    (NotAfter c) (KeyUsages c) (ExtKeyUsages c) (BasicConstraintsValid c) (IsCA c) (CommonName c) (DNSNames c) (IPAddresses c)).
Proof. unfold toy_der, toy_parse. by rewrite decode_encode. Qed.

Definition toy_signed (c parent : Cert) : bool :=
  match toy_parse (Raw c) with
  | Some ((si, iss), _) => bool_decide (si = PubKey parent ∧ iss = CommonName parent ∧ can_sign parent)
  | None => false
  end.

#[local] Instance toy_x509 : X509 := {|
  Public k := 77%Z :: k;
  CreateCertificate t p pub priv :=
    if decide (PubKey p = [] ∨ PubKey p = 77%Z :: priv) then Ok (toy_der (77%Z :: priv) (CommonName p) (issued t [] pub))
    else Err "x509: provided PrivateKey doesn't match parent's PublicKey";
  ParseX509 der := match toy_parse der with Some (_, c) => Ok c | None => Err "x509: malformed certificate" end;
  CheckSignatureFrom := toy_signed;
  Verify roots now usages c :=
    if decide (valid_at now c ∧ Exists (λ u, u ∈ ExtKeyUsages c) usages ∧
      Exists (λ root, toy_signed c root = true ∧ valid_at now root ∧ ExtKeyUsages root = [] ∧ can_sign root) roots)
    then Ok tt else Err "x509: certificate signed by unknown authority" |}.

#[local] Instance toy_x509_laws : X509Laws.
Proof.
  constructor.
  - intros t p pub priv _ Hp. simpl. rewrite decide_True by done. eexists. split; [reflexivity|].
    rewrite toy_parse_der. split; [done|]. intros parent Hk Hn Hs. unfold toy_signed. cbn [Raw issued].
    rewrite toy_parse_der. by apply bool_decide_eq_true.
  - intros roots now usages c. simpl. case_decide as Hd; [|done]. intros _. destruct Hd as (Hv & _ & Hr). split; [done|].
    apply Exists_exists in Hr as (root & Hin & Hsig & _). exists root. auto.
  - intros roots now usages c root Hin Hsig Hv Hvr (u & Hu & Hc) He Hs. simpl. rewrite decide_True; [done|]. split; [done|].
    split; apply Exists_exists; [by exists u|by exists root].
Qed.

#[local] Instance toy_pem : Pem := {|
  EncodeToMemory b := [Z.pos (encode b)];
  Decode l := match l with [Z.pos p] => decode p | _ => None end |}.
#[local] Instance toy_pem_laws : PemLaws.
Proof. constructor. intros b. simpl. apply decode_encode. Qed.

#[local] Instance toy_pkcs8 : PKCS8 := {|
  MarshalPKCS8PrivateKey k := Ok (48%Z :: k);
  ParsePKCS8PrivateKey der := match der with _ :: k => Ok (Ed25519Key k) | [] => Err "x509: malformed key" end |}.
#[local] Instance toy_pkcs8_laws : PKCS8Laws.
Proof. constructor. intros k _. by eexists. Qed.

Definition demo_source : Source :=
  mkSource (λ i, Ok (replicate 64 (Z.of_nat i))) (λ i, Ok (Z.of_nat i)) (λ i, 1700000000 * second)%Z (λ _, None) (λ _, None).

Lemma certgen_makes_a_mesh_witness :
  ∃ fs' c, main demo_source ∅ = Ok fs' ∧ ReadCertificateFromFile (crt_file (node_name 3)) fs' = Ok c ∧
    IPAddresses c = [[10; 4; 0; 0]%Z].
Proof.
  destruct (certgen_makes_a_mesh demo_source ∅) as (fs' & root & rk & E & _ & _ & _ & _ & _ & Hn).
  - constructor.
    + intros i. eexists. split; [reflexivity|]. apply length_replicate.
    + intros i. eexists. split; [reflexivity|]. lia.
    + intros i. unfold clock_ok, hour, second. cbn [src_now demo_source]. unfold second. lia.
    + intros i. by split.
  - destruct (Hn 3%nat ltac:(lia)) as (k & c & _ & _ & Hc & _ & Hip & _). exists fs', c.
    split; [exact E|]. split; [exact Hc|exact Hip].
Defined.

Lemma nodes_have_own_networks_witness :
  ∃ s1 n1 g1 s2 n2 g2 g, App.App.node_networks (λ _, "?"%string) [10; 1; 0; 0]%Z = Ok (s1, g) ∧
    NewNativeIPNet (λ _, None) s1 = Ok (g1, n1) ∧ NewNativeIPNet (λ _, None) s2 = Ok (g2, n2) ∧
    (Contains n1 (word4 10 1 2 3) = true → Contains n2 (word4 10 1 2 3) = false).
Proof.
  destruct (nodes_have_own_networks (λ _, None) (λ _, "?"%string) 0 1 ltac:(lia) ltac:(lia) ltac:(lia))
    as (si & sj & g & gi & gj & gg & ni & nj & gn & E1 & _ & E3 & E4 & _ & H).
  exists si, ni, gi, sj, nj, gj, g. split; [exact E1|]. split; [exact E3|]. split; [exact E4|]. intros Hc.
  by apply (H (word4 10 1 2 3)); [vm_compute; split; congruence|].
Defined.

End Certs.
