(* ===== verification/MeshNode.v ===== *)
(** * The mesh node (pkg/mesh/node.go, pkg/mesh/api.go, pkg/mesh/transport/quic.go)

    The identity of a node and of its peers, the loop that accepts connections,
    the workers that send datagrams to peers, the counters of a connection and the
    end of the node, over the registry and the engine of Session.v and the store
    of Topology.v.  Certificates and hashing are the interface [Crypto]; what the
    QUIC transport yields is the argument of a step. *)
From S2P Require Import Prelude Broker Topology Session Encodings Api.
Import Broker Session.Session.

Open Scope go_scope.

(** A parsed certificate is its public key; [sha256] is the digest. *)
Class Crypto := {
  ParseCertificate : list Z → gores (list Z);
  sha256 : list Z → list Z }.

Class CryptoLaws `{Crypto} := {
  sha256_bytes k : length (sha256 k) = 32%nat ∧ Forall is_u8 (sha256 k) }.

Module MeshNode.

(** ** Identities *)

(** A certificate to present: the encoded chain and the parsed leaf, if it was
    kept. *)
Record Certificate := mkCert { cert_chain : list (list Z); cert_leaf : option (list Z) }.

Section Identity.
Context `{CR : Crypto}.

Definition peer_id (key : list Z) : string := Encodings.EncodeToString (sha256 key).

Definition extractLocalPeerID (cert : Certificate) : gores string :=
  match cert_chain cert with
  | [] => Err "no certificate data provided"
  | der :: _ =>
      match cert_leaf cert with
      | Some leaf => Ok (peer_id leaf)
      | None => match ParseCertificate der with
                | Ok leaf => Ok (peer_id leaf)
                | Err _ => Err "failed to parse x509 cert"
                | Panic => Panic
                end
      end
  end.

(** [certs]: the public keys of the certificates that the peer presented. *)
Definition wrapConnection (ref : nat) (certs : list (list Z)) (remote : string) (isInitiator : bool) : gores PeerConnection :=
  match certs with
  | [] => Err "peer is unauthenticated"
  | leaf :: _ => Ok (mkConn ref (peer_id leaf) remote isInitiator)
  end.

End Identity.

(** ** The node *)

(** A slice of the buffer of a pooled message: the message and the length. *)
Notation slice := (nat * nat)%type.

(** [Data] is a slice of the packet that the router holds, not a copy. *)
Record RemoteMessage := mkMsg { TargetNodeID : string; TargetVirtualIP : Z; Data : slice }.

(** A sending worker between two turns: it holds a message that it took, or the
    connection that it found for it, or it has returned. *)
Inductive worker :=
| Holding (msg : RemoteMessage)
| Sending (conn : PeerConnection) (data : slice)
| Returned.

(** [m_workers]: the workers that are not waiting for a message; [m_sent],
    [m_recv]: the counters of the connections, by their identity; [m_accepting]:
    the accept loop runs; [m_heap]: the buffers of the router's message pool, which
    the slices show. *)
Record MeshNode := mkMesh {
  m_done : bool;
  m_closeOnce : bool;
  m_localID : string;
  m_listening : bool;
  m_repo : Topology.Topology.inMemoryState;
  m_registry : sessionRegistry;
  m_pusher : BiStreamLis;
  m_accepting : bool;
  toMeshClients : list RemoteMessage;
  m_workers : gmap nat worker;
  m_sent : gmap nat Z;
  m_recv : gmap nat Z;
  m_heap : gmap nat (list Z) }.

Definition set_engine (n : MeshNode) repo r : MeshNode :=
  mkMesh (m_done n) (m_closeOnce n) (m_localID n) (m_listening n) repo r (m_pusher n) (m_accepting n)
    (toMeshClients n) (m_workers n) (m_sent n) (m_recv n) (m_heap n).
Definition set_registry (n : MeshNode) r : MeshNode := set_engine n (m_repo n) r.
Definition set_queue (n : MeshNode) q ws : MeshNode :=
  mkMesh (m_done n) (m_closeOnce n) (m_localID n) (m_listening n) (m_repo n) (m_registry n) (m_pusher n) (m_accepting n)
    q ws (m_sent n) (m_recv n) (m_heap n).
Definition set_counters (n : MeshNode) ss rr : MeshNode :=
  mkMesh (m_done n) (m_closeOnce n) (m_localID n) (m_listening n) (m_repo n) (m_registry n) (m_pusher n) (m_accepting n)
    (toMeshClients n) (m_workers n) ss rr (m_heap n).
Definition end_accepting (n : MeshNode) : MeshNode :=
  mkMesh (m_done n) (m_closeOnce n) (m_localID n) (m_listening n) (m_repo n) (m_registry n) (m_pusher n) false
    (toMeshClients n) (m_workers n) (m_sent n) (m_recv n) (m_heap n).

Definition set_heap (n : MeshNode) h : MeshNode :=
  mkMesh (m_done n) (m_closeOnce n) (m_localID n) (m_listening n) (m_repo n) (m_registry n) (m_pusher n) (m_accepting n)
    (toMeshClients n) (m_workers n) (m_sent n) (m_recv n) h.

(** The bytes that a slice shows, and a packet that is copied into a buffer. *)
Definition shown (heap : gmap nat (list Z)) (s : slice) : list Z := take s.2 (default [] (heap !! s.1)).
Definition write_buffer (heap : gmap nat (list Z)) (id : nat) (data : list Z) : gmap nat (list Z) :=
  <[id := data ++ drop (length data) (default [] (heap !! id))]> heap.

(** A datagram that is handed to a connection: the slice, and the bytes that it shows
    at that moment, which the transport copies. *)
Notation datagram := (PeerConnection * (slice * list Z))%type.

Section Node.
Context `{MR : MapRange}.

(** The node once it runs; the store starts from [repo]. *)
Definition start (localID : string) (repo : Topology.Topology.inMemoryState) : MeshNode :=
  mkMesh false false localID true repo (NewRegistry localID) NewBiStreamLis true [] ∅ ∅ ∅ ∅.

(** [transport]: the transport is there. *)
Definition NewWithTransport `{CR : Crypto} (transport : bool) (cert : Certificate)
    (repo : Topology.Topology.inMemoryState) : gores MeshNode :=
  if negb transport then Err "network transport is required" else
  match extractLocalPeerID cert with
  | Ok localID => Ok (start localID repo)
  | Err _ => Err "failed to extract local node ID"
  | Panic => Panic
  end.

(** [atomic.Uint64.Add] of a length. *)
Definition count (m : gmap nat Z) (c : nat) (len : Z) : gmap nat Z :=
  <[c := u64 (default 0%Z (m !! c) + len)]> m.

Definition handle_connection (now : Z) (ref : nat) (grpc : option nat) (pc : PeerConnection) (n : MeshNode)
    : gores MeshNode :=
  x <- HandleConnection now ref grpc pc (m_registry n) (m_repo n);;
  let '(_, r, repo) := x in Ok (set_engine n repo r).

(** A turn of the accept loop. *)
Definition accept_turn (now : Z) (ref : nat) (grpc : option nat) (res : gores PeerConnection) (n : MeshNode)
    : gores MeshNode :=
  match res with
  | Panic => Panic
  | Err _ => Ok (end_accepting n)
  | Ok pc =>
      if decide (c_id pc = m_localID n) then Ok (set_registry n (close_conn (m_registry n) (c_ref pc)))
      else handle_connection now ref grpc pc n
  end.

(** [RemoteClient.SendDatagram]: [done] says that the context of the client is
    over, [pick_done] which case the runtime takes when both are ready; [None]:
    the caller waits. *)
Definition SendDatagram (done pick_done : bool) (msg : RemoteMessage) (q : list RemoteMessage)
    : option (gores unit * list RemoteMessage) :=
  if done && (pick_done || negb (bool_decide (length q < 1000)))%nat then Some (Err "context canceled", q)
  else if decide (length q < 1000)%nat then Some (Ok tt, q ++ [msg])
  else None.

(** A turn of the sending worker [w], with the datagram that it hands over: it takes a
    message or, when the context is over, returns ([pick_done]: which case the runtime
    takes when both are ready), looks the peer up, sends.  The error of the connection
    is ignored; the bytes count all the same. *)
Definition worker_turn (w : nat) (pick_done : bool) (n : MeshNode) : gores (MeshNode * list datagram) :=
  match m_workers n !! w with
  | None =>
      if m_done n && (pick_done || bool_decide (toMeshClients n = []))
      then Ok (set_queue n (toMeshClients n) (<[w := Returned]> (m_workers n)), []) else
      match toMeshClients n with
      | [] => Ok (n, [])
      | msg :: q => Ok (set_queue n q (<[w := Holding msg]> (m_workers n)), [])
      end
  | Some (Holding msg) =>
      match Get (m_registry n) (TargetNodeID msg) with
      | None => Ok (set_queue n (toMeshClients n) (delete w (m_workers n)), [])
      | Some peer =>
          match Conn peer with
          | None => Panic
          | Some c => Ok (set_queue n (toMeshClients n) (<[w := Sending c (Data msg)]> (m_workers n)), [])
          end
      end
  | Some (Sending c data) =>
      let n1 := set_queue n (toMeshClients n) (delete w (m_workers n)) in
      Ok (set_counters n1 (count (m_sent n) (c_ref c) (Z.of_nat data.2)) (m_recv n), [(c, (data, shown (m_heap n) data))])
  | Some Returned => Ok (n, [])
  end.

(** [shutdown]: once. *)
Definition shutdown (n : MeshNode) : gores MeshNode :=
  if m_closeOnce n then Ok n else
  r <- Close (m_registry n);;
  Ok (mkMesh true true (m_localID n) false (m_repo n) r (CloseLis (m_pusher n)) (m_accepting n) (toMeshClients n)
        (m_workers n) (m_sent n) (m_recv n) (m_heap n)).

(** The state the API shows. *)
Definition GetConnectivity (n : MeshNode) : list Api.Api.ConnectivityState :=
  omap (λ s, c ← Conn s; Some (Api.Api.mkConn (PeerID s) (c_remote c) (default 0%Z (m_sent n !! c_ref c))
                                 (default 0%Z (m_recv n !! c_ref c)))) (ListActive (m_registry n)).

(** [ListConnectedNodes] of the gRPC service (mesh_handler.go). *)
Record ConnectedNodeInfo := mkNodeInfo { ni_Id : string; ni_Address : string; ni_TotalRecv : Z; ni_TotalSent : Z }.
Definition ListConnectedNodes (n : MeshNode) : list ConnectedNodeInfo :=
  (λ v, mkNodeInfo (Api.Api.cs_Id v) (Api.Api.cs_Addr v) (Api.Api.cs_TotalRecv v) (Api.Api.cs_TotalSent v)) <$> GetConnectivity n.

Definition CountConnections (n : MeshNode) : nat := length (ListActive (m_registry n)).

(** What happens to a node: the accept loop, a connection of its own, a message
    for a peer, a turn of a worker, a datagram received, the end of a session, the
    shutdown; and [MPacket]: the router copies another packet into a pooled message. *)
Inductive act :=
| MAccept (now : Z) (ref : nat) (grpc : option nat) (res : gores PeerConnection)
| MDial (now : Z) (ref : nat) (grpc : option nat) (pc : PeerConnection)
| MEnqueue (done pick_done : bool) (msg : RemoteMessage)
| MWorker (w : nat) (pick_done : bool)
| MPacket (id : nat) (data : list Z)
| MRecv (c : nat) (data : list Z)
| MSessionEnd (s : Session)
| MShutdown.

Definition mesh_step (a : act) (n : MeshNode) : gores (MeshNode * list datagram) :=
  match a with
  | MAccept now ref grpc res =>
      if m_accepting n then n' <- accept_turn now ref grpc res n;; Ok (n', []) else Ok (n, [])
  | MDial now ref grpc pc => n' <- handle_connection now ref grpc pc n;; Ok (n', [])
  | MEnqueue done pick_done msg =>
      match SendDatagram done pick_done msg (toMeshClients n) with
      | Some (_, q) => Ok (set_queue n q (m_workers n), [])
      | None => Ok (n, [])
      end
  | MWorker w pick => worker_turn w pick n
  | MPacket id data => Ok (set_heap n (write_buffer (m_heap n) id data), [])
  | MRecv c data => Ok (set_counters n (m_sent n) (count (m_recv n) c (golen data)), [])
  | MSessionEnd s => Ok (set_registry n (runSession_end (m_registry n) s), [])
  | MShutdown => n' <- shutdown n;; Ok (n', [])
  end.

Fixpoint mesh_run (acts : list act) (n : MeshNode) : gores (MeshNode * list datagram) :=
  match acts with
  | [] => Ok (n, [])
  | a :: rest => x <- mesh_step a n;; y <- mesh_run rest x.1;; Ok (y.1, x.2 ++ y.2)
  end.

End Node.

(** * Specification *)

(** ** Identities *)

Section IdentitySpec.
Context `{CR : Crypto} `{CL : !CryptoLaws}.

(** The key that the certificate presents: of the parsed chain. *)
Definition presents (cert : Certificate) (key : list Z) : Prop :=
  ∃ der rest, cert_chain cert = der :: rest ∧ ParseCertificate der = Ok key ∧
    (cert_leaf cert = None ∨ cert_leaf cert = Some key).

(** a node and its peers agree on its identity.  The id that a node derives
    from its own certificate, whether the parsed leaf was kept or not, is the id
    that every peer derives from the certificate it is shown, and it is never
    empty; two nodes with the same id have keys with the same digest. *)
Theorem identity_agrees cert key ref remote init rest :
  presents cert key →
  ∃ id, extractLocalPeerID cert = Ok id ∧ id ≠ ""%string ∧
    wrapConnection ref (key :: rest) remote init = Ok (mkConn ref id remote init) ∧
    ∀ key', peer_id key' = id → sha256 key' = sha256 key.
Proof.
  intros (der & tl & Ec & Ep & El). exists (peer_id key). unfold extractLocalPeerID. rewrite Ec.
  destruct (sha256_bytes key) as [Hlen Hb]. split; [|split; [|split; [done|]]].
  - destruct El as [-> | ->]; [by rewrite Ep|done].
  - unfold peer_id, Encodings.EncodeToString. by destruct (sha256 key) as [|b l].
  - intros key' E. destruct (sha256_bytes key') as [_ Hb'].
    pose proof (Encodings.hex_roundtrip _ Hb) as R. pose proof (Encodings.hex_roundtrip _ Hb') as R'.
    unfold peer_id, Encodings.EncodeToString in E. apply (f_equal String.list_ascii_of_string) in E.
    rewrite !String.list_ascii_of_string_of_list_ascii in E. rewrite E, R in R'. congruence.
Qed.

End IdentitySpec.

(** ** The node *)

Section NodeSpec.
Context `{MR : MapRange}.

(** A connection that a worker is about to use is that of the peer's session, or
    it has been closed. *)
Record mesh_ok (n : MeshNode) : Prop := {
  mo_reg : reg_ok (m_registry n);
  mo_repo : Topology.Topology.topo_ok (m_repo n);
  mo_local : localID (m_registry n) = m_localID n;
  mo_conn k s : sessions (m_registry n) !! k = Some s → ∃ c, Conn s = Some c ∧ c_id c = k;
  mo_workers w c d : m_workers n !! w = Some (Sending c d) → c_id c ≠ m_localID n ∧
    ((∃ s, sessions (m_registry n) !! c_id c = Some s ∧ Conn s = Some c) ∨ c_ref c ∈ conns_closed (m_registry n));
  mo_queue : (length (toMeshClients n) ≤ 1000)%nat;
  mo_over : m_closeOnce n = true →
    m_done n = true ∧ m_listening n = false ∧ closed (m_registry n) = true ∧ lis_done (m_pusher n) = true }.

(** The transport yields connections with an identity. *)
Definition wf_act (a : act) : Prop :=
  match a with
  | MAccept _ _ _ (Ok pc) | MDial _ _ _ pc => c_id pc ≠ ""%string
  | MAccept _ _ _ Panic => False
  | _ => True
  end.

(** The registry before and after an operation that adds no session but perhaps
    one for [pc]: a session that goes has its connection closed. *)
Record reg_moves (pc : option PeerConnection) (r r' : sessionRegistry) : Prop := {
  rm_ok : reg_ok r';
  rm_local : localID r' = localID r;
  rm_closed : closed r = true → closed r' = true;
  rm_conns : conns_closed r ⊆ conns_closed r';
  rm_new k s : sessions r' !! k = Some s → sessions r !! k = Some s ∨ ∃ c, pc = Some c ∧ Conn s = Some c ∧ c_id c = k;
  rm_gone k s c : sessions r !! k = Some s → Conn s = Some c →
    sessions r' !! k = Some s ∨ c_ref c ∈ conns_closed r' }.

Lemma reg_moves_sub r r' :
  reg_ok r → sessions r' ⊆ sessions r → reg_subs r' = reg_subs r → closed r' = closed r → localID r' = localID r →
  conns_closed r ⊆ conns_closed r' →
  (∀ k s c, sessions r !! k = Some s → Conn s = Some c → sessions r' !! k = Some s ∨ c_ref c ∈ conns_closed r') →
  reg_moves None r r'.
Proof.
  intros [H1 H2 H3] Hs Eb Ec El Hc Hg. assert (Hl : ∀ k s, sessions r' !! k = Some s → sessions r !! k = Some s)
    by (intros k s Hk; by eapply lookup_weaken).
  constructor; try done; [|congruence|by left; apply Hl].
  constructor; [|rewrite Ec, Eb; intros Hcl; destruct (H2 Hcl) as [Em ?]|by rewrite Eb].
  - intros k s Hk. rewrite El. by apply H1, Hl.
  - split; [|done]. apply map_empty. intros k. apply eq_None_not_Some. intros [s Hk%Hl].
    by rewrite Em, lookup_empty in Hk.
Qed.

Lemma reg_moves_refl r : reg_ok r → reg_moves None r r.
Proof. intros Hr. apply reg_moves_sub; try done. by left. Qed.

Lemma close_conn_moves r c : reg_ok r → reg_moves None r (close_conn r c).
Proof. intros Hr. apply reg_moves_sub; try done; [simpl; set_solver|by left]. Qed.

Lemma reg_moves_any pc r r' : reg_moves None r r' → reg_moves pc r r'.
Proof. intros [? ? ? ? Hn ?]. constructor; try done. intros k s Hk. left. by destruct (Hn k s Hk) as [|(? & ? & _)]. Qed.

Lemma Remove_moves r s : reg_ok r → reg_moves None r (Remove r s).
Proof.
  intros Hr. unfold Remove. case_decide; [by apply reg_moves_refl|].
  destruct (sessions r !! PeerID s) as [cur|] eqn:Ecur; [|by apply reg_moves_refl].
  case_decide; [by apply reg_moves_refl|].
  destruct (closeSession_same (set_sessions r (delete (PeerID s) (sessions r)) (reg_subs r)) cur) as (E1 & E2 & E3 & E4 & E5).
  apply reg_moves_sub; rewrite ?E1, ?E2, ?E3, ?E4, ?E5; try done; simpl; [apply delete_subseteq| |].
  - destruct (Conn cur); set_solver.
  - intros k t c Hk Hc. rewrite lookup_delete. case_decide as Hn; [right|by left].
    subst k. simplify_eq. rewrite Hc. set_solver.
Qed.

Lemma HandleConnection_moves now ref grpc pc r repo :
  reg_ok r → Topology.Topology.topo_ok repo → c_id pc ≠ ""%string →
  ∃ ok r' repo', HandleConnection now ref grpc pc r repo = Ok (ok, r', repo') ∧ Topology.Topology.topo_ok repo' ∧
    reg_moves (Some pc) r r' ∧ (ok = false ∨ closed r = true → c_ref pc ∈ conns_closed r').
Proof.
  intros Hr Hrepo Hid. unfold HandleConnection.
  destruct (Topology.Topology.insert_merge_total repo
    (Topology.Topology.mkPeer (c_id pc) (if IsInitiator pc then c_remote pc else ""%string) now) Hrepo) as (res & repo' & -> & Hrepo').
  cbn [gobind]. assert (Hrej : ∀ r1, conns_closed r1 = conns_closed r → sessions r1 = sessions r → reg_subs r1 = reg_subs r →
    closed r1 = closed r → localID r1 = localID r → reg_moves (Some pc) r (close_conn r1 (c_ref pc)) ∧
      (false = false ∨ closed r = true → c_ref pc ∈ conns_closed (close_conn r1 (c_ref pc)))).
  { intros r1 Ec Es Eb Ecl El. split; [|intros _; simpl; set_solver]. apply reg_moves_any, reg_moves_sub; simpl; rewrite ?Ec, ?Es; try done; [set_solver|].
    by left. }
  destruct grpc as [g|]; [|by eexists false, _, repo'; split; [reflexivity|]; split; [done|]; apply Hrej].
  set (s := mkSession _ _ _ _ _). pose proof (Add_no_panic now r s Hr) as Hnp.
  destruct (Add now r s) as [r'|e|] eqn:Ea; [| |done];
    [|by eexists false, _, repo'; split; [reflexivity|]; split; [done|]; apply (Hrej (close_grpc r g))].
  destruct (registry_Add_spec _ _ _ _ Hr Ea) as (_ & _ & _ & Ho & _ & Em & Hr' & _ & El & Hcc).
  eexists true, r', repo'. split; [reflexivity|]. split; [done|]. split; [|by rewrite Ho; intros [?|?]].
  constructor; try done; [congruence|intros c Hc; apply Hcc; by left| |].
  - intros k t. rewrite Em, lookup_insert. case_decide as Hk; [|by left]. intros [= <-]. right. by exists pc.
  - intros k t c Hk Hc. rewrite Em, lookup_insert. case_decide as Hn; [right|by left]. apply Hcc. right.
    exists t, c. subst k. done.
Qed.

Lemma Close_moves r : reg_ok r → ∃ r', Close r = Ok r' ∧ reg_moves None r r' ∧ closed r' = true ∧ sessions r' = ∅.
Proof.
  intros Hr. unfold Close. destruct (closed r) eqn:Ec.
  { exists r. split; [done|]. split; [by apply reg_moves_refl|]. split; [done|]. by apply (rk_closed _ Hr). }
  destruct (close_all_ok (reg_subs r) (rk_subs _ Hr)) as (b & -> & Hb & Es). cbn [gobind]. eexists. split; [reflexivity|].
  destruct (closeSession_all (map_range (sessions r)).*2 (mkReg (localID r) ∅ b true (conns_closed r) (grpc_closed r)))
    as (E1 & E2 & E3 & E4 & E5).
  split; [|split; [by rewrite E3|by rewrite E1]].
  constructor; rewrite ?E1, ?E3, ?E4; try done.
  - constructor; rewrite ?E1, ?E2, ?E3; simpl; [|done|done]. intros k s. by rewrite lookup_empty.
  - intros c Hc. apply E5. by left.
  - intros k s c Hk Hc. right. apply E5. right. exists s, c. split_and!; try done.
    apply list_elem_of_fmap. exists (k, s). split; [done|]. by apply elem_of_map_range.
Qed.

(** ** One step *)

(** Bytes handed to connection [c]. *)
Definition bytes_for (c : nat) (out : list datagram) : Z :=
  foldr (λ x a, if decide (c_ref x.1 = c) then Z.of_nat x.2.1.2 + a else a)%Z 0%Z out.
Definition sent_on (n : MeshNode) (c : nat) : Z := default 0%Z (m_sent n !! c).
Definition counted (n : MeshNode) : Prop := ∀ c, is_u64 (sent_on n c).

(** What there is to send, as the peer and the slice. *)
Definition addressed (m : RemoteMessage) : string * slice := (TargetNodeID m, Data m).
Definition delivered (x : datagram) : string * slice := (c_id x.1, x.2.1).
Definition in_hand (w : worker) : list (string * slice) :=
  match w with Holding m => [addressed m] | Sending c d => [(c_id c, d)] | Returned => [] end.
Definition hands (ws : gmap nat worker) : list (string * slice) := (map_to_list ws).*2 ≫= in_hand.
Definition pending (n : MeshNode) : list (string * slice) := (addressed <$> toMeshClients n) ++ hands (m_workers n).
Definition asked (acts : list act) : list (string * slice) :=
  omap (λ a, match a with MEnqueue _ _ m => Some (addressed m) | _ => None end) acts.
(** A worker is about to use connection [c]. *)
Definition about_to_use (n : MeshNode) (c : PeerConnection) : Prop := ∃ w d, m_workers n !! w = Some (Sending c d).

(** What a node did while [new] messages were asked for. *)
Record progress (new : list (string * slice)) (n n' : MeshNode) (out : list datagram) : Prop := {
  pr_ok : mesh_ok n';
  pr_msgs : (delivered <$> out) ++ pending n' ⊆+ pending n ++ new;
  pr_self : Forall (λ x, c_id x.1 ≠ m_localID n) out;
  pr_local : m_localID n' = m_localID n;
  pr_sent c : sent_on n' c = u64 (sent_on n c + bytes_for c out);
  pr_over : m_closeOnce n = true → m_closeOnce n' = true ∧
    ∀ c, c ∈ out.*1 ∨ about_to_use n' c → about_to_use n c;
  pr_closed : conns_closed (m_registry n) ⊆ conns_closed (m_registry n') }.

Lemma hands_put ws w x : ws !! w = None → hands (<[w := x]> ws) ≡ₚ in_hand x ++ hands ws.
Proof. intros H. unfold hands. by rewrite (map_to_list_insert ws w x H). Qed.

Lemma hands_drop ws w x : ws !! w = Some x → in_hand x ++ hands (delete w ws) ≡ₚ hands ws.
Proof. intros H. unfold hands. by rewrite <- (map_to_list_delete ws w x H). Qed.

Lemma counted_u64 n : (∀ c, ∃ z, sent_on n c = u64 z) → counted n.
Proof. intros H c. destruct (H c) as [z ->]. apply u64_range. Qed.

Lemma sent_still n n' c : counted n → m_sent n' = m_sent n → sent_on n' c = u64 (sent_on n c + bytes_for c []).
Proof. intros Hc E. unfold sent_on in *. rewrite E. simpl. rewrite Z.add_0_r. symmetry. apply u64_small, Hc. Qed.

(** A step that sends nothing. *)
Lemma quiet_progress new n n' :
  counted n → mesh_ok n' → pending n' ⊆+ pending n ++ new → m_localID n' = m_localID n → m_sent n' = m_sent n →
  (m_closeOnce n = true → m_closeOnce n' = true ∧ ∀ c, about_to_use n' c → about_to_use n c) →
  conns_closed (m_registry n) ⊆ conns_closed (m_registry n') →
  progress new n n' [].
Proof.
  intros Hc Hk Eq El Es Ho Hcl. constructor; try done.
  - intros c. by apply sent_still.
  - intros H. destruct (Ho H) as [? Hu]. split; [done|]. intros c [Hin%elem_of_nil|?]; [done|by apply Hu].
Qed.

(** The registry has moved, the messages have not. *)
Lemma mesh_ok_moves pc n repo r' :
  mesh_ok n → Topology.Topology.topo_ok repo → reg_moves pc (m_registry n) r' → mesh_ok (set_engine n repo r').
Proof.
  intros Hk Hrepo [Hr El Hcl Hcc Hn Hg]. constructor; simpl; try done; [by rewrite El; apply Hk| | |apply Hk|].
  - intros k s Hks. destruct (Hn k s Hks) as [?|(c & -> & ? & ?)]; [by apply Hk|by exists c].
  - intros w c d Hw. destruct (mo_workers _ Hk _ _ _ Hw) as [? [(s & Hs & Hc)|?]]; (split; [done|]); [|right; by apply Hcc].
    destruct (Hg _ _ _ Hs Hc); [left; by exists s|by right].
  - intros Ho. destruct (mo_over _ Hk Ho) as (? & ? & ? & ?). auto.
Qed.

Lemma moves_progress pc n repo r' :
  mesh_ok n → counted n → Topology.Topology.topo_ok repo → reg_moves pc (m_registry n) r' →
  progress [] n (set_engine n repo r') [].
Proof.
  intros Hk Hc Hrepo Hm. apply quiet_progress; try done; [by eapply mesh_ok_moves|by rewrite app_nil_r|by apply Hm].
Qed.

Lemma stay_progress new n : mesh_ok n → counted n → progress new n n [].
Proof. intros. apply quiet_progress; try done. by apply submseteq_inserts_r. Qed.

Lemma handle_progress now ref grpc pc n :
  mesh_ok n → counted n → c_id pc ≠ ""%string →
  ∃ n', handle_connection now ref grpc pc n = Ok n' ∧ progress [] n n' [] ∧
    (m_closeOnce n = true → c_ref pc ∈ conns_closed (m_registry n')).
Proof.
  intros Hk Hc Hid. unfold handle_connection.
  destruct (HandleConnection_moves now ref grpc pc _ _ (mo_reg _ Hk) (mo_repo _ Hk) Hid) as (ok & r' & repo' & -> & Hrepo & Hm & Hcl).
  cbn [gobind]. eexists. split; [reflexivity|]. split; [by eapply moves_progress|].
  intros Ho. apply Hcl. right. by apply (mo_over _ Hk).
Qed.

(** The workers and the queue have moved. *)
Lemma mesh_ok_queue n q ws :
  mesh_ok n → (length q ≤ 1000)%nat →
  (∀ w c d, ws !! w = Some (Sending c d) → about_to_use n c ∨
    c_id c ≠ m_localID n ∧ ∃ s, sessions (m_registry n) !! c_id c = Some s ∧ Conn s = Some c) →
  mesh_ok (set_queue n q ws).
Proof.
  intros Hk Hq Hw. constructor; simpl; try done; try apply Hk. intros w c d Hwc.
  destruct (Hw w c d Hwc) as [(w' & d' & H)|[? H]]; [by eapply (mo_workers _ Hk)|by split; [|left]].
Qed.

Lemma enqueue_progress done pick msg n :
  mesh_ok n → counted n →
  ∃ n', mesh_step (MEnqueue done pick msg) n = Ok (n', []) ∧ progress [addressed msg] n n' [].
Proof.
  intros Hk Hc. cbn [mesh_step]. destruct (SendDatagram done pick msg (toMeshClients n)) as [[res q]|] eqn:E;
    [|exists n; split; [done|by apply stay_progress]].
  eexists. split; [reflexivity|].
  assert (Hq : q = toMeshClients n ∨ (length (toMeshClients n) < 1000)%nat ∧ q = toMeshClients n ++ [msg]).
  { unfold SendDatagram in E. destruct (done && _); [left; congruence|]. case_decide; [right|done]. simplify_eq. done. }
  pose proof (mo_queue _ Hk) as Hlen. apply quiet_progress; try done.
  - apply mesh_ok_queue; [done| |intros w c d H; left; by exists w, d].
    destruct Hq as [->|[? ->]]; [done|]. rewrite length_app. simpl. lia.
  - unfold pending. simpl. destruct Hq as [->|[_ ->]]; [by apply submseteq_inserts_r|].
    rewrite fmap_app, <- !app_assoc. apply Permutation_submseteq. f_equiv. simpl. by rewrite Permutation_cons_append.
Qed.

Lemma sending_live n w c d : mesh_ok n → m_workers n !! w = Some (Sending c d) → c_id c ≠ m_localID n.
Proof. intros Hk H. by apply (mo_workers _ Hk) in H as [? _]. Qed.

(** Looking the peer up. *)
Lemma lookup_progress w pick msg n :
  mesh_ok n → counted n → m_workers n !! w = Some (Holding msg) →
  ∃ n', worker_turn w pick n = Ok (n', []) ∧ progress [] n n' [].
Proof.
  intros Hk Hc Ew. unfold worker_turn. rewrite Ew. unfold Get.
  assert (Hdel : ∀ c w' d, delete w (m_workers n) !! w' = Some (Sending c d) → about_to_use n c).
  { intros c w' d [_ H]%lookup_delete_Some. by exists w', d. }
  destruct (sessions (m_registry n) !! TargetNodeID msg) as [peer|] eqn:Es.
  - destruct (mo_conn _ Hk _ _ Es) as (c & Ec & Hid). rewrite Ec. eexists. split; [reflexivity|].
    destruct (rk_key _ (mo_reg _ Hk) _ _ Es) as (_ & _ & Hne & _). rewrite (mo_local _ Hk), <- Hid in Hne.
    rewrite <- insert_delete_eq.
    apply quiet_progress; try done.
    + apply mesh_ok_queue; [done|apply Hk|]. intros w' c' d. rewrite lookup_insert. case_decide; [|by left; eapply Hdel].
      intros [= <- <-]. right. split; [done|]. exists peer. by rewrite Hid, Ec.
    + unfold pending. simpl. rewrite app_nil_r. apply Permutation_submseteq. f_equiv.
      rewrite hands_put by apply lookup_delete_eq. rewrite <- (hands_drop _ _ _ Ew). unfold addressed. simpl. by rewrite Hid.
    + intros Ho. exfalso. destruct (mo_over _ Hk Ho) as (_ & _ & Hcl & _).
      destruct (rk_closed _ (mo_reg _ Hk) Hcl) as [E _]. by rewrite E, lookup_empty in Es.
  - eexists. split; [reflexivity|]. apply quiet_progress; try done.
    + apply mesh_ok_queue; [done|apply Hk|]. intros w' c' d ?. left. by eapply Hdel.
    + unfold pending. simpl. rewrite app_nil_r, <- (hands_drop _ _ _ Ew). apply submseteq_app; [done|]. by constructor.
    + intros Ho. split; [done|]. intros c (w' & d & ?). by eapply Hdel.
Qed.

Lemma bytes_one c x : bytes_for c [x] = if decide (c_ref x.1 = c) then Z.of_nat x.2.1.2 else 0%Z.
Proof. unfold bytes_for. simpl. case_decide; lia. Qed.

(** Handing a datagram over. *)
Lemma hand_over_progress w pick c d n :
  mesh_ok n → counted n → m_workers n !! w = Some (Sending c d) →
  ∃ n', worker_turn w pick n = Ok (n', [(c, (d, shown (m_heap n) d))]) ∧ progress [] n n' [(c, (d, shown (m_heap n) d))].
Proof.
  intros Hk Hc Ew. unfold worker_turn. rewrite Ew. eexists. split; [reflexivity|].
  assert (Hdel : ∀ c' w' d', delete w (m_workers n) !! w' = Some (Sending c' d') → about_to_use n c').
  { intros c' w' d' [_ H]%lookup_delete_Some. by exists w', d'. }
  constructor; try done.
  - assert (Hq : mesh_ok (set_queue n (toMeshClients n) (delete w (m_workers n)))).
    { apply mesh_ok_queue; [done|apply Hk|]. intros w' c' d' ?. left. by eapply Hdel. }
    destruct Hq. by constructor.
  - unfold pending. simpl. rewrite app_nil_r, <- (hands_drop _ _ _ Ew). apply Permutation_submseteq.
    unfold delivered. simpl. by rewrite Permutation_middle.
  - constructor; [by eapply sending_live|constructor].
  - intros c'. rewrite bytes_one. unfold sent_on, count. simpl. rewrite lookup_insert.
    case_decide as Hn; simpl; [by subst|]. rewrite Z.add_0_r. symmetry. apply u64_small, Hc.
  - intros Ho. split; [done|]. intros c' [->%list_elem_of_singleton|(w' & d' & ?)]; [by exists w, d|by eapply Hdel].
Qed.

Lemma worker_progress w pick n :
  mesh_ok n → counted n → ∃ n' out, worker_turn w pick n = Ok (n', out) ∧ progress [] n n' out.
Proof.
  intros Hk Hc. destruct (m_workers n !! w) as [[msg|c d|]|] eqn:Ew.
  - destruct (lookup_progress w pick msg n Hk Hc Ew) as (n' & ? & ?). by exists n', [].
  - destruct (hand_over_progress w pick c d n Hk Hc Ew) as (n' & ? & ?). by eexists n', _.
  - exists n, []. unfold worker_turn. rewrite Ew. split; [done|by apply stay_progress].
  - unfold worker_turn. rewrite Ew. destruct (m_done n && _).
    { assert (Hput : ∀ c w' d, <[w := Returned]> (m_workers n) !! w' = Some (Sending c d) → about_to_use n c).
      { intros c w' d. rewrite lookup_insert. case_decide; [done|]. intros ?. by exists w', d. }
      eexists _, []. split; [reflexivity|]. apply quiet_progress; try done.
      + apply mesh_ok_queue; [done|apply Hk|]. intros w' c d ?. left. by eapply Hput.
      + unfold pending. simpl. by rewrite app_nil_r, (hands_put _ _ _ Ew).
      + intros Ho. split; [done|]. intros c (w' & d & ?). by eapply Hput. }
    destruct (toMeshClients n) as [|msg q] eqn:Eq;
      [exists n, []; split; [done|by apply stay_progress]|].
    pose proof (mo_queue _ Hk) as Hlen. rewrite Eq in Hlen. simpl in Hlen.
    assert (Hput : ∀ c w' d, <[w := Holding msg]> (m_workers n) !! w' = Some (Sending c d) → about_to_use n c).
    { intros c w' d. rewrite lookup_insert. case_decide; [done|]. intros ?. by exists w', d. }
    eexists _, []. split; [reflexivity|]. apply quiet_progress; try done.
    + apply mesh_ok_queue; [done|lia|]. intros w' c d ?. left. by eapply Hput.
    + unfold pending. simpl. rewrite app_nil_r, Eq, (hands_put _ _ _ Ew). simpl. by rewrite Permutation_middle.
    + intros Ho. split; [done|]. intros c (w' & d & ?). by eapply Hput.
Qed.

Lemma shutdown_progress n :
  mesh_ok n → counted n → ∃ n', shutdown n = Ok n' ∧ progress [] n n' [] ∧ m_closeOnce n' = true.
Proof.
  intros Hk Hc. unfold shutdown. destruct (m_closeOnce n) eqn:Eo.
  { exists n. split; [done|]. split; [by apply stay_progress|done]. }
  destruct (Close_moves _ (mo_reg _ Hk)) as (r & -> & Hm & Hcl & Hs). cbn [gobind]. eexists. split; [reflexivity|].
  split; [|done]. apply quiet_progress; try done; [|by rewrite app_nil_r|by apply Hm].
  destruct (mesh_ok_moves None n (m_repo n) r Hk (mo_repo _ Hk) Hm). by constructor.
Qed.

Lemma mesh_step_progress a n :
  mesh_ok n → counted n → wf_act a → ∃ n' out, mesh_step a n = Ok (n', out) ∧ progress (asked [a]) n n' out.
Proof.
  intros Hk Hc Hw.
  assert (Hq : ∀ m : gores MeshNode, (∃ n', m = Ok n' ∧ progress [] n n' []) →
    ∃ n' out, (n' <- m;; Ok (n', @nil datagram)) = Ok (n', out) ∧ progress [] n n' out).
  { intros m (n' & -> & Hp). by eexists n', []. }
  assert (Hh : ∀ now ref grpc pc, c_id pc ≠ ""%string → ∃ n', handle_connection now ref grpc pc n = Ok n' ∧ progress [] n n' []).
  { intros now ref grpc pc Hp. destruct (handle_progress now ref grpc pc n Hk Hc Hp) as (n' & ? & ? & _). by exists n'. }
  destruct a as [now ref grpc res|now ref grpc pc|done pick msg|w pick|id data|c data|s|]; try cbn [mesh_step]; cbn [asked omap list_omap].
  - destruct (m_accepting n); [|exists n, []; split; [done|by apply stay_progress]]. apply Hq.
    destruct res as [pc|e|]; [| |done]; cbn [accept_turn].
    + case_decide; [|by apply Hh]. eexists. split; [reflexivity|]. eapply moves_progress; try done; [apply Hk|].
      by apply close_conn_moves, Hk.
    + eexists. split; [reflexivity|]. apply quiet_progress; try done; [destruct Hk; by constructor|by rewrite app_nil_r].
  - by apply Hq, Hh.
  - destruct (enqueue_progress done pick msg n Hk Hc) as (n' & ? & ?). by exists n', [].
  - by apply worker_progress.
  - eexists _, []. split; [reflexivity|]. apply quiet_progress; try done; [destruct Hk; by constructor|by rewrite app_nil_r].
  - eexists _, []. split; [reflexivity|]. apply quiet_progress; try done; [destruct Hk; by constructor|by rewrite app_nil_r].
  - eexists _, []. split; [reflexivity|]. eapply moves_progress; try done; [apply Hk|]. by apply Remove_moves, Hk.
  - apply Hq. destruct (shutdown_progress n Hk Hc) as (n' & ? & ? & _). by exists n'.
Qed.

(** ** Histories *)

Lemma bytes_for_app c o1 o2 : bytes_for c (o1 ++ o2) = (bytes_for c o1 + bytes_for c o2)%Z.
Proof. induction o1 as [|x o IH]; [done|]. cbn [bytes_for foldr app]. fold (bytes_for c (o ++ o2)) (bytes_for c o). case_decide; lia. Qed.

Lemma progress_trans new1 new2 n n1 n2 out1 out2 :
  progress new1 n n1 out1 → progress new2 n1 n2 out2 → progress (new1 ++ new2) n n2 (out1 ++ out2).
Proof.
  intros P Q. constructor; [apply Q| | |by rewrite (pr_local _ _ _ _ Q), (pr_local _ _ _ _ P)| | |].
  - rewrite fmap_app, <- app_assoc. etrans; [apply submseteq_app; [done|apply Q]|].
    rewrite !app_assoc. apply submseteq_app; [apply P|done].
  - apply Forall_app. split; [apply P|]. pose proof (pr_self _ _ _ _ Q) as H. by rewrite (pr_local _ _ _ _ P) in H.
  - intros c. rewrite (pr_sent _ _ _ _ Q), (pr_sent _ _ _ _ P), bytes_for_app. unfold u64.
    rewrite Zplus_mod_idemp_l. f_equal. lia.
  - intros Ho. destruct (pr_over _ _ _ _ P Ho) as [Ho1 H1]. destruct (pr_over _ _ _ _ Q Ho1) as [Ho2 H2].
    split; [done|]. intros c. rewrite fmap_app, elem_of_app. intros [[?|?]|?]; apply H1; auto.
  - intros c Hc. by apply Q, P.
Qed.

Lemma progress_counted new n n' out : progress new n n' out → counted n'.
Proof. intros P. apply counted_u64. intros c. eexists. apply P. Qed.

Lemma mesh_run_progress acts n :
  mesh_ok n → counted n → Forall wf_act acts →
  ∃ n' out, mesh_run acts n = Ok (n', out) ∧ progress (asked acts) n n' out.
Proof.
  revert n. induction acts as [|a acts IH]; intros n Hk Hc Hw.
  { exists n, []. split; [done|by apply stay_progress]. }
  apply Forall_cons in Hw as [Ha Hw]. destruct (mesh_step_progress a n Hk Hc Ha) as (n1 & o1 & E1 & P1).
  destruct (IH n1 (pr_ok _ _ _ _ P1) (progress_counted _ _ _ _ P1) Hw) as (n2 & o2 & E2 & P2).
  exists n2, (o1 ++ o2). split; [cbn [mesh_run]; rewrite E1; cbn [gobind fst]; by rewrite E2|].
  change (a :: acts) with ([a] ++ acts). unfold asked. rewrite omap_app. by eapply progress_trans.
Qed.

Lemma mesh_run_app acts1 acts2 n :
  mesh_run (acts1 ++ acts2) n = (x <- mesh_run acts1 n;; y <- mesh_run acts2 x.1;; Ok (y.1, x.2 ++ y.2)).
Proof.
  revert n. induction acts1 as [|a acts1 IH]; intros n; cbn [mesh_run app].
  { cbn [gobind fst snd app]. by destruct (mesh_run acts2 n) as [[? ?]| |]. }
  destruct (mesh_step a n) as [[n1 o1]| |]; cbn [gobind]; [|done|done]. rewrite IH.
  destruct (mesh_run acts1 _) as [[n2 o2]| |]; cbn [gobind]; [|done|done].
  destruct (mesh_run acts2 _) as [[n3 o3]| |]; cbn [gobind fst snd]; [|done|done]. by rewrite app_assoc.
Qed.

Lemma start_ok local repo :
  Topology.Topology.topo_ok repo → mesh_ok (start local repo) ∧ counted (start local repo) ∧ pending (start local repo) = [].
Proof.
  intros Hr. split; [|split; [|done]].
  - constructor; try done; simpl; [apply (NewRegistry_inv local)|lia].
  - intros c. unfold sent_on. simpl. rewrite lookup_empty. done.
Qed.

(** Every session that the API counts is shown. *)
Lemma connectivity_counts n : mesh_ok n → length (GetConnectivity n) = CountConnections n.
Proof.
  intros Hk. unfold GetConnectivity, CountConnections.
  assert (H : Forall (λ s, is_Some (Conn s)) (ListActive (m_registry n))).
  { apply Forall_forall. intros s ([k t] & -> & Hin)%list_elem_of_fmap. apply elem_of_map_range in Hin.
    destruct (mo_conn _ Hk _ _ Hin) as (c & Hc & _). by exists c. }
  induction H as [|s l [c Hc] _ IH]; [done|]. cbn [omap list_omap]. rewrite Hc. cbn. by rewrite IH.
Qed.

(** ** The bytes *)

Lemma step_bytes a n n1 out id : mesh_step a n = Ok (n1, out) → (∀ data, a ≠ MPacket id data) →
  m_heap n1 !! id = m_heap n !! id ∧ ∀ x, x ∈ out → x.2.2 = shown (m_heap n) x.2.1.
Proof.
  assert (Hnone : ∀ n', m_heap n' = m_heap n → m_heap n' !! id = m_heap n !! id ∧ ∀ x : datagram, x ∈ [] → x.2.2 = shown (m_heap n) x.2.1).
  { intros n' ->. split; [done|]. by intros x ?%not_elem_of_nil. }
  assert (Hh : ∀ now ref grpc pc n', handle_connection now ref grpc pc n = Ok n' → m_heap n' = m_heap n).
  { intros now ref grpc pc n'. unfold handle_connection. destruct (HandleConnection _ _ _ _ _ _) as [[[? ?] ?]| |]; [|done..]. by intros [= <-]. }
  destruct a as [now ref grpc res|now ref grpc pc|done pick msg|w pick|id' data|c data|s|]; cbn [mesh_step]; intros E Hne.
  - destruct (m_accepting n); [|injection E as <- <-; by apply Hnone]. destruct res as [pc|e|]; [| |done]; cbn [accept_turn] in E.
    + case_decide; [injection E as <- <-; by apply Hnone|]. destruct (handle_connection now ref grpc pc n) as [n'| |] eqn:Eh; [|done..].
      injection E as <- <-. by eapply Hnone, Hh.
    + injection E as <- <-. by apply Hnone.
  - destruct (handle_connection now ref grpc pc n) as [n'| |] eqn:Eh; [|done..]. injection E as <- <-. by eapply Hnone, Hh.
  - destruct (SendDatagram _ _ _ _) as [[? ?]|]; injection E as <- <-; by apply Hnone.
  - unfold worker_turn in E. destruct (m_workers n !! w) as [[msg|c d|]|].
    + destruct (Get _ _) as [peer|]; [destruct (Conn peer); [|done]|]; injection E as <- <-; by apply Hnone.
    + injection E as <- <-. split; [done|]. by intros x ->%list_elem_of_singleton.
    + injection E as <- <-. by apply Hnone.
    + destruct (m_done n && _); [injection E as <- <-; by apply Hnone|]. destruct (toMeshClients n); injection E as <- <-; by apply Hnone.
  - injection E as <- <-. split; [|by intros x ?%not_elem_of_nil]. simpl. unfold write_buffer. rewrite lookup_insert_ne; [done|].
    intros ->. by destruct (Hne data).
  - injection E as <- <-. by apply Hnone.
  - injection E as <- <-. by apply Hnone.
  - unfold shutdown in E. destruct (m_closeOnce n); [injection E as <- <-; by apply Hnone|].
    destruct (Close _); [|done..]. injection E as <- <-. by apply Hnone.
Qed.

(** As long as nobody writes a buffer, a datagram from it carries what it showed. *)
Lemma run_bytes acts n n' out id : mesh_run acts n = Ok (n', out) → (∀ data, MPacket id data ∉ acts) →
  ∀ x, x ∈ out → x.2.1.1 = id → x.2.2 = shown (m_heap n) x.2.1.
Proof.
  revert n out. induction acts as [|a acts IH]; intros n out; cbn [mesh_run]; [by intros [= _ <-] _ x ?%not_elem_of_nil|].
  destruct (mesh_step a n) as [[n1 o1]| |] eqn:E1; [|done..]. cbn [gobind fst]. destruct (mesh_run acts n1) as [[n2 o2]| |] eqn:E2; [|done..].
  cbn [gobind fst snd]. intros [= <- <-] Hno x [Hx|Hx]%elem_of_app Ex.
  - destruct (step_bytes a n n1 o1 id E1) as [_ H]; [intros data ->; apply (Hno data), list_elem_of_here|by apply H].
  - destruct (step_bytes a n n1 o1 id E1) as [Eh _]; [intros data ->; apply (Hno data), list_elem_of_here|].
    rewrite (IH n1 o2 E2) by (try done; intros data Hin; apply (Hno data); by right). unfold shown. by rewrite Ex, Eh.
Qed.

(** A dial that a node which is over has made. *)
Lemma dial_when_over acts n n' out now ref grpc pc :
  mesh_ok n → counted n → m_closeOnce n = true → Forall wf_act acts → MDial now ref grpc pc ∈ acts →
  mesh_run acts n = Ok (n', out) → c_ref pc ∈ conns_closed (m_registry n').
Proof.
  intros Hk Hc Ho Hw Hin. apply list_elem_of_split in Hin as (l1 & l2 & ->).
  apply Forall_app in Hw as [Hw1 [Hpc Hw2]%Forall_cons]. rewrite mesh_run_app.
  destruct (mesh_run_progress l1 n Hk Hc Hw1) as (n1 & o1 & -> & P1). cbn [gobind mesh_run mesh_step fst].
  destruct (handle_progress now ref grpc pc n1 (pr_ok _ _ _ _ P1) (progress_counted _ _ _ _ P1) Hpc) as (n2 & -> & P2 & Hcl).
  cbn [gobind fst].
  destruct (mesh_run_progress l2 n2 (pr_ok _ _ _ _ P2) (progress_counted _ _ _ _ P2) Hw2) as (n3 & o3 & -> & P3).
  cbn [gobind]. intros [= <- _]. apply (pr_closed _ _ _ _ P3), Hcl. by apply (pr_over _ _ _ _ P1).
Qed.

(** One message of the queue. *)
Definition reaches (n : MeshNode) (msg : RemoteMessage) : option datagram :=
  s ← Get (m_registry n) (TargetNodeID msg); c ← Conn s; Some (c, (Data msg, shown (m_heap n) (Data msg))).

Lemma worker_one w pick msg q n :
  mesh_ok n → m_done n = false → m_workers n !! w = None → toMeshClients n = msg :: q →
  ∃ k ss, (k ≤ 3)%nat ∧
    mesh_run (replicate k (MWorker w pick)) n =
      Ok (set_counters (set_queue n q (m_workers n)) ss (m_recv n), option_list (reaches n msg)).
Proof.
  intros Hk Hd Hw Eq. unfold reaches, Get.
  destruct (sessions (m_registry n) !! TargetNodeID msg) as [s|] eqn:Es.
  - destruct (mo_conn _ Hk _ _ Es) as (c & Ec & _). exists 3%nat. eexists. split; [lia|].
    cbn [replicate mesh_run mesh_step]. unfold worker_turn. rewrite Hw, Hd, Eq. cbn [andb gobind fst snd]. simpl m_workers.
    rewrite lookup_insert_eq. cbn [set_queue m_registry]. unfold Get. rewrite Es, Ec. cbn [gobind fst snd]. simpl m_workers.
    rewrite lookup_insert_eq. cbn [gobind fst snd set_counters set_queue m_workers]. simpl.
    rewrite insert_insert_eq, (delete_insert_id _ _ _ Hw), Ec. reflexivity.
  - exists 2%nat, (m_sent n). split; [lia|].
    cbn [replicate mesh_run mesh_step]. unfold worker_turn. rewrite Hw, Hd, Eq. cbn [andb gobind fst snd]. simpl m_workers.
    rewrite lookup_insert_eq. cbn [set_queue m_registry]. unfold Get. rewrite Es. cbn [gobind fst snd]. simpl.
    rewrite (delete_insert_id _ _ _ Hw). reflexivity.
Qed.

Lemma worker_drains_spec w pick q n :
  mesh_ok n → m_done n = false → m_workers n !! w = None → toMeshClients n = q →
  ∃ k ss, (k ≤ 3 * length q)%nat ∧
    mesh_run (replicate k (MWorker w pick)) n = Ok (set_counters (set_queue n [] (m_workers n)) ss (m_recv n), omap (reaches n) q).
Proof.
  revert n. induction q as [|msg q IH]; intros n Hk Hd Hw Eq.
  { exists 0%nat, (m_sent n). split; [simpl; lia|]. destruct n; simpl in *; by subst. }
  destruct (worker_one w pick msg q n Hk Hd Hw Eq) as (k1 & ss1 & Hk1 & E1).
  set (n1 := set_counters _ ss1 _) in E1. pose proof (mo_queue _ Hk) as Hlen. rewrite Eq in Hlen. simpl in Hlen.
  assert (Hn1 : mesh_ok n1).
  { destruct (mesh_ok_queue n q (m_workers n) Hk) as []; [lia| |by constructor]. intros w' c d ?. left. by exists w', d. }
  destruct (IH n1 Hn1 Hd Hw eq_refl) as (k2 & ss2 & Hk2 & E2). exists (k1 + k2)%nat, ss2. split; [simpl; lia|].
  rewrite replicate_add, mesh_run_app, E1. cbn [gobind fst snd]. rewrite E2. cbn [gobind fst snd omap list_omap].
  change (reaches n1) with (reaches n). by destruct (reaches n msg).
Qed.

Context `{CR : Crypto}.

Lemma new_starts cert repo n0 : NewWithTransport true cert repo = Ok n0 → ∃ id, n0 = start id repo.
Proof. unfold NewWithTransport. simpl. destruct (extractLocalPeerID cert); [|done|done]. intros [= <-]. by eexists. Qed.

(** C12: datagrams go where they are addressed.  Whatever happens to a node that
    [NewWithTransport] made (connections accepted and dialled, messages asked for,
    turns of any number of workers in any interleaving, packets that the router copies
    into its buffers, datagrams received, sessions ended, the shutdown), nothing panics;
    a datagram that is handed to a connection is the slice of one message for the peer
    at the other end, and with the messages still waiting none is handed over more often
    than it was asked for; its bytes are those that the buffer of the slice has shown
    since the router last copied a packet into it, at the latest before the handing
    over (which can be another packet than the one that was queued:
    [queued_datagram_is_overwritten]); nothing is sent to the node itself; the counters
    of the connections are the lengths handed over, as 64-bit counters; the queue stays
    within its capacity; and the API shows each session that it counts. *)
Theorem datagrams_go_where_addressed cert repo n0 acts :
  Topology.Topology.topo_ok repo → NewWithTransport true cert repo = Ok n0 → Forall wf_act acts →
  ∃ n out, mesh_run acts n0 = Ok (n, out) ∧
    (delivered <$> out) ++ pending n ⊆+ asked acts ∧
    (∀ pre post n1 out1 out2, acts = pre ++ post → mesh_run pre n0 = Ok (n1, out1) → out = out1 ++ out2 →
       ∀ x, x ∈ out2 → (∀ data, MPacket x.2.1.1 data ∉ post) → x.2.2 = shown (m_heap n1) x.2.1) ∧
    Forall (λ x, c_id x.1 ≠ m_localID n0) out ∧
    (∀ c, sent_on n c = u64 (bytes_for c out)) ∧
    (length (toMeshClients n) ≤ 1000)%nat ∧ length (ListConnectedNodes n) = CountConnections n.
Proof.
  intros Hr E Hw. destruct (new_starts _ _ _ E) as [id ->]. destruct (start_ok id repo Hr) as (Hk & Hc & Hp).
  destruct (mesh_run_progress acts _ Hk Hc Hw) as (n & out & Erun & P). exists n, out. split; [done|].
  split; [|split; [|split; [apply P|split; [|split]]]].
  - pose proof (pr_msgs _ _ _ _ P) as H. by rewrite Hp in H.
  - intros pre post n1 out1 out2 -> E1 Eo x Hx Hno. rewrite mesh_run_app, E1 in Erun. cbn [gobind fst snd] in Erun.
    destruct (mesh_run post n1) as [[n2 o2]| |] eqn:E2; [|done..]. cbn [gobind fst snd] in Erun. injection Erun as _ Eo2.
    rewrite <- Eo2 in Eo. apply app_inv_head in Eo as ->. by eapply run_bytes.
  - intros c. rewrite (pr_sent _ _ _ _ P). unfold sent_on. simpl. by rewrite lookup_empty.
  - apply (mo_queue _ (pr_ok _ _ _ _ P)).
  - unfold ListConnectedNodes. rewrite length_fmap. apply connectivity_counts, P.
Qed.

(** C28: the shutdown is final.  Once a node has been shut down, whatever happens
    afterwards, its context is over and it listens no more, its registry is closed
    and has no session, the API shows no connection; a datagram that a worker still
    hands over goes to a connection that was closed by the shutdown at the latest;
    and a connection that is dialled afterwards is closed. *)
Theorem shutdown_is_final cert repo n0 acts acts' :
  Topology.Topology.topo_ok repo → NewWithTransport true cert repo = Ok n0 → Forall wf_act (acts ++ MShutdown :: acts') →
  ∃ n1 out1 n2 out2, mesh_run (acts ++ [MShutdown]) n0 = Ok (n1, out1) ∧ mesh_run acts' n1 = Ok (n2, out2) ∧
    m_done n2 = true ∧ m_listening n2 = false ∧ closed (m_registry n2) = true ∧ sessions (m_registry n2) = ∅ ∧
    GetConnectivity n2 = [] ∧
    (∀ c, c ∈ out2.*1 → c_ref c ∈ conns_closed (m_registry n1)) ∧
    ∀ now ref grpc pc, MDial now ref grpc pc ∈ acts' → c_ref pc ∈ conns_closed (m_registry n2).
Proof.
  intros Hr E [Hw [_ Hw']%Forall_cons]%Forall_app. destruct (new_starts _ _ _ E) as [id ->].
  destruct (start_ok id repo Hr) as (Hk0 & Hc0 & _).
  destruct (mesh_run_progress acts _ Hk0 Hc0 Hw) as (n & out & Erun & P).
  destruct (shutdown_progress n (pr_ok _ _ _ _ P) (progress_counted _ _ _ _ P)) as (n1 & E1 & P1 & Ho).
  pose proof (pr_ok _ _ _ _ P1) as Hk1. pose proof (progress_counted _ _ _ _ P1) as Hc1.
  destruct (mesh_run_progress acts' n1 Hk1 Hc1 Hw') as (n2 & out2 & E2 & P2).
  destruct (pr_over _ _ _ _ P2 Ho) as [Ho2 Huse]. pose proof (pr_ok _ _ _ _ P2) as Hk2.
  destruct (mo_over _ Hk2 Ho2) as (? & ? & Hcl & _). destruct (rk_closed _ (mo_reg _ Hk2) Hcl) as [Es _].
  exists n1, (out ++ []), n2, out2. split.
  { rewrite mesh_run_app, Erun. cbn [gobind fst snd mesh_run mesh_step]. by rewrite E1. }
  do 5 (split; [done|]). split; [|split].
  - unfold GetConnectivity, ListActive. by rewrite map_range_empty.
  - intros c Hin. destruct (Huse c (or_introl Hin)) as (w & d & Hw1).
    destruct (mo_workers _ Hk1 _ _ _ Hw1) as [_ [(s & Hs & _)|?]]; [|done].
    destruct (mo_over _ Hk1 Ho) as (_ & _ & Hcl1 & _). destruct (rk_closed _ (mo_reg _ Hk1) Hcl1) as [E3 _].
    by rewrite E3, lookup_empty in Hs.
  - intros now ref grpc pc Hin. by eapply (dial_when_over acts' n1).
Qed.

(** C29: a worker empties the queue.  In any reachable state of a node that is not shut
    down, with a worker that waits, that worker alone, in at most three turns a message,
    takes every message of the queue and hands over those whose peer has a session, in
    the order of the queue, each to the connection of that session, with the bytes that
    its buffer shows. *)
Theorem worker_drains_queue cert repo n0 acts n out w pick :
  Topology.Topology.topo_ok repo → NewWithTransport true cert repo = Ok n0 → Forall wf_act acts →
  mesh_run acts n0 = Ok (n, out) → m_done n = false → m_workers n !! w = None →
  ∃ k n', (k ≤ 3 * length (toMeshClients n))%nat ∧
    mesh_run (replicate k (MWorker w pick)) n = Ok (n', omap (reaches n) (toMeshClients n)) ∧
    toMeshClients n' = [] ∧ m_registry n' = m_registry n ∧ m_workers n' !! w = None.
Proof.
  intros Hr E Hw Erun Hd Hidle. destruct (new_starts _ _ _ E) as [id ->]. destruct (start_ok id repo Hr) as (Hk & Hc & _).
  destruct (mesh_run_progress acts _ Hk Hc Hw) as (n' & out' & E' & P). rewrite E' in Erun. injection Erun as -> ->.
  destruct (worker_drains_spec w pick _ n (pr_ok _ _ _ _ P) Hd Hidle eq_refl) as (k & ss & Hle & Ek).
  exists k. eexists. split; [done|]. split; [exact Ek|]. by split_and!.
Qed.

End NodeSpec.

(** * Witnesses *)

(** A digest of 32 bytes, and certificates that are their key. *)
#[local] Instance demo_crypto : Crypto := {
  ParseCertificate der := match der with [] => Err "empty" | _ => Ok der end;
  sha256 k := take 32 ((λ b, b `mod` 256)%Z <$> k ++ replicate 32 0%Z) }.

#[local] Instance demo_crypto_laws : CryptoLaws.
Proof.
  constructor. intros k. cbn [sha256 demo_crypto]. split.
  - rewrite length_take, length_fmap, length_app, length_replicate. lia.
  - apply Forall_take, Forall_fmap, Forall_forall. intros b _. by apply Z.mod_pos_bound.
Qed.

Lemma identity_agrees_witness :
  ∃ id, extractLocalPeerID (mkCert [[7; 8]%Z] None) = Ok id ∧
    wrapConnection 3 [[7; 8]%Z] "10.0.0.1:9000" true = Ok (mkConn 3 id "10.0.0.1:9000" true).
Proof.
  destruct (identity_agrees (mkCert [[7; 8]%Z] None) [7; 8]%Z 3 "10.0.0.1:9000" true []) as (id & ? & _ & ? & _);
    [|by exists id].
  exists [7; 8]%Z, []. split_and!; [reflexivity|reflexivity|by left].
Defined.

Definition demo_cert : Certificate := mkCert [[1]%Z] (Some [1]%Z).
Definition demo_repo : Topology.Topology.inMemoryState := Topology.Topology.newInMemoryState.
Definition demo_node : MeshNode := match NewWithTransport true demo_cert demo_repo with Ok n => n | _ => start "" demo_repo end.
Definition demo_peer : PeerConnection := mkConn 5 "peer" "10.0.0.2:9000" true.
Definition demo_acts : list act :=
  [MDial 0 1 (Some 2%nat) demo_peer; MPacket 4 [1; 2; 3]%Z; MEnqueue false false (mkMsg "peer" 7 (4, 3)%nat);
   MPacket 6 [4]%Z; MEnqueue false false (mkMsg "nobody" 8 (6, 1)%nat)].
Definition demo_sends : list act := [MWorker 0 false; MWorker 0 false; MWorker 1 false; MWorker 0 false; MWorker 1 false].

(** [SendDatagram] has queued a slice of the packet, the router has released the
    message and copied the next packet into it: the peer gets that one. *)
Lemma queued_datagram_is_overwritten :
  (x <- mesh_run (demo_acts ++ [MPacket 4 [9; 9; 9]%Z] ++ demo_sends) demo_node;; Ok x.2) = Ok [(demo_peer, ((4, 3)%nat, [9; 9; 9]%Z))].
Proof. vm_compute. reflexivity. Qed.

#[local] Ltac demo_wf := unfold demo_acts, demo_sends; cbn [app]; repeat (apply Forall_cons; split; [done|]); by apply Forall_nil.

Lemma demo_repo_ok : Topology.Topology.topo_ok demo_repo.
Proof. apply Topology.Topology.new_state_ok. Qed.

Lemma datagrams_go_where_addressed_witness :
  ∃ n out, mesh_run (demo_acts ++ demo_sends) demo_node = Ok (n, out) ∧
    (delivered <$> out) ++ pending n ⊆+ [("peer"%string, (4, 3)%nat); ("nobody"%string, (6, 1)%nat)] ∧
    (∀ c, sent_on n c = u64 (bytes_for c out)).
Proof.
  destruct (datagrams_go_where_addressed demo_cert demo_repo demo_node (demo_acts ++ demo_sends) demo_repo_ok eq_refl)
    as (n & out & E & Hs & _ & _ & Hc & _); [demo_wf|].
  exists n, out. split; [exact E|]. split; [exact Hs|exact Hc].
Defined.

Lemma shutdown_is_final_witness :
  ∃ n2 out2, GetConnectivity n2 = [] ∧ closed (m_registry n2) = true ∧ out2 = [(demo_peer, ((4, 3)%nat, [1; 2; 3]%Z))] ∧
    c_ref demo_peer ∈ conns_closed (m_registry n2).
Proof.
  destruct (shutdown_is_final demo_cert demo_repo demo_node (demo_acts ++ [MWorker 0 false; MWorker 0 false]) [MWorker 0 false; MDial 9 3 (Some 4%nat) demo_peer]
    demo_repo_ok eq_refl) as (n1 & o1 & n2 & o2 & E1 & E2 & _ & _ & Hcl & _ & Hg & _ & Hd); [demo_wf|].
  exists n2, o2. split; [done|]. split; [done|]. split.
  - assert (H : (x <- mesh_run ((demo_acts ++ [MWorker 0 false; MWorker 0 false]) ++ [MShutdown]) demo_node;;
      y <- mesh_run [MWorker 0 false; MDial 9 3 (Some 4%nat) demo_peer] x.1;; Ok y.2) = Ok [(demo_peer, ((4, 3)%nat, [1; 2; 3]%Z))]) by (vm_compute; reflexivity).
    rewrite E1 in H. cbn [gobind fst] in H. rewrite E2 in H. cbn [gobind snd] in H.
    injection H as H. exact H.
  - apply (Hd 9%Z 3%nat (Some 4%nat)). apply list_elem_of_further, list_elem_of_here.
Defined.

Lemma worker_drains_queue_witness :
  ∃ n out k n', mesh_run demo_acts demo_node = Ok (n, out) ∧ (k ≤ 6)%nat ∧
    mesh_run (replicate k (MWorker 0 true)) n = Ok (n', [(demo_peer, ((4, 3)%nat, [1; 2; 3]%Z))]).
Proof.
  destruct (mesh_run demo_acts demo_node) as [[n out]|e|] eqn:E; [|by vm_compute in E..].
  assert (Hn : (x <- mesh_run demo_acts demo_node;; Ok (toMeshClients x.1, omap (reaches x.1) (toMeshClients x.1), m_workers x.1 !! 0%nat, m_done x.1)) =
    Ok ([mkMsg "peer" 7 (4, 3)%nat; mkMsg "nobody" 8 (6, 1)%nat], [(demo_peer, ((4, 3)%nat, [1; 2; 3]%Z))], None, false)) by (vm_compute; reflexivity).
  rewrite E in Hn. cbn [gobind fst] in Hn. injection Hn as Hq Ho Hw Hd.
  destruct (worker_drains_queue demo_cert demo_repo demo_node demo_acts n out 0 true demo_repo_ok eq_refl ltac:(demo_wf) E Hd Hw)
    as (k & n' & Hk & Er & _).
  exists n, out, k, n'. split; [reflexivity|]. rewrite Hq in Hk. split; [exact Hk|]. rewrite <- Ho. exact Er.
Defined.

End MeshNode.
