(* ===== verification/MeshTransport.v ===== *)
(** * The QUIC transport of the mesh (pkg/mesh/transport, internal/utils/quictransport)

    Who may join: the TLS configurations that [NewQuicTransport] sets up (quic.go),
    over the certificates of Certs.v, with the identities of MeshNode.v; and which
    sockets the transport holds.  crypto/tls is the interface [TLS]; what quic-go
    and the network yield are arguments.  Last, the listener of
    internal/utils/quictransport (bistream.go), which no package uses any more:
    session/listener.go (Session.v) has replaced it. *)
From S2P Require Import Prelude Broker Topology Session Encodings MeshNode Certs.
Import Broker Session.Session Certs.Certs.

Open Scope go_scope.

(** [tls.Config], as far as it is set; [VerifyConnection] sees the time and the
    certificates of the peer. *)
Record tls_Config := mkTlsConfig {
  tc_Certificates : list tls_Certificate;
  NextProtos : list string;
  InsecureSkipVerify : bool;
  ClientCAs : list Cert;
  RequireAndVerifyClientCert : bool;
  VerifyConnection : Z → list Cert → gores () }.

(** The end of a handshake as [client] or as server, with the protocols and the
    certificates that the peer presents; [proved]: the peer has signed the handshake
    with the key of its first certificate. *)
Class TLS := {
  handshake (client : bool) (cfg : tls_Config) (now : Z) (protos : list string) (peer : list Cert) (proved : bool) : gores () }.

(** Documented: [VerifyConnection] runs in every handshake, after the normal
    verification, and its error ends it; a client that sets [InsecureSkipVerify]
    verifies nothing else, a server that requires client certificates verifies
    them against [ClientCAs]; QUIC needs a common protocol; whoever shows a
    certificate proves that it has its key. *)
Class TLSLaws `{TLS} `{X509} := {
  tls_sound client cfg now protos peer proved :
    handshake client cfg now protos peer proved = Ok tt → VerifyConnection cfg now peer = Ok tt ∧ (peer ≠ [] → proved = true);
  tls_complete (client : bool) cfg now protos leaf :
    (∃ p, p ∈ NextProtos cfg ∧ p ∈ protos) → VerifyConnection cfg now [leaf] = Ok tt →
    (if client then InsecureSkipVerify cfg = true
     else RequireAndVerifyClientCert cfg = true ∧ Verify (ClientCAs cfg) now [ExtKeyUsageClientAuth] leaf = Ok tt) →
    handshake client cfg now protos [leaf] true = Ok tt }.

Module MeshTransport.

(** ** Configuration *)

Record quic_Config := mkQuicConfig {
  MaxIncomingUniStreams : Z; MaxIncomingStreams : Z; MaxIdleTimeout : Z; KeepAlivePeriod : Z; EnableDatagrams : bool }.

Definition the_quicConfig : quic_Config := mkQuicConfig 50 200 (30 * second) (10 * second) true.

(** [verifyPeer] of [NewQuicTransport] *)
Definition verifyPeer `{X509} (caPool : list Cert) (now : Z) (peer : list Cert) : gores () :=
  match peer with
  | [] => Err "peer certificate is missing"
  | leaf :: _ => Verify caPool now [ExtKeyUsageServerAuth; ExtKeyUsageClientAuth] leaf
  end.

Definition the_clientTLS `{X509} (cert : tls_Certificate) (caPool : list Cert) : tls_Config :=
  mkTlsConfig [cert] ["mesh-quic"%string] true [] false (verifyPeer caPool).
Definition the_serverTLS `{X509} (cert : tls_Certificate) (caPool : list Cert) : tls_Config :=
  mkTlsConfig [cert] ["mesh-quic"%string] false caPool true (verifyPeer caPool).

(** ** The transport *)

(** The UDP sockets that are open and those on which QUIC accepts connections. *)
Record Sockets := mkSockets { udp_open : gset nat; quic_listening : gset nat }.

Record quicTransport := mkQuic {
  qt_socket : nat; clientTLS : tls_Config; serverTLS : tls_Config; quicConfig : quic_Config; localAddr : string }.

(** A connection as the network yields it, before TLS accepts the peer. *)
Record RawConn := mkRaw { rc_ref : nat; rc_protos : list string; rc_peer : list Cert; rc_proved : bool; rc_remote : string }.

(** What an end with a configuration presents (crypto/tls: the first chain of
    [Certificates], a client only to a server that asks for it), and whether its key
    is that of the certificate. *)
Definition presented `{X509} (cfg : tls_Config) : list Cert :=
  match tc_Certificates cfg with
  | [] => []
  | c :: _ => omap (λ der, match ParseX509 der with Ok x => Some x | _ => None end) (Certificate c)
  end.
Definition proves `{X509} (cfg : tls_Config) : bool :=
  match tc_Certificates cfg, presented cfg with
  | c :: _, leaf :: _ => bool_decide (Public (PrivateKey c) = PubKey leaf)
  | _, _ => false
  end.

(** The connection between two ends, as the end with [cfg] sees it. *)
Definition connection `{X509} (client : bool) (cfg other : tls_Config) (ref : nat) (remote : string) : RawConn :=
  mkRaw ref (NextProtos other) (if client || RequireAndVerifyClientCert cfg then presented other else []) (proves other) remote.

Section Quic.
Context `{XX : X509} `{TT : TLS} `{CR : Crypto}.

(** [resolved], [socket] and [listened] are the outcomes of the three calls. *)
Definition NewQuicTransport (resolved : gores ()) (socket : gores (nat * string)) (listened : gores ())
    (cert : tls_Certificate) (caPool : list Cert) (w : Sockets) : gores quicTransport * Sockets :=
  match resolved with
  | Err _ => (Err "resolve udp addr error", w)
  | Panic => (Panic, w)
  | Ok _ =>
      match socket with
      | Err _ => (Err "listen udp error", w)
      | Panic => (Panic, w)
      | Ok (udpConn, addr) =>
          let w1 := mkSockets ({[udpConn]} ∪ udp_open w) (quic_listening w) in
          match listened with
          | Err _ => (Err "quic listen error", mkSockets (udp_open w1 ∖ {[udpConn]}) (quic_listening w1))
          | Panic => (Panic, w1)
          | Ok _ =>
              (Ok (mkQuic udpConn (the_clientTLS cert caPool) (the_serverTLS cert caPool) the_quicConfig addr),
               mkSockets (udp_open w1) ({[udpConn]} ∪ quic_listening w1))
          end
      end
  end.

(** What TLS accepts is wrapped with the identity of the peer's first certificate. *)
Definition established (client : bool) (cfg : tls_Config) (now : Z) (rc : RawConn) : gores PeerConnection :=
  x <- handshake client cfg now (rc_protos rc) (rc_peer rc) (rc_proved rc);;
  MeshNode.wrapConnection (rc_ref rc) (PubKey <$> rc_peer rc) (rc_remote rc) client.

Definition Dial (t : quicTransport) (now : Z) (resolved : gores ()) (dialed : gores RawConn) : gores PeerConnection :=
  x <- resolved;; rc <- dialed;; established true (clientTLS t) now rc.

Definition Accept (t : quicTransport) (now : Z) (accepted : gores RawConn) : gores PeerConnection :=
  rc <- accepted;; established false (serverTLS t) now rc.

Definition Addr (t : quicTransport) : string := localAddr t.
Definition Close (t : quicTransport) (w : Sockets) : Sockets :=
  mkSockets (udp_open w) (quic_listening w ∖ {[qt_socket t]}).

(** ** Streams as connections (adapter.go) *)

Record biStreamConnAdapter := NewBiStreamConn { ba_stream : nat; ba_local : string; ba_remote : string }.

(** [stream] and [local] are what the connection yields. *)
Definition OpenStream (stream : gores nat) (local : string) (pc : PeerConnection) : gores biStreamConnAdapter :=
  s <- stream;; Ok (NewBiStreamConn s local (c_remote pc)).
Definition AcceptStream (stream : gores nat) (local : string) (pc : PeerConnection) : gores biStreamConnAdapter :=
  s <- stream;; Ok (NewBiStreamConn s local (c_remote pc)).

(** A turn of the first routine of [runSession]: a stream of the peer goes to the
    listener of the gRPC server; [None] ends the routine. *)
Definition stream_turn (pick_done : bool) (stream : gores nat) (local : string) (pc : PeerConnection)
    (lis : Session.Session.BiStreamLis) : option Session.Session.BiStreamLis :=
  match AcceptStream stream local pc with
  | Ok conn => Some (Session.Session.PushConnection pick_done lis (ba_stream conn))
  | _ => None
  end.

(** The certificates that a node shows, and the identity it takes. *)
Definition node_cert (c : tls_Certificate) : MeshNode.Certificate := MeshNode.mkCert (Certificate c) None.

(** mesh/node.go, [New]: the node over a QUIC transport of its own. *)
Definition New (resolved : gores ()) (socket : gores (nat * string)) (listened : gores ()) (cert : tls_Certificate)
    (caPool : list Cert) (repo : Topology.Topology.inMemoryState) (w : Sockets) : gores (MeshNode.MeshNode * quicTransport) * Sockets :=
  match NewQuicTransport resolved socket listened cert caPool w with
  | (Ok quicTr, w1) =>
      match MeshNode.NewWithTransport true (node_cert cert) repo with
      | Ok node => (Ok (node, quicTr), w1)
      | Err e => (Err e, Close quicTr w1)
      | Panic => (Panic, w1)
      end
  | (Err _, w1) => (Err "failed to initialize transport", w1)
  | (Panic, w1) => (Panic, w1)
  end.

End Quic.

(** ** The listener of internal/utils/quictransport *)

(** A channel of one place; [None] is the nil connection of a closed channel. *)
Record BiStreamLis := mkLis { bl_done : bool; bl_once : bool; streamChan : chan nat }.

Definition NewBiStreamLis : BiStreamLis := mkLis false false (make_chan 1).

Definition LisClose (l : BiStreamLis) : gores BiStreamLis :=
  if bl_once l then Ok l else
  c <- close_chan (streamChan l);; Ok (mkLis (bl_done l) true c).

(** The outer [None] is a wait; [pick_done] is the choice when both are ready. *)
Definition LisAccept (pick_done : bool) (l : BiStreamLis) : option (gores (option nat) * BiStreamLis) :=
  match ch_buf (streamChan l) with
  | conn :: rest =>
      if bl_done l && pick_done then Some (Err "listener closed", l)
      else Some (Ok (Some conn), mkLis (bl_done l) (bl_once l) (mkChan rest (ch_cap (streamChan l)) (ch_closed (streamChan l))))
  | [] =>
      if ch_closed (streamChan l) && negb (bl_done l && pick_done) then Some (Ok None, l)
      else if bl_done l then Some (Err "listener closed", l) else None
  end.

Definition LisPushConnection (l : BiStreamLis) (conn : nat) : option (gores BiStreamLis) :=
  if ch_closed (streamChan l) then Some Panic else
  if decide (length (ch_buf (streamChan l)) < ch_cap (streamChan l))%nat
  then Some (Ok (mkLis (bl_done l) (bl_once l) (mkChan (ch_buf (streamChan l) ++ [conn]) (ch_cap (streamChan l)) false)))
  else None.

(** * Specification *)

Section Specs.
Context {XX : X509} {XL : X509Laws} {TT : TLS} {TL : TLSLaws}.
Context (sha : list Z → list Z).

(** The identities use the same parser of certificates. *)
#[local] Instance node_crypto : Crypto := {|
  ParseCertificate der := match ParseX509 der with Ok c => Ok (PubKey c) | Err e => Err e | Panic => Panic end;
  sha256 := sha |}.

Lemma established_spec client cfg caPool now rc pc :
  VerifyConnection cfg = verifyPeer caPool → established client cfg now rc = Ok pc →
  ∃ leaf rest, rc_peer rc = leaf :: rest ∧
    Verify caPool now [ExtKeyUsageServerAuth; ExtKeyUsageClientAuth] leaf = Ok tt ∧ rc_proved rc = true ∧
    pc = mkConn (rc_ref rc) (MeshNode.peer_id (PubKey leaf)) (rc_remote rc) client.
Proof.
  intros Hv. unfold established. destruct (handshake _ _ _ _ _ _) as [[]| |] eqn:E; try done. apply tls_sound in E as [E Hp]. rewrite Hv in E.
  unfold verifyPeer in E. destruct (rc_peer rc) as [|leaf rest]; [done|]. cbn [gobind]. intros [= <-]. exists leaf, rest.
  split; [done|]. split; [done|]. split; [by apply Hp|done].
Qed.

(** C20: only nodes of the mesh get in.  Whatever connection a transport hands out,
    dialled or accepted, its peer has shown a certificate that the roots of this node
    vouch for at that moment, signed by one of them and within its validity, and has
    proved that it holds its key; and the connection carries the identity of that key. *)
Theorem only_verified_peers resolved socket listened cert caPool w t w' now rs rc pc :
  NewQuicTransport resolved socket listened cert caPool w = (Ok t, w') →
  Dial t now rs rc = Ok pc ∨ Accept t now rc = Ok pc →
  ∃ raw leaf rest, rc = Ok raw ∧ rc_peer raw = leaf :: rest ∧
    Verify caPool now [ExtKeyUsageServerAuth; ExtKeyUsageClientAuth] leaf = Ok tt ∧ valid_at now leaf ∧
    (∃ root, root ∈ caPool ∧ (leaf = root ∨ CheckSignatureFrom leaf root = true)) ∧ rc_proved raw = true ∧
    c_id pc = MeshNode.peer_id (PubKey leaf).
Proof.
  intros Hn Hc. assert (Hv : VerifyConnection (clientTLS t) = verifyPeer caPool ∧ VerifyConnection (serverTLS t) = verifyPeer caPool).
  { revert Hn. unfold NewQuicTransport. destruct resolved; try done. destruct socket as [[u addr]| |]; try done.
    destruct listened; try done. by intros [= <- _]. }
  assert (He : ∃ raw client cfg, rc = Ok raw ∧ VerifyConnection cfg = verifyPeer caPool ∧ established client cfg now raw = Ok pc).
  { destruct Hv as [V1 V2]. destruct Hc as [Hc|Hc].
    - unfold Dial in Hc. destruct rs, rc; try done. by eexists _, true, (clientTLS t).
    - unfold Accept in Hc. destruct rc; try done. by eexists _, false, (serverTLS t). }
  destruct He as (raw & client & cfg & -> & Hcfg & E). destruct (established_spec _ _ _ _ _ _ Hcfg E) as (leaf & rest & Ep & Ev & Hp & ->).
  destruct (x_verify_sound _ _ _ _ Ev) as [Hval Hroot]. exists raw, leaf, rest. by split_and!.
Qed.

(** A node whose certificate the root issued passes either end. *)
Lemma issued_admitted client root priv c cert now rc :
  is_root root priv → CheckSignatureFrom c root = true → ExtKeyUsages c = [ExtKeyUsageServerAuth; ExtKeyUsageClientAuth] →
  valid_at now c → valid_at now root → rc_peer rc = [c] → rc_proved rc = true → rc_protos rc = ["mesh-quic"%string] →
  established client (if client : bool then the_clientTLS cert [root] else the_serverTLS cert [root]) now rc =
    Ok (mkConn (rc_ref rc) (MeshNode.peer_id (PubKey c)) (rc_remote rc) client).
Proof.
  intros Hr Hs Hu Hv Hvr Ep Epv Epr. unfold established. rewrite Ep, Epr, Epv.
  assert (Hver : ∀ us, ExtKeyUsageServerAuth ∈ us ∨ ExtKeyUsageClientAuth ∈ us → Verify [root] now us c = Ok tt).
  { intros us Hus. apply (x_verify_complete _ _ _ _ root); [apply list_elem_of_here|done|done|done| |apply Hr|apply Hr].
    destruct Hus as [H|H]; [exists ExtKeyUsageServerAuth|exists ExtKeyUsageClientAuth]; (split; [done|]); rewrite Hu;
      [apply list_elem_of_here|apply list_elem_of_further, list_elem_of_here]. }
  rewrite tls_complete; [done|..].
  - exists "mesh-quic"%string. destruct client; split; apply list_elem_of_here.
  - assert (Hvp : verifyPeer [root] now [c] = Ok tt) by (apply Hver; left; apply list_elem_of_here). by destruct client.
  - destruct client; [done|]. split; [done|]. apply Hver. right. apply list_elem_of_here.
Qed.

(** C21: two nodes of a mesh find each other.  Let one root issue certificates to two
    nodes.  While the certificates are valid, whatever the names in them, a connection
    between the two, in which each end presents what the TLS configuration of its
    transport has, passes the checks of both: the one that dials and the one that
    accepts each get a connection, and know the other by the identity which that node
    takes for itself. *)
Theorem issued_nodes_meet rootSerial rootNow rootPriv
    serialA nowA privA nameA (ipA : list Z) serialB nowB privB nameB (ipB : list Z) :
  (0 <= rootSerial ∧ 0 <= serialA ∧ 0 <= serialB)%Z → clock_ok rootNow → clock_ok nowA → clock_ok nowB →
  ascii_name nameA → ascii_name nameB → length ipA = 4%nat ∨ length ipA = 16%nat → length ipB = 4%nat ∨ length ipB = 16%nat →
  ∃ root ca cb, GenerateRootCA (Ok rootSerial) rootNow rootPriv = Ok root ∧
    IssueNodeCertificate (Ok serialA) nowA privA nameA root rootPriv ipA = Ok ca ∧
    IssueNodeCertificate (Ok serialB) nowB privB nameB root rootPriv ipB = Ok cb ∧
    ∀ now refA refB addrA addrB rs ta tb sa sb w wa wb,
      window now rootNow 3650 → window now nowA 365 → window now nowB 365 →
      NewQuicTransport (Ok tt) (Ok sa) (Ok tt) (X509ToTLSCertificate ca privA) [root] w = (Ok ta, wa) →
      NewQuicTransport (Ok tt) (Ok sb) (Ok tt) (X509ToTLSCertificate cb privB) [root] w = (Ok tb, wb) →
      ∃ idA idB,
        MeshNode.extractLocalPeerID (node_cert (X509ToTLSCertificate ca privA)) = Ok idA ∧
        MeshNode.extractLocalPeerID (node_cert (X509ToTLSCertificate cb privB)) = Ok idB ∧
        Dial ta now (Ok rs) (Ok (connection true (clientTLS ta) (serverTLS tb) refB addrB)) = Ok (mkConn refB idB addrB true) ∧
        Accept tb now (Ok (connection false (serverTLS tb) (clientTLS ta) refA addrA)) = Ok (mkConn refA idA addrA false).
Proof.
  intros (Hs & HsA & HsB) Hc HcA HcB HnA HnB HipA HipB.
  destruct (GenerateRootCA_spec rootSerial rootNow rootPriv Hs Hc) as (root & Er & Hr & Hvr).
  destruct (IssueNodeCertificate_spec serialA nowA privA nameA root rootPriv ipA HsA HcA HnA HipA Hr)
    as (ca & Ea & Ka & Pa & Sa & Ua & _ & _ & Va).
  destruct (IssueNodeCertificate_spec serialB nowB privB nameB root rootPriv ipB HsB HcB HnB HipB Hr)
    as (cb & Eb & Kb & Pb & Sb & Ub & _ & _ & Vb).
  exists root, ca, cb. do 3 (split; [done|]). intros now refA refB addrA addrB rs ta tb [sa la] [sb lb] w wa wb Hw HwA HwB Eta Etb.
  injection Eta as <- _. injection Etb as <- _. exists (MeshNode.peer_id (PubKey ca)), (MeshNode.peer_id (PubKey cb)).
  split; [unfold MeshNode.extractLocalPeerID; simpl; by rewrite Pa|].
  split; [unfold MeshNode.extractLocalPeerID; simpl; by rewrite Pb|]. unfold Dial, Accept. cbn [gobind clientTLS serverTLS].
  assert (Hpres : ∀ c k, ParseX509 (Raw c) = Ok c → PubKey c = Public k → ∀ cfg, tc_Certificates cfg = [X509ToTLSCertificate c k] →
    presented cfg = [c] ∧ proves cfg = true).
  { intros c k Pc Kc cfg Ecfg. assert (Ep : presented cfg = [c]) by (unfold presented; rewrite Ecfg; simpl; by rewrite Pc).
    split; [exact Ep|]. unfold proves. rewrite Ecfg, Ep. simpl. by apply bool_decide_eq_true. }
  destruct (Hpres ca privA Pa Ka (the_clientTLS (X509ToTLSCertificate ca privA) [root]) eq_refl) as [Ep1 Ev1].
  destruct (Hpres cb privB Pb Kb (the_serverTLS (X509ToTLSCertificate cb privB) [root]) eq_refl) as [Ep2 Ev2]. split.
  - apply (issued_admitted true root rootPriv cb); auto.
  - apply (issued_admitted false root rootPriv ca); auto.
Qed.

(** What the transport of a node holds.  A [New] whose transport fails changes
    nothing; a node that is there owns a socket on which it accepts connections; and
    whoever closes a transport, [New] for a certificate it cannot read or the
    node's shutdown, stops accepting but leaves the UDP socket open. *)
Theorem transport_sockets resolved socket listened cert caPool repo w :
  (∀ s addr, socket = Ok (s, addr) → s ∉ udp_open w) → quic_listening w ⊆ udp_open w → resolved ≠ Panic → socket ≠ Panic → listened ≠ Panic →
  match New resolved socket listened cert caPool repo w with
  | (Ok (_, t), w') => qt_socket t ∉ udp_open w ∧ udp_open w' = {[qt_socket t]} ∪ udp_open w ∧
      quic_listening w' = {[qt_socket t]} ∪ quic_listening w ∧
      Close t w' = mkSockets ({[qt_socket t]} ∪ udp_open w) (quic_listening w)
  | (Err _, w') => w' = w ∨ ∃ s addr, socket = Ok (s, addr) ∧ resolved = Ok tt ∧ listened = Ok tt ∧
      is_ok (MeshNode.extractLocalPeerID (node_cert cert)) = false ∧ w' = mkSockets ({[s]} ∪ udp_open w) (quic_listening w)
  | (Panic, _) => MeshNode.extractLocalPeerID (node_cert cert) = Panic
  end.
Proof.
  intros Hfresh Hsub Hr Hsk Hl. unfold New, NewQuicTransport, MeshNode.NewWithTransport. destruct w as [u q]. simpl in Hfresh, Hsub.
  destruct resolved as [[]|?|]; [|by left|done]. destruct socket as [[s addr]|?|]; [|by left|done]. specialize (Hfresh s addr eq_refl).
  assert (Hq : ({[s]} ∪ q) ∖ {[s]} = q) by set_solver.
  destruct listened as [[]|?|]; [|left; simpl; f_equal; set_solver|done]. cbn [negb].
  destruct (MeshNode.extractLocalPeerID _) as [id|e|]; [|right|done].
  - unfold Close. simpl. by rewrite Hq.
  - exists s, addr. unfold Close. simpl. by rewrite Hq.
Qed.

End Specs.

(** The listener that was replaced: once closed, an [Accept] on the drained channel
    returns no error and no connection, and the next push panics; the one of
    Session.v refuses both. *)
Theorem closed_listener_yields_nil l conn pick :
  ch_closed (streamChan l) = false → bl_once l = false → ch_buf (streamChan l) = [] → bl_done l = false →
  ∃ l', LisClose l = Ok l' ∧ LisAccept pick l' = Some (Ok None, l') ∧ LisPushConnection l' conn = Some Panic ∧
    Session.Session.Accept pick (CloseLis Session.Session.NewBiStreamLis) = Some (Err "context canceled", CloseLis Session.Session.NewBiStreamLis).
Proof.
  intros Hc Ho Hb Hd. unfold LisClose, close_chan. rewrite Ho, Hc. eexists. split; [reflexivity|].
  unfold LisAccept, LisPushConnection. simpl. rewrite Hb, Hd. by destruct pick.
Qed.

(** * Witnesses *)

#[local] Existing Instances toy_x509 toy_x509_laws.

(** TLS that does what the configuration says. *)
#[local] Instance toy_tls : TLS := {|
  handshake client cfg now protos peer proved :=
    if negb proved && negb (bool_decide (length peer = 0%nat)) then Err "tls: invalid signature" else
    if negb (existsb (λ p, existsb (String.eqb p) protos) (NextProtos cfg)) then Err "tls: no application protocol" else
    x <- (if client : bool then Ok tt else
          if RequireAndVerifyClientCert cfg then
            match peer with leaf :: _ => Verify (ClientCAs cfg) now [ExtKeyUsageClientAuth] leaf | [] => Err "tls: no certificate" end
          else Ok tt);;
    VerifyConnection cfg now peer |}.

#[local] Instance toy_tls_laws : TLSLaws.
Proof.
  constructor.
  - intros client cfg now protos peer proved. cbn [handshake toy_tls]. destruct (negb proved && _) eqn:Ep; [done|].
    assert (Hp : peer ≠ [] → proved = true) by (intros Hne; destruct proved; [done|]; by destruct peer).
    destruct (negb (existsb _ _)); [done|]. intros E. split; [|exact Hp]. clear Hp Ep. revert E. destruct client; [by cbn|]. cbn [gobind].
    destruct (RequireAndVerifyClientCert cfg); [|done]. destruct peer as [|leaf rest]; [done|]. by destruct (Verify _ _ _ leaf).
  - intros client cfg now protos leaf (p & Hp & Hq) Hv Hcl. cbn [handshake toy_tls].
    assert (existsb (λ p, existsb (String.eqb p) protos) (NextProtos cfg) = true) as ->.
    { apply existsb_exists. exists p. split; [by apply list_elem_of_In|]. apply existsb_exists. exists p.
      split; [by apply list_elem_of_In|]. apply String.eqb_refl. }
    cbn [negb]. destruct client; [done|]. destruct Hcl as [-> ->]. done.
Qed.

Definition demo_now : Z := (1700000000 * second)%Z.
Lemma demo_clock : clock_ok demo_now.
Proof. unfold clock_ok, hour, demo_now, second. lia. Qed.
Lemma demo_window days : (days = 365 ∨ days = 3650)%Z → window demo_now demo_now days.
Proof. unfold window, hour, demo_now, second. lia. Qed.

Lemma demo_name n : (n = "a" ∨ n = "b")%string → ascii_name n.
Proof. intros [-> | ->]; apply Forall_singleton; vm_compute; lia. Qed.

Lemma issued_nodes_meet_witness :
  ∃ root cb ta tb idB, GenerateRootCA (Ok 1%Z) demo_now [9]%Z = Ok root ∧
    IssueNodeCertificate (Ok 3%Z) demo_now [8]%Z "b" root [9]%Z [10; 2; 0; 0]%Z = Ok cb ∧
    Dial (CR := node_crypto (λ k, k)) ta demo_now (Ok tt) (Ok (connection true (clientTLS ta) (serverTLS tb) 5 "1.2.3.4:1")) =
      Ok (mkConn 5 idB "1.2.3.4:1" true).
Proof.
  destruct (issued_nodes_meet (λ k, k) 1 demo_now [9]%Z 2 demo_now [7]%Z "a" [10; 1; 0; 0]%Z 3 demo_now [8]%Z "b" [10; 2; 0; 0]%Z)
    as (root & ca & cb & Er & Ea & Eb & H);
    [lia|apply demo_clock|apply demo_clock|apply demo_clock|apply demo_name; by left|apply demo_name; by right|by left|by left|].
  destruct (H demo_now 4%nat 5%nat "1.2.3.5:1"%string "1.2.3.4:1"%string tt _ _ (1%nat, "x"%string) (2%nat, "y"%string) (mkSockets ∅ ∅) _ _
    (demo_window 3650 ltac:(by right)) (demo_window 365 ltac:(by left)) (demo_window 365 ltac:(by left)) eq_refl eq_refl)
    as (idA & idB & _ & _ & Ed & _).
  exists root, cb. eexists _, _, idB. split; [exact Er|]. split; [exact Eb|exact Ed].
Defined.

Definition demo_root : Cert := match GenerateRootCA (Ok 1%Z) demo_now [9]%Z with Ok r => r | _ => root_template 0 0 end.
Definition demo_node_cert : Cert :=
  match IssueNodeCertificate (Ok 3%Z) demo_now [8]%Z "b" demo_root [9]%Z [10; 2; 0; 0]%Z with Ok c => c | _ => root_template 0 0 end.
Definition demo_transport : quicTransport :=
  mkQuic 1 (the_clientTLS (X509ToTLSCertificate demo_node_cert [8]%Z) [demo_root])
    (the_serverTLS (X509ToTLSCertificate demo_node_cert [8]%Z) [demo_root]) the_quicConfig "x".
Definition demo_raw : RawConn := mkRaw 5 ["mesh-quic"%string] [demo_node_cert] true "1.2.3.4:1".

Lemma only_verified_peers_witness :
  ∃ pc leaf, Accept (CR := node_crypto (λ k, k)) demo_transport demo_now (Ok demo_raw) = Ok pc ∧ valid_at demo_now leaf.
Proof.
  assert (E : is_ok (Accept (CR := node_crypto (λ k, k)) demo_transport demo_now (Ok demo_raw)) = true) by (vm_compute; reflexivity).
  destruct (Accept (CR := node_crypto (λ k, k)) demo_transport demo_now (Ok demo_raw)) as [pc| |] eqn:Ea; [|done|done].
  destruct (only_verified_peers (λ k, k) (Ok tt) (Ok (1%nat, "x"%string)) (Ok tt) (X509ToTLSCertificate demo_node_cert [8]%Z) [demo_root]
    (mkSockets ∅ ∅) demo_transport _ demo_now (Ok tt) (Ok demo_raw) pc eq_refl ltac:(right; exact Ea))
    as (raw & leaf & rest & _ & _ & _ & Hv & _).
  exists pc, leaf. split; [reflexivity|exact Hv].
Defined.

Lemma transport_sockets_witness :
  (New (CR := node_crypto (λ k, k)) (Ok tt) (Ok (3%nat, "x"%string)) (Ok tt) (mkTls [] []) [demo_root] Topology.Topology.newInMemoryState (mkSockets ∅ ∅)).2 =
    mkSockets ({[3%nat]} ∪ ∅) ∅.
Proof.
  destruct (transport_sockets (λ k, k) (Ok tt) (Ok (3%nat, "x"%string)) (Ok tt) (mkTls [] []) [demo_root] Topology.Topology.newInMemoryState (mkSockets ∅ ∅)
    ltac:(intros s addr _; set_solver) ltac:(set_solver) ltac:(done) ltac:(done) ltac:(done)) as [E|(s & addr & [= <- <-] & _ & _ & _ & E)].
  - discriminate (f_equal (λ w, bool_decide (3%nat ∈ udp_open w)) E).
  - exact E.
Defined.

Lemma closed_listener_yields_nil_witness : ∃ l', LisClose NewBiStreamLis = Ok l' ∧ LisPushConnection l' 5 = Some Panic.
Proof.
  destruct (closed_listener_yields_nil NewBiStreamLis 5 true eq_refl eq_refl eq_refl eq_refl) as (l' & E & _ & Hp & _).
  exists l'. split; [exact E|exact Hp].
Defined.

End MeshTransport.
