(* ===== verification/SessionLife.v ===== *)
(** * The life of the sessions of a node (pkg/mesh/session/engine.go)

    [HandleConnection] starts [runSession] for every session that the registry
    accepts: two routines that read streams and datagrams until one of them fails or
    the context ends, and then the deferred removal.  Here all of them run over one
    registry, in any order; what a datagram does to the router is in DataPlane.v. *)
From S2P Require Import Prelude Broker Topology Session MeshTransport.
Import Broker Topology.Topology Session.Session.

Open Scope go_scope.

Module SessionLife.

Section System.
Context `{MR : MapRange}.

(** A call of [runSession]: whether its context is cancelled, and which of its
    routines still run. *)
Record SessionRun := mkRun {
  rn_session : Session; rn_cancelled : bool; rn_streams : bool; rn_datagrams : bool }.

(** [en_next]: the identity of the next session; [en_accepted]: the sessions that
    the registry has accepted so far. *)
Record Engine := mkEngine {
  en_reg : sessionRegistry;
  en_repo : inMemoryState;
  en_lis : BiStreamLis;
  en_runs : gmap nat SessionRun;
  en_next : nat;
  en_accepted : list Session }.

Definition set_runs (e : Engine) (m : gmap nat SessionRun) : Engine :=
  mkEngine (en_reg e) (en_repo e) (en_lis e) m (en_next e) (en_accepted e).
Definition set_reg (e : Engine) (r : sessionRegistry) : Engine :=
  mkEngine r (en_repo e) (en_lis e) (en_runs e) (en_next e) (en_accepted e).

(** Each routine cancels the context when it ends; [wg.Wait] returns when both have. *)
Definition end_streams (run : SessionRun) : SessionRun := mkRun (rn_session run) true false (rn_datagrams run).
Definition end_datagrams (run : SessionRun) : SessionRun := mkRun (rn_session run) true (rn_streams run) false.
Definition wg_done (run : SessionRun) : bool := negb (rn_streams run) && negb (rn_datagrams run).

Inductive event :=
| Connect (now : Z) (grpc : option nat) (pc : PeerConnection)
| StreamTurn (ref : nat) (pick_done : bool) (stream : gores nat) (local : string)
| DatagramTurn (ref : nat) (received : bool)
| Finish (ref : nat)
| Lost (c : nat)
| Shutdown.

(** A turn of the first routine: [AcceptStream] yields a stream for the listener, or
    fails. *)
Definition stream_routine (pick_done : bool) (stream : gores nat) (local : string) (ref : nat) (run : SessionRun) (e : Engine) : Engine :=
  if negb (rn_streams run) then e else
  match Conn (rn_session run) with
  | None => e
  | Some pc =>
      match MeshTransport.MeshTransport.stream_turn pick_done stream local pc (en_lis e) with
      | Some lis => mkEngine (en_reg e) (en_repo e) lis (en_runs e) (en_next e) (en_accepted e)
      | None => set_runs e (<[ref := end_streams run]> (en_runs e))
      end
  end.

(** A turn of the second: [RecvDatagram] yields a packet, or fails. *)
Definition datagram_routine (received : bool) (ref : nat) (run : SessionRun) (e : Engine) : Engine :=
  if negb (rn_datagrams run) || received then e else set_runs e (<[ref := end_datagrams run]> (en_runs e)).

(** The end of [runSession], when both routines have returned. *)
Definition end_of_run (ref : nat) (run : SessionRun) (e : Engine) : Engine :=
  if wg_done run then set_runs (set_reg e (runSession_end (en_reg e) (rn_session run))) (delete ref (en_runs e)) else e.

Definition on_run (ref : nat) (f : SessionRun → Engine → Engine) (e : Engine) : Engine :=
  match en_runs e !! ref with Some run => f run e | None => e end.

Definition step (x : event) (e : Engine) : gores Engine :=
  match x with
  | Connect now grpc pc =>
      y <- HandleConnection now (en_next e) grpc pc (en_reg e) (en_repo e);;
      let '(started, reg, repo) := y in
      let s := mkSession (en_next e) (c_id pc) (Some pc) grpc 0 in
      Ok (mkEngine reg repo (en_lis e)
            (if (started : bool) then <[en_next e := mkRun (stamp s now) false true true]> (en_runs e) else en_runs e)
            (S (en_next e)) (if (started : bool) then s :: en_accepted e else en_accepted e))
  | StreamTurn ref pick stream local => Ok (on_run ref (stream_routine pick stream local ref) e)
  | DatagramTurn ref received => Ok (on_run ref (datagram_routine received ref) e)
  | Finish ref => Ok (on_run ref (end_of_run ref) e)
  | Lost c => Ok (set_reg e (close_conn (en_reg e) c))
  | Shutdown => r <- Close (en_reg e);; Ok (set_reg e r)
  end.

Fixpoint run (xs : list event) (e : Engine) : gores Engine :=
  match xs with
  | [] => Ok e
  | x :: rest => e1 <- step x e;; run rest e1
  end.

Definition new_engine (local : string) (repo : inMemoryState) : Engine :=
  mkEngine (NewRegistry local) repo NewBiStreamLis ∅ 0 [].

Lemma life_run_app xs ys e : run (xs ++ ys) e = (e1 <- run xs e;; run ys e1).
Proof. revert e. induction xs as [|x xs IH]; intros e; [done|]. simpl. destruct (step x e); [|done..]. apply IH. Qed.

(** * Specification *)

(** The connection of a session is closed. *)
Definition hung_up (e : Engine) (s : Session) : Prop := ∃ c, Conn s = Some c ∧ c_ref c ∈ conns_closed (en_reg e).
Definition same_session (s t : Session) : Prop := s_ref s = s_ref t ∧ PeerID s = PeerID t ∧ Conn s = Conn t.

Record life_ok (e : Engine) : Prop := {
  lo_reg : registry_inv (en_reg e, en_accepted e);
  lo_repo : topo_ok (en_repo e);
  lo_fresh s : s ∈ en_accepted e → (s_ref s < en_next e)%nat;
  lo_run ref rn : en_runs e !! ref = Some rn → s_ref (rn_session rn) = ref ∧
    ∃ s, s ∈ en_accepted e ∧ same_session s (rn_session rn);
  lo_conn ref rn : en_runs e !! ref = Some rn → is_Some (Conn (rn_session rn));
  lo_current k cur : sessions (en_reg e) !! k = Some cur → is_Some (en_runs e !! s_ref cur);
  lo_over s : s ∈ en_accepted e → en_runs e !! s_ref s = None → hung_up e s }.

Lemma engine_start_ok local repo : topo_ok repo → life_ok (new_engine local repo).
Proof.
  intros Hr. constructor; simpl; try done; [apply NewRegistry_inv|..]; try (by intros ? ?%not_elem_of_nil).
Qed.

(** The registry changes, and loses no session without closing it. *)
Lemma reg_changes e r :
  life_ok e → registry_inv (r, en_accepted e) →
  (∀ k cur, sessions r !! k = Some cur → sessions (en_reg e) !! k = Some cur) →
  conns_closed (en_reg e) ⊆ conns_closed r → life_ok (set_reg e r).
Proof.
  intros [H1 H2 H3 H4 H7 H5 H6] Hi Hs Hc. constructor; simpl; try done.
  - intros k cur Hk. by eapply H5, Hs.
  - intros s Hin Hn. destruct (H6 s Hin Hn) as (c & Ec & Hcl). exists c. split; [done|]. by apply Hc.
Qed.

(** A routine of a run ends. *)
Lemma run_changes e ref rn rn' :
  life_ok e → en_runs e !! ref = Some rn → rn_session rn' = rn_session rn → life_ok (set_runs e (<[ref := rn']> (en_runs e))).
Proof.
  intros [H1 H2 H3 H4 H7 H5 H6] Hr Es. constructor; simpl; try done.
  - intros ref2 rn2. rewrite lookup_insert. case_decide as Hd; [|apply H4]. intros [= <-]. subst ref2. rewrite Es. by apply H4.
  - intros ref2 rn2. rewrite lookup_insert. case_decide as Hd; [|apply H7]. intros [= <-]. rewrite Es. by apply (H7 ref).
  - intros k cur Hk. rewrite lookup_insert. case_decide; [by eexists|by eapply H5].
  - intros s Hin. rewrite lookup_insert. case_decide; [done|by apply H6].
Qed.

(** The connection is closed, or a run looks after it. *)
Definition looked_after (e : Engine) (pc : PeerConnection) : Prop :=
  c_ref pc ∈ conns_closed (en_reg e) ∨ ∃ ref rn, en_runs e !! ref = Some rn ∧ Conn (rn_session rn) = Some pc.

Lemma looked_after_stays e e' pc :
  life_ok e → conns_closed (en_reg e) ⊆ conns_closed (en_reg e') →
  (∀ ref rn, en_runs e !! ref = Some rn →
     (∃ rn', en_runs e' !! ref = Some rn' ∧ rn_session rn' = rn_session rn) ∨
     (∀ c, Conn (rn_session rn) = Some c → c_ref c ∈ conns_closed (en_reg e'))) →
  looked_after e pc → looked_after e' pc.
Proof.
  intros He Hsub Hr [Hc|(ref & rn & Hrn & Hpc)]; [left; by apply Hsub|].
  destruct (Hr ref rn Hrn) as [(rn' & Hrn' & Es)|Hcl]; [right; exists ref, rn'; by rewrite Es|left; by apply Hcl].
Qed.

(** Every step keeps the order, and what was looked after. *)
Definition progress (e e' : Engine) : Prop := life_ok e' ∧ ∀ pc, looked_after e pc → looked_after e' pc.

Lemma stay_step e : life_ok e → progress e e.
Proof. by split. Qed.

Lemma reg_progress e r :
  life_ok e → registry_inv (r, en_accepted e) →
  (∀ k cur, sessions r !! k = Some cur → sessions (en_reg e) !! k = Some cur) →
  conns_closed (en_reg e) ⊆ conns_closed r → progress e (set_reg e r).
Proof.
  intros He Hi Hs Hc. split; [by apply reg_changes|]. intros pc. apply looked_after_stays; [done|done|]. intros ref rn Hrn. left. by exists rn.
Qed.

Lemma run_progress e ref rn rn' :
  life_ok e → en_runs e !! ref = Some rn → rn_session rn' = rn_session rn → progress e (set_runs e (<[ref := rn']> (en_runs e))).
Proof.
  intros He Hr Es. split; [by eapply run_changes|]. intros pc. apply looked_after_stays; [done|done|]. intros ref2 rn2 H2. left. simpl.
  rewrite lookup_insert. case_decide as Hd; [subst ref2; exists rn'; split; [done|congruence]|by exists rn2].
Qed.

Lemma later_ok e repo n : life_ok e → topo_ok repo → (en_next e <= n)%nat →
  life_ok (mkEngine (en_reg e) repo (en_lis e) (en_runs e) n (en_accepted e)).
Proof. intros [H1 H2 H3 H4 H7 H5 H6] Hr Hn. constructor; simpl; try done. intros s Hs. specialize (H3 s Hs). lia. Qed.

Lemma connect_step now grpc pc e :
  life_ok e → ∃ e', step (Connect now grpc pc) e = Ok e' ∧ progress e e' ∧ looked_after e' pc.
Proof.
  intros He. pose proof He as [H1 H2 H3 H4 H7 H5 H6]. pose proof H1 as (Hr & _). cbn [step]. unfold HandleConnection.
  match goal with |- context [Topology.InsertMerge ?a ?b] => destruct (insert_merge_total a b H2) as (res & repo' & E & Hrepo); rewrite E; clear E end.
  cbn [gobind fst snd].
  assert (Hrej : ∀ r, sessions r = sessions (en_reg e) → conns_closed (en_reg e) ⊆ conns_closed r → reg_ok r → c_ref pc ∈ conns_closed r →
    let e' := mkEngine r repo' (en_lis e) (en_runs e) (S (en_next e)) (en_accepted e) in progress e e' ∧ looked_after e' pc).
  { intros r Es Hc Hok Hin e'. assert (Hi : registry_inv (r, en_accepted e)).
    { apply (inv_monotone (en_reg e)); [done|done|by rewrite Es| |done]. intros k cur x Hk. rewrite Es. congruence. }
    destruct (reg_progress e r He Hi) as [G1 G2]; [by rewrite Es|done|]. split; [|by left]. split.
    - apply (later_ok (set_reg e r) repo'); [done|done|simpl; lia].
    - intros pc' Hl. destruct (G2 pc' Hl) as [?|?]; [by left|by right]. }
  destruct grpc as [g|].
  2: { eexists. split; [reflexivity|]. apply Hrej; simpl; [done|set_solver| |set_solver]. destruct Hr as [K1 K2 K3]. by constructor. }
  set (s := mkSession (en_next e) (c_id pc) (Some pc) (Some g) 0).
  destruct (Add now (en_reg e) s) as [r'|er|] eqn:Ea; cbn [gobind].
  - destruct (registry_Add_spec _ _ _ _ Hr Ea) as (_ & _ & _ & _ & _ & Em & Hr' & _ & _ & Hcl).
    assert (Hnew : ∀ t, t ∈ en_accepted e → s_ref t ≠ en_next e) by (intros t Ht; specialize (H3 t Ht); lia).
    eexists. split; [reflexivity|]. split; [|right; exists (en_next e), (mkRun (stamp s now) false true true); simpl; by rewrite lookup_insert_eq].
    split.
    + constructor; simpl; [|done| | | | |].
      * apply (inv_add now (en_reg e)); [done| |done]. intros t Ht Href. by destruct (Hnew t Ht).
      * intros t [->|Ht]%elem_of_cons; [simpl; lia|]. specialize (H3 t Ht). lia.
      * intros ref rn. rewrite lookup_insert. case_decide as Hd.
        { intros [= <-]. subst ref. split; [done|]. exists s. split; [by left|done]. }
        intros Hrn. destruct (H4 ref rn Hrn) as [E1 (t & Ht & Hsame)]. split; [done|]. exists t. split; [by right|done].
      * intros ref rn. rewrite lookup_insert. case_decide; [intros [= <-]; by eexists|apply H7].
      * intros k cur. rewrite Em, !lookup_insert. case_decide; [intros [= <-]; rewrite decide_True by done; by eexists|].
        intros Hk. case_decide; [by eexists|by eapply H5].
      * intros t [->|Ht]%elem_of_cons; rewrite lookup_insert; [by rewrite decide_True|]. rewrite decide_False by (intros Heq; by apply (Hnew t Ht)).
        intros Hn. destruct (H6 t Ht Hn) as (c & Ec & Hin). exists c. split; [done|]. simpl. apply Hcl. by left.
    + intros pc'. apply looked_after_stays; [done|simpl; intros c Hc; apply Hcl; by left|]. intros ref rn Hrn. left. exists rn. simpl.
      rewrite lookup_insert_ne; [done|]. intros <-. destruct (H4 _ _ Hrn) as [E1 (t & Ht & (Href & _))]. apply (Hnew t Ht). congruence.
  - eexists. split; [reflexivity|]. apply Hrej; simpl; [done|set_solver| |set_solver]. destruct Hr as [K1 K2 K3]. by constructor.
  - by apply Add_no_panic in Ea.
Qed.

(** The removal closes the session, unless another has taken its place. *)
Lemma Remove_facts r acc s t :
  registry_inv (r, acc) → t ∈ acc → same_session t s →
  (∀ k cur, sessions (Remove r s) !! k = Some cur → sessions r !! k = Some cur ∧ s_ref cur ≠ s_ref s) ∧
  conns_closed r ⊆ conns_closed (Remove r s) ∧ ∃ c, Conn s = Some c ∧ c_ref c ∈ conns_closed (Remove r s).
Proof.
  intros Hi Ht (Eref & Eid & Ec). pose proof Hi as (Hr & Hacc & Hcur & Hfun). pose proof (Remove_inv r acc s Hi) as (_ & Hacc' & _).
  assert (Hkey : ∀ k cur, sessions r !! k = Some cur → s_ref cur = s_ref s → k = PeerID s).
  { intros k cur Hk Href. destruct (Hcur k cur Hk) as (u & Hu & Hur & _ & <-). destruct (Hfun u t Hu Ht ltac:(congruence)) as [-> _]. done. }
  assert (Hsub : (∀ k cur, sessions (Remove r s) !! k = Some cur → sessions r !! k = Some cur ∧ s_ref cur ≠ s_ref s) ∧
    conns_closed r ⊆ conns_closed (Remove r s)).
  { unfold Remove. case_decide as Hid.
    { split; [|done]. intros k cur Hk. split; [done|]. intros Href. pose proof (Hkey k cur Hk Href) as ->.
      by destruct (rk_key _ Hr _ _ Hk) as (_ & [] & _). }
    destruct (sessions r !! PeerID s) as [cur|] eqn:El.
    - case_decide as Hne.
      + split; [|done]. intros k cur' Hk. split; [done|]. intros Href. pose proof (Hkey k cur' Hk Href) as ->. congruence.
      + destruct (closeSession_same (set_sessions r (delete (PeerID s) (sessions r)) (reg_subs r)) cur) as (-> & _ & _ & _ & ->). simpl. split.
        * intros k cur'. rewrite lookup_delete_Some. intros [Hk Hk']. split; [done|]. intros Href. by destruct Hk; rewrite (Hkey k cur' Hk' Href).
        * destruct (Conn cur); set_solver.
    - split; [|done]. intros k cur Hk. split; [done|]. intros Href. pose proof (Hkey k cur Hk Href) as ->. congruence. }
  destruct Hsub as [H1 H2]. split; [done|]. split; [done|]. destruct (Hacc' t Ht) as [(cur & Hk & Href)|(c & Hc & Hin)].
  - destruct (H1 _ _ Hk) as [_ []]. congruence.
  - exists c. by rewrite <- Ec.
Qed.

Lemma end_of_run_progress e ref rn : life_ok e → en_runs e !! ref = Some rn → progress e (end_of_run ref rn e).
Proof.
  intros He Hrn. unfold end_of_run. destruct (wg_done rn); [|by apply stay_step]. pose proof He as [H1 H2 H3 H4 H7 H5 H6].
  destruct (H4 ref rn Hrn) as [Eref (t & Ht & Hsame)].
  destruct (Remove_facts (en_reg e) (en_accepted e) (rn_session rn) t H1 Ht Hsame) as (Hs & Hc & (c & Ec & Hin)).
  assert (Hover : ∀ c', Conn (rn_session rn) = Some c' → c_ref c' ∈ conns_closed (Remove (en_reg e) (rn_session rn))) by (intros c' Ec'; congruence).
  split.
  - constructor; simpl; try done; [by apply Remove_inv|..].
    + intros ref2 rn2 [_ H]%lookup_delete_Some. by apply H4.
    + intros ref2 rn2 [_ H]%lookup_delete_Some. by apply (H7 ref2).
    + intros k cur Hk. destruct (Hs k cur Hk) as [Hk' Hne]. rewrite lookup_delete_ne by congruence. by eapply H5.
    + intros u Hu. rewrite lookup_delete_None. intros [Hr|Hr].
      * destruct H1 as (_ & _ & _ & Hfun). destruct Hsame as (Es & _ & Ecs). destruct (Hfun u t Hu Ht ltac:(congruence)) as [_ Euc].
        exists c. split; [congruence|exact Hin].
      * destruct (H6 u Hu Hr) as (cu & Ecu & Hcu). exists cu. split; [done|]. by apply Hc.
  - intros pc. apply looked_after_stays; [done|exact Hc|]. intros ref2 rn2 H. simpl. destruct (decide (ref2 = ref)) as [->|Hne].
    + right. rewrite Hrn in H. injection H as <-. exact Hover.
    + left. exists rn2. by rewrite lookup_delete_ne.
Qed.

Lemma Close_facts r r' : reg_ok r → Close r = Ok r' →
  conns_closed r ⊆ conns_closed r' ∧ ∀ k cur, sessions r' !! k = Some cur → sessions r !! k = Some cur.
Proof.
  intros Hr. unfold Close. destruct (closed r); [by intros [= <-]|].
  destruct (close_all_ok (reg_subs r) (rk_subs _ Hr)) as (b & -> & _). cbn [gobind]. intros [= <-].
  destruct (closeSession_all (map_range (sessions r)).*2 (mkReg (localID r) ∅ b true (conns_closed r) (grpc_closed r))) as (E1 & _ & _ & _ & E5).
  split; [intros c Hc; apply E5; by left|]. intros k cur. rewrite E1. simpl. by rewrite lookup_empty.
Qed.

Lemma life_step x e :
  life_ok e → ∃ e', step x e = Ok e' ∧ progress e e' ∧ ∀ now grpc pc, x = Connect now grpc pc → looked_after e' pc.
Proof.
  intros He. destruct x as [now grpc pc|ref pick stream local|ref received|ref|c|].
  - destruct (connect_step now grpc pc e He) as (e' & E & Hp & Hl). exists e'. split; [done|]. split; [done|]. by intros ??? [= _ _ <-].
  - eexists. split; [reflexivity|]. split; [|done]. unfold on_run. destruct (en_runs e !! ref) as [rn|] eqn:Er; [|by apply stay_step].
    unfold stream_routine. destruct (negb _); [by apply stay_step|]. destruct (Conn (rn_session rn)) as [pc|]; [|by apply stay_step].
    destruct (MeshTransport.MeshTransport.stream_turn _ _ _ _ _) as [lis|].
    + destruct He. by split; [constructor|].
    + by apply (run_progress e ref rn).
  - eexists. split; [reflexivity|]. split; [|done]. unfold on_run. destruct (en_runs e !! ref) as [rn|] eqn:Er; [|by apply stay_step].
    unfold datagram_routine. destruct (_ || _); [by apply stay_step|]. by apply (run_progress e ref rn).
  - eexists. split; [reflexivity|]. split; [|done]. unfold on_run. destruct (en_runs e !! ref) as [rn|] eqn:Er; [|by apply stay_step].
    by apply end_of_run_progress.
  - eexists. split; [reflexivity|]. split; [|done]. apply reg_progress; [done|by apply close_conn_inv, He|done|simpl; set_solver].
  - pose proof (lo_reg _ He) as (Hr & _). cbn [step]. destruct (Close (en_reg e)) as [r'|er|] eqn:Ec; cbn [gobind].
    + eexists. split; [reflexivity|]. split; [|done]. destruct (Close_facts _ _ Hr Ec) as [Hc Hs].
      apply reg_progress; [done|by apply (Close_inv _ _ _ (lo_reg _ He) Ec)|done|done].
    + exfalso. unfold Close in Ec. destruct (closed (en_reg e)); [done|]. by destruct (close_all_ok _ (rk_subs _ Hr)) as (b & E & _); rewrite E in Ec.
    + exfalso. unfold Close in Ec. destruct (closed (en_reg e)); [done|]. by destruct (close_all_ok _ (rk_subs _ Hr)) as (b & E & _); rewrite E in Ec.
Qed.

Lemma life_run xs e :
  life_ok e → ∃ e', run xs e = Ok e' ∧ progress e e' ∧ ∀ now grpc pc, Connect now grpc pc ∈ xs → looked_after e' pc.
Proof.
  revert e. induction xs as [|x xs IH]; intros e He.
  { exists e. split; [done|]. split; [by apply stay_step|]. by intros ??? ?%not_elem_of_nil. }
  destruct (life_step x e He) as (e1 & E1 & [He1 Hp1] & Hx). destruct (IH e1 He1) as (e2 & E2 & [He2 Hp2] & Hxs).
  exists e2. simpl. rewrite E1. split; [exact E2|]. split; [split; [done|]; intros pc Hl; by apply Hp2, Hp1|].
  intros now grpc pc [<-|Hin]%elem_of_cons; [apply Hp2; by eapply Hx|by eapply Hxs].
Qed.

(** ** The end of a session *)

(** Both routines fail, as they do on a lost connection or a cancelled context, and
    [runSession] returns. *)
Definition ending_of (ref : nat) : list event :=
  [StreamTurn ref true (Err "context canceled") ""; DatagramTurn ref false; Finish ref].
Definition ending (e : Engine) : list event := elements (dom (en_runs e)) ≫= ending_of.

Lemma end_one ref rn e : life_ok e → en_runs e !! ref = Some rn →
  ∃ e', run (ending_of ref) e = Ok e' ∧ progress e e' ∧ en_runs e' = delete ref (en_runs e) ∧ en_reg e' = Remove (en_reg e) (rn_session rn).
Proof.
  intros He Hr. destruct (life_run (ending_of ref) e He) as (e' & E & Hp & _). exists e'. split; [exact E|]. split; [exact Hp|].
  destruct (lo_conn _ He ref rn Hr) as [pc Epc]. unfold ending_of, run in E. cbn [step gobind] in E. injection E as <-.
  set (e1 := on_run ref (stream_routine true (Err "context canceled") "" ref) e).
  assert (Hs : ∃ rn1, en_runs e1 = <[ref := rn1]> (en_runs e) ∧ rn_streams rn1 = false ∧ rn_session rn1 = rn_session rn ∧ en_reg e1 = en_reg e).
  { subst e1. unfold on_run. rewrite Hr. unfold stream_routine. destruct (rn_streams rn) eqn:Es; cbn [negb]; [rewrite Epc; by exists (end_streams rn)|].
    exists rn. by rewrite insert_id. }
  destruct Hs as (rn1 & E1 & Es1 & En1 & Eg1).
  set (e2 := on_run ref (datagram_routine false ref) e1).
  assert (Hd : ∃ rn2, en_runs e2 = <[ref := rn2]> (en_runs e) ∧ wg_done rn2 = true ∧ rn_session rn2 = rn_session rn ∧ en_reg e2 = en_reg e).
  { subst e2. unfold on_run. rewrite E1, lookup_insert_eq. unfold datagram_routine. destruct (rn_datagrams rn1) eqn:Ed; cbn [negb orb].
    - exists (end_datagrams rn1). simpl. rewrite E1, insert_insert_eq. split; [done|]. unfold wg_done. simpl. by rewrite Es1.
    - exists rn1. rewrite E1. split; [done|]. unfold wg_done. by rewrite Es1, Ed. }
  destruct Hd as (rn2 & E2 & Ew & En2 & Eg2). clearbody e2.
  unfold on_run. rewrite E2, lookup_insert_eq. unfold end_of_run. rewrite Ew. simpl. by rewrite E2, delete_insert_eq, En2, Eg2.
Qed.

Lemma end_all l e : life_ok e → NoDup l → (∀ ref, ref ∈ l → is_Some (en_runs e !! ref)) →
  ∃ e', run (l ≫= ending_of) e = Ok e' ∧ progress e e' ∧ ∀ ref, en_runs e' !! ref = if decide (ref ∈ l) then None else en_runs e !! ref.
Proof.
  revert e. induction l as [|ref l IH]; intros e He HN Hl; [exists e; split; [done|]; split; [by apply stay_step|done]|].
  apply NoDup_cons in HN as [Hni HN]. destruct (Hl ref (list_elem_of_here _ _)) as [rn Hr].
  destruct (end_one ref rn e He Hr) as (e1 & E1 & [He1 Hp1] & Em & _). destruct (IH e1 He1 HN) as (e2 & E2 & [He2 Hp2] & Hm).
  { intros ref2 H2. rewrite Em, lookup_delete_ne by congruence. apply Hl. by right. }
  exists e2. cbn [mbind list_bind]. rewrite life_run_app, E1. split; [exact E2|].
  split; [split; [done|]; intros pc Hpc; by apply Hp2, Hp1|]. intros k. rewrite Hm, Em, lookup_delete.
  repeat case_decide; set_solver.
Qed.

(** The removal of a session leaves the others, and the one that took its place. *)
Lemma Remove_keeps r s k cur : sessions r !! k = Some cur → s_ref cur ≠ s_ref s → sessions (Remove r s) !! k = Some cur.
Proof.
  intros Hk Hne. unfold Remove. case_decide; [done|]. destruct (sessions r !! PeerID s) as [cur'|] eqn:El; [|done]. case_decide as Hd; [done|].
  destruct (closeSession_same (set_sessions r (delete (PeerID s) (sessions r)) (reg_subs r)) cur') as (-> & _). simpl.
  rewrite lookup_delete_ne; [done|]. intros <-. rewrite El in Hk. injection Hk as <-. by destruct Hd.
Qed.

(** Sessions once accepted stay in the history. *)
Lemma accepted_stays xs e e' t : run xs e = Ok e' → t ∈ en_accepted e → t ∈ en_accepted e'.
Proof.
  revert e. induction xs as [|x xs IH]; intros e; simpl; [by intros [= <-]|]. destruct (step x e) as [e1| |] eqn:E1; [|done..].
  cbn [gobind]. intros E Ht. apply (IH e1 E). revert E1. clear IH E.
  destruct x as [now grpc pc|ref pick stream local|ref received|ref|c|]; cbn [step].
  - destruct (HandleConnection _ _ _ _ _ _) as [[[started reg] repo]| |]; [|done..]. intros [= <-]. simpl. destruct started; [by right|done].
  - intros [= <-]. unfold on_run. destruct (en_runs e !! ref); [|done]. unfold stream_routine. destruct (negb _); [done|].
    destruct (Conn _); [|done]. by destruct (MeshTransport.MeshTransport.stream_turn _ _ _ _ _).
  - intros [= <-]. unfold on_run. destruct (en_runs e !! ref); [|done]. unfold datagram_routine. by destruct (_ || _).
  - intros [= <-]. unfold on_run. destruct (en_runs e !! ref) as [rn|]; [|done]. unfold end_of_run. by destruct (wg_done rn).
  - by intros [= <-].
  - destruct (Close (en_reg e)); [|done..]. by intros [= <-].
Qed.

(** C9: no session and no connection is left behind.  Whatever connections come, with
    whatever identities and directions, whatever their routines read, whichever
    connections break, in any order: every session of the registry has its
    [runSession], and every connection that was ever handed to [HandleConnection] is
    closed or has one.  When the two routines of a session fail, its [runSession] ends,
    its connection is closed and the registry holds the sessions that it held, but this
    one: another session that has taken its place stays.  And after a shutdown, when the routines of all
    sessions have failed, no [runSession] is left, the registry is empty and every
    connection is closed. *)
Theorem nothing_left_behind local repo xs :
  topo_ok repo →
  ∃ e, run xs (new_engine local repo) = Ok e ∧
    (∀ k cur, sessions (en_reg e) !! k = Some cur → is_Some (en_runs e !! s_ref cur)) ∧
    (∀ now grpc pc, Connect now grpc pc ∈ xs → looked_after e pc) ∧
    (∀ ref rn, en_runs e !! ref = Some rn → ∃ e' c, run (ending_of ref) e = Ok e' ∧ en_runs e' = delete ref (en_runs e) ∧
       Conn (rn_session rn) = Some c ∧ c_ref c ∈ conns_closed (en_reg e') ∧
       ∀ k cur, sessions (en_reg e') !! k = Some cur ↔ sessions (en_reg e) !! k = Some cur ∧ s_ref cur ≠ ref) ∧
    ∃ e', run (Shutdown :: ending e) e = Ok e' ∧ en_runs e' = ∅ ∧ sessions (en_reg e') = ∅ ∧
      ∀ now grpc pc, Connect now grpc pc ∈ xs → c_ref pc ∈ conns_closed (en_reg e').
Proof.
  intros Hrepo. destruct (life_run xs _ (engine_start_ok local repo Hrepo)) as (e & E & [He _] & Hx). exists e.
  split; [exact E|]. split; [apply (lo_current _ He)|]. split; [exact Hx|]. split.
  - intros ref rn Hr. destruct (end_one ref rn e He Hr) as (e' & E' & [He' Hp'] & Em & Eg). destruct (lo_conn _ He ref rn Hr) as [c Ec].
    destruct (lo_run _ He ref rn Hr) as [Eref (t & Ht & (Htr & Hid & Htc))].
    exists e', c. split; [exact E'|]. split; [exact Em|]. split; [exact Ec|].
    assert (Hacc : t ∈ en_accepted e') by by eapply accepted_stays.
    destruct (lo_over _ He' t Hacc) as (c' & Ec' & Hin); [rewrite Em, Htr, Eref; apply lookup_delete_eq|].
    split; [congruence|].
    destruct (Remove_facts (en_reg e) (en_accepted e) (rn_session rn) t (lo_reg _ He) Ht ltac:(split; [|split]; [done|apply Hid|done])) as (Hs & _).
    intros k cur. rewrite Eg, <- Eref. split; [apply Hs|]. intros [Hk Hne]. by apply Remove_keeps.
  - destruct (life_step Shutdown e He) as (e1 & E1 & [He1 Hp1] & _).
    assert (Er : en_runs e1 = en_runs e) by (cbn [step] in E1; destruct (Close (en_reg e)); [|done..]; by injection E1 as <-).
    destruct (end_all (elements (dom (en_runs e))) e1 He1) as (e' & E' & [He' Hp'] & Hm).
    { apply NoDup_elements. }
    { intros ref Hin%elem_of_elements. rewrite Er. by apply elem_of_dom. }
    assert (Hempty : ∀ ref, en_runs e' !! ref = None).
    { intros ref. rewrite Hm, Er. case_decide as Hd; [done|]. rewrite elem_of_elements in Hd. by apply not_elem_of_dom. }
    exists e'. split; [cbn [run]; rewrite E1; exact E'|]. split; [by apply map_empty|]. split.
    + apply map_empty. intros k. destruct (sessions (en_reg e') !! k) as [cur|] eqn:Ek; [|done].
      destruct (lo_current _ He' k cur Ek) as [rn Hr]. by rewrite Hempty in Hr.
    + intros now grpc pc Hin. destruct (Hp' pc (Hp1 pc (Hx now grpc pc Hin))) as [?|(ref & rn & Hr & _)]; [done|]. by rewrite Hempty in Hr.
Qed.

End System.

(** ** Witnesses *)

(** A peer connects twice, the node that it is loses one of the connections, and the
    node shuts down. *)
Definition demo_life : list event :=
  [Connect 0 (Some 1%nat) (demo_conn 1 false); Connect 5 (Some 2%nat) (demo_conn 2 true); Lost 1; DatagramTurn 0 false; Finish 0].

Lemma nothing_left_behind_witness :
  ∃ e e', run demo_life (new_engine "bbbb" newInMemoryState) = Ok e ∧ run (Shutdown :: ending e) e = Ok e' ∧
    1%nat ∈ conns_closed (en_reg e') ∧ 2%nat ∈ conns_closed (en_reg e').
Proof.
  destruct (nothing_left_behind "bbbb" newInMemoryState demo_life new_state_ok) as (e & E & _ & _ & _ & (e' & E' & _ & _ & H)).
  exists e, e'. split; [exact E|]. split; [exact E'|]. split.
  - apply (H 0%Z (Some 1%nat) (demo_conn 1 false)). left.
  - apply (H 5%Z (Some 2%nat) (demo_conn 2 true)). right. left.
Defined.

(** After the second connection the registry holds one session, the one that both ends
    keep; its routines run. *)
Example two_dials_leave_one :
  match run demo_life (new_engine "bbbb" newInMemoryState) with
  | Ok e => (s_ref <$> sessions (en_reg e) !! "aaaa"%string, rn_streams <$> en_runs e !! 1%nat)
  | _ => (None, None)
  end = (Some 1%nat, Some true).
Proof. by vm_compute. Qed.

End SessionLife.
