(* ===== verification/DiscoveryLife.v ===== *)
(** * Discovery at work (pkg/mesh/discovery/syncer.go)

    [Start] runs three loops and starts a goroutine for every dial: the ticker that
    refreshes the store, the loop over announced peers, the dials of the bootstrap
    addresses.  Here they run over the sessions of SessionLife.v and the store of
    Topology.v, in any order, while streams of other nodes change the store and other
    nodes connect. *)
From S2P Require Import Prelude Broker Topology Session Discovery SessionStreams SessionLife.
Import Broker Topology.Topology Session.Session Discovery.Discovery SessionStreams.SessionStreams SessionLife.SessionLife.

Open Scope go_scope.

Module DiscoveryLife.

Notation engine_step := SessionLife.SessionLife.step.

Section System.
Context `{MR : MapRange}.

(** [ds_go]: the goroutines of [connect] that have not begun, by address;
    [ds_flight]: those that are in [transport.Dial]. *)
Record Syncer := mkSyncer {
  ds_localID : string;
  ds_engine : Engine;
  ds_sub : nat;
  ds_listening : bool;
  ds_ticking : bool;
  ds_go : list string;
  ds_dialing : gset string;
  ds_flight : list string }.

Definition set_repo (e : Engine) (s : inMemoryState) : Engine :=
  mkEngine (en_reg e) s (en_lis e) (en_runs e) (en_next e) (en_accepted e).
Definition with_engine (d : Syncer) (e : Engine) : Syncer :=
  mkSyncer (ds_localID d) e (ds_sub d) (ds_listening d) (ds_ticking d) (ds_go d) (ds_dialing d) (ds_flight d).
Definition add_go (d : Syncer) (l : list string) : Syncer :=
  mkSyncer (ds_localID d) (ds_engine d) (ds_sub d) (ds_listening d) (ds_ticking d) (ds_go d ++ l) (ds_dialing d) (ds_flight d).
Definition stop_listening (d : Syncer) : Syncer :=
  mkSyncer (ds_localID d) (ds_engine d) (ds_sub d) false (ds_ticking d) (ds_go d) (ds_dialing d) (ds_flight d).
Definition stop_ticking (d : Syncer) : Syncer :=
  mkSyncer (ds_localID d) (ds_engine d) (ds_sub d) (ds_listening d) false (ds_go d) (ds_dialing d) (ds_flight d).

(** [Start]: the subscription of the listening loop, the dials of the bootstrap
    addresses, the ticker. *)
Definition Start (ownAddr : option string) (bootstrapAddrs : list string) (local : string) (repo : inMemoryState) : Syncer :=
  let '(repo', id) := Subscribe repo in
  mkSyncer local (new_engine local repo') id true true (connectToBootstrap ownAddr bootstrapAddrs) ∅ [].

(** A turn of the loop of [Start]: the context is done, or the ticker fires. *)
Definition tick (ctx_done : bool) (now : Z) (d : Syncer) : gores Syncer :=
  if negb (ds_ticking d) then Ok d else
  if ctx_done then Ok (stop_ticking d) else
  let e := ds_engine d in
  x <- refreshPeers now (ds_localID d) (en_reg e) (en_repo e);;
  let '(repo', dials) := x in Ok (add_go (with_engine d (set_repo e repo')) dials).

(** A turn of [listenForNewPeers], with the deferred [unsubscribe] at its end. *)
Definition hear (ctx_done pick_done : bool) (d : Syncer) : gores Syncer :=
  if negb (ds_listening d) then Ok d else
  let e := ds_engine d in
  match listenForNewPeers_turn (ds_localID d) (en_reg e) ctx_done pick_done (ds_sub d) (en_repo e) with
  | (Received dial, repo') => Ok (add_go (with_engine d (set_repo e repo')) (match dial with Some addr => [addr] | None => [] end))
  | (Returned, repo') =>
      b <- cancel (ds_sub d) (subs repo');;
      Ok (stop_listening (with_engine d (set_repo e (mkState (peers repo') b))))
  | (Waiting, _) => Ok d
  end.

(** [connect] up to the dial. *)
Definition begin_dial (addr : string) (d : Syncer) : Syncer :=
  if decide (addr ∈ ds_go d) then
    let '(goes_on, dialing') := connect_begin (ds_dialing d) addr in
    mkSyncer (ds_localID d) (ds_engine d) (ds_sub d) (ds_listening d) (ds_ticking d) (remove_first addr (ds_go d)) dialing'
      (if (goes_on : bool) then addr :: ds_flight d else ds_flight d)
  else d.

(** [connect] from the result of the dial on. *)
Definition end_dial (addr : string) (now : Z) (grpc : option nat) (dialed : option PeerConnection) (d : Syncer) : gores Syncer :=
  if decide (addr ∈ ds_flight d) then
    e' <- (match dialed with Some pc => engine_step (Connect now grpc pc) (ds_engine d) | None => Ok (ds_engine d) end);;
    Ok (mkSyncer (ds_localID d) e' (ds_sub d) (ds_listening d) (ds_ticking d) (ds_go d) (finishDial (ds_dialing d) addr)
          (remove_first addr (ds_flight d)))
  else Ok d.

Inductive act :=
| Tick (ctx_done : bool) (now : Z)
| Hear (ctx_done pick_done : bool)
| Gossip (ev : PeerEvent)
| Dial (addr : string)
| Dialled (addr : string) (now : Z) (grpc : option nat) (dialed : option PeerConnection)
| Life (x : event).

Definition step (x : act) (d : Syncer) : gores Syncer :=
  match x with
  | Tick done now => tick done now d
  | Hear done pick => hear done pick d
  | Gossip ev =>
      repo' <- streamDiscoveryData (en_reg (ds_engine d)) (en_repo (ds_engine d)) ev;;
      Ok (with_engine d (set_repo (ds_engine d) repo'))
  | Dial addr => Ok (begin_dial addr d)
  | Dialled addr now grpc dialed => end_dial addr now grpc dialed d
  | Life x => e' <- engine_step x (ds_engine d);; Ok (with_engine d e')
  end.

Fixpoint run (xs : list act) (d : Syncer) : gores Syncer :=
  match xs with
  | [] => Ok d
  | x :: rest => d1 <- step x d;; run rest d1
  end.

(** The end of a dial is [connect_end] of Discovery.v, with the session that it starts. *)
Lemma end_dial_is_connect_end addr now grpc dialed d d' :
  addr ∈ ds_flight d → end_dial addr now grpc dialed d = Ok d' →
  connect_end now (en_next (ds_engine d)) grpc dialed addr (ds_dialing d) (en_reg (ds_engine d)) (en_repo (ds_engine d)) =
    Ok (ds_dialing d', en_reg (ds_engine d'), en_repo (ds_engine d')).
Proof.
  intros Hin. unfold end_dial, connect_end. rewrite decide_True by done. destruct dialed as [pc|]; [|by intros [= <-]]. cbn [SessionLife.SessionLife.step].
  destruct (HandleConnection _ _ _ _ _ _) as [[[st reg] repo]| |]; [|done..]. cbn [gobind]. by intros [= <-].
Qed.

(** * Specification *)

Definition under_way (addr : string) (d : Syncer) : Prop := addr ∈ ds_go d ∨ addr ∈ ds_flight d.

Record disc_ok (d : Syncer) : Prop := {
  dk_life : life_ok (ds_engine d);
  dk_local : localID (en_reg (ds_engine d)) = ds_localID d;
  dk_distinct : NoDup (ds_flight d);
  dk_table a : a ∈ ds_flight d ↔ a ∈ ds_dialing d;
  dk_named : "" ∉ ds_flight d }.

(** ** The engine under the loops *)

Lemma set_repo_progress e s : life_ok e → topo_ok s → progress e (set_repo e s).
Proof. intros He Hs. split; [by apply later_ok|]. intros pc [?|?]; [by left|by right]. Qed.

Lemma disc_progress_trans e1 e2 e3 : progress e1 e2 → progress e2 e3 → progress e1 e3.
Proof. intros [_ H1] [H2 H3]. split; [done|]. intros pc Hl. by apply H3, H1. Qed.

Lemma Remove_local r s : localID (Remove r s) = localID r.
Proof.
  unfold Remove. case_decide; [done|]. destruct (sessions r !! PeerID s) as [cur|]; [|done]. case_decide; [done|].
  by destruct (closeSession_same (set_sessions r (delete (PeerID s) (sessions r)) (reg_subs r)) cur) as (_ & _ & _ & -> & _).
Qed.

Lemma Close_local r r' : Close r = Ok r' → localID r' = localID r.
Proof.
  unfold Close. destruct (closed r); [by intros [= <-]|]. destruct (close_all (reg_subs r)) as [b| |]; [|done..]. cbn [gobind]. intros [= <-].
  by destruct (closeSession_all (map_range (sessions r)).*2 (mkReg (localID r) ∅ b true (conns_closed r) (grpc_closed r))) as (_ & _ & _ & E & _).
Qed.

Lemma gobind_Ok {A B} (c : gores A) (k : A → gores B) y : gobind c k = Ok y → ∃ x, c = Ok x ∧ k x = Ok y.
Proof. destruct c as [x| |]; [|done..]. intros E. by exists x. Qed.

(** What a step of the engine leaves: a registry that is not shut down accepts only
    new sessions, and knows the node's own name. *)
Record engine_moves (e e' : Engine) : Prop := {
  em_next : (en_next e <= en_next e')%nat;
  em_local : localID (en_reg e') = localID (en_reg e);
  em_new k cur : sessions (en_reg e') !! k = Some cur → sessions (en_reg e) !! k = Some cur ∨ s_ref cur = en_next e }.

Lemma same_reg_moves e e' : en_reg e' = en_reg e → (en_next e <= en_next e')%nat → engine_moves e e'.
Proof. intros Er Hn. constructor; [done|by rewrite Er|]. intros k cur. rewrite Er. by left. Qed.

Lemma sub_reg_moves e r :
  localID r = localID (en_reg e) → (∀ k cur, sessions r !! k = Some cur → sessions (en_reg e) !! k = Some cur) → engine_moves e (set_reg e r).
Proof. intros Hl Hs. constructor; [done|done|]. intros k cur Hk. left. by apply Hs. Qed.

Lemma Remove_sub r s k cur : sessions (Remove r s) !! k = Some cur → sessions r !! k = Some cur.
Proof.
  unfold Remove. case_decide; [done|]. destruct (sessions r !! PeerID s) as [old|]; [|done]. case_decide; [done|].
  destruct (closeSession_same (set_sessions r (delete (PeerID s) (sessions r)) (reg_subs r)) old) as (-> & _). simpl.
  by intros [_ ?]%lookup_delete_Some.
Qed.

Lemma connect_moves now grpc pc e e' :
  life_ok e → engine_step (Connect now grpc pc) e = Ok e' → engine_moves e e' ∧ closed (en_reg e') = closed (en_reg e) ∧
  (is_Some grpc → c_id pc ≠ "" → c_id pc ≠ localID (en_reg e) → closed (en_reg e) = false → is_Some (sessions (en_reg e') !! c_id pc)).
Proof.
  intros He. pose proof (lo_reg _ He) as (Hr & _). cbn [SessionLife.SessionLife.step]. unfold HandleConnection.
  destruct (Topology.InsertMerge _ _) as [x| |]; [|done..]. cbn [gobind]. destruct x as [res repo'].
  destruct grpc as [g|]; [|intros [= <-]; split; [constructor; simpl; [lia|done|by left]|]; split; [done|by intros []]].
  match goal with |- context [Add now ?r ?s] => destruct (Add now r s) as [r'|er|] eqn:Ea end; cbn [gobind]; [|..|done]; intros [= <-].
  - destruct (registry_Add_spec _ _ _ _ Hr Ea) as (_ & _ & _ & Hc & _ & Em & _ & Hc' & Hl & _). split; [|split].
    + constructor; simpl; [lia|done|]. intros k cur. rewrite Em, lookup_insert. case_decide; [intros [= <-]; by right|by left].
    + simpl. congruence.
    + intros _ _ _ _. simpl. rewrite Em, lookup_insert_eq. by eexists.
  - split; [constructor; simpl; [lia|done|by left]|]. split; [done|]. intros _ Hne Hnl Hc. simpl.
    revert Ea. unfold Add. rewrite decide_False by (simpl; naive_solver). rewrite decide_False by done. rewrite Hc. simpl.
    destruct (sessions (en_reg e) !! c_id pc) as [old|]; [by eexists|]. simpl.
    match goal with |- context [notify ?x ?b] => by destruct (notify_spec x b (rk_subs _ Hr)) as (b' & -> & _) end.
Qed.

Lemma step_moves x e e' :
  life_ok e → engine_step x e = Ok e' → engine_moves e e' ∧ (x ≠ Shutdown → closed (en_reg e') = closed (en_reg e)).
Proof.
  intros He. pose proof (lo_reg _ He) as (Hr & _).
  assert (Hid : ∀ e1, en_reg e1 = en_reg e → en_next e1 = en_next e → engine_moves e e1 ∧ (x ≠ Shutdown → closed (en_reg e1) = closed (en_reg e))).
  { intros e1 Er En. split; [apply same_reg_moves; [done|lia]|by rewrite Er]. }
  destruct x as [now grpc pc|ref pick stream local|ref received|ref|c|].
  - intros E. destruct (connect_moves _ _ _ _ _ He E) as (H1 & H2 & _). by split.
  - intros [= <-]. unfold on_run. destruct (en_runs e !! ref) as [rn|]; [|by apply Hid]. unfold stream_routine. destruct (negb _); [by apply Hid|].
    destruct (Conn _); [|by apply Hid]. destruct (MeshTransport.MeshTransport.stream_turn _ _ _ _ _); by apply Hid.
  - intros [= <-]. unfold on_run. destruct (en_runs e !! ref) as [rn|]; [|by apply Hid]. unfold datagram_routine. destruct (_ || _); by apply Hid.
  - intros [= <-]. unfold on_run. destruct (en_runs e !! ref) as [rn|]; [|by apply Hid]. unfold end_of_run. destruct (wg_done rn); [|by apply Hid].
    split; [|intros _; apply Remove_same]. split; [done|apply Remove_local|]. intros k cur Hk. left. by apply (Remove_sub _ (rn_session rn)).
  - intros [= <-]. split; [by apply sub_reg_moves|done].
  - cbn [SessionLife.SessionLife.step]. destruct (Close (en_reg e)) as [r'| |] eqn:Ec; [|done..]. intros [= <-]. split; [|by intros []].
    apply sub_reg_moves; [by apply Close_local|]. by apply (Close_facts _ _ Hr Ec).
Qed.

(** ** The invariant *)

Lemma start_fine own bootstrap local repo : topo_ok repo → disc_ok (Start own bootstrap local repo).
Proof.
  intros Hr. unfold Start, Subscribe, subscribe.
  constructor; simpl; [|done|constructor|set_solver|set_solver]. apply engine_start_ok. destruct Hr as [H1 H2 H3 H4]. constructor; try done.
  simpl. by apply subscribe_with_ok; [|simpl; lia].
Qed.

(** A step keeps the order of the engine and of the dials. *)
Definition sound_step (d d' : Syncer) : Prop := disc_ok d' ∧ progress (ds_engine d) (ds_engine d').

Lemma engine_sound d e' go sub li ti :
  disc_ok d → progress (ds_engine d) e' → localID (en_reg e') = localID (en_reg (ds_engine d)) →
  sound_step d (mkSyncer (ds_localID d) e' sub li ti go (ds_dialing d) (ds_flight d)).
Proof. intros [H1 H2 H3 H4 H5] Hp Hl. split; [|done]. constructor; simpl; try done; [apply Hp|congruence]. Qed.

Local Ltac by_engine :=
  unfold add_go, stop_listening, stop_ticking, with_engine;
  cbn [ds_localID ds_engine ds_sub ds_listening ds_ticking ds_go ds_dialing ds_flight]; apply engine_sound.

Lemma tick_sound done now d : disc_ok d → ∃ d', tick done now d = Ok d' ∧ sound_step d d'.
Proof.
  intros Hd. unfold tick. pose proof (dk_life _ Hd) as He. destruct (negb (ds_ticking d)).
  { exists d. split; [done|]. split; [done|by apply stay_step]. }
  destruct done. { eexists. split; [reflexivity|]. by_engine; [done|by apply stay_step|done]. }
  destruct (refreshPeers_spec now (ds_localID d) (en_reg (ds_engine d)) (en_repo (ds_engine d)) (lo_repo _ He) (proj1 (lo_reg _ He)))
    as (repo' & dials & -> & Hrepo & _). cbn [gobind].
  eexists. split; [reflexivity|]. by_engine; [done|by apply set_repo_progress|done].
Qed.

Lemma topo_ok_subs s b : topo_ok s → broker_ok b → topo_ok (mkState (peers s) b).
Proof. by intros [H1 H2 H3 H4] Hb; constructor. Qed.

Lemma hear_sound done pick d : disc_ok d → ∃ d', hear done pick d = Ok d' ∧ sound_step d d'.
Proof.
  intros Hd. unfold hear. pose proof (dk_life _ Hd) as He. pose proof (lo_repo _ He) as Hr.
  assert (Hstay : sound_step d d) by (split; [done|by apply stay_step]). destruct (negb (ds_listening d)); [by exists d|].
  assert (Hret : ∃ d', (b <- cancel (ds_sub d) (subs (en_repo (ds_engine d)));;
      Ok (stop_listening (with_engine d (set_repo (ds_engine d) (mkState (peers (en_repo (ds_engine d))) b))))) = Ok d' ∧ sound_step d d').
  { destruct (cancel_ok (ds_sub d) (subs (en_repo (ds_engine d))) (tk_subs _ Hr)) as (b & -> & Hb & _). eexists. split; [reflexivity|].
    by_engine; [done| |done]. apply set_repo_progress; [done|by apply topo_ok_subs]. }
  unfold listenForNewPeers_turn, select_recv. destruct (done && pick); [exact Hret|].
  destruct (receive_spec (ds_sub d) (subs (en_repo (ds_engine d))) (tk_subs _ Hr)) as (Hb & _).
  destruct (receive (ds_sub d) (subs (en_repo (ds_engine d)))) as [[ev|] b]; [|destruct (_ || done); [exact Hret|by exists d]].
  eexists. split; [reflexivity|]. by_engine; [done| |done]. apply set_repo_progress; [done|by apply topo_ok_subs].
Qed.

Lemma begin_sound addr d : disc_ok d → sound_step d (begin_dial addr d).
Proof.
  intros Hd. pose proof Hd as [H1 H2 H3 H4 H5]. unfold begin_dial. case_decide; [|split; [done|by apply stay_step]].
  unfold connect_begin, startDial. repeat case_decide; try (split; [by constructor|by apply stay_step]).
  split; [|by apply stay_step]. constructor; simpl; [done|done|constructor; [by rewrite H4|done]|set_solver|set_solver].
Qed.

Lemma end_sound addr now grpc dialed d : disc_ok d → ∃ d', end_dial addr now grpc dialed d = Ok d' ∧ sound_step d d' ∧
  (∀ pc, addr ∈ ds_flight d → dialed = Some pc → looked_after (ds_engine d') pc).
Proof.
  intros Hd. pose proof Hd as [H1 H2 H3 H4 H5]. unfold end_dial. case_decide as Hin; [|exists d; split; [done|]; split; [split; [done|by apply stay_step]|done]].
  assert (He : ∃ e', match dialed with Some pc => engine_step (Connect now grpc pc) (ds_engine d) | None => Ok (ds_engine d) end = Ok e' ∧
    progress (ds_engine d) e' ∧ localID (en_reg e') = localID (en_reg (ds_engine d)) ∧ ∀ pc, dialed = Some pc → looked_after e' pc).
  { destruct dialed as [pc|]; [|exists (ds_engine d); split; [done|]; split; [by apply stay_step|done]].
    destruct (connect_step now grpc pc (ds_engine d) H1) as (e' & E & Hp & Hl). exists e'. split; [exact E|]. split; [exact Hp|].
    split; [|by intros ? [= <-]]. by destruct (connect_moves _ _ _ _ _ H1 E) as ([_ ? _] & _). }
  destruct He as (e' & -> & Hp & Hl & Hc). eexists. split; [reflexivity|]. split; [|by intros pc _ ->; apply Hc].
  split; [|exact Hp]. constructor; simpl; [apply Hp|congruence|by apply remove_first_NoDup| |].
  - intros a. unfold finishDial. rewrite elem_of_remove_first by done. set_solver.
  - intros Hx%remove_first_subseteq. done.
Qed.

(** The connections that an action hands to [HandleConnection]. *)
Definition hands (x : act) (d : Syncer) (pc : PeerConnection) : Prop :=
  match x with
  | Dialled addr _ _ dialed => addr ∈ ds_flight d ∧ dialed = Some pc
  | Life (Connect _ _ pc') => pc' = pc
  | _ => False
  end.

Lemma sound x d : disc_ok d → ∃ d', step x d = Ok d' ∧ sound_step d d' ∧ ∀ pc, hands x d pc → looked_after (ds_engine d') pc.
Proof.
  intros Hd. pose proof (dk_life _ Hd) as He. destruct x as [done now|done pick|ev|addr|addr now grpc dialed|x]; cbn [step hands].
  - destruct (tick_sound done now d Hd) as (d' & ? & ?). by exists d'.
  - destruct (hear_sound done pick d Hd) as (d' & ? & ?). by exists d'.
  - destruct (stream_event_total (en_reg (ds_engine d)) (en_repo (ds_engine d)) ev (lo_repo _ He)) as (repo' & -> & Hrepo). cbn [gobind].
    eexists. split; [reflexivity|]. split; [|done]. by_engine; [done|by apply set_repo_progress|done].
  - eexists. split; [reflexivity|]. split; [by apply begin_sound|done].
  - destruct (end_sound addr now grpc dialed d Hd) as (d' & ? & ? & Hc). exists d'. split; [done|]. split; [done|]. intros pc [? ?]. by apply Hc.
  - destruct (life_step x (ds_engine d) He) as (e' & E & Hp & Hc). rewrite E. eexists. split; [reflexivity|].
    split; [by_engine; [done|done|by apply (step_moves _ _ _ He E)]|]. intros pc. destruct x as [? ? pc'|? ? ? ?|? ?|?|?|]; try by intros [].
    intros <-. by eapply Hc.
Qed.

(** ** Known peers are dialled *)

Lemma sweep_dials now local reg con l : ∀ repo repo' dials p,
  sweep now local reg con repo l = Ok (repo', dials) → p ∈ l → ID p ≠ local → Session.Get reg (ID p) = None →
  (now - LastSeen p <= peerTTL)%Z → Address p ∉ con → Address p ∈ dials.
Proof.
  induction l as [|q l IH]; intros repo repo' dials p; [by intros _ ?%not_elem_of_nil|]. cbn [sweep].
  intros E Hin H1 H2 H3 H4. apply elem_of_cons in Hin as [->|Hin].
  - rewrite decide_False in E by done. rewrite H2 in E. rewrite decide_False in E by (by intros []). rewrite decide_False in E by lia.
    rewrite decide_False in E by done. destruct (sweep now local reg con repo l) as [[r2 d2]| |]; [|done..].
    cbn [gobind] in E. injection E as <- <-. by left.
  - assert (Hin' : ∀ r r2 d2, sweep now local reg con r l = Ok (r2, d2) → Address p ∈ d2) by (intros r r2 d2 E2; by eapply IH).
    repeat case_decide; try by eapply Hin'.
    + destruct (Topology.Remove repo (ID q)) as [r1| |]; [|done..]. by eapply Hin'.
    + destruct (sweep now local reg con repo l) as [[r2 d2]| |] eqn:Es; [|done..]. cbn [gobind] in E. injection E as <- <-.
      right. by eapply Hin'.
Qed.

Lemma refresh_sessions_con now l : ∀ repo con repo' a,
  refresh_sessions now repo l = Ok (con, repo') → a ∈ con → ∃ s c, s ∈ l ∧ Conn s = Some c ∧ c_remote c = a.
Proof.
  induction l as [|s l IH]; intros repo con repo' a; cbn [refresh_sessions]; [by intros [= <- _] ?%not_elem_of_nil|].
  destruct (Conn s) as [c|] eqn:Ec; [|done]. destruct (refresh_session now repo s) as [r1| |]; [|done..]. cbn [gobind].
  destruct (refresh_sessions now r1 l) as [[con2 r2]| |] eqn:E2; [|done..]. cbn [gobind]. intros [= <- _] [->|Hin]%elem_of_cons.
  - exists s, c. split; [by left|done].
  - destruct (IH _ _ _ _ E2 Hin) as (s' & c' & Hs & ?). exists s', c'. split; [by right|done].
Qed.

(** No session uses the address. *)
Definition unused (addr : string) (e : Engine) : Prop :=
  ∀ k s c, sessions (en_reg e) !! k = Some s → Conn s = Some c → c_remote c ≠ addr.

Lemma refresh_dials now local reg repo repo' dials id p :
  topo_ok repo → reg_ok reg → refreshPeers now local reg repo = Ok (repo', dials) →
  peer_map repo' !! id = Some p → id ≠ local → sessions reg !! id = None →
  (∀ k s c, sessions reg !! k = Some s → Conn s = Some c → c_remote c ≠ Address p) → Address p ∈ dials.
Proof.
  intros Hr Hg. unfold refreshPeers.
  destruct (refresh_sessions_total now (ListActive reg) repo Hr) as (con & repo1 & E1 & Hr1 & _); [intros s; by apply active_have_conn|].
  rewrite E1. cbn [gobind]. intros E Hp Hl Hn Hu.
  destruct (sweep_spec now local reg con (List_ repo1) repo1 Hr1 (List_NoDup _ Hr1)) as (repo2 & dials2 & E2 & Hr2 & Hsub & Hexp & _).
  rewrite E2 in E. injection E as -> ->. pose proof (tk_key _ Hr2 _ _ Hp) as [<- _].
  assert (Hin : p ∈ List_ repo1) by (apply List_spec; [done|]; by apply Hsub).
  apply (sweep_dials _ _ _ _ _ _ _ _ _ E2 Hin Hl Hn).
  - destruct (decide (peerTTL < now - LastSeen p)%Z) as [Hx|]; [|lia]. exfalso. rewrite (Hexp p Hin) in Hp; [done|]. by split.
  - intros Hc. destruct (refresh_sessions_con _ _ _ _ _ _ E1 Hc) as (s & c & Hs & Ec & Ea). unfold ListActive in Hs.
    apply list_elem_of_fmap in Hs as ([k t] & -> & Ht%elem_of_map_range). by apply (Hu k t c).
Qed.

(** The node has accepted a connection of the peer since the identities from [n]. *)
Definition met (id : string) (n : nat) (e : Engine) : Prop := ∃ s, s ∈ en_accepted e ∧ PeerID s = id ∧ (n <= s_ref s)%nat.

(** A peer that was without a session, and what is owed to it. *)
Record owed (id addr : string) (n : nat) (d : Syncer) : Prop := {
  ow_ok : disc_ok d;
  ow_open : closed (en_reg (ds_engine d)) = false;
  ow_next : (n <= en_next (ds_engine d))%nat;
  ow_new cur : sessions (en_reg (ds_engine d)) !! id = Some cur → (n <= s_ref cur)%nat;
  ow_due : under_way addr d ∨ met id n (ds_engine d) }.

(** Dials of the address reach the peer, and the node is not shut down. *)
Definition answered (id addr : string) (x : act) : Prop :=
  match x with
  | Dialled a _ grpc dialed => a = addr → is_Some grpc ∧ c_id <$> dialed = Some id
  | Life Shutdown => False
  | _ => True
  end.

Lemma owed_engine id addr n d e' d' :
  owed id addr n d → disc_ok d' → ds_engine d' = e' → engine_moves (ds_engine d) e' → closed (en_reg e') = false →
  (under_way addr d → under_way addr d' ∨ met id n e') → (∀ t, t ∈ en_accepted (ds_engine d) → t ∈ en_accepted e') → owed id addr n d'.
Proof.
  intros [H1 H2 H3 H4 H5] Hd <- [M1 M2 M3] Hc Hu Ha. constructor; [done|done|lia| |].
  - intros cur [Hk|Hk]%M3; [by apply H4|lia].
  - destruct H5 as [H5|(s & Hs & ?)]; [by apply Hu|]. right. exists s. split; [by apply Ha|done].
Qed.

(** A step that leaves the sessions and the dials. *)
Lemma owed_repo id addr n d d' :
  owed id addr n d → disc_ok d' → en_reg (ds_engine d') = en_reg (ds_engine d) → en_next (ds_engine d') = en_next (ds_engine d) →
  en_accepted (ds_engine d') = en_accepted (ds_engine d) → ds_go d ⊆ ds_go d' → ds_flight d' = ds_flight d → owed id addr n d'.
Proof.
  intros Ho Hd Er En Ea Hg Hf.
  apply (owed_engine _ _ _ d (ds_engine d')); [done|done|done|apply same_reg_moves; [done|lia]|by rewrite Er; apply Ho| |by rewrite Ea].
  intros [Hin|Hin]; left; [left; by apply Hg|right; by rewrite Hf].
Qed.

Lemma accepted_step x e e' t : engine_step x e = Ok e' → t ∈ en_accepted e → t ∈ en_accepted e'.
Proof. intros E. apply (accepted_stays [x] e e'). simpl. by rewrite E. Qed.

Lemma local_stays x d d' : step x d = Ok d' → ds_localID d' = ds_localID d.
Proof.
  destruct x as [done now|done pick|ev|addr|addr now grpc dialed|x]; cbn [step].
  - unfold tick. destruct (negb _); [by intros [= <-]|]. destruct done; [by intros [= <-]|].
    destruct (refreshPeers _ _ _ _) as [[r l]| |]; [|done..]. by intros [= <-].
  - unfold hear. destruct (negb _); [by intros [= <-]|]. destruct (listenForNewPeers_turn _ _ _ _ _ _) as [[| |] r]; [by intros [= <-]| |by intros [= <-]].
    destruct (cancel _ _); [|done..]. by intros [= <-].
  - destruct (streamDiscoveryData _ _ _); [|done..]. by intros [= <-].
  - intros [= <-]. unfold begin_dial. case_decide; [|done]. by destruct (connect_begin _ _).
  - unfold end_dial. case_decide; [|by intros [= <-]]. intros E. apply gobind_Ok in E as (e' & _ & [= <-]). done.
  - destruct (engine_step x _); [|done..]. by intros [= <-].
Qed.

Lemma owed_begin id addr n a d : owed id addr n d → addr ≠ "" → owed id addr n (begin_dial a d).
Proof.
  intros Ho Ha. destruct (begin_sound a d (ow_ok _ _ _ _ Ho)) as [Hd' _].
  assert (He : ds_engine (begin_dial a d) = ds_engine d) by (unfold begin_dial; case_decide; [by destruct (connect_begin _ _)|done]).
  apply (owed_engine _ _ _ d (ds_engine d)); [done|done|done|by apply same_reg_moves|apply Ho| |done].
  intros Hu. left. revert Hu. unfold under_way, begin_dial. case_decide as Hin; [|done].
  pose proof (dk_table _ (ow_ok _ _ _ _ Ho) addr) as Ht. unfold connect_begin, startDial.
  destruct (decide (addr = a)) as [->|Hne].
  - intros _. right. rewrite decide_False by done. case_decide as Hd; simpl; [by apply Ht|by left].
  - intros [Hg|Hf]; [left|right]; repeat case_decide; simpl; try (by apply elem_of_remove_first_ne); try done. by right.
Qed.

Lemma owed_end id addr n a now grpc dialed d d' :
  owed id addr n d → id ≠ "" → id ≠ ds_localID d → answered id addr (Dialled a now grpc dialed) →
  end_dial a now grpc dialed d = Ok d' → owed id addr n d'.
Proof.
  intros Ho Hid Hl Ha E. destruct (end_sound a now grpc dialed d (ow_ok _ _ _ _ Ho)) as (d2 & E2 & [Hd' _] & _).
  rewrite E in E2. injection E2 as <-. revert E. unfold end_dial. case_decide as Hin; [|by intros [= <-]].
  intros E. apply gobind_Ok in E as (e' & E & [= <-]). pose proof (dk_life _ (ow_ok _ _ _ _ Ho)) as He.
  assert (Hm : engine_moves (ds_engine d) e' ∧ closed (en_reg e') = false ∧
    (∀ t, t ∈ en_accepted (ds_engine d) → t ∈ en_accepted e') ∧ (a = addr → is_Some (sessions (en_reg e') !! id))).
  { destruct dialed as [pc|].
    - destruct (connect_moves now grpc pc _ _ He E) as (M & Ec & Hs). split; [done|]. split; [rewrite Ec; apply Ho|].
      split; [intros t; by eapply accepted_step|]. intros ->. destruct (Ha eq_refl) as [Hg [= <-]].
      apply Hs; [done|done|by rewrite (dk_local _ (ow_ok _ _ _ _ Ho))|apply Ho].
    - injection E as <-. split; [by apply same_reg_moves|]. split; [apply Ho|]. split; [done|]. intros ->. by destruct (Ha eq_refl) as [_ ?]. }
  destruct Hm as (M & Ec & Hacc & Hs). apply (owed_engine _ _ _ d e'); [done|done|done|done|done| |done].
  destruct (decide (a = addr)) as [->|Hne].
  - intros _. right. destruct (Hs eq_refl) as [cur Hk]. pose proof (dk_life _ Hd') as He'. simpl in He'.
    destruct (lo_reg _ He') as (_ & _ & Hcur & _). destruct (Hcur _ _ Hk) as (u & Hu & Eu & _ & Eid). exists u. split; [done|]. split; [done|].
    rewrite Eu. destruct (em_new _ _ M _ _ Hk) as [Hk'| ->]; [by apply (ow_new _ _ _ _ Ho)|apply (ow_next _ _ _ _ Ho)].
  - intros [Hg|Hf]; left; [by left|]. right. simpl. by apply elem_of_remove_first_ne.
Qed.

Lemma owed_step id addr n x d d' :
  owed id addr n d → id ≠ "" → addr ≠ "" → id ≠ ds_localID d → answered id addr x → step x d = Ok d' → owed id addr n d'.
Proof.
  intros Ho Hid Had Hl Hx E. destruct (sound x d (ow_ok _ _ _ _ Ho)) as (d2 & E2 & [Hd' _] & _). rewrite E in E2. injection E2 as <-.
  destruct x as [done now|done pick|ev|a|a now grpc dialed|x]; cbn [step] in E.
  - revert Hd'. unfold tick in E. destruct (negb _); [by injection E as <-|]. destruct done; [injection E as <-; intros Hd'; by apply (owed_repo _ _ _ d)|].
    destruct (refreshPeers _ _ _ _) as [[r l]| |]; [|done..]. injection E as <-. intros Hd'. apply (owed_repo _ _ _ d); try done. intros y Hy. apply elem_of_app. by left.
  - revert Hd'. unfold hear in E. destruct (negb _); [by injection E as <-|].
    destruct (listenForNewPeers_turn _ _ _ _ _ _) as [[dial| |] r]; [| |by injection E as <-].
    + injection E as <-. intros Hd'. apply (owed_repo _ _ _ d); try done. intros y Hy. apply elem_of_app. by left.
    + destruct (cancel _ _); [|done..]. injection E as <-. intros Hd'. by apply (owed_repo _ _ _ d).
  - revert Hd'. destruct (streamDiscoveryData _ _ _); [|done..]. injection E as <-. intros Hd'. by apply (owed_repo _ _ _ d).
  - injection E as <-. by apply owed_begin.
  - by eapply owed_end.
  - destruct (engine_step x (ds_engine d)) as [e'| |] eqn:Ee; [|done..]. injection E as <-.
    destruct (step_moves _ _ _ (dk_life _ (ow_ok _ _ _ _ Ho)) Ee) as [M Hc].
    apply (owed_engine _ _ _ d e'); [done|done|done|done|rewrite Hc; [apply Ho|by intros ->]|by left|intros t; by eapply accepted_step].
Qed.

Lemma owed_run id addr n xs d d' :
  owed id addr n d → id ≠ "" → addr ≠ "" → id ≠ ds_localID d → Forall (answered id addr) xs → run xs d = Ok d' →
  owed id addr n d' ∧ id ≠ ds_localID d'.
Proof.
  revert d. induction xs as [|x xs IH]; intros d Ho Hid Had Hl HF; [intros [= <-]; by split|]. apply Forall_cons in HF as [Hx HF]. cbn [run].
  intros E. apply gobind_Ok in E as (d1 & E1 & E). apply (IH d1); [by eapply owed_step|done|done|by rewrite (local_stays _ _ _ E1)|done|done].
Qed.

(** *** Without assumptions on the dials *)

(** The action ends a dial of the address that is in flight, and not with a connection
    of the peer over which a client can be made. *)
Definition missed (id addr : string) (x : act) (d : Syncer) : Prop :=
  match x with
  | Dialled a _ grpc dialed => a = addr ∧ addr ∈ ds_flight d ∧ ¬ (is_Some grpc ∧ c_id <$> dialed = Some id)
  | _ => False
  end.
(** Such an action is in the run of [xs] from [d]. *)
Definition missed_in (id addr : string) (xs : list act) (d : Syncer) : Prop :=
  ∃ pre x post d', xs = pre ++ x :: post ∧ run pre d = Ok d' ∧ missed id addr x d'.

Lemma Close_closed r r' : Close r = Ok r' → closed r' = true.
Proof.
  unfold Close. destruct (closed r) eqn:Ec; [by intros [= <-]|]. destruct (close_all (reg_subs r)) as [b| |]; [|done..]. cbn [gobind]. intros [= <-].
  by destruct (closeSession_all (map_range (sessions r)).*2 (mkReg (localID r) ∅ b true (conns_closed r) (grpc_closed r))) as (_ & _ & -> & _).
Qed.

Lemma closed_stays x d d' : disc_ok d → step x d = Ok d' → closed (en_reg (ds_engine d)) = true → closed (en_reg (ds_engine d')) = true.
Proof.
  intros Hd E Hc. pose proof (dk_life _ Hd) as He. destruct x as [done now|done pick|ev|addr|addr now grpc dialed|x]; cbn [step] in E.
  - unfold tick in E. destruct (negb _); [by injection E as <-|]. destruct done; [by injection E as <-|].
    destruct (refreshPeers _ _ _ _) as [[r l]| |]; [|done..]. by injection E as <-.
  - unfold hear in E. destruct (negb _); [by injection E as <-|].
    destruct (listenForNewPeers_turn _ _ _ _ _ _) as [[| |] r]; [by injection E as <-| |by injection E as <-].
    destruct (cancel _ _); [|done..]. by injection E as <-.
  - destruct (streamDiscoveryData _ _ _); [|done..]. by injection E as <-.
  - injection E as <-. unfold begin_dial. case_decide; [|done]. by destruct (connect_begin _ _).
  - unfold end_dial in E. case_decide; [|by injection E as <-]. apply gobind_Ok in E as (e' & E & [= <-]). simpl.
    destruct dialed as [pc|]; [|by injection E as <-]. destruct (connect_moves now grpc pc _ _ He E) as (_ & -> & _). done.
  - destruct (engine_step x (ds_engine d)) as [e'| |] eqn:Ee; [|done..]. injection E as <-. simpl. destruct x.
    6: { cbn [SessionLife.SessionLife.step] in Ee. destruct (Close _) as [r| |] eqn:Ec; [|done..]. injection Ee as <-. by eapply Close_closed. }
    all: destruct (step_moves _ _ _ He Ee) as [_ Hs]; by rewrite Hs.
Qed.

Lemma owed_any id addr n x d d' :
  owed id addr n d → id ≠ "" → addr ≠ "" → id ≠ ds_localID d → step x d = Ok d' →
  closed (en_reg (ds_engine d')) = true ∨ missed id addr x d ∨ owed id addr n d'.
Proof.
  intros Ho Hid Had Hl E. assert (Hy : answered id addr x → closed (en_reg (ds_engine d')) = true ∨ missed id addr x d ∨ owed id addr n d')
    by (intros Hx; right; right; by eapply owed_step).
  destruct x as [done now|done pick|ev|a|a now grpc dialed|[ | | | | |]]; try by apply Hy.
  - destruct (decide (a = addr)) as [->|Hne]; [|apply Hy; simpl; intros Heq; by destruct Hne].
    destruct (decide (addr ∈ ds_flight d)) as [Hin|Hno].
    + destruct (decide (is_Some grpc ∧ c_id <$> dialed = Some id)) as [?|Hn]; [by apply Hy; intros _|]. right. left. by split.
    + right. right. cbn [step] in E. unfold end_dial in E. rewrite decide_False in E by done. by injection E as <-.
  - left. cbn [step] in E. destruct (engine_step Shutdown (ds_engine d)) as [e'| |] eqn:Ee; [|done..]. injection E as <-. simpl.
    cbn [SessionLife.SessionLife.step] in Ee. destruct (Close _) as [r| |] eqn:Ec; [|done..]. injection Ee as <-. by eapply Close_closed.
Qed.

Lemma closed_stays_run xs d d' : disc_ok d → run xs d = Ok d' → closed (en_reg (ds_engine d)) = true → closed (en_reg (ds_engine d')) = true.
Proof.
  revert d. induction xs as [|x xs IH]; intros d Hd; [by intros [= <-]|]. cbn [run]. intros E Hc. apply gobind_Ok in E as (d1 & E1 & E).
  destruct (sound x d Hd) as (d1' & E1' & [Hd1 _] & _). rewrite E1 in E1'. injection E1' as <-. apply (IH d1 Hd1 E). by apply (closed_stays x d).
Qed.

Lemma owed_any_run id addr n xs d d' :
  owed id addr n d → id ≠ "" → addr ≠ "" → id ≠ ds_localID d → run xs d = Ok d' →
  closed (en_reg (ds_engine d')) = true ∨ missed_in id addr xs d ∨ (owed id addr n d' ∧ id ≠ ds_localID d').
Proof.
  revert d. induction xs as [|x xs IH]; intros d Ho Hid Had Hl; [intros [= <-]; by right; right|]. cbn [run].
  intros E. apply gobind_Ok in E as (d1 & E1 & E). destruct (owed_any id addr n x d d1 Ho Hid Had Hl E1) as [Hc|[Hm|Ho1]].
  - left. destruct (sound x d (ow_ok _ _ _ _ Ho)) as (d1' & E1' & [Hd1 _] & _). rewrite E1 in E1'. injection E1' as <-. by eapply closed_stays_run.
  - right. left. by exists [], x, xs, d.
  - destruct (IH d1 Ho1 Hid Had) as [?|[(pre & y & post & d2 & -> & E2 & Hm)|?]]; [by rewrite (local_stays _ _ _ E1)|done|by left| |by right; right].
    right. left. exists (x :: pre), y, post, d2. split; [done|]. split; [|done]. cbn [run]. by rewrite E1.
Qed.

(** ** Every dial ends *)

Lemma disc_run_app xs ys d : run (xs ++ ys) d = (d1 <- run xs d;; run ys d1).
Proof. revert d. induction xs as [|x xs IH]; intros d; [done|]. simpl. destruct (step x d); [|done..]. apply IH. Qed.

Lemma sound_run xs d : disc_ok d → ∃ d', run xs d = Ok d' ∧ sound_step d d'.
Proof.
  revert d. induction xs as [|x xs IH]; intros d Hd; [exists d; split; [done|]; split; [done|by apply stay_step, Hd]|].
  destruct (sound x d Hd) as (d1 & E1 & [Hd1 Hp1] & _). destruct (IH d1 Hd1) as (d2 & E2 & [Hd2 Hp2]). exists d2. cbn [run]. rewrite E1.
  split; [exact E2|]. split; [done|by eapply disc_progress_trans].
Qed.

(** Every goroutine begins: it dials, or another is dialling its address. *)
Lemma all_begin l d : ds_go d = l → ∃ d', run (Dial <$> l) d = Ok d' ∧ ds_go d' = [].
Proof.
  revert d. induction l as [|a l IH]; intros d El; [by exists d|]. cbn [fmap list_fmap run step gobind]. apply IH.
  unfold begin_dial. rewrite decide_True by (rewrite El; by left). destruct (connect_begin _ _). simpl. rewrite El. simpl. by rewrite decide_True.
Qed.

(** The transport answers every dial, with a connection or without. *)
Definition dialled (now : Z) (grpc : option nat) (reach : string → option PeerConnection) (a : string) : act := Dialled a now grpc (reach a).

Lemma all_end now grpc reach l d :
  disc_ok d → ds_flight d = l → ∃ d', run (dialled now grpc reach <$> l) d = Ok d' ∧ ds_go d' = ds_go d ∧ ds_flight d' = [].
Proof.
  revert d. induction l as [|a l IH]; intros d Hd El; [by exists d|].
  destruct (end_sound a now grpc (reach a) d Hd) as (d1 & E1 & [Hd1 _] & _).
  assert (H1 : ds_go d1 = ds_go d ∧ ds_flight d1 = l).
  { revert E1. unfold end_dial. rewrite decide_True by (rewrite El; by left). intros E. apply gobind_Ok in E as (e' & _ & [= <-]). simpl.
    rewrite El. simpl. by rewrite decide_True. }
  destruct H1 as [<- H1]. destruct (IH d1 Hd1 H1) as (d' & E' & ? & ?). exists d'. cbn [fmap list_fmap run].
  replace (step (dialled now grpc reach a) d) with (Ok d1) by (symmetry; exact E1). by split.
Qed.

Lemma dialled_answered id addr now grpc reach l :
  is_Some grpc → c_id <$> reach addr = Some id → Forall (answered id addr) (dialled now grpc reach <$> l).
Proof. intros Hg Hr. apply Forall_fmap, Forall_forall. intros a _. simpl. by intros ->. Qed.

Lemma tick_owes now d d1 id p :
  disc_ok d → ds_ticking d = true → closed (en_reg (ds_engine d)) = false → step (Tick false now) d = Ok d1 →
  peer_map (en_repo (ds_engine d1)) !! id = Some p → id ≠ ds_localID d → sessions (en_reg (ds_engine d)) !! id = None →
  unused (Address p) (ds_engine d) → owed id (Address p) (en_next (ds_engine d)) d1.
Proof.
  intros Hd Ht Hc E Hp Hl Hn Hu. destruct (tick_sound false now d Hd) as (d2 & E2 & [Hd1 _]). cbn [step] in E. rewrite E in E2. injection E2 as <-.
  unfold tick in E. rewrite Ht in E. cbn [negb] in E. apply gobind_Ok in E as ([repo' dials] & E & [= <-]). pose proof (dk_life _ Hd) as He.
  constructor; simpl; [done|done|done|by rewrite Hn|]. left. left. simpl. apply elem_of_app. right.
  by eapply (refresh_dials _ _ _ _ _ _ id p (lo_repo _ He) (proj1 (lo_reg _ He)) E).
Qed.

(** What is owed is paid when every goroutine has had its turns. *)
Lemma owed_settled id addr n d later grpc reach :
  owed id addr n d → id ≠ "" → addr ≠ "" → id ≠ ds_localID d → is_Some grpc → c_id <$> reach addr = Some id →
  ∃ d1 d2, run (Dial <$> ds_go d) d = Ok d1 ∧ run (dialled later grpc reach <$> ds_flight d1) d1 = Ok d2 ∧
    ds_go d2 = [] ∧ ds_flight d2 = [] ∧ met id n (ds_engine d2).
Proof.
  intros Ho Hid Ha Hl Hg Hreach. destruct (all_begin (ds_go d) d eq_refl) as (d1 & E1 & Hgo).
  destruct (owed_run id addr n (Dial <$> ds_go d) d d1 Ho Hid Ha Hl) as [Ho1 Hl1]; [by apply Forall_fmap, Forall_forall|done|].
  destruct (all_end later grpc reach (ds_flight d1) d1 (ow_ok _ _ _ _ Ho1) eq_refl) as (d2 & E2 & Hgo2 & Hfl). rewrite Hgo in Hgo2.
  exists d1, d2. do 4 (split; [done|]).
  destruct (owed_run id addr n _ d1 d2 Ho1 Hid Ha Hl1 (dialled_answered id addr later grpc reach (ds_flight d1) Hg Hreach) E2) as [Ho2 _].
  destruct (ow_due _ _ _ _ Ho2) as [[Hin|Hin]|Hm]; [|..|exact Hm]; exfalso; [rewrite Hgo2 in Hin|rewrite Hfl in Hin]; by apply not_elem_of_nil in Hin.
Qed.

(** C11: discovery dials an address once and loses no connection.  However the ticker
    fires, peers are announced, streams change the store, other nodes connect, sessions
    break and dials end, in any order: nothing panics, no two dials of one address are
    in flight and none of the empty one, and every connection, of a dial or from
    another node, is closed or has its [runSession]. *)
Theorem dials_are_safe own bootstrap local repo xs :
  topo_ok repo →
  ∃ d, run xs (Start own bootstrap local repo) = Ok d ∧ NoDup (ds_flight d) ∧ "" ∉ ds_flight d ∧
    ∀ ys x zs d1 pc, xs = ys ++ x :: zs → run ys (Start own bootstrap local repo) = Ok d1 → hands x d1 pc → looked_after (ds_engine d) pc.
Proof.
  intros Hr. pose proof (start_fine own bootstrap local repo Hr) as H0. destruct (sound_run xs _ H0) as (d & E & [Hd _]).
  exists d. split; [exact E|]. split; [apply Hd|]. split; [apply Hd|]. intros ys x zs d1 pc -> E1 Hh.
  destruct (sound_run ys _ H0) as (d1' & E1' & [Hd1 _]). rewrite E1 in E1'. injection E1' as <-.
  destruct (sound x d1 Hd1) as (d2 & E2 & [Hd2 _] & Hl). destruct (sound_run zs d2 Hd2) as (d3 & E3 & [_ [_ Hp]]).
  rewrite disc_run_app, E1 in E. cbn [gobind run] in E. rewrite E2 in E. cbn [gobind] in E. rewrite E3 in E. injection E as <-. by apply Hp, Hl.
Qed.

(** C10: a node gets connected to the peers it knows.  At any moment of a running node,
    let the ticker fire, and let the store then hold the record of a peer that the node
    has no session with, at an address that no session uses.  Then at every later
    moment, whatever has happened, a dial of the address is under way, or the node has
    accepted a connection with the peer since, or a dial of the address has been made
    and has ended otherwise (it failed, another node answered, or no gRPC client could
    be made), or the node was shut down.  In the first two cases, if the transport
    reaches the peer at the address and a client can be made, the node has accepted a
    connection with it once every goroutine that dials has begun and has been answered,
    whatever the answers for other addresses.  In the third, this holds again from the
    next tick on. *)
Theorem known_peers_are_reached own bootstrap local repo xs d now d1 id p ys :
  topo_ok repo → run xs (Start own bootstrap local repo) = Ok d → ds_ticking d = true → closed (en_reg (ds_engine d)) = false →
  step (Tick false now) d = Ok d1 → peer_map (en_repo (ds_engine d1)) !! id = Some p → Address p ≠ "" → id ≠ ds_localID d →
  sessions (en_reg (ds_engine d)) !! id = None → unused (Address p) (ds_engine d) →
  ∃ d2, run ys d1 = Ok d2 ∧
    (closed (en_reg (ds_engine d2)) = true ∨ missed_in id (Address p) ys d1 ∨
     (under_way (Address p) d2 ∨ met id (en_next (ds_engine d)) (ds_engine d2)) ∧
     ∀ later grpc reach, is_Some grpc → c_id <$> reach (Address p) = Some id →
       ∃ d3 d4, run (Dial <$> ds_go d2) d2 = Ok d3 ∧ run (dialled later grpc reach <$> ds_flight d3) d3 = Ok d4 ∧
         ds_go d4 = [] ∧ ds_flight d4 = [] ∧ met id (en_next (ds_engine d)) (ds_engine d4)).
Proof.
  intros Hr E Ht Hc E1 Hp Ha Hl Hn Hu. destruct (sound_run xs _ (start_fine own bootstrap local repo Hr)) as (d' & E' & [Hd _]).
  rewrite E in E'. injection E' as <-. pose proof (tick_owes now d d1 id p Hd Ht Hc E1 Hp Hl Hn Hu) as Ho1.
  assert (Hid : id ≠ "") by (apply (tk_key _ (lo_repo _ (dk_life _ (ow_ok _ _ _ _ Ho1))) _ _ Hp)).
  assert (Hl1 : id ≠ ds_localID d1) by by rewrite (local_stays _ _ _ E1).
  destruct (sound_run ys d1 (ow_ok _ _ _ _ Ho1)) as (d2 & E2 & _). exists d2. split; [exact E2|].
  destruct (owed_any_run _ _ _ _ _ _ Ho1 Hid Ha Hl1 E2) as [?|[?|[Ho2 Hl2]]]; [by left|by right; left|right; right].
  split; [apply Ho2|]. intros later grpc reach Hg Hreach. by apply (owed_settled id (Address p)).
Qed.

End System.

(** ** Witnesses *)

(** The node "bbbb" has heard of "aaaa". *)
Definition heard_of : list act := [Gossip (mkEvent SYNC None [mkProto "aaaa" "1.1.1.1:9000" 5])].
Definition at_work : Syncer := Start (Some "2.2.2.2:9000"%string) ["3.3.3.3:9000"; "2.2.2.2:9000"]%string "bbbb" newInMemoryState.
Definition ready : Syncer := match run heard_of at_work with Ok d => d | _ => at_work end.
Definition ticked : Syncer := match step (Tick false 7) ready with Ok d => d | _ => ready end.

Lemma dials_are_safe_witness :
  ∃ d, run (heard_of ++ [Tick false 7; Dial "1.1.1.1:9000"; Tick false 8; Dial "1.1.1.1:9000"; Dialled "1.1.1.1:9000" 9 None (Some (demo_conn 1 true))]) at_work = Ok d ∧
    looked_after (ds_engine d) (demo_conn 1 true).
Proof.
  destruct (dials_are_safe (Some "2.2.2.2:9000"%string) ["3.3.3.3:9000"; "2.2.2.2:9000"]%string "bbbb" newInMemoryState
    (heard_of ++ [Tick false 7; Dial "1.1.1.1:9000"; Tick false 8; Dial "1.1.1.1:9000"; Dialled "1.1.1.1:9000" 9 None (Some (demo_conn 1 true))]) new_state_ok)
    as (d & E & _ & _ & H).
  exists d. split; [exact E|].
  eapply (H (heard_of ++ [Tick false 7; Dial "1.1.1.1:9000"; Tick false 8; Dial "1.1.1.1:9000"]) _ [] _ (demo_conn 1 true)); [reflexivity|by vm_compute|].
  split; [|done]. vm_compute. by left.
Defined.

Definition quiet_dials : list act := [Dial "3.3.3.3:9000"; Hear false false; Dialled "3.3.3.3:9000" 8 None None].

(** The ticker fires; a dial of another address fails, then every dial gets its turns. *)
Lemma known_peers_are_reached_witness :
  ∃ d2 d4, run quiet_dials ticked = Ok d2 ∧ ds_go d4 = [] ∧
    met "aaaa" 0 (ds_engine d4).
Proof.
  destruct (known_peers_are_reached (Some "2.2.2.2:9000"%string) ["3.3.3.3:9000"; "2.2.2.2:9000"]%string "bbbb" newInMemoryState heard_of ready
    7 ticked "aaaa" (mkPeer "aaaa" "1.1.1.1:9000" 5) quiet_dials)
    as (d2 & E2 & H).
  - exact new_state_ok.
  - by vm_compute.
  - by vm_compute.
  - by vm_compute.
  - by vm_compute.
  - by vm_compute.
  - done.
  - by vm_compute.
  - by vm_compute.
  - intros k t c Hk. exfalso. revert Hk. replace (sessions (en_reg (ds_engine ready))) with (∅ : gmap string Session) by by vm_compute.
    by rewrite lookup_empty.
  - assert (Hcl : match run quiet_dials ticked with Ok d => closed (en_reg (ds_engine d)) | _ => true end = false) by by vm_compute.
    rewrite E2 in Hcl. destruct H as [Hc|[(pre & x & post & d' & Hq & _ & Hm)|[_ H]]]; [congruence| |].
    { exfalso. assert (Hx : x ∈ quiet_dials) by (rewrite Hq; apply elem_of_app; right; left). clear Hq. unfold quiet_dials in Hx.
      repeat (apply elem_of_cons in Hx as [->|Hx]; [by destruct Hm|]). by apply not_elem_of_nil in Hx. }
    destruct (H 9%Z (Some 1%nat) (λ a, if decide (a = "1.1.1.1:9000"%string) then Some (demo_conn 1 true) else None)) as (_ & d4 & _ & _ & Hg & _ & Hm);
      [by eexists|by vm_compute|].
    exists d2, d4. split; [exact E2|]. split; [exact Hg|exact Hm].
Defined.

(** The whole way, evaluated: one session, of the peer that gossip had announced. *)
Example gossip_becomes_session :
  (d1 <- run (heard_of ++ [Tick false 7; Dial "1.1.1.1:9000"; Dialled "1.1.1.1:9000" 9 (Some 1%nat) (Some (demo_conn 1 true))]) at_work;;
   Ok (PeerID <$> ListActive (en_reg (ds_engine d1)), ds_go d1, ds_flight d1)) = Ok (["aaaa"], ["3.3.3.3:9000"], [])%string.
Proof. by vm_compute. Qed.

End DiscoveryLife.
