(* ===== verification/DataPlane.v ===== *)
(** * The life of the data plane (pkg/router, pkg/routingtable together)

    The router between its goroutines: packets are parsed and handed in from three
    sides, the workers of the shards and of the shaped routes take turns, the
    interface takes packets out, and the control plane changes routes, rules and
    subscriptions at any moment.  The theorems follow the ownership of the pooled
    messages: every message in use is in exactly one place, so none is released
    twice, and none is overwritten until it is sent or dropped.

    They hold while the transports run: the steps have no end of a context, and the
    objects of the table are up ([LinkLaws]).  After the contexts have ended the
    code does release a message twice, or sends on a closed channel:
    [cancelled_route_frees_twice] of Router.v and
    [push_after_worker_end_can_panic] of RoutingTable.v.  Nor do they cover the
    slices that a transport has queued when the router releases the message. *)
From S2P Require Import Prelude DgMessage Broker NetUtils RoutingTable Firewall Router AwgTransport.
Import DgMessage.DgMessage Broker RoutingTable.RoutingTable Router.Router.

Open Scope go_scope.

(** The objects of the table send while they run ([link_up]). *)
Class LinkLaws `{Link} := {
  link_up : link → Prop;
  send_up obj id data w :
    link_up w → (send_datagram obj id data w).1 = None ∧ link_up (send_datagram obj id data w).2 }.

(** A limiter keeps its burst; waiting for at most a burst fails only when the
    context ends. *)
Class LimiterLaws `{Limiter} := {
  burst : limiter → Z;
  burst_new s b : burst (NewLimiter s b) = b;
  burst_AllowN now l n : burst (AllowN now l n).2 = burst l;
  burst_WaitN done l n : burst (WaitN done l n).2 = burst l;
  WaitN_ok l n : (n ≤ burst l)%Z → (WaitN false l n).1 = None }.

Module DataPlane.

(** ** The steps *)

Section Steps.
Context `{LK : Link} `{LM : Limiter} `{MR : MapRange}.

(** [d_held]: the messages that goroutines outside the router hold, between the
    parser and a handler, or between the queue of the interface and the release. *)
Record DP := mkDP { d_router : Router; d_held : list nat }.

Inductive op :=
| DParse (pick : option nat) (data : list Z)
| DHand (i : nat) (from : fromType)
| DWork (shard : nat) (pick_send : bool) (now : Z)
| DShape (s : nat) (pick_done : bool)
| DTake
| DFree (i : nat)
| DAddObject (remote : bool) (ref : nat) (node : string) (ip : Z)
| DAddShaped (ref : nat) (node : string) (ip : Z) (speedLimit trafficLimit : option Z)
| DDelObject (remote : bool) (ip : Z)
| DAddRule (remote : bool) (idx : Firewall.Firewall.PortRuleIndex) (rule : Firewall.Firewall.PortRule)
| DRemoveRule (remote : bool) (idx : Firewall.Firewall.PortRuleIndex)
| DSubscribe (rules : bool)
| DCancel (rules : bool) (id : nat)
| DReceive (rules : bool) (id : nat).

(** [SubscribeRoutingEvents], [SubscribeFirewallEvents]: the cancel function, and
    a subscriber that takes an event. *)
Definition cancel_sub (rules : bool) (id : nat) (r : Router) : gores Router :=
  if rules then b <- cancel id (firewallsubs r);; Ok (set_subs r (routingsubs r) b)
  else b <- cancel id (routingsubs r);; Ok (set_subs r b (firewallsubs r)).
Definition receive_sub (rules : bool) (id : nat) (r : Router) : Router :=
  if rules then set_subs r (routingsubs r) (receive id (firewallsubs r)).2
  else set_subs r (receive id (routingsubs r)).2 (firewallsubs r).

(** A control operation that can fail leaves the router as it was. *)
Definition or_same (r : Router) (m : gores Router) : gores Router :=
  match m with Err _ => Ok r | _ => m end.

Definition control (o : op) (r : Router) : gores Router :=
  match o with
  | DAddObject remote ref node ip =>
      let obj := mkObj ref node ip None in
      or_same r (if remote then AddRemoteRoutingObject r obj else AddRoutingObject r obj)
  | DAddShaped ref node ip speed traffic =>
      let s := fresh (dom (shapes r)) in
      let r1 := set_data r (packetsPool r) (<[s := NewShapedRoute ref false speed traffic]> (shapes r)) (links r) in
      or_same r1 (AddRoutingObject r1 (mkObj ref node ip (Some s)))
  | DDelObject remote ip => if remote then Ok (DeleteRemoteRoutingObject r ip) else DeleteRoutingObject r ip
  | DAddRule remote idx rule =>
      if remote then Ok (AddRemoteRule r idx rule).2 else x <- AddRule r idx rule;; Ok x.2
  | DRemoveRule remote idx =>
      if remote then Ok (RemoveRemoteRule r idx).2 else x <- RemoveRule r idx;; Ok x.2
  | DSubscribe rules => Ok (if rules then SubscribeFirewallEvents r else SubscribeRoutingEvents r).1
  | DCancel rules id => cancel_sub rules id r
  | DReceive rules id => Ok (receive_sub rules id r)
  | _ => Ok r
  end.

Definition shape_turn (s : nat) (pick_done : bool) (r : Router) : gores Router :=
  match shapes r !! s with
  | None => Ok r
  | Some sr =>
      match startWorker pick_done sr (packetsPool r) (links r) with
      | None => Ok r
      | Some m => x <- m;; let '(sr', p', w') := x in Ok (set_data r p' (<[s := sr']> (shapes r)) w')
      end
  end.

Definition hand (from : fromType) (r : Router) (id : nat) : gores Router :=
  match from with
  | fromTransport => HandleTransportPacket r id
  | fromTun => HandleTunPacket r id
  | fromMesh => HandleMeshPacket r id
  end.

Definition dp_step (o : op) (d : DP) : gores DP :=
  let r := d_router d in
  match o with
  | DParse pick data =>
      match NewMessageCopyFrom pick r data with
      | Ok (r', id) => Ok (mkDP r' (id :: d_held d))
      | Err _ => Ok d
      | Panic => Panic
      end
  | DHand i from =>
      match d_held d !! i with
      | Some id => r' <- hand from r id;; Ok (mkDP r' (delete i (d_held d)))
      | None => Ok d
      end
  | DWork shard pick now =>
      match Run shard pick now r with
      | Some m => r' <- m;; Ok (mkDP r' (d_held d))
      | None => Ok d
      end
  | DShape s pick => r' <- shape_turn s pick r;; Ok (mkDP r' (d_held d))
  | DTake =>
      match toIface r with
      | id :: q => Ok (mkDP (set_iface r q) (id :: d_held d))
      | [] => Ok d
      end
  | DFree i =>
      match d_held d !! i with
      | Some id => Ok (mkDP (free_packet r id) (delete i (d_held d)))
      | None => Ok d
      end
  | _ => r' <- control o r;; Ok (mkDP r' (d_held d))
  end.

Fixpoint dp_run (os : list op) (d : DP) : gores DP :=
  match os with
  | [] => Ok d
  | o :: rest => d1 <- dp_step o d;; dp_run rest d1
  end.

End Steps.

(** * Specification *)

Section Spec.
Context `{LK : Link} `{LL : !LinkLaws} `{LM : Limiter} `{LML : !LimiterLaws} `{MR : MapRange}.

(** Where messages are. *)
Definition queue_ids (sr : ShapedRoute) : list nat := match sr_queue sr with Some c => ch_buf c | None => [] end.
Definition shaped_ids (m : gmap nat ShapedRoute) : list nat := (map_to_list m).*2 ≫= queue_ids.
Definition router_places (r : Router) : list nat :=
  (concat (shardedWorkers r)).*1 ++ toIface r ++ shaped_ids (shapes r).
Definition places (d : DP) : list nat := d_held d ++ router_places (d_router d).

(** The messages [l] are in use, each once. *)
Record owned (p : dgPool) (l : list nat) : Prop := {
  ow_pool : pool_ok p (list_to_set l);
  ow_once : NoDup l;
  ow_owned id m : id ∈ l → pool_heap p !! id = Some m → dm_owned m = true }.

(** A shaped route whose transport runs. *)
Record route_ok (sr : ShapedRoute) : Prop := {
  ro_ok : shaped_ok sr;
  ro_up : sr_done sr = false;
  ro_run : sr_running sr = sr_speedLimited sr;
  ro_burst l : sr_limiter sr = Some l → (65535 ≤ burst l)%Z }.

Record sound (r : Router) : Prop := {
  so_max : maxSize (packetsPool r) = Z.to_nat 65535;
  so_routes s sr : shapes r !! s = Some sr → route_ok sr;
  so_table ip o s : table r !! ip = Some o → ro_shaped o = Some s → is_Some (shapes r !! s);
  so_workers : (0 < golen (shardedWorkers r) < 2 ^ 32)%Z;
  so_subs : broker_ok (routingsubs r) ∧ broker_ok (firewallsubs r);
  so_link : link_up (links r) }.

Record dp_ok (d : DP) : Prop := {
  dk_sound : sound (d_router d);
  dk_owned : owned (packetsPool (d_router d)) (places d) }.

(** Messages that stay in a place keep their content. *)
Definition kept (d d' : DP) : Prop :=
  ∀ id, id ∈ places d → id ∈ places d' →
    pool_heap (packetsPool (d_router d')) !! id = pool_heap (packetsPool (d_router d)) !! id.

(** ** Ownership *)

Lemma owned_sub p l l' : owned p l → l' ⊆+ l → owned p l'.
Proof.
  intros [Hp Hn Ho] Hs. assert (Hin : ∀ id, id ∈ l' → id ∈ l) by (intros id ?; by eapply elem_of_submseteq).
  constructor; [| |by eauto].
  2: { apply submseteq_Permutation in Hs as [k Hk]. rewrite Hk in Hn. by apply NoDup_app in Hn as []. }
  destruct Hp as [H1 H2 H3 H4 H5 H6]. constructor; try done.
  - intros id Hid%elem_of_list_to_set%Hin. by apply H5, elem_of_list_to_set.
  - intros id Hid%elem_of_list_to_set%Hin. by apply H6, elem_of_list_to_set.
Qed.

Lemma owned_free p id l :
  owned p (id :: l) → owned (Free p id) l ∧ maxSize (Free p id) = maxSize p ∧
    ∀ j, j ∈ l → pool_heap (Free p id) !! j = pool_heap p !! j.
Proof.
  intros [Hp Hn Ho]. apply NoDup_cons in Hn as [Hi Hn].
  destruct (Free_ok p _ id Hp) as [H1 H2]; [set_solver|intros m; apply Ho; set_solver|].
  assert (Hk : ∀ j, j ∈ l → pool_heap (Free p id) !! j = pool_heap p !! j) by (intros j Hj; apply H2; by intros ->).
  split; [|split; [unfold Free; by repeat case_match|done]]. constructor; [|done|].
  - assert (E : (list_to_set (id :: l) ∖ {[id]} : gset nat) = list_to_set l) by set_solver. by rewrite <- E.
  - intros j m Hj. rewrite Hk by done. apply Ho. set_solver.
Qed.

Lemma owned_heap p l id : owned p l → id ∈ l → ∃ m, pool_heap p !! id = Some m.
Proof. intros Ho Hi. apply (pok_live_heap _ _ (ow_pool _ _ Ho)). by apply elem_of_list_to_set. Qed.

Lemma owned_size p l id m : owned p l → pool_heap p !! id = Some m → (golen (dm_data m) ≤ Z.of_nat (maxSize p))%Z.
Proof.
  intros Ho Hm. pose proof (pok_cap _ _ (ow_pool _ _ Ho) _ _ Hm) as Hc. unfold dm_data. rewrite length_take. lia.
Qed.

Lemma shaped_ids_insert m s sr sr' :
  m !! s = Some sr → ∃ rest, shaped_ids m ≡ₚ queue_ids sr ++ rest ∧ shaped_ids (<[s := sr']> m) ≡ₚ queue_ids sr' ++ rest.
Proof.
  intros H. exists (shaped_ids (delete s m)). unfold shaped_ids. rewrite <- insert_delete_eq. split.
  - by rewrite <- (map_to_list_delete m s sr H).
  - by rewrite (map_to_list_insert (delete s m) s sr' (lookup_delete_eq m s)).
Qed.

Lemma shaped_ids_new m s sr : m !! s = None → shaped_ids (<[s := sr]> m) ≡ₚ queue_ids sr ++ shaped_ids m.
Proof. intros H. unfold shaped_ids. by rewrite (map_to_list_insert m s sr H). Qed.

(** ** Shaped routes *)

Lemma charge_route_ok sr n : route_ok sr → route_ok (charge sr n).2 ∧ queue_ids (charge sr n).2 = queue_ids sr.
Proof.
  intros [H1 H2 H3 H4]. pose proof (charge_ok sr n H1) as Hc.
  destruct (charge_same sr n) as (E1 & E2 & E3 & _ & E5 & E6).
  split; [constructor; rewrite ?E1, ?E3, ?E5, ?E6; done|]. unfold queue_ids. by rewrite E2.
Qed.

Lemma IsAllowed_route_ok now sr n :
  route_ok sr → ∃ ok sr', IsAllowed now sr n = Ok (ok, sr') ∧ route_ok sr' ∧ queue_ids sr' = queue_ids sr.
Proof.
  intros Hr. destruct (charge_route_ok sr n Hr) as [H1 E1]. unfold IsAllowed.
  destruct (charge sr n) as [ok sr1]. simpl in *. destruct ok; simpl; [|by eexists _, _].
  destruct (sr_speedLimited sr1) eqn:Esp; [|by eexists _, _].
  destruct H1 as [Hok Hd Hrun Hb]. destruct (sh_limiter _ Hok Esp) as [l El]. rewrite El.
  pose proof (burst_AllowN now l (i64 n)) as Hbu. destruct (AllowN now l (i64 n)) as [ok l']. simpl in Hbu.
  eexists _, _. split; [reflexivity|]. split; [|done]. constructor; try done.
  - destruct Hok as [? _ ?]. by constructor.
  - intros l2 [= <-]. rewrite Hbu. by apply Hb.
Qed.

(** A route takes a message: it sends and releases it, queues it, or drops it. *)
Lemma PushLimited_route_ok pick sr id m p w :
  route_ok sr → pool_heap p !! id = Some m → link_up w →
  ∃ sr' p' w', PushLimited pick sr id p w = Ok (None, sr', p', w') ∧ route_ok sr' ∧ link_up w' ∧
    ((p' = Free p id ∧ queue_ids sr' = queue_ids sr) ∨ (p' = p ∧ queue_ids sr' ⊆+ id :: queue_ids sr)).
Proof.
  intros Hr Hm Hw. pose proof (push_limited_cases pick sr id m p w (ro_ok _ Hr) Hm) as Hc. cbn zeta in Hc.
  destruct (charge_route_ok sr (golen (dm_data m)) Hr) as [H1 E1].
  destruct (charge_same sr (golen (dm_data m))) as (F1 & F2 & F3 & _).
  set (sr1 := (charge sr (golen (dm_data m))).2) in *. rewrite (ro_up _ Hr) in Hc. cbn [andb] in Hc.
  specialize (Hc ltac:(by rewrite (ro_run _ Hr))).
  destruct (charge sr (golen (dm_data m))).1; cbn [negb] in Hc.
  2: { eexists sr1, p, w. split; [exact Hc|]. do 2 (split; [done|]). right. split; [done|]. rewrite E1.
       by apply submseteq_cons. }
  destruct (sr_speedLimited sr) eqn:Esp; cbn [negb] in Hc.
  - destruct Hc as (c & Ec & E). destruct (sh_queue _ (ro_ok _ Hr) Esp) as (c' & Ec' & Hcap & Hlen & Hcl).
    rewrite Ec' in Ec. injection Ec as ->. case_decide as Hroom.
    + eexists _, p, w. split; [exact E|]. split; [|split; [done|right; split; [done|]]].
      * destruct H1 as [[G1 G2 G3] ? ? ?]. constructor; try done. constructor; try done; simpl.
        -- intros _. eexists. split; [reflexivity|]. simpl. rewrite length_app. simpl.
           rewrite (ro_run _ Hr) in Hcl. destruct (charge_same sr (golen (dm_data m))) as (_ & _ & _ & _ & F5 & _).
           fold sr1 in F5. rewrite F5, (ro_run _ Hr), Esp. split_and!; [done|lia|done].
        -- intros Hf. congruence.
      * unfold queue_ids. simpl. rewrite Ec'. by rewrite Permutation_app_comm.
    + eexists sr1, p, w. split; [exact E|]. do 2 (split; [done|]). right. split; [done|]. rewrite E1. by apply submseteq_cons.
  - destruct (send_up (sr_underlying sr) id (dm_data m) w Hw) as [Ee Hw'].
    destruct (send_datagram (sr_underlying sr) id (dm_data m) w) as [e w1]. simpl in *. subst e.
    eexists sr1, _, w1. split; [exact Hc|]. do 2 (split; [done|]). by left.
Qed.

(** The worker of a route sends the next message and releases it. *)
Lemma startWorker_route_ok pick sr p w :
  route_ok sr → (∀ id, id ∈ queue_ids sr → ∃ m, pool_heap p !! id = Some m ∧ (golen (dm_data m) ≤ 65535)%Z) → link_up w →
  (startWorker pick sr p w = None) ∨
  ∃ id sr' w', startWorker pick sr p w = Some (Ok (sr', Free p id, w')) ∧ route_ok sr' ∧ link_up w' ∧
    queue_ids sr = id :: queue_ids sr'.
Proof.
  intros Hr Hq Hw. unfold startWorker. rewrite (ro_run _ Hr), (ro_up _ Hr).
  destruct (sr_speedLimited sr) eqn:Esp; cbn [negb andb orb]; [|by left].
  destruct (sh_queue _ (ro_ok _ Hr) Esp) as (c & Ec & Hcap & Hlen & Hcl). rewrite (ro_run _ Hr), Esp in Hcl. simpl in Hcl.
  unfold queue_ids in *. rewrite Ec in *. rewrite Hcl.
  destruct (ch_buf c) as [|id buf] eqn:Eb; [by left|right]. cbn [set_queue sr_limiter sr_done].
  destruct (Hq id) as (m & -> & Hsz); [set_solver|].
  destruct (sh_limiter _ (ro_ok _ Hr) Esp) as [l El]. rewrite El, (ro_up _ Hr).
  pose proof (WaitN_ok l (golen (dm_data m))) as Hwait. pose proof (burst_WaitN false l (golen (dm_data m))) as Hbu.
  pose proof (ro_burst _ Hr l El) as Hb. specialize (Hwait ltac:(lia)).
  destruct (WaitN false l (golen (dm_data m))) as [e l']. simpl in Hwait, Hbu. subst e.
  destruct (send_up (sr_underlying sr) id (dm_data m) w Hw) as [_ Hw'].
  destruct (send_datagram (sr_underlying sr) id (dm_data m) w) as [e w1] eqn:Es. simpl in *. rewrite Es.
  eexists id, _, w1. split; [reflexivity|]. split; [|split; [done|done]].
  destruct Hr as [[G1 G2 G3] G4 G5 G6]. constructor; simpl; try done.
  - constructor; simpl; try done; [|rewrite Esp; done]. intros _. eexists. split; [reflexivity|]. simpl.
    rewrite G5, Esp. split_and!; [done|simpl in Hlen; lia|done].
  - intros l2 [= <-]. rewrite Hbu. by apply G6.
Qed.

(** ** The router keeps its order *)

Lemma sound_data r p sh w :
  sound r → maxSize p = maxSize (packetsPool r) → (∀ s sr, sh !! s = Some sr → route_ok sr) →
  (∀ s, is_Some (shapes r !! s) → is_Some (sh !! s)) → link_up w → sound (set_data r p sh w).
Proof.
  intros [H1 H2 H3 H4 H5 H6] Hp Hs Hd Hw. constructor; simpl; try done; [congruence|].
  intros ip o s Ht Ho. by eapply Hd, H3.
Qed.

(** One shaped route has changed. *)
Lemma sound_shape r p w s sr sr' :
  sound r → maxSize p = maxSize (packetsPool r) → shapes r !! s = Some sr → route_ok sr' → link_up w →
  sound (set_data r p (<[s := sr']> (shapes r)) w).
Proof.
  intros Hr Hp Hs Hk Hw. apply sound_data; try done.
  - intros t x. rewrite lookup_insert. case_decide; [by intros [= <-]|]. by apply (so_routes _ Hr).
  - intros t Ht. rewrite lookup_insert. case_decide; [by eexists|done].
Qed.

Lemma sound_counters r a b c : sound r → sound (set_totals r a b c).
Proof. by intros []. Qed.
Lemma sound_rules r fw : sound r → sound (set_firewall r fw).
Proof. by intros []. Qed.
Lemma sound_queue r q : sound r → sound (set_iface r q).
Proof. by intros []. Qed.
Lemma sound_subs r rs fs : sound r → broker_ok rs → broker_ok fs → sound (set_subs r rs fs).
Proof. intros []. by constructor. Qed.
Lemma sound_free r id : sound r → sound (free_packet r id).
Proof.
  intros Hr. apply sound_data; try done; [|apply Hr|apply Hr]. unfold Free. by repeat case_match.
Qed.
Lemma sound_shards r ws : sound r → length ws = length (shardedWorkers r) → sound (set_workers r ws).
Proof. intros [] E. constructor; simpl; try done. by rewrite E. Qed.
Lemma sound_table r t :
  sound r → (∀ ip o s, t !! ip = Some o → ro_shaped o = Some s → is_Some (shapes r !! s)) → sound (set_table r t).
Proof. intros []. by constructor. Qed.
#[local] Hint Resolve sound_counters sound_rules sound_queue sound_free : core.

(** What a handler does with its message: it releases it, or passes it on or
    drops it. *)
Definition handled (id : nat) (r r' : Router) : Prop :=
  sound r' ∧
  ((packetsPool r' = Free (packetsPool r) id ∧ router_places r' ≡ₚ router_places r) ∨
   (packetsPool r' = packetsPool r ∧ router_places r' ⊆+ id :: router_places r)).

Lemma handled_free r id : sound r → handled id r (free_packet r id).
Proof. intros Hr. split; [auto|by left]. Qed.

Lemma handled_iface r id : sound r → handled id r (to_iface r id).
Proof.
  intros Hr. split; [apply sound_queue, Hr|right]. split; [done|]. unfold router_places, to_iface. simpl.
  apply Permutation_submseteq. rewrite <- !app_assoc. simpl. by rewrite <- !Permutation_middle.
Qed.

Lemma shape_places r p w s sr sr' :
  shapes r !! s = Some sr →
  ∃ rest, router_places r ≡ₚ queue_ids sr ++ rest ∧
    router_places (set_data r p (<[s := sr']> (shapes r)) w) ≡ₚ queue_ids sr' ++ rest.
Proof.
  intros Hs. destruct (shaped_ids_insert (shapes r) s sr sr' Hs) as (rest & E1 & E2).
  exists ((concat (shardedWorkers r)).*1 ++ toIface r ++ rest). unfold router_places. simpl. rewrite E1, E2.
  split; by rewrite !(Permutation_app_swap_app _ (queue_ids _)).
Qed.

Lemma deliver_handled pick r id m :
  sound r → pool_heap (packetsPool r) !! id = Some m →
  ∃ r', deliver pick r id m = Ok r' ∧ handled id r r'.
Proof.
  intros Hr Hm. unfold deliver, GetByIP.
  destruct (table r !! DstIP (dm_hole m)) as [peer|] eqn:Et; [|eexists; split; [reflexivity|by apply handled_free]].
  destruct (ro_shaped peer) as [s|] eqn:Es.
  - destruct (so_table _ Hr _ _ _ Et Es) as [sr Esr]. rewrite Esr.
    destruct (PushLimited_route_ok pick sr id m (packetsPool r) (links r) (so_routes _ Hr _ _ Esr) Hm (so_link _ Hr))
      as (sr' & p' & w' & -> & Hsr & Hw & Hc). cbn [gobind]. eexists. split; [reflexivity|].
    destruct (shape_places r p' w' s sr sr' Esr) as (rest & E1 & E2).
    assert (Hp : maxSize p' = maxSize (packetsPool r)).
    { destruct Hc as [[-> _]|[-> _]]; [|done]. unfold Free. by repeat case_match. }
    split; [by eapply sound_shape|]. destruct Hc as [[-> Eq]|[-> Eq]]; [left|right]; (split; [done|]).
    + by rewrite E1, E2, Eq.
    + rewrite E2, E1. change (id :: queue_ids sr ++ rest) with ((id :: queue_ids sr) ++ rest). by apply submseteq_app.
  - destruct (send_up (ro_ref peer) id (dm_data m) (links r) (so_link _ Hr)) as [_ Hw].
    destruct (send_datagram _ _ _ _) as [e w']. eexists. split; [reflexivity|].
    apply (handled_free (set_data r (packetsPool r) (shapes r) w')). apply sound_data; try done; apply Hr.
Qed.

Lemma handleTunPacketInternal_handled pick r id m :
  sound r → pool_heap (packetsPool r) !! id = Some m →
  ∃ r', handleTunPacketInternal pick r id = Ok r' ∧ handled id r r'.
Proof. intros Hr Hm. unfold handleTunPacketInternal. rewrite Hm. by apply (deliver_handled pick (set_totals r _ _ _)); [auto|]. Qed.

Lemma handleMeshPacketInternal_handled pick now r id m :
  sound r → pool_heap (packetsPool r) !! id = Some m →
  ∃ r', handleMeshPacketInternal pick now r id = Ok r' ∧ handled id r r'.
Proof.
  intros Hr Hm. unfold handleMeshPacketInternal. rewrite Hm. case_decide.
  - by apply (deliver_handled pick (set_firewall (set_totals r _ _ _) _)); [auto|].
  - by apply (deliver_handled pick (set_totals r _ _ _)); [auto|].
Qed.

(** The sender's limits: only the shaped route of the sender changes. *)
Lemma admit_sender_sound now r m :
  sound r → ∃ ok r', admit_sender now r m = Ok (ok, r') ∧ sound r' ∧ packetsPool r' = packetsPool r ∧
    router_places r' ≡ₚ router_places r.
Proof.
  intros Hr. unfold admit_sender, GetByIP.
  destruct (table r !! SrcIP (dm_hole m)) as [o|] eqn:Eo; [|by eexists _, _].
  destruct (ro_shaped o) as [s|] eqn:Es; [|by eexists _, _].
  destruct (so_table _ Hr _ _ _ Eo Es) as [sr Esr]. rewrite Esr.
  destruct (IsAllowed_route_ok now sr (golen (dm_data m)) (so_routes _ Hr _ _ Esr)) as (ok & sr' & -> & Hsr & Eq).
  cbn [gobind]. eexists _, _. split; [reflexivity|].
  destruct (shape_places r (packetsPool r) (links r) s sr sr' Esr) as (rest & E1 & E2).
  split; [eapply sound_shape; try done; apply Hr|]. split; [done|]. by rewrite E1, E2, Eq.
Qed.

Lemma handleTransportPacketInternal_handled now r id m :
  sound r → pool_heap (packetsPool r) !! id = Some m →
  ∃ r', handleTransportPacketInternal now r id = Ok r' ∧ handled id r r'.
Proof.
  intros Hr Hm. unfold handleTransportPacketInternal. rewrite Hm.
  destruct (admit_sender_sound now (set_totals r (u64 (totalFromPeers r + golen (dm_data m))) (totalFromIface r) (totalFromMesh r)) m)
    as (ok & r1 & -> & Hr1 & Ep & El); [auto|]. cbn [gobind].
  assert (Hfrom : ∀ r', handled id r1 r' → handled id r r').
  { intros r' [H1 H2]. split; [done|]. rewrite Ep, El in H2. exact H2. }
  destruct ok; cbn [negb]; [|eexists; split; [reflexivity|by apply Hfrom, handled_free]].
  case_decide; [eexists; split; [reflexivity|by apply Hfrom, handled_iface]|].
  destruct (NetUtils.Contains _ _); cbn [negb];
    [|destruct (isForbiddenEgress _); eexists; (split; [reflexivity|]); apply Hfrom; [by apply handled_free|by apply handled_iface]].
  destruct (Firewall.Firewall.RuleCheck now (firewall r1) (dm_hole m)) as [pass fw1].
  destruct pass; cbn [negb]; [|eexists; split; [reflexivity|by apply Hfrom, (handled_free (set_firewall r1 fw1)); auto]].
  destruct (GetByIP _ _) as [peer|];
    [|eexists; split; [reflexivity|by apply Hfrom, (handled_free (set_firewall (set_firewall r1 fw1) _)); auto]].
  cbv zeta. set (obj := match ro_shaped peer with Some s => _ | None => _ end).
  destruct (send_up obj id (dm_data m) (links r1) (so_link _ Hr1)) as [_ Hw]. simpl links.
  destruct (send_datagram obj id (dm_data m) (links r1)) as [e w']. eexists. split; [reflexivity|]. apply Hfrom.
  set (fw2 := Firewall.Firewall.Holepunch _ _ _ _).
  apply (handled_free (set_data (set_firewall (set_firewall r1 fw1) fw2) (packetsPool r1) (shapes r1) w')).
  apply sound_data; try done; [auto|apply Hr1].
Qed.

(** ** Steps *)

(** What a control operation leaves alone. *)
Definition quiet (r r' : Router) : Prop :=
  sound r' ∧ packetsPool r' = packetsPool r ∧ router_places r' ≡ₚ router_places r.

Lemma notify_routing_quiet r ev : sound r → ∃ r', notifyRoutingEvent r ev = Ok r' ∧ quiet r r'.
Proof.
  intros Hr. destruct (so_subs _ Hr) as [H1 H2]. unfold notifyRoutingEvent.
  destruct (notify_spec ev _ H1) as (b & -> & Hb & _). eexists. split; [reflexivity|].
  split; [by apply sound_subs|done].
Qed.

Lemma notify_firewall_quiet r ev : sound r → ∃ r', notifyFirewallEvent r ev = Ok r' ∧ quiet r r'.
Proof.
  intros Hr. destruct (so_subs _ Hr) as [H1 H2]. unfold notifyFirewallEvent.
  destruct (notify_spec ev _ H2) as (b & -> & Hb & _). eexists. split; [reflexivity|].
  split; [by apply sound_subs|done].
Qed.

Lemma quiet_refl r : sound r → quiet r r.
Proof. done. Qed.

Lemma still_trans r1 r2 r3 : quiet r1 r2 → quiet r2 r3 → quiet r1 r3.
Proof. intros (_ & E1 & P1) (H & E2 & P2). split; [done|]. split; [congruence|by etrans]. Qed.

Lemma add_sound r obj t :
  sound r → Add (table r) obj = Ok t → (∀ s, ro_shaped obj = Some s → is_Some (shapes r !! s)) → sound (set_table r t).
Proof.
  intros Hr. unfold Add. destruct (table r !! GetVirtualIP obj); [done|]. intros [= <-] Ho. apply sound_table; [done|].
  intros ip o s. rewrite lookup_insert. case_decide; [intros [= <-]; apply Ho|apply (so_table _ Hr)].
Qed.

Lemma delete_sound r ip : sound r → sound (set_table r (Delete (table r) ip)).
Proof.
  intros Hr. apply sound_table; [done|]. intros j o s. rewrite Delete_lookup. case_decide; [done|]. apply (so_table _ Hr).
Qed.

Lemma add_quiet r obj :
  sound r → (∀ s, ro_shaped obj = Some s → is_Some (shapes r !! s)) →
  (∃ r', or_same r (AddRoutingObject r obj) = Ok r' ∧ quiet r r') ∧
  (∃ r', or_same r (AddRemoteRoutingObject r obj) = Ok r' ∧ quiet r r').
Proof.
  intros Hr Ho. unfold AddRoutingObject, AddRemoteRoutingObject.
  destruct (Add (table r) obj) as [t|e|] eqn:Et; cbn [gobind or_same].
  - pose proof (add_sound _ _ _ Hr Et Ho) as Ht. split; [|by eexists].
    destruct (notify_routing_quiet (set_table r t) (mkREvent ClientAdded (GetVirtualIP obj) (GetNodeID obj)) Ht)
      as (r' & -> & Hq). by exists r'.
  - split; by exists r.
  - unfold Add in Et. by destruct (table r !! _).
Qed.

Lemma NewShapedRoute_route_ok ref s t : route_ok (NewShapedRoute ref false s t) ∧ queue_ids (NewShapedRoute ref false s t) = [].
Proof.
  split; [|by destruct s]. constructor; [apply NewShapedRoute_ok|done|done|].
  destruct s as [s|]; [|done]. cbn [NewShapedRoute sr_limiter]. intros l [= <-]. rewrite burst_new. lia.
Qed.

Lemma new_shape_quiet r ref speed traffic s :
  sound r → shapes r !! s = None →
  quiet r (set_data r (packetsPool r) (<[s := NewShapedRoute ref false speed traffic]> (shapes r)) (links r)).
Proof.
  intros Hr Hs. destruct (NewShapedRoute_route_ok ref speed traffic) as [Hk Hq]. split; [|split; [done|]].
  - apply sound_data; try done; [| |apply Hr].
    + intros t x. rewrite lookup_insert. case_decide; [by intros [= <-]|]. apply (so_routes _ Hr).
    + intros t Ht. rewrite lookup_insert. case_decide; [by eexists|done].
  - unfold router_places. simpl. by rewrite (shaped_ids_new _ _ _ Hs), Hq.
Qed.

Lemma rules_quiet r fw ev :
  sound r → ∃ r', notifyFirewallEvent (set_firewall r fw) ev = Ok r' ∧ quiet r r'.
Proof. intros Hr. by apply (notify_firewall_quiet (set_firewall r fw)), sound_rules. Qed.

Lemma control_quiet o r : sound r → ∃ r', control o r = Ok r' ∧ quiet r r'.
Proof.
  intros Hr. pose proof (quiet_refl r Hr) as Hq0. destruct (so_subs _ Hr) as [Hb1 Hb2].
  destruct o as [| | | | | |remote ref node ip|ref node ip speed traffic|remote ip|remote idx rule|remote idx|rules|rules id|rules id];
    cbn [control]; try (by exists r).
  - destruct (add_quiet r (mkObj ref node ip None) Hr ltac:(done)) as [H1 H2]. by destruct remote.
  - pose proof (new_shape_quiet r ref speed traffic (fresh (dom (shapes r))) Hr) as Hq.
    specialize (Hq ltac:(apply not_elem_of_dom, is_fresh)). set (r1 := set_data r _ _ _) in *.
    destruct (add_quiet r1 (mkObj ref node ip (Some (fresh (dom (shapes r))))) (proj1 Hq)) as [(r' & E & Hq') _].
    { intros s [= <-]. unfold r1. simpl. rewrite lookup_insert_eq. by eexists. }
    exists r'. split; [exact E|]. by eapply still_trans.
  - destruct remote; [eexists; split; [reflexivity|]; split; [by apply delete_sound|done]|].
    unfold DeleteRoutingObject. destruct (GetByIP (table r) ip) as [obj|]; [|by exists r].
    apply (notify_routing_quiet (set_table r (Delete (table r) ip))). by apply delete_sound.
  - unfold AddRemoteRule, AddRule. destruct (Firewall.Firewall.AddRule (firewall r) idx rule) as [ok fw].
    destruct remote; [eexists; split; [reflexivity|]; by split; [apply sound_rules|]|].
    destruct ok; cbn [negb]; [|eexists; split; [reflexivity|]; by split; [apply sound_rules|]].
    edestruct (rules_quiet r fw) as (r' & -> & Hq); [done|]. by exists r'.
  - unfold RemoveRemoteRule, RemoveRule. destruct (Firewall.Firewall.RemoveRule (firewall r) idx) as [ok fw].
    destruct remote; [eexists; split; [reflexivity|]; by split; [apply sound_rules|]|].
    destruct ok; cbn [negb]; [|eexists; split; [reflexivity|]; by split; [apply sound_rules|]].
    edestruct (rules_quiet r fw) as (r' & -> & Hq); [done|]. by exists r'.
  - eexists. split; [reflexivity|]. split; [|by destruct rules].
    destruct rules; apply sound_subs; try done; apply subscribe_with_ok; simpl; try done; lia.
  - unfold cancel_sub. destruct rules.
    + destruct (cancel_ok id _ Hb2) as (b & -> & Hb & _). eexists. split; [reflexivity|]. split; [by apply sound_subs|done].
    + destruct (cancel_ok id _ Hb1) as (b & -> & Hb & _). eexists. split; [reflexivity|]. split; [by apply sound_subs|done].
  - eexists. split; [reflexivity|]. unfold receive_sub.
    destruct rules; (split; [apply sound_subs; try done; by apply receive_spec|done]).
Qed.

(** The message of a handler, among the messages in use. *)
Lemma handled_owned held id r r' :
  owned (packetsPool r) (id :: held ++ router_places r) → handled id r r' →
  owned (packetsPool r') (held ++ router_places r') ∧
  ∀ j, j ∈ held ++ router_places r → j ∈ held ++ router_places r' →
    pool_heap (packetsPool r') !! j = pool_heap (packetsPool r) !! j.
Proof.
  intros Ho [_ [[Ep El]|[Ep El]]].
  - destruct (owned_free _ _ _ Ho) as (H1 & _ & H2). rewrite Ep. split; [|by intros j Hj _; apply H2].
    eapply owned_sub; [exact H1|]. by rewrite El.
  - rewrite Ep. split; [|done]. eapply owned_sub; [exact Ho|]. rewrite Permutation_middle. by apply submseteq_app.
Qed.

Lemma concat_push (ws : list (list (nat * fromType))) i x :
  (i < length ws)%nat → concat (alter (λ q, q ++ [x]) i ws) ≡ₚ x :: concat ws.
Proof.
  revert i. induction ws as [|q ws IH]; intros [|i] Hi; simpl in *; [lia|lia| |].
  - rewrite <- app_assoc. simpl. by rewrite Permutation_middle.
  - change (q ++ concat (alter (λ q0, q0 ++ [x]) i ws) ≡ₚ x :: q ++ concat ws).
    rewrite IH by lia. by rewrite Permutation_middle.
Qed.

Lemma concat_pop (ws : list (list (nat * fromType))) i x q :
  ws !! i = Some (x :: q) → concat ws ≡ₚ x :: concat (<[i := q]> ws).
Proof.
  intros Hi. assert (Hl : (i < length ws)%nat) by by eapply lookup_lt_Some.
  rewrite <- (take_drop_middle _ _ _ Hi) at 1. rewrite insert_take_drop by done. rewrite !concat_app. simpl.
  by rewrite <- Permutation_middle.
Qed.

Lemma NewMessageCopyFrom_step pick d data :
  dp_ok d → ∃ d', dp_step (DParse pick data) d = Ok d' ∧ dp_ok d' ∧ kept d d'.
Proof.
  intros [Hs Ho]. cbn [dp_step]. unfold NewMessageCopyFrom.
  destruct (accepts (maxSize (packetsPool (d_router d))) data) eqn:Ea.
  - destruct (NewMessageCopyFrom_accept pick _ _ _ (ow_pool _ _ Ho) Ea)
      as (p' & id & m & -> & Hp & Hid & Hms & Hm & (_ & Hown & _) & Hk). cbn [gobind].
    eexists. split; [reflexivity|].
    assert (Hk' : ∀ j, j ∈ places d → pool_heap p' !! j = pool_heap (packetsPool (d_router d)) !! j).
    { intros j Hj. apply Hk. by apply elem_of_list_to_set. }
    split; [|by intros j Hj _; apply Hk']. constructor; [by apply sound_data; try apply Hs|].
    constructor; [done| |].
    + constructor; [|apply Ho]. intros Hin. apply Hid. by apply elem_of_list_to_set.
    + intros j m' [->|Hj]%elem_of_cons Hj'; [simpl in Hj'; congruence|]. simpl in Hj'.
      rewrite Hk' in Hj' by done. by eapply (ow_owned _ _ Ho).
  - destruct (NewMessageCopyFrom_reject pick _ _ Ea) as [e ->]. cbn [gobind]. by exists d.
Qed.

Lemma hand_step i from d : dp_ok d → ∃ d', dp_step (DHand i from) d = Ok d' ∧ dp_ok d' ∧ kept d d'.
Proof.
  intros [Hs Ho]. cbn [dp_step]. destruct (d_held d !! i) as [id|] eqn:Ei; [|by exists d].
  assert (Hin : id ∈ places d) by (apply elem_of_app; left; by eapply list_elem_of_lookup_2).
  destruct (owned_heap _ _ _ Ho Hin) as [m Hm].
  assert (Hen : ∃ k, (k < length (shardedWorkers (d_router d)))%nat ∧
    hand from (d_router d) id = Ok (set_workers (d_router d) (alter (λ q, q ++ [(id, from)]) k (shardedWorkers (d_router d))))).
  { destruct (getWorker_total (d_router d) (dm_hole m) (so_workers _ Hs)) as (k & Ek & Hlt). exists k. split; [done|].
    unfold hand, HandleTunPacket, HandleMeshPacket, HandleTransportPacket, enqueue. rewrite Hm, Ek. by destruct from. }
  destruct Hen as (k & Hlt & ->). cbn [gobind]. eexists. split; [reflexivity|].
  split; [|by intros j _ _]. constructor; [apply sound_shards; [done|apply length_alter]|].
  eapply owned_sub; [exact Ho|]. apply Permutation_submseteq. unfold places, router_places. simpl.
  rewrite (concat_push _ _ _ Hlt). simpl. by rewrite <- Permutation_middle, app_comm_cons, <- (delete_Permutation _ _ _ Ei).
Qed.

Lemma work_step shard pick now d : dp_ok d → ∃ d', dp_step (DWork shard pick now) d = Ok d' ∧ dp_ok d' ∧ kept d d'.
Proof.
  intros [Hs Ho]. cbn [dp_step]. unfold Run.
  destruct (shardedWorkers (d_router d) !! shard) as [[|[id from] rest]|] eqn:Ei; [by exists d| |by exists d].
  set (r1 := set_workers (d_router d) (<[shard := rest]> (shardedWorkers (d_router d)))).
  assert (Hr1 : sound r1) by (apply sound_shards; [done|apply length_insert]).
  assert (Hpl : places d ≡ₚ id :: d_held d ++ router_places r1).
  { unfold places, router_places. simpl. rewrite (concat_pop _ _ _ _ Ei). simpl. by rewrite <- Permutation_middle. }
  assert (Ho1 : owned (packetsPool r1) (id :: d_held d ++ router_places r1)).
  { eapply owned_sub; [exact Ho|]. by rewrite Hpl. }
  destruct (owned_heap _ _ id Ho1) as [m Hm]; [set_solver|].
  assert (Hh : ∃ r', match from with
      | fromTransport => handleTransportPacketInternal now r1 id
      | fromTun => handleTunPacketInternal pick r1 id
      | fromMesh => handleMeshPacketInternal pick now r1 id end = Ok r' ∧ handled id r1 r').
  { destruct from; [by eapply handleTransportPacketInternal_handled|by eapply handleTunPacketInternal_handled|
      by eapply handleMeshPacketInternal_handled]. }
  destruct Hh as (r' & -> & Hh). cbn [gobind]. eexists. split; [reflexivity|].
  destruct (handled_owned _ _ _ _ Ho1 Hh) as [H1 H2]. split; [by constructor; [apply Hh|]|].
  intros j Hj Hj'. simpl in *. destruct (decide (j = id)) as [->|Hne].
  - destruct Hh as [_ [[Ep El]|[Ep _]]]; [|by rewrite Ep]. exfalso.
    unfold places in Hj'. simpl in Hj'. rewrite El in Hj'. by pose proof (ow_once _ _ Ho1) as [? ?]%NoDup_cons.
  - apply H2; [|done]. rewrite Hpl in Hj. by apply elem_of_cons in Hj as [].
Qed.

Lemma shape_step s pick d : dp_ok d → ∃ d', dp_step (DShape s pick) d = Ok d' ∧ dp_ok d' ∧ kept d d'.
Proof.
  intros [Hs Ho]. cbn [dp_step]. unfold shape_turn.
  assert (Hsame : ∃ d', (r' <- Ok (d_router d);; Ok (mkDP r' (d_held d))) = Ok d' ∧ dp_ok d' ∧ kept d d').
  { exists d. split; [by destruct d|done]. }
  destruct (shapes (d_router d) !! s) as [sr|] eqn:Es; [|done].
  set (p := packetsPool (d_router d)) in *.
  destruct (shape_places (d_router d) p (links (d_router d)) s sr sr Es) as (rest0 & E0 & _).
  destruct (startWorker_route_ok pick sr p (links (d_router d)) (so_routes _ Hs _ _ Es)) as [->|(id & sr' & w' & -> & Hsr & Hw & Eq)];
    [|apply Hs|done|].
  { intros id Hid. assert (Hin : id ∈ places d) by (unfold places; rewrite E0, !elem_of_app; auto).
    destruct (owned_heap _ _ _ Ho Hin) as [m Hm]. exists m. split; [done|].
    pose proof (owned_size _ _ _ _ Ho Hm) as Hz. fold p in Hz. pose proof (so_max _ Hs) as Hmax. fold p in Hmax. lia. }
  cbn [gobind]. eexists. split; [reflexivity|].
  destruct (shape_places (d_router d) (Free p id) w' s sr sr' Es) as (rest & E1 & E2).
  assert (Ho1 : owned p (id :: d_held d ++ router_places (set_data (d_router d) (Free p id) (<[s := sr']> (shapes (d_router d))) w'))).
  { eapply owned_sub; [exact Ho|]. unfold places. rewrite E1, E2, Eq. simpl. by rewrite Permutation_middle. }
  destruct (owned_free _ _ _ Ho1) as (H1 & H2 & H3). split; [|by intros j _ Hj; apply H3].
  constructor; [by eapply sound_shape|exact H1].
Qed.

Lemma release_step i d : dp_ok d → ∃ d', dp_step (DFree i) d = Ok d' ∧ dp_ok d' ∧ kept d d'.
Proof.
  intros [Hs Ho]. cbn [dp_step]. destruct (d_held d !! i) as [id|] eqn:Ei; [|by exists d].
  eexists. split; [reflexivity|].
  assert (Ho1 : owned (packetsPool (d_router d)) (id :: delete i (d_held d) ++ router_places (d_router d))).
  { eapply owned_sub; [exact Ho|]. unfold places. by rewrite app_comm_cons, <- (delete_Permutation _ _ _ Ei). }
  destruct (owned_free _ _ _ Ho1) as (H1 & H2 & H3). split; [|by intros j _ Hj; apply H3].
  constructor; [by apply sound_free|exact H1].
Qed.

Lemma take_step d : dp_ok d → ∃ d', dp_step DTake d = Ok d' ∧ dp_ok d' ∧ kept d d'.
Proof.
  intros [Hs Ho]. cbn [dp_step]. destruct (toIface (d_router d)) as [|id q] eqn:Eq; [by exists d|].
  eexists. split; [reflexivity|]. split; [|by intros j _ _]. constructor; [by apply sound_queue|].
  eapply owned_sub; [exact Ho|]. apply Permutation_submseteq. unfold places, router_places. simpl. rewrite Eq, <- app_comm_cons.
  by rewrite <- !Permutation_middle.
Qed.

Lemma dp_step_ok o d : dp_ok d → ∃ d', dp_step o d = Ok d' ∧ dp_ok d' ∧ kept d d'.
Proof.
  intros Hd. destruct o;
    [by apply NewMessageCopyFrom_step|by apply hand_step|by apply work_step|by apply shape_step|by apply take_step|
     by apply release_step|..];
    cbn [dp_step];
    match goal with |- context [control ?o _] => destruct (control_quiet o (d_router d) (dk_sound _ Hd)) as (r' & -> & Hs & Ep & El) end;
    cbn [gobind]; (eexists; split; [reflexivity|]); (split; [|intros j _ _; simpl; by rewrite Ep]);
    (constructor; [done|]); simpl; rewrite Ep; (eapply owned_sub; [apply Hd|]); unfold places; simpl; by rewrite El.
Qed.

Lemma dp_run_ok os d : dp_ok d → ∃ d', dp_run os d = Ok d' ∧ dp_ok d'.
Proof.
  revert d. induction os as [|o os IH]; intros d Hd; [by exists d|].
  destruct (dp_step_ok o d Hd) as (d1 & E & Hd1 & _). cbn [dp_run]. rewrite E. by apply IH.
Qed.

Lemma router_New_ok parse6 n w node global r :
  New parse6 n w node global = Ok r → (0 < n)%nat → (Z.of_nat n < 2 ^ 32)%Z → link_up w → dp_ok (mkDP r []).
Proof.
  unfold New. destruct (NetUtils.NewNativeIPNet parse6 node) as [[gw net]| |]; [|done|done].
  destruct (NetUtils.NewNativeIPNet parse6 global) as [[gw' gnet]| |]; [|done|done]. intros [= <-] Hn Hn2 Hw.
  assert (Hpl : ∀ k, concat (replicate k ([] : list (nat * fromType))) = []) by (intros k; by induction k).
  constructor.
  - constructor; cbn [d_router packetsPool shapes table shardedWorkers routingsubs firewallsubs links].
    + done.
    + intros s sr. by rewrite lookup_empty.
    + intros ip o s. unfold RoutingTable.RoutingTable.New. by rewrite lookup_empty.
    + rewrite length_replicate. lia.
    + split; apply empty_broker_ok.
    + done.
  - assert (E : places (mkDP (mkRouter (NewDGMessagePool (Z.to_nat 65535)) RoutingTable.RoutingTable.New ∅
        Firewall.Firewall.New [] gw net gnet (replicate n []) empty_broker empty_broker 0 0 0 w) []) = []).
    { unfold places, router_places. cbn [d_held d_router shardedWorkers toIface shapes]. rewrite Hpl.
      unfold shaped_ids. by rewrite map_to_list_empty. }
    rewrite E. constructor; [apply new_pool_ok|apply NoDup_nil_2|by intros id m Hid%elem_of_nil].
Qed.

(** C2: while the transports run, the messages of the data plane have one owner.
    Take a new router over objects that are up, and any interleaving of parsing,
    handing in, turns of the shards' and routes' workers, taking out, releasing, and
    changes of routes, rules and subscriptions, in which no transport's context ends
    (what follows that is below).  Nothing panics, and then: each message object in
    use is in exactly one place (a goroutine's hand, a shard's queue, the interface's
    queue or a shaped route's queue) and not in the pool, so that it is neither
    released twice nor handed out again; every route in the table has its queue,
    limiter and running worker; and a further step leaves the bytes and the flow of
    a message that stays in one of these places alone.  The places are those of the
    message objects: the slices that [SendDatagram] has queued towards a device or a
    node outlive their message, which is released once it is sent, and are not
    covered ([queued_packet_is_overwritten], [queued_datagram_is_overwritten]). *)
Theorem messages_have_one_owner parse6 n w node global r os o :
  New parse6 n w node global = Ok r → (0 < n)%nat → (Z.of_nat n < 2 ^ 32)%Z → link_up w →
  ∃ d d', dp_run os (mkDP r []) = Ok d ∧ dp_step o d = Ok d' ∧
    NoDup (places d) ∧ (∀ id, id ∈ places d → id ∉ pool_items (packetsPool (d_router d))) ∧
    shapes_ok (d_router d) ∧ (∀ s sr, shapes (d_router d) !! s = Some sr → sr_running sr = sr_speedLimited sr) ∧
    ∀ id, id ∈ places d → id ∈ places d' →
      pool_heap (packetsPool (d_router d')) !! id = pool_heap (packetsPool (d_router d)) !! id.
Proof.
  intros E Hn Hn2 Hw. destruct (dp_run_ok os _ (router_New_ok _ _ _ _ _ _ E Hn Hn2 Hw)) as (d & Er & Hd).
  destruct (dp_step_ok o d Hd) as (d' & Es & _ & Hk). exists d, d'. destruct Hd as [Hs Ho].
  do 2 (split; [done|]). split; [apply Ho|]. split; [|split; [|split; [|exact Hk]]].
  - intros id Hid. apply (pok_disjoint _ _ (ow_pool _ _ Ho)). by apply elem_of_list_to_set.
  - intros ip obj s Ht Hsh. destruct (so_table _ Hs _ _ _ Ht Hsh) as [sr Hsr]. exists sr. split; [done|].
    apply (so_routes _ Hs _ _ Hsr).
  - intros s sr Hsr. apply (so_routes _ Hs _ _ Hsr).
Qed.

End Spec.

(** * Instances *)

(** The clients of a transport are such objects, while its context lasts. *)
Section AwgLink.
Context `{DV : AwgTransport.Device} (pick_send : bool).

Definition awg_link : Link :=
  {| link := AwgTransport.AwgTransport.AWGTransport;
     send_datagram obj id data t := AwgTransport.AwgTransport.SendDatagram pick_send obj id data t |}.

Lemma awg_link_laws : @LinkLaws awg_link.
Proof.
  exists (λ t, AwgTransport.AwgTransport.ctx_done t = false). intros obj id data t Hup.
  cbn [send_datagram awg_link]. unfold AwgTransport.AwgTransport.SendDatagram, AwgTransport.AwgTransport.writePacket.
  destruct (_ !! obj); [|done]. simpl. by rewrite Hup.
Qed.

End AwgLink.

(** * Witnesses *)

#[local] Instance trace_link_laws : LinkLaws.
Proof. by exists (λ _, True). Defined.

(** A limiter with a burst, which never runs out of tokens. *)
#[local] Instance burst_limiter : Limiter := {|
  limiter := Z * Z;
  NewLimiter := λ r b, (r, b);
  AllowN := λ _ l n, (bool_decide (n ≤ l.2)%Z, l);
  WaitN := λ done l n, (if done || negb (bool_decide (n ≤ l.2)%Z) then Some "context canceled"%string else None, l) |}.

#[local] Instance burst_limiter_laws : LimiterLaws.
Proof. exists (λ l : Z * Z, l.2); try done. intros l n Hn. simpl. by rewrite bool_decide_true. Qed.

Definition demo_data : @Router trace_link burst_limiter :=
  match New (λ _, None) 2 no_sends "10.1.0.1/16" "10.1.0.1/8" with
  | Ok r => r
  | _ => mkRouter demo_pool ∅ ∅ Firewall.Firewall.New [] 0 (NetUtils.mkNet 0 0) (NetUtils.mkNet 0 0) [] empty_broker empty_broker 0 0 0 no_sends
  end.

(** A packet for a client with a speed limit goes through the router into the
    queue of the client's route. *)
Definition demo_ops : list op :=
  [DAddShaped 7 "n" (DstIP demo_hole) (Some 1000000%Z) None; DParse None demo_packet; DHand 0 fromTun;
   DWork 0 true 0; DWork 1 true 0].

Lemma messages_have_one_owner_witness :
  ∃ d d', dp_run demo_ops (mkDP demo_data []) = Ok d ∧ dp_step (DShape 0 false) d = Ok d' ∧
    NoDup (places d) ∧ places d = [0%nat] ∧ places d' = [].
Proof.
  destruct (messages_have_one_owner (λ _, None) 2 no_sends "10.1.0.1/16" "10.1.0.1/8" demo_data demo_ops (DShape 0 false))
    as (d & d' & E & E' & Hn & _); [reflexivity|lia|lia|exact I|].
  exists d, d'. split; [exact E|]. split; [exact E'|]. split; [exact Hn|].
  assert (H : (x <- dp_run demo_ops (mkDP demo_data []);; y <- dp_step (DShape 0 false) x;; Ok (places x, places y)) =
    Ok ([0%nat], [])) by (vm_compute; reflexivity).
  rewrite E in H. cbn [gobind] in H. rewrite E' in H. cbn [gobind] in H. injection H as H1 H2. by split.
Defined.

End DataPlane.
