(* ===== verification/MeshSync.v ===== *)
(** * The rules of one node at another (pkg/mesh/peerssync, rules stream)

    Node [a] serves its rules to node [b]: the stream of Streams.v between the
    router of [a] (server.go: SubscribeClientsRules) and that of [b] (syncer.go:
    syncPeerRulesData, streamPeerRulesData), while both routers change. *)
From S2P Require Import Prelude Broker Streams RoutingTable Firewall Router RouterOps PeersSync.
Import Broker Streams RouterOps Firewall.Firewall PeersSync.PeersSync.

Open Scope go_scope.

Module MeshSync.

Section System.
Context `{LK : Link} `{LM : Limiter} `{MR : MapRange}.

(** The server's loop over the router: [SubscribeFirewallEvents], a dump at the
    start and at each tick, a message for each event. *)
#[export] Instance SubscribeClientsRules : Served Router.Router Router.FirewallEvent ClientRuleEvent := {|
  sv_subs := Router.firewallsubs;
  sv_with_subs r b := Router.set_subs r (Router.routingsubs r) b;
  sv_subscribe := Router.SubscribeFirewallEvents;
  sv_sync := buildFirewallSyncEvent;
  sv_message := generateFirewallEvent |}.

#[export] Instance SubscribeClientsRules_laws : ServedLaws Router.Router Router.FirewallEvent ClientRuleEvent.
Proof. split; [done|]. intros r. by exists 200%nat. Qed.

(** The client's loop on node [b] in the session with [a]. *)
Definition applyRules (a b : string) (r : Router.Router) (ev : ClientRuleEvent) : gores Router.Router :=
  Ok (streamPeerRulesData b a r ev).

(** [syncPeerRulesData]: the stream is renewed while the session lives. *)
Definition syncPeerRulesData (ctx_done conn_done : bool) :
    Stream Router.Router ClientRuleEvent Router.Router → gores (Stream Router.Router ClientRuleEvent Router.Router) :=
  RunWhileConnected ctx_done conn_done true.

End System.

(** Applying messages changes nothing but the firewall. *)

Section Effects.
Context `{LK : Link} `{LM : Limiter} `{MR : MapRange} (a b : string).

Definition both_subs (r : Router.Router) := (Router.firewallsubs r, Router.routingsubs r).

Lemma addRemoteRule_subs r i x : both_subs (sr_AddRemoteRule r i x).2 = both_subs r.
Proof. simpl. unfold Router.AddRemoteRule, both_subs. by destruct (AddRule (Router.firewall r) i x). Qed.
Lemma removeRemoteRule_subs r i : both_subs (sr_RemoveRemoteRule r i).2 = both_subs r.
Proof. simpl. unfold Router.RemoveRemoteRule, both_subs. by destruct (RemoveRule (Router.firewall r) i). Qed.

Lemma syncRules_subs r dump : both_subs (syncRules b a r dump) = both_subs r.
Proof.
  unfold syncRules. rewrite (foldl_keeps _ both_subs).
  - rewrite (foldl_keeps _ both_subs); [done|]. intros r' u. unfold syncRuleObject, addRemoteRuleObject.
    case_match; [done|]. case_decide; [done|]. apply addRemoteRule_subs.
  - intros r' d. unfold drop_stale_rule. case_decide; [done|]. case_decide; [done|]. apply removeRemoteRule_subs.
Qed.

Lemma streamRules_subs r m : both_subs (streamPeerRulesData b a r m) = both_subs r.
Proof.
  unfold streamPeerRulesData, addRemoteRuleObject, deleteRemoteRuleObject. destruct (re_type m); [apply syncRules_subs|..|done].
  - destruct (re_update m); [|done]. case_decide; [done|apply addRemoteRule_subs].
  - destruct (re_update m); [apply removeRemoteRule_subs|done].
Qed.

Lemma both_subs_ok r r' : both_subs r' = both_subs r → subs_ok r → subs_ok r'.
Proof. intros E Hs. unfold both_subs in E. injection E as E1 E2. unfold subs_ok. by rewrite E1, E2. Qed.

End Effects.

(** * Specification *)

Section Spec.
Context `{LK : Link} `{LM : Limiter} `{MR : MapRange}.
Context (a b : string) (content : Z → PortRule) (ns : list string).

(** A number names one rule of [a] for ever: the database never reuses one. *)
Definition wf_id (k : Z) : Prop := (0 <= k < 2 ^ 48)%Z.
Definition the_rule (k : Z) : PortRule := with_index (mkIndex a k) (content k).
Definition wf_content : Prop :=
  ∀ k, is_u16 (PortRangeStart (content k)) ∧ ∀ e, PortRangeEnd (content k) = Some e → is_u16 e.

(** The rules of [a] that a router holds. *)
Definition own (r : Router.Router) (k : Z) : option PortRule := rule_at (Router.firewall r) (mkIndex a k).

Record node_good (r : Router.Router) : Prop := {
  ng_inv : sr_inv r;
  ng_subs : subs_ok r;
  ng_fits : router_fits r ns;
  ng_own k x : wf_id k → own r k = Some x → x = the_rule k;
  ng_nodes j x : wf_index j → rule_at (Router.firewall r) j = Some x → NodeID j ∈ ns }.

(** Messages of the stream and events of the subscription speak of the rules of
    [a] as they are. *)
Definition says (m : ClientRule) : Prop :=
  wf_index (rule_index m) ∧ NodeId m ∈ ns ∧
  (NodeId m = a → with_index (rule_index m) (rule_of m) = the_rule (Id m)).
Definition msg_ok (m : ClientRuleEvent) : Prop :=
  match re_type m with
  | RULE_SYNC => Forall says (re_dump m)
  | RULE_ADDED => ∀ u, re_update m = Some u → says u
  | RULE_REMOVED => ∀ u, re_update m = Some u → wf_index (rule_index u)
  | RULE_OTHER => True
  end.
Definition event_ok (ev : Router.FirewallEvent) : Prop := msg_ok (generateFirewallEvent ev).

(** A dump that lists exactly the rules [rules] of [a]. *)
Definition tells (rules : Z → option PortRule) (m : ClientRuleEvent) : Prop :=
  re_type m = RULE_SYNC ∧ ∀ k, wf_id k → k ∈ alive_rules a (re_dump m) ↔ is_Some (rules k).

Definition same_rules (r r' : Router.Router) : Prop := ∀ k, wf_id k → own r' k = own r k.

(** The changes of the routers are well-formed: [a] only adds what its numbers
    name, nobody else makes rules in its name, and routes may change at will. *)
Definition wf_other (idx : PortRuleIndex) : Prop := wf_index idx ∧ NodeID idx ∈ ns ∧ NodeID idx ≠ a.
Definition client_op (op : router_op) : Prop :=
  match op with
  | OpAddRule idx _ | OpRemoveRule idx | OpAddRemoteRule idx _ | OpRemoveRemoteRule idx => wf_other idx
  | _ => True
  end.
(** [quiet]: the own rules of [a] stay. *)
Definition server_op (quiet : bool) (op : router_op) : Prop :=
  match op with
  | OpAddRule idx rule => quiet = false ∧ NodeID idx = a ∧ wf_id (RuleID idx) ∧ rule = content (RuleID idx)
  | OpRemoveRule idx => quiet = false ∧ NodeID idx = a ∧ wf_id (RuleID idx)
  | _ => client_op op
  end.

Context (Hab : a ≠ b) (Ha : a ≠ "") (Hns : a ∈ ns) (Hcontent : wf_content).

Lemma own_index k : wf_id k → wf_index (mkIndex a k).
Proof. intros Hk. by split. Qed.
#[local] Hint Resolve own_index : core.

(** ** One router *)

Lemma node_good_same r r' :
  node_good r → Router.firewall r' = Router.firewall r → RoutingTable.table_ok (Router.table r') → subs_ok r' → node_good r'.
Proof.
  intros [[H1 [H2 H3]] H4 H5 H6] Ef Et Hs.
  constructor; [|done|unfold router_fits|unfold own|]; rewrite ?Ef; try done.
  split; [by rewrite Ef|]. split; [by rewrite Ef|done].
Qed.

Lemma add_good r idx rule :
  node_good r → wf_index idx → NodeID idx ∈ ns → (NodeID idx = a → with_index idx rule = the_rule (RuleID idx)) →
  node_good (Router.AddRemoteRule r idx rule).2 ∧
  (NodeID idx ≠ a → same_rules r (Router.AddRemoteRule r idx rule).2).
Proof.
  intros [H1 H0 H2 H3 H4] Hi Hn Hr.
  destruct (sr_add_law (R := Router.Router) r idx rule ns H1 Hi H2 Hn) as (G1 & G2 & G3 & _).
  split.
  - constructor; [exact G1| |exact G2| |].
    + unfold Router.AddRemoteRule. by destruct (AddRule _ _ _).
    + intros k x Hk. unfold own. change (rule_at (Router.firewall ?r) ?j) with (sr_rules r j).
      rewrite G3 by auto. case_decide as Hd; [|by apply H3].
      destruct Hd as [Hd _]. rewrite <- Hd in Hr |- *. intros [= <-]. by apply Hr.
    + intros j x Hj. change (rule_at (Router.firewall ?r) ?j) with (sr_rules r j).
      rewrite G3 by done. case_decide as Hd; [|by apply H4]. by destruct Hd as [-> _].
  - intros Hne k Hk. unfold own. change (rule_at (Router.firewall ?r) ?j) with (sr_rules r j).
    rewrite G3 by auto. rewrite decide_False; [done|]. intros [Hd _]. by rewrite <- Hd in Hne.
Qed.

Lemma remove_good r idx :
  node_good r → wf_index idx →
  node_good (Router.RemoveRemoteRule r idx).2 ∧ (NodeID idx ≠ a → same_rules r (Router.RemoveRemoteRule r idx).2).
Proof.
  intros [H1 H0 H2 H3 H4] Hi.
  destruct (sr_remove_law (R := Router.Router) r idx H1 Hi) as (G1 & G2 & G3 & _).
  split.
  - constructor; [exact G1| |by apply (G2 ns)| |].
    + unfold Router.RemoveRemoteRule. by destruct (RemoveRule _ _).
    + intros k x Hk. unfold own. change (rule_at (Router.firewall ?r) ?j) with (sr_rules r j).
      rewrite G3 by auto. case_decide; [done|by apply H3].
    + intros j x Hj. change (rule_at (Router.firewall ?r) ?j) with (sr_rules r j).
      rewrite G3 by done. case_decide; [done|by apply H4].
  - intros Hne k Hk. unfold own. change (rule_at (Router.firewall ?r) ?j) with (sr_rules r j).
    rewrite G3 by auto. rewrite decide_False; [done|]. intros Hd. by rewrite <- Hd in Hne.
Qed.

(** ** Messages *)

Lemma says_own k : wf_id k → says (mkRuleMsg a k (Address (content k)) (TargetAddress (content k)) (RuleProtocol (content k))
  (u32 (PortRangeStart (content k))) (u32 <$> PortRangeEnd (content k))).
Proof.
  intros Hk. destruct (Hcontent k) as [Hs He]. split; [by apply own_index|]. split; [done|]. intros _.
  unfold the_rule, with_index, rule_index, rule_of. simpl. f_equal; [word_lia|].
  destruct (PortRangeEnd (content k)) as [e|]; [|done]. simpl. f_equal. specialize (He e eq_refl). word_lia.
Qed.

Lemma added_event_ok k :
  wf_id k → event_ok (Router.mkFEvent Router.RuleAdded a k (Address (content k)) (TargetAddress (content k))
    (RuleProtocol (content k)) (PortRangeStart (content k)) (PortRangeEnd (content k))).
Proof. intros Hk u [= <-]. by apply says_own. Qed.

Lemma removed_event_ok k : wf_id k → event_ok (Router.mkFEvent Router.RuleRemoved a k 0 None "" 0 None).
Proof. intros Hk u [= <-]. by apply own_index. Qed.

(** A dump is true, and it tells the rules of the moment. *)
Lemma build_ok r : node_good r → msg_ok (buildFirewallSyncEvent r) ∧ tells (own r) (buildFirewallSyncEvent r).
Proof.
  intros [Hi _ Hf Ho Hn]. pose proof Hi as (Hk & Hw & _). split; [|split; [done|]].
  - apply Forall_fmap, Forall_forall. intros d ([k x] & -> & Hin%elem_of_map_range)%list_elem_of_fmap. simpl.
    pose proof (Hw _ _ Hin) as Hwx. pose proof (rule_at_ids _ _ _ Hk Hin) as Hx. pose proof (Hn _ _ Hwx Hx) as Hnx.
    destruct (decide (NodeID (index x) = a)) as [Ha'|Ha'].
    + destruct x as [[n i] ad ta pr ps pe]. simpl in *. subst n. destruct Hwx as [_ Hwi].
      specialize (Ho i _ Hwi Hx). pose proof (says_own i Hwi) as Hs. unfold the_rule, with_index in Ho. injection Ho as -> -> -> -> ->.
      exact Hs.
    + split; [exact Hwx|]. split; [exact Hnx|]. intros E. by destruct Ha'.
  - intros k Hk'. rewrite elem_of_alive_rules. change (is_Some (own r k)) with (is_Some (sr_rules r (mkIndex a k))).
    rewrite (sr_dump_law r (mkIndex a k) Hi (own_index k Hk')). simpl. split.
    + intros (ev & (d & -> & Hd)%list_elem_of_fmap & Hn' & Hk2). by exists d.
    + intros (d & Hd & Hn' & Hk2). exists (rule_message d). split; [|done]. by apply list_elem_of_fmap_2.
Qed.

(** A message applied at the other end. *)
Lemma sync_good r dump :
  node_good r → Forall says dump →
  node_good (syncRules b a r dump) ∧
  ∀ rules, (∀ k, wf_id k → k ∈ alive_rules a dump ↔ is_Some (rules k)) →
    (∀ k x, wf_id k → rules k = Some x → x = the_rule k) → ∀ k, wf_id k → own (syncRules b a r dump) k = rules k.
Proof.
  intros Hr Hs. pose proof Hr as [Hi Hs0 Hf Ho Hn].
  destruct (sync_rules_spec (R := Router.Router) b a ns r dump Hi) as (G1 & G2 & _ & G3 & _);
    [eapply Forall_impl; [exact Hs|]; by intros m (? & ? & _)|exact Hf|].
  assert (Hdump : ∀ j x, dump_rule b dump j = Some x → NodeID j ∈ ns ∧ (∀ k, j = mkIndex a k → x = the_rule k)).
  { intros j x. unfold dump_rule. case_decide; [done|].
    destruct (head (filter (λ ev, rule_index ev = j) dump)) as [ev|] eqn:Eh; [|done]. intros [= <-].
    apply head_Some_elem_of in Eh as [Ej Hin]%list_elem_of_filter. rewrite Forall_forall in Hs.
    destruct (Hs _ Hin) as (_ & Hnm & Hsay). rewrite <- Ej. split; [done|]. intros k [= En Ei]. rewrite <- Ei.
    by apply Hsay. }
  split.
  - constructor; [exact G1|eapply both_subs_ok; [apply syncRules_subs|done]|exact G2| |].
    + intros k x Hk. unfold own. change (rule_at (Router.firewall ?r) ?j) with (sr_rules r j). rewrite G3 by auto.
      unfold rule_after. case_decide; [done|]. destruct (sr_rules r (mkIndex a k)) as [y|] eqn:Ey.
      * intros [= <-]. by apply Ho.
      * intros Hd. by apply (proj2 (Hdump _ _ Hd)).
    + intros j x Hj. change (rule_at (Router.firewall ?r) ?j) with (sr_rules r j). rewrite G3 by done.
      unfold rule_after. case_decide; [done|]. destruct (sr_rules r j) as [y|] eqn:Ey.
      * intros _. by eapply Hn.
      * intros Hd. by apply (Hdump _ _ Hd).
  - intros rules Htell Hrules k Hk. unfold own. change (rule_at (Router.firewall ?r) ?j) with (sr_rules r j).
    rewrite G3 by auto. unfold rule_after. cbn [NodeID RuleID]. specialize (Htell k Hk).
    destruct (rules k) as [y|] eqn:Ey.
    + rewrite decide_False by (intros [_ H]; apply H, Htell; by eexists). rewrite (Hrules k y Hk Ey).
      destruct (sr_rules r (mkIndex a k)) as [z|] eqn:Ez; [f_equal; by apply Ho|].
      unfold dump_rule. rewrite decide_False by done.
      assert (Hex : ∃ ev, head (filter (λ ev, rule_index ev = mkIndex a k) dump) = Some ev).
      { destruct (filter (λ ev, rule_index ev = mkIndex a k) dump) as [|ev l] eqn:Ef; [|by exists ev]. exfalso.
        assert (Hin : k ∈ alive_rules a dump) by (apply Htell; by eexists).
        apply elem_of_alive_rules in Hin as (ev & Hin & <- & <-).
        assert (Hin' : ev ∈ filter (λ ev', rule_index ev' = mkIndex (NodeId ev) (Id ev)) dump) by by apply list_elem_of_filter.
        rewrite Ef in Hin'. by apply not_elem_of_nil in Hin'. }
      destruct Hex as [ev Eh]. pose proof (Hdump (mkIndex a k) (with_index (mkIndex a k) (rule_of ev))) as Hd.
      unfold dump_rule in Hd. rewrite decide_False, Eh in Hd by done. rewrite Eh. simpl. f_equal.
      by apply (Hd eq_refl).
    + case_decide as Hd; [done|]. exfalso. apply Hd. split; [done|]. intros Hin%Htell. by destruct Hin.
Qed.

Lemma stream_good r m :
  node_good r → msg_ok m →
  node_good (streamPeerRulesData b a r m) ∧
  ∀ rules, tells rules m → (∀ k x, wf_id k → rules k = Some x → x = the_rule k) →
    ∀ k, wf_id k → own (streamPeerRulesData b a r m) k = rules k.
Proof.
  intros Hr Hm. unfold streamPeerRulesData, msg_ok, tells in *. destruct (re_type m).
  - destruct (sync_good r (re_dump m) Hr Hm) as [H1 H2]. split; [done|]. intros rules [_ Ht] Hrules. by apply H2.
  - split; [|by intros rules [? _]]. destruct (re_update m) as [u|]; [|done]. destruct (Hm u eq_refl) as (Hi & Hn & Hs).
    unfold addRemoteRuleObject. case_decide; [done|]. by apply add_good.
  - split; [|by intros rules [? _]]. destruct (re_update m) as [u|]; [|done]. by apply remove_good, Hm.
  - split; [done|]. by intros rules [? _].
Qed.

(** ** The contract of the stream *)

Lemma tells_ext R R' m : (∀ k, wf_id k → R k = R' k) → tells R m → tells R' m.
Proof. intros H [Ht Hm]. split; [done|]. intros k Hk. by rewrite <- H, Hm. Qed.

#[local] Instance same_rules_pre : PreOrder same_rules.
Proof. split; [done|]. intros r1 r2 r3 H1 H2 k Hk. by rewrite H2, H1. Qed.

#[local] Instance rules_contract : Contract (applyRules a b).
Proof.
  refine {| sc_inv := node_good; sc_client := node_good; sc_msg := msg_ok; sc_same := same_rules;
    sc_tells r m := tells (own r) m; sc_agree r rb := same_rules r rb |}.
  - intros r bk Hr Hb. split; [|done]. apply (node_good_same r); [done|done|apply Hr|]. split; [done|apply Hr].
  - apply build_ok.
  - intros r r' m H. apply tells_ext. intros k Hk. by rewrite H.
  - intros r r' rb H Hag k Hk. by rewrite Hag, H.
  - intros rb m Hr Hm. destruct (stream_good rb m Hr Hm) as [Hg Ht]. eexists. split; [reflexivity|]. split; [done|].
    intros r Hra Htell k Hk. apply Ht; [done| |done]. intros k' x. apply Hra.
Defined.

(** ** Operations of the routers *)

Definition op_ok (op : router_op) : Prop :=
  match op with
  | OpAddRule idx rule | OpAddRemoteRule idx rule =>
      wf_index idx ∧ NodeID idx ∈ ns ∧ (NodeID idx = a → with_index idx rule = the_rule (RuleID idx))
  | OpRemoveRule idx | OpRemoveRemoteRule idx => wf_index idx
  | _ => True
  end.

Lemma client_op_ok op : client_op op → op_ok op.
Proof. destruct op; simpl; unfold wf_other; naive_solver. Qed.

Lemma server_op_ok quiet op : server_op quiet op → op_ok op.
Proof.
  destruct op as [[n k] rule|[n k]|idx rule|idx|obj|ip|obj|ip]; simpl; unfold wf_other; naive_solver.
Qed.

Lemma exec_good op r :
  node_good r → op_ok op → ∃ r', exec op r = Ok r' ∧ node_good r' ∧
    grown (rule_event op) (Router.firewallsubs r) (Router.firewallsubs r') ∧ (client_op op → same_rules r r').
Proof.
  intros Hr Ho. destruct (exec_spec op r (ng_subs _ Hr)) as (r' & E & Ef & Et & Gf & Gr). exists r'. split; [done|].
  assert (Hfw : ∃ r1, node_good r1 ∧ Router.firewall r1 = Router.firewall r' ∧ (client_op op → same_rules r r1)).
  { rewrite Ef. unfold fw_after. destruct op as [idx rule|idx|idx rule|idx|obj|ip|obj|ip]; try by exists r.
    1,3: destruct Ho as (Hi & Hn & Hx); destruct (add_good r idx rule Hr Hi Hn Hx) as [H1 H2]; eexists;
      split; [exact H1|]; split; [unfold Router.AddRemoteRule; by destruct (AddRule _ _ _)|intros (_ & _ & ?); by apply H2].
    all: destruct (remove_good r idx Hr Ho) as [H1 H2]; eexists;
      split; [exact H1|]; split; [unfold Router.RemoveRemoteRule; by destruct (RemoveRule _ _)|intros (_ & _ & ?); by apply H2]. }
  destruct Hfw as (r1 & H1 & E1 & Hq). split; [|split; [done|]].
  - apply (node_good_same r1); [done|done|rewrite Et; by apply table_after_ok, Hr|]. split; [apply Gf|apply Gr].
  - intros Hc k Hk. rewrite <- Hq by done. unfold own. by rewrite E1.
Qed.

Lemma server_exec quiet op : server_op quiet op → server_ok (applyRules a b) quiet (exec op).
Proof.
  intros Ho r Hr _. destruct (exec_good op r Hr (server_op_ok _ _ Ho)) as (r' & E & Hg & G & Hq). exists r'.
  split; [done|]. split; [done|]. split.
  - eapply grown_weaken; [|exact G]. intros ev Hev. destruct op as [[n k] rule|[n k]| | | | | |]; try done; simpl in *.
    + destruct Ho as (-> & -> & Hk & ->). subst ev. split; [done|]. by apply added_event_ok.
    + destruct Ho as (-> & -> & Hk). subst ev. split; [done|]. by apply removed_event_ok.
  - intros ->. apply Hq. by destruct op; simpl in *; naive_solver.
Qed.

Lemma client_exec op : client_op op → client_ok (applyRules a b) (exec op).
Proof.
  intros Ho rb Hr. destruct (exec_good op rb Hr (client_op_ok _ Ho)) as (r' & E & Hg & _ & Hq). exists r'.
  split; [done|]. split; [done|]. intros r _ Hag k Hk. by rewrite <- Hag, (Hq Ho k Hk).
Qed.

Lemma node_acts_wf quiet xs :
  Forall (node_act (server_op quiet) client_op) xs → Forall (wf_act (applyRules a b) quiet) xs.
Proof.
  intros H. eapply Forall_impl; [exact H|]. intros x [op Ho|op Ho| | | | | |]; try exact I; [by apply server_exec|by apply client_exec].
Qed.

Lemma idle_ok ra rb : node_good ra → node_good rb → stream_ok (applyRules a b) (idle ra rb).
Proof. intros Ga Gb. constructor; simpl; try done; first [apply Ga|constructor]. Qed.

(** C3: the nodes agree on the rules of their clients.  Start from two nodes whose
    rules of [a] are rules that [a] made, however much [b]'s are out of date, and let
    anything happen: [a] adds and removes rules, both learn rules of others, routes
    come and go, other peers subscribe, events are lost because the subscription is
    full, either end of the stream fails and [b] opens it again.  Nothing panics; and
    once no event waits in the subscription and [a]'s own rules rest, a round of the
    ticker is enough: whatever happens besides, a [b] that is connected and has read
    what is under way holds exactly the rules of [a] that [a] holds. *)
Theorem rules_converge ra rb xs rest :
  node_good ra → node_good rb →
  Forall (node_act (server_op false) client_op) xs → Forall (node_act (server_op true) client_op) rest →
  ∃ s, run (applyRules a b) (Renew false false true :: xs) (idle ra rb) = Ok s ∧
    (buffered s = [] → ∃ s1, run (applyRules a b) (Serve Tick true :: rest) s = Ok s1 ∧
       (up s1 = true → ∀ n, (length (st_wire s1) ≤ n)%nat →
          ∃ s2, run (applyRules a b) (replicate n (Recv true)) s1 = Ok s2 ∧ ∀ k, wf_id k →
            own (st_client s2) k = own (st_server s2) k ∧ own (st_server s2) k = own (st_server s) k)).
Proof.
  intros Ga Gb Hxs%node_acts_wf Hrest%node_acts_wf.
  destruct (stream_run (applyRules a b) false (Renew false false true :: xs) _ (idle_ok ra rb Ga Gb)) as (s & E & Hs & _);
    [by constructor|].
  exists s. split; [exact E|]. intros Hb.
  destruct (stream_settles (applyRules a b) s rest Hs Hb Hrest) as (s1 & E1 & Hsame & Hread). exists s1. split; [exact E1|].
  intros Hup n Hn. destruct (Hread Hup n Hn) as (s2 & E2 & Esrv & Hag). exists s2. split; [exact E2|]. intros k Hk.
  split; [by apply Hag|]. rewrite Esrv. by apply Hsame.
Qed.

End Spec.

(** * Witness *)

#[local] Existing Instance RoutingTable.RoutingTable.trace_link.
#[local] Existing Instance RoutingTable.RoutingTable.free_limiter.

Definition demo_content (k : Z) : PortRule := mkRule (mkIndex "" 0) 167837955 None "tcp" (443 + k `mod` 10) None.

(** Two rules are added, the stream fails and is opened again, the first rule is
    removed; the event of its removal is still under way. *)
Definition demo_acts : list (Streams.act Router.Router Router.Router) :=
  [Server (exec (OpAddRule (mkIndex "a" 1) (demo_content 1))); Serve Update true; Recv false;
   Renew false false true; Server (exec (OpAddRule (mkIndex "a" 2) (demo_content 2)));
   Server (exec (OpRemoveRule (mkIndex "a" 1))); Serve Update true; Serve Update true].
Definition demo_rest : list (Streams.act Router.Router Router.Router) :=
  [Recv true; Client (exec (OpAddRule (mkIndex "b" 1) (demo_content 5)))].

Lemma demo_content_wf : wf_content demo_content.
Proof.
  intros k. split; [|done]. unfold demo_content. cbn [PortRangeStart].
  pose proof (Z.mod_pos_bound k 10 ltac:(lia)). word_lia.
Qed.

Lemma demo_node_good : node_good "a" demo_content ["a"; "b"]%string Router.demo_router.
Proof.
  assert (H : ∀ j, rule_at (Router.firewall Router.demo_router) j = None).
  { intros j. unfold rule_at. simpl. by rewrite lookup_empty. }
  constructor; [exact demo_router_inv|split; apply empty_broker_ok|vm_compute; discriminate| |].
  - intros k x _. unfold own. by rewrite H.
  - intros j x _. by rewrite H.
Qed.

Lemma rules_converge_witness :
  ∃ s1 s2, run (applyRules "a" "b") (Serve Tick true :: demo_rest) s1 = Ok s2 ∧
    ∃ s3, run (applyRules "a" "b") (replicate (length (st_wire s2)) (Recv true)) s2 = Ok s3 ∧
      own "a" (st_client s3) 1 = None ∧ own "a" (st_client s3) 2 = Some (the_rule "a" demo_content 2).
Proof.
  destruct (rules_converge "a" "b" demo_content ["a"; "b"]%string ltac:(done) ltac:(done) ltac:(apply list_elem_of_here)
    demo_content_wf Router.demo_router Router.demo_router demo_acts demo_rest demo_node_good demo_node_good)
    as (s & E & Hs).
  - repeat (apply Forall_cons; split; [constructor; by repeat split|]). by apply Forall_nil.
  - apply Forall_cons. split; [constructor|]. apply Forall_cons. split; [constructor|by apply Forall_nil].
    split; [split; [done|split; simpl; lia]|]. split; [|done]. apply list_elem_of_further, list_elem_of_here.
  - assert (Hv : (x <- run (applyRules "a" "b") (Renew false false true :: demo_acts) (idle Router.demo_router Router.demo_router);;
      Ok (buffered x, own "a" (st_server x) 1, own "a" (st_server x) 2)) = Ok ([], None, Some (the_rule "a" demo_content 2)))
      by (vm_compute; reflexivity).
    rewrite E in Hv. cbn [gobind] in Hv. injection Hv as Hb H1 H2.
    destruct (Hs Hb) as (s1 & E1 & Hn).
    assert (Hv : (x <- run (applyRules "a" "b") ((Renew false false true :: demo_acts) ++ Serve Tick true :: demo_rest)
      (idle Router.demo_router Router.demo_router);; Ok (up x)) = Ok true) by (vm_compute; reflexivity).
    rewrite run_app, E in Hv. cbn [gobind] in Hv. rewrite E1 in Hv. injection Hv as Hup.
    destruct (Hn Hup _ (le_n _)) as (s2 & E2 & Hk).
    exists s, s1. split; [exact E1|]. exists s2. split; [exact E2|].
    destruct (Hk 1%Z ltac:(split; lia)) as [-> ->]. destruct (Hk 2%Z ltac:(split; lia)) as [-> ->]. by split.
Defined.

End MeshSync.
