(* ===== verification/MeshRules.v ===== *)
(** * The rules of a mesh (any number of nodes, pkg/mesh/peerssync)

    Every node holds the rules of every other one and its dumps list all that it
    holds, so a node that missed a removal can bring a rule back.  Here the streams
    of rules between any number of nodes run over one router per node, with the
    loops of Streams.v: what a revocation means for the whole mesh. *)
From stdpp Require Import functions.
From S2P Require Import Prelude Broker Streams MeshNet RoutingTable Firewall Router RouterOps PeersSync MeshSync.
Import Broker Streams MeshNet RouterOps Firewall.Firewall PeersSync.PeersSync MeshSync.

Open Scope go_scope.

Module MeshRules.

#[local] Notation rules_run := (net_run applyRules exec).
#[local] Notation rules_step := (net_step applyRules exec).

(** * Specification *)

Section Spec.
Context `{LK : Link} `{LM : Limiter} `{MR : MapRange}.
Context (ns : list string) (a : string) (k : Z).
Notation revoked := (mkIndex a k).
Context (Hk : wf_index revoked).

(** The router does not hold the rule. *)
Definition gone (r : Router.Router) : Prop := rule_at (Router.firewall r) revoked = None.

Record node_ok (r : Router.Router) : Prop := {
  no_inv : sr_inv r;
  no_subs : subs_ok r;
  no_fits : router_fits r ns;
  no_nodes j x : wf_index j → rule_at (Router.firewall r) j = Some x → NodeID j ∈ ns }.

(** Messages that do not bring the rule. *)
Definition other_rule (u : ClientRule) : Prop := wf_index (rule_index u) ∧ NodeId u ∈ ns ∧ rule_index u ≠ revoked.
Definition silent (m : ClientRuleEvent) : Prop :=
  match re_type m with
  | RULE_SYNC => Forall other_rule (re_dump m)
  | RULE_ADDED => ∀ u, re_update m = Some u → other_rule u
  | RULE_REMOVED => ∀ u, re_update m = Some u → wf_index (rule_index u)
  | RULE_OTHER => True
  end.

(** What managers do: rules of their own node come and go, under other numbers
    than the revoked one; routes change at will. *)
Definition local_op (n : string) (op : router_op) : Prop :=
  match op with
  | OpAddRule idx _ => wf_index idx ∧ NodeID idx = n ∧ n ∈ ns ∧ idx ≠ revoked
  | OpRemoveRule idx => wf_index idx ∧ NodeID idx = n
  | OpAddRemoteRule _ _ | OpRemoveRemoteRule _ => False
  | _ => True
  end.

(** ** One router *)

Lemma rules_of r j : rule_at (Router.firewall r) j = sr_rules r j.
Proof. done. Qed.

Lemma add_ok r idx rule :
  node_ok r → wf_index idx → NodeID idx ∈ ns →
  node_ok (sr_AddRemoteRule r idx rule).2 ∧ (gone r → idx ≠ revoked → gone (sr_AddRemoteRule r idx rule).2).
Proof.
  intros [H1 H2 H3 H4] Hi Hn. destruct (sr_add_law (R := Router.Router) r idx rule ns H1 Hi H3 Hn) as (G1 & G2 & G3 & _).
  split.
  - constructor; [exact G1|eapply both_subs_ok; [apply addRemoteRule_subs|done]|exact G2|].
    intros j x Hj. rewrite rules_of, G3 by done. case_decide as Hd; [by destruct Hd as [-> _]|by apply H4].
  - intros Hg Hne. unfold gone. rewrite rules_of, G3 by done. rewrite decide_False; [exact Hg|]. by intros [<- _].
Qed.

Lemma remove_ok r idx :
  node_ok r → wf_index idx → node_ok (sr_RemoveRemoteRule r idx).2 ∧ (gone r → gone (sr_RemoveRemoteRule r idx).2).
Proof.
  intros [H1 H2 H3 H4] Hi. destruct (sr_remove_law (R := Router.Router) r idx H1 Hi) as (G1 & G2 & G3 & _).
  split.
  - constructor; [exact G1|eapply both_subs_ok; [apply removeRemoteRule_subs|done]|by apply G2|].
    intros j x Hj. rewrite rules_of, G3 by done. case_decide; [done|by apply H4].
  - intros Hg. unfold gone. rewrite rules_of, G3 by done. by case_decide.
Qed.

Lemma node_ok_same r r' :
  node_ok r → Router.firewall r' = Router.firewall r → RoutingTable.table_ok (Router.table r') → subs_ok r' → node_ok r'.
Proof.
  intros [[H1 [H2 H3]] H4 H5 H6] Ef Et Hs. constructor; [|done|unfold router_fits; by rewrite Ef|by rewrite Ef].
  split; [by rewrite Ef|]. split; [by rewrite Ef|done].
Qed.

Lemma local_exec n op r :
  node_ok r → local_op n op → ∃ r', exec op r = Ok r' ∧ node_ok r' ∧ (gone r → gone r') ∧
    grown (λ ev, silent (generateFirewallEvent ev)) (Router.firewallsubs r) (Router.firewallsubs r').
Proof.
  intros Hr Ho. destruct (exec_spec op r (no_subs _ Hr)) as (r' & E & Ef & Et & Gf & Gr). exists r'. split; [done|].
  assert (Hfw : ∃ r1, node_ok r1 ∧ Router.firewall r1 = Router.firewall r' ∧ (gone r → gone r1)).
  { rewrite Ef. unfold fw_after. destruct op as [idx rule|idx|idx rule|idx|obj|ip|obj|ip]; try done; try by exists r.
    - destruct Ho as (Hi & Hn & Hn' & Hne). destruct (add_ok r idx rule Hr Hi) as [G1 G2]; [by rewrite Hn|]. eexists.
      split; [exact G1|]. split; [simpl; unfold Router.AddRemoteRule; by destruct (AddRule _ _ _)|by auto].
    - destruct Ho as [Hi Hn]. destruct (remove_ok r idx Hr Hi) as [G1 G2]. eexists.
      split; [exact G1|]. split; [simpl; unfold Router.RemoveRemoteRule; by destruct (RemoveRule _ _)|done]. }
  destruct Hfw as (r1 & H1 & E1 & Hg). split; [|split].
  - apply (node_ok_same r1); [done|done|rewrite Et; by apply table_after_ok, Hr|]. split; [apply Gf|apply Gr].
  - intros Hg0. unfold gone. rewrite <- E1. by apply Hg.
  - eapply grown_weaken; [|exact Gf]. intros ev Hev. destruct op as [[n' i] rule|[n' i]| | | | | |]; try done; simpl in Hev; subst ev.
    + destruct Ho as (Hi & <- & Hn & Hne). intros u [= <-]. split; [exact Hi|]. split; [exact Hn|exact Hne].
    + destruct Ho as [Hi _]. intros u [= <-]. exact Hi.
Qed.

(** ** Messages *)

Lemma build_silent r : node_ok r → gone r → silent (buildFirewallSyncEvent r).
Proof.
  intros [H1 _ _ H4] Hg. unfold silent. cbn [buildFirewallSyncEvent re_type re_dump].
  apply Forall_fmap, Forall_forall. intros d Hd. pose proof (sr_dump_wf r d H1 Hd) as Hw.
  assert (Hs : is_Some (sr_rules r (mkIndex (DumpNodeID d) (DumpRuleID d)))) by (apply sr_dump_law; [done|done|by exists d]).
  split; [exact Hw|]. split; [destruct Hs as [x Hx]; by apply (H4 _ _ Hw Hx)|].
  intros E. change (mkIndex (DumpNodeID d) (DumpRuleID d) = revoked) in E. rewrite E in Hs. unfold gone in Hg.
  rewrite rules_of in Hg. rewrite Hg in Hs. by destruct Hs.
Qed.

Lemma silent_dump c b r dump :
  node_ok r → Forall other_rule dump →
  let r' := syncRules b c r dump in node_ok r' ∧ (gone r → gone r') ∧ (c = a → gone r').
Proof.
  intros [H1 H2 H3 H4] HF r'. destruct (sync_rules_spec (R := Router.Router) b c ns r dump H1) as (G1 & G2 & _ & G3 & _);
    [eapply Forall_impl; [exact HF|]; by intros u (? & ? & _)|exact H3|]. rewrite Forall_forall in HF.
  assert (Hfrom : ∀ j x, dump_rule b dump j = Some x → NodeID j ∈ ns ∧ j ≠ revoked).
  { intros j x. unfold dump_rule. case_decide; [done|].
    destruct (head (filter (λ ev, rule_index ev = j) dump)) as [ev|] eqn:Eh; [|done]. intros [= <-].
    apply head_Some_elem_of in Eh as [<- Hin]%list_elem_of_filter. by destruct (HF _ Hin) as (_ & ? & ?). }
  assert (Hafter : rule_after b c r dump revoked = if decide (c = a) then None else sr_rules r revoked).
  { unfold rule_after. cbn [NodeID RuleID].
    assert (Hna : c = a → k ∉ alive_rules c dump).
    { intros -> (ev & Hin & En & Ek)%elem_of_alive_rules. destruct (HF _ Hin) as (_ & _ & Hne). apply Hne.
      unfold rule_index. by rewrite En, Ek. }
    destruct (decide (c = a)) as [Eca|Hne]; [rewrite decide_True by (split; [by symmetry|by apply Hna]); done|]. rewrite decide_False by naive_solver.
    destruct (sr_rules r revoked); [done|]. destruct (dump_rule b dump revoked) as [x|] eqn:Ed; [|done].
    by destruct (Hfrom _ _ Ed). }
  assert (Hg : rule_at (Router.firewall r') revoked = if decide (c = a) then None else sr_rules r revoked)
    by (rewrite rules_of; by rewrite G3).
  split; [|unfold gone; rewrite Hg; split; [intros E; case_decide; [reflexivity|exact E]|intros Ec; case_decide; [reflexivity|congruence]]].
  constructor; [exact G1|eapply both_subs_ok; [apply syncRules_subs|done]|exact G2|].
  intros j x Hj. rewrite rules_of, G3 by done. unfold rule_after. destruct (decide (NodeID j = c ∧ _)); [done|].
  destruct (sr_rules r j) as [y|] eqn:Ey; [intros _; by eapply H4|]. intros Hd. by apply (Hfrom _ _ Hd).
Qed.

(** A silent message does not bring the rule, and a dump of its owner takes it. *)
Lemma silent_message c b r m :
  node_ok r → silent m →
  let r' := streamPeerRulesData b c r m in
  node_ok r' ∧ (gone r → gone r') ∧ (c = a → re_type m = RULE_SYNC → gone r').
Proof.
  intros Hr Hm. unfold streamPeerRulesData, silent in *. destruct (re_type m).
  - destruct (silent_dump c b r (re_dump m) Hr Hm) as (G1 & G2 & G3). by auto.
  - split_and!; [| |done]; destruct (re_update m) as [u|]; try done; destruct (Hm u eq_refl) as (Hi & Hn & Hne);
      unfold addRemoteRuleObject; case_decide; try done; destruct (add_ok r (rule_index u) (rule_of u) Hr Hi Hn); auto.
  - split_and!; [| |done]; destruct (re_update m) as [u|]; try done; destruct (remove_ok r (rule_index u) Hr (Hm u eq_refl)); auto.
  - by split_and!.
Qed.

(** ** The mesh of rules *)

(** The nodes outside [l] do not hold the rule; nothing under way brings it. *)
Definition rules_ok (l : list string) (m : mesh Router.Router ClientRuleEvent) : Prop := mesh_ok (λ _, node_ok) gone silent l m.

Definition dump_like (m : ClientRuleEvent) : Prop := re_type m = RULE_SYNC.

#[export] Instance rules_mesh : MeshLaws applyRules exec (λ _, node_ok) gone silent local_op.
Proof.
  constructor.
  - intros _ r Hr. apply (no_subs _ Hr).
  - intros _ r bk Hr Hb. apply (node_ok_same r); [done|done|apply Hr|]. split; [done|apply Hr].
  - done.
  - intros _ r Hr Hg. by apply build_silent.
  - intros c b r m _ Hr Hm. destruct (silent_message c b r m Hr Hm) as (G1 & G2 & _). eexists. split; [reflexivity|].
    split; [exact G1|]. split; [exact G2|]. pose proof (streamRules_subs c b r m) as E. unfold both_subs in E. injection E as E _.
    simpl. rewrite E. apply grown_refl, (no_subs _ Hr).
  - intros n op r. apply local_exec.
Qed.

#[export] Instance rules_owner : MeshOwner applyRules (λ _, node_ok) gone silent dump_like a.
Proof.
  constructor; [done|]. intros b r m r' _ Hr Hm Ht [= <-]. by apply (silent_message a b r m Hr Hm).
Qed.


End Spec.
(** * Concrete meshes *)

#[local] Existing Instance RoutingTable.RoutingTable.trace_link.
#[local] Existing Instance RoutingTable.RoutingTable.free_limiter.

Definition demo_rule : PortRule := mkRule (mkIndex "" 0) 167837955 None "tcp" 443 None.
Definition holds (m : mesh Router.Router ClientRuleEvent) (n : string) : bool := bool_decide (is_Some (rule_at (Router.firewall (nodes m n)) (mkIndex "a" 1))).

(** Three nodes: the rule that [a] makes reaches [c], whose connection to [a] breaks
    before [a] revokes the rule; [b] has agreed with [a].  When [b] opens its stream
    from [c], the rule is back at [b], although its owner has revoked it. *)
Lemma stale_dump_brings_rule_back :
  (m <- rules_run (open_stream "a" "c" ++ [Node "a" (OpAddRule (mkIndex "a" 1) demo_rule); Pair "a" "c" (LServe Update true);
      Pair "a" "c" (LRecv true); Pair "a" "c" (LRecv false); Node "a" (OpRemoveRule (mkIndex "a" 1))] ++ open_stream "a" "b")
      (mkMesh (λ _, Router.demo_router) no_streams);;
   m' <- rules_run (open_stream "c" "b") m;;
   Ok ((holds m "a", holds m "b", holds m "c"), (holds m' "a", holds m' "b"))) =
  Ok ((false, false, true), (false, true)).
Proof. vm_compute. reflexivity. Qed.

(** [b] still holds the rule of [a]. *)
Definition demo_stale : mesh Router.Router ClientRuleEvent :=
  mkMesh (<["b"%string := (Router.AddRemoteRule Router.demo_router (mkIndex "a" 1) demo_rule).2]> (λ _, Router.demo_router)) no_streams.
Definition demo_mesh : mesh Router.Router ClientRuleEvent :=
  match rules_step (Pair "a" "b" (LRenew false false true)) demo_stale with Ok m => m | _ => demo_stale end.
Definition demo_after : list (mesh_act router_op) :=
  Node "c" (OpAddRule (mkIndex "c" 1) demo_rule) :: open_stream "b" "c" ++ open_stream "c" "b".

Lemma demo_revoked : wf_index (mkIndex "a" 1).
Proof. split; [done|]. simpl. lia. Qed.

Lemma stale_router_ok : node_ok ["a"; "c"]%string Router.demo_router.
Proof.
  assert (H : ∀ j, rule_at (Router.firewall Router.demo_router) j = None).
  { intros j. unfold rule_at. simpl. by rewrite lookup_empty. }
  constructor; [exact demo_router_inv|split; apply empty_broker_ok|vm_compute; discriminate|]. intros j x _. by rewrite H.
Qed.

Lemma demo_stale_ok : rules_ok ["a"; "c"]%string "a" 1 ["b"%string] demo_stale.
Proof.
  destruct (add_ok ["a"; "c"]%string "a" 1 demo_revoked Router.demo_router (mkIndex "a" 1) demo_rule stale_router_ok demo_revoked) as [Hadd _];
    [apply list_elem_of_here|].
  constructor; try done.
  - intros n. simpl. destruct (decide (n = "b"%string)) as [->|]; [rewrite fn_lookup_insert; exact Hadd|].
    rewrite fn_lookup_insert_ne by done. apply stale_router_ok.
  - intros n Hn. simpl. rewrite fn_lookup_insert_ne by set_solver. unfold gone, rule_at. simpl. by rewrite lookup_empty.
Qed.

Lemma demo_mesh_ok : rules_ok ["a"; "c"]%string "a" 1 ["b"%string] demo_mesh.
Proof.
  pose proof (rules_mesh ["a"; "c"]%string "a" 1 demo_revoked) as ML.
  destruct (pair_step applyRules exec _ _ _ _ ["b"%string] demo_stale "a" "b" (LRenew false false true) demo_stale_ok)
    as (s & E & Hs & _); [set_solver|done|].
  unfold demo_mesh. cbn [net_step]. by rewrite E.
Qed.

(** While [b] is told, [c] makes a rule and tells [a] of it, and its stream to [b] breaks. *)
Definition demo_round : list (mesh_act router_op) :=
  [Node "c" (OpAddRule (mkIndex "c" 1) demo_rule); Pair "a" "b" (LServe Tick true); Pair "c" "a" (LRenew false false true);
   Pair "a" "b" (LRecv true); Pair "c" "a" (LRecv true); Pair "c" "b" (LRecv false); Pair "a" "b" (LRecv true); Pair "a" "b" (LRecv true)].

Lemma revocation_is_round : round "a" (λ _, 3%nat) (unheard ["b"%string]) demo_round.
Proof.
  unfold demo_round.
  repeat first [apply round_meanwhile; [solve [done|split; vm_compute; done]|]
    |eapply round_tick; [vm_compute; reflexivity|]|eapply round_read; [vm_compute; reflexivity|]].
  match goal with |- round _ _ ?p _ => replace p with (∅ : gmap string (option nat)) by (vm_compute; reflexivity) end. apply round_over.
Qed.

Lemma revocation_acts_ok : Forall (act_ok (local_op ["a"; "c"]%string "a" 1)) (demo_round ++ demo_after).
Proof. repeat (apply Forall_cons; split; [first [done|split; [split; [done|simpl; lia]|split; [done|split; [set_solver|done]]]]|]). apply Forall_nil_2. Qed.


End MeshRules.
