(* ===== verification/ClientSync.v ===== *)
(** * The clients of one node at another (pkg/mesh/peerssync, clients stream)

    Node [a] serves the addresses of its clients to node [b]: the stream of
    Streams.v between the router of [a] (server.go: SubscribeClients) and that of
    [b] (syncer.go: syncPeerData, streamPeerData), while both routers change. *)
From S2P Require Import Prelude Broker Streams RoutingTable Firewall Router RouterOps PeersSync.
Import Broker Streams RouterOps Firewall.Firewall RoutingTable.RoutingTable PeersSync.PeersSync.

Open Scope go_scope.

Module ClientSync.

Section System.
Context `{LK : Link} `{LM : Limiter} `{MR : MapRange}.

(** The server's loop over the router: [SubscribeRoutingEvents], a dump of the
    routing table at the start and at each tick, a message for each event. *)
#[export] Instance SubscribeClients : Served Router.Router Router.RouterEvent ClientEvent := {|
  sv_subs := Router.routingsubs;
  sv_with_subs r b := Router.set_subs r b (Router.firewallsubs r);
  sv_subscribe := Router.SubscribeRoutingEvents;
  sv_sync := buildRoutingSyncEvent;
  sv_message := generateRoutingeEvent |}.

#[export] Instance SubscribeClients_laws : ServedLaws Router.Router Router.RouterEvent ClientEvent.
Proof. split; [done|]. intros r. by exists 200%nat. Qed.

(** The client's loop on node [b] in the session with [a]; [fresh] are the
    identities of the objects it makes. *)
Definition applyClients (fresh : ClientInfo → nat) (a b : string) (r : Router.Router) (ev : ClientEvent) :
    gores Router.Router := Ok (streamPeerData b fresh a r ev).

(** [syncPeerData]: the stream is renewed while the session lives. *)
Definition syncPeerData (ctx_done conn_done : bool) :
    Stream Router.Router ClientEvent Router.Router → gores (Stream Router.Router ClientEvent Router.Router) :=
  RunWhileConnected ctx_done conn_done true.

End System.

(** * Specification *)

Section Spec.
Context `{LK : Link} `{LM : Limiter} `{MR : MapRange}.
Context (fresh : ClientInfo → nat) (a b : string) (home : Z → bool) (ns : list string).

(** [home]: the addresses of [a]'s network, which is its own (the certificates of
    a mesh give every node another one). *)

(** The node behind an address. *)
Definition owner (r : Router.Router) (ip : Z) : option string := GetNodeID <$> Router.table r !! ip.

Record node_good (r : Router.Router) : Prop := {
  ng_inv : sr_inv r;
  ng_subs : subs_ok r;
  ng_fits : router_fits r ns;
  ng_home ip n : home ip = true → owner r ip = Some n → n = a }.

Definition says (m : ClientInfo) : Prop := home (VirtualIp m) = true → CNodeId m = a.
Definition msg_ok (m : ClientEvent) : Prop :=
  match ce_type m with
  | CLIENT_SYNC => NoDup (VirtualIp <$> ce_dump m) ∧ Forall says (ce_dump m)
  | CLIENT_ADDED => ∀ u, ce_update m = Some u → says u
  | _ => True
  end.

(** A dump that lists exactly the clients of [a] that [r] has. *)
Definition tells (r : Router.Router) (m : ClientEvent) : Prop :=
  ce_type m = CLIENT_SYNC ∧ ∀ ip, home ip = true → ip ∈ VirtualIp <$> ce_dump m ↔ is_Some (owner r ip).

Definition same_clients (r r' : Router.Router) : Prop := ∀ ip, home ip = true → owner r' ip = owner r ip.

(** Rules change at will, under usable indices of known nodes. *)
Definition rule_op (op : router_op) : Prop :=
  match op with
  | OpAddRule idx _ | OpAddRemoteRule idx _ => wf_index idx ∧ NodeID idx ∈ ns
  | OpRemoveRule idx | OpRemoveRemoteRule idx => wf_index idx
  | _ => True
  end.
(** What others do: they neither take nor release addresses of [a]'s network. *)
Definition client_op (op : router_op) : Prop :=
  match op with
  | OpAddRoutingObject obj | OpAddRemoteRoutingObject obj => home (GetVirtualIP obj) = false
  | OpDeleteRoutingObject ip | OpDeleteRemoteRoutingObject ip => home ip = false
  | _ => rule_op op
  end.
(** At [a], clients of its own come and go; [quiet]: they rest. *)
Definition server_op (quiet : bool) (op : router_op) : Prop :=
  match op with
  | OpAddRoutingObject obj => quiet = false ∧ GetNodeID obj = a
  | OpDeleteRoutingObject ip => quiet = false
  | _ => client_op op
  end.

Context (Hab : a ≠ b).

(** ** One router *)

Lemma owner_ok r ip n : node_good r → home ip = true → owner r ip = Some n → owner r ip = Some a.
Proof. intros Hr Hh E. by rewrite E, (ng_home _ Hr ip n Hh E). Qed.

Lemma node_good_moves r r' :
  node_good r → sr_inv r' → router_fits r' ns → subs_ok r' → (∀ ip, home ip = true → owner r' ip = owner r ip ∨ owner r' ip = None ∨ owner r' ip = Some a) →
  node_good r'.
Proof.
  intros Hr Hi Hf Hs Ho. constructor; [done..|]. intros ip n Hh E. destruct (Ho ip Hh) as [E'|[E'|E']].
  - rewrite E' in E. by apply (ng_home _ Hr ip).
  - congruence.
  - congruence.
Qed.

(** An operation keeps the invariant of the router. *)
Lemma exec_inv op r r' :
  sr_inv r → router_fits r ns → rule_op op →
  Router.firewall r' = fw_after op (Router.firewall r) → Router.table r' = table_after op (Router.table r) →
  sr_inv r' ∧ router_fits r' ns.
Proof.
  intros Hi Hf Ho Ef Et. assert (Hfw : ∃ r1, sr_inv r1 ∧ router_fits r1 ns ∧ Router.firewall r1 = Router.firewall r').
  { rewrite Ef. unfold fw_after. destruct op as [idx rule|idx|idx rule|idx|obj|ip|obj|ip]; try by exists r.
    1,3: destruct Ho as [Hw Hn]; destruct (sr_add_law (R := Router.Router) r idx rule ns Hi Hw Hf Hn) as (G1 & G2 & _);
      eexists; split; [exact G1|]; split; [exact G2|simpl; unfold Router.AddRemoteRule; by destruct (AddRule _ _ _)].
    all: destruct (sr_remove_law (R := Router.Router) r idx Hi Ho) as (G1 & G2 & _);
      eexists; split; [exact G1|]; split; [by apply G2|simpl; unfold Router.RemoveRemoteRule; by destruct (RemoveRule _ _)]. }
  destruct Hfw as (r1 & (Hk & Hw & _) & Hf1 & E1). split; [|unfold router_fits; by rewrite <- E1].
  split; [by rewrite <- E1|]. split; [by rewrite <- E1|]. rewrite Et. apply table_after_ok, Hi.
Qed.

(** What an operation does to the owners. *)
Lemma owner_after op r r' ip :
  Router.table r' = table_after op (Router.table r) →
  owner r' ip = owner r ip ∨
  match op with
  | OpAddRoutingObject obj | OpAddRemoteRoutingObject obj => ip = GetVirtualIP obj ∧ owner r' ip = Some (GetNodeID obj)
  | OpDeleteRoutingObject j | OpDeleteRemoteRoutingObject j => ip = j ∧ owner r' ip = None
  | _ => False
  end.
Proof.
  unfold owner. intros ->. destruct op as [idx rule|idx|idx rule|idx|obj|j|obj|j]; simpl; try by left.
  1,3: destruct (Router.table r !! GetVirtualIP obj); [by left|]; rewrite lookup_insert; case_decide; [right|by left];
    by subst ip.
  all: rewrite lookup_delete; case_decide; [right; by subst ip|by left].
Qed.

Lemma clients_exec_good quiet op r :
  node_good r → server_op quiet op ∨ client_op op → ∃ r', exec op r = Ok r' ∧ node_good r' ∧
    grown (route_event op (Router.table r)) (Router.routingsubs r) (Router.routingsubs r') ∧
    (client_op op ∨ quiet = true → same_clients r r').
Proof.
  intros Hr Ho. destruct (exec_spec op r (ng_subs _ Hr)) as (r' & E & Ef & Et & Gf & Gr). exists r'. split; [done|].
  assert (Hrule : rule_op op) by (destruct Ho; by destruct op).
  destruct (exec_inv op r r' (ng_inv _ Hr) (ng_fits _ Hr) Hrule Ef Et) as [Hi Hf].
  split; [|split; [done|]].
  - apply (node_good_moves r); [done|done|done|split; [apply Gf|apply Gr]|]. intros ip Hh.
    destruct (owner_after op r r' ip Et) as [?|Hx]; [by left|right].
    destruct op as [idx rule|idx|idx rule|idx|obj|j|obj|j]; try done; destruct Hx as [-> Hx]; simpl in Ho;
      [right|by left|right|by left]; destruct Ho as [Ho|Ho]; naive_solver congruence.
  - intros Hc ip Hh. destruct (owner_after op r r' ip Et) as [?|Hx]; [done|].
    destruct op as [idx rule|idx|idx rule|idx|obj|j|obj|j]; try done; destruct Hx as [-> Hx]; simpl in *; naive_solver congruence.
Qed.

(** ** Messages *)

Lemma dump_addresses (t : gmap Z RoutingObject) :
  table_ok t → VirtualIp <$> ((λ p, mkClient (RecNodeID p) (RecVirtualIP p)) <$> Dump t) = (map_range t).*1.
Proof.
  intros Ht. unfold Dump. rewrite <- !list_fmap_compose. apply list_fmap_ext. intros i [ip o] Hi. simpl.
  apply (Ht ip). by eapply elem_of_map_range, list_elem_of_lookup_2.
Qed.

Lemma clients_build_ok r : node_good r → msg_ok (buildRoutingSyncEvent r) ∧ tells r (buildRoutingSyncEvent r).
Proof.
  intros Hr. pose proof (ng_inv _ Hr) as (_ & _ & Ht). unfold msg_ok, tells, buildRoutingSyncEvent. cbn [ce_type ce_dump].
  change (sr_DumpRoutingTable r) with (Dump (Router.table r)).
  pose proof (dump_addresses (Router.table r) Ht) as Ed.
  split; [split|split; [done|]].
  - rewrite Ed. apply map_range_NoDup.
  - apply Forall_fmap, Forall_forall. intros d (o & Ho & Hn)%elem_of_Dump Hh; [|done]. simpl in *.
    eapply (ng_home _ Hr); [exact Hh|]. unfold owner. by rewrite Ho, <- Hn.
  - intros ip _. rewrite Ed, list_elem_of_fmap. unfold owner. rewrite fmap_is_Some. split.
    + intros ([j o] & -> & Hin%elem_of_map_range). by exists o.
    + intros [o Ho]. exists (ip, o). split; [done|]. by apply elem_of_map_range.
Qed.

Lemma event_msg_ok op r ev quiet :
  server_op quiet op → node_good r → route_event op (Router.table r) ev → quiet = false ∧ msg_ok (generateRoutingeEvent ev).
Proof.
  intros Ho Hr Hev. destruct op as [| | | |obj|ip| |]; try done; simpl in *.
  - destruct Ho as [-> Hn]. subst ev. split; [done|]. by intros u [= <-] _.
  - destruct Hev as (obj & _ & ->). by split.
Qed.

(** Applying messages changes nothing but the table. *)
Definition rest_of (r : Router.Router) := (Router.firewallsubs r, Router.routingsubs r, Router.firewall r).

Lemma add_rest r u : rest_of (addRemoteRoutingObject b fresh r u) = rest_of r.
Proof.
  unfold addRemoteRoutingObject. case_decide; [done|]. simpl. unfold Router.AddRemoteRoutingObject.
  by destruct (Add (Router.table r) (newRemoteClient (fresh u) u)).
Qed.

Lemma add_spec r u :
  sr_inv r → sr_inv (addRemoteRoutingObject b fresh r u) ∧ ∀ ip,
    owner (addRemoteRoutingObject b fresh r u) ip = owner r ip ∨
    ip = VirtualIp u ∧ owner (addRemoteRoutingObject b fresh r u) ip = Some (CNodeId u).
Proof.
  intros Hr. unfold addRemoteRoutingObject. case_decide as Hb; [split; [exact Hr|by left]|].
  pose proof (sr_add_route_law r (newRemoteClient (fresh u) u) Hr) as Hl.
  destruct (sr_GetRemoteRoutingObject r _) eqn:Eo.
  - destruct (sr_AddRemoteRoutingObject r _) as [r'| |]; [by destruct Hl|split; [exact Hr|by left]..].
  - destruct Hl as (r' & -> & Hi & Ho). split; [done|]. intros ip. specialize (Ho ip).
    unfold owner. change (Router.table ?r !! ip) with (sr_GetRemoteRoutingObject r ip). rewrite Ho.
    case_decide as Hip; [right|by left]. by rewrite Hip.
Qed.

Lemma stream_rest r m : rest_of (streamPeerData b fresh a r m) = rest_of r.
Proof.
  unfold streamPeerData. destruct (ce_type m); [|by destruct (ce_update m); [apply add_rest|]|by destruct (ce_update m)|done].
  unfold syncClients. rewrite (foldl_keeps _ rest_of).
  - rewrite (foldl_keeps _ rest_of); [done|]. intros r' u. unfold syncPeerObject.
    destruct (sr_GetRemoteRoutingObject r' (VirtualIp u)); [|apply add_rest]. case_decide; [done|]. case_decide; [|done].
    by rewrite add_rest.
  - intros r' d. unfold drop_stale_client. case_decide; [done|]. by case_decide.
Qed.

(** A message applied at the other end. *)
Lemma clients_sync_good r dump :
  node_good r → NoDup (VirtualIp <$> dump) → Forall says dump →
  sr_inv (syncClients b fresh a r dump) ∧
  ∀ ip, home ip = true → owner (syncClients b fresh a r dump) ip = if decide (ip ∈ VirtualIp <$> dump) then Some a else None.
Proof.
  intros Hr HN Hs. destruct (sync_clients_spec (R := Router.Router) b a fresh r dump (ng_inv _ Hr) HN Hab) as (Hi & Ho & _).
  split; [done|]. intros ip Hh. unfold owner. change (Router.table ?r !! ip) with (sr_GetRemoteRoutingObject r ip). rewrite Ho.
  unfold client_after. change (GetNodeID <$> sr_GetRemoteRoutingObject r ip) with (owner r ip).
  assert (Hcur : owner r ip = None ∨ owner r ip = Some a).
  { destruct (owner r ip) as [n|] eqn:E; [right|by left]. by rewrite (ng_home _ Hr ip n Hh E). }
  rewrite decide_False by (destruct Hcur as [->| ->]; congruence).
  destruct (head (filter (λ ev, VirtualIp ev = ip) dump)) as [ev|] eqn:Eh.
  - apply head_Some_elem_of in Eh as [<- Hin]%list_elem_of_filter. rewrite Forall_forall in Hs.
    rewrite (Hs ev Hin Hh). rewrite decide_False by done. by rewrite decide_True by by apply list_elem_of_fmap_2.
  - rewrite (decide_False (P := ip ∈ _)).
    + destruct Hcur as [->| ->]; [by rewrite decide_False|by rewrite decide_True].
    + intros (ev & -> & Hin)%list_elem_of_fmap.
      assert (Hin' : ev ∈ filter (λ ev', VirtualIp ev' = VirtualIp ev) dump) by by apply list_elem_of_filter.
      destruct (filter _ dump); [by apply not_elem_of_nil in Hin'|done].
Qed.

Lemma clients_stream_good r m :
  node_good r → msg_ok m →
  node_good (streamPeerData b fresh a r m) ∧
  ∀ ra, node_good ra → tells ra m → same_clients ra (streamPeerData b fresh a r m).
Proof.
  intros Hr Hm. pose proof (stream_rest r m) as Hrest. unfold rest_of in Hrest. injection Hrest as Ef Er Efw.
  assert (Hgood : ∀ r', sr_inv r' → Router.firewallsubs r' = Router.firewallsubs r → Router.routingsubs r' = Router.routingsubs r →
    Router.firewall r' = Router.firewall r →
    (∀ ip, home ip = true → owner r' ip = owner r ip ∨ owner r' ip = None ∨ owner r' ip = Some a) → node_good r').
  { intros r' Hi E1 E2 E3 Ho. apply (node_good_moves r); [done|done|unfold router_fits; rewrite E3; apply Hr| |done].
    unfold subs_ok. rewrite E1, E2. apply Hr. }
  revert Ef Er Efw. unfold streamPeerData, msg_ok, tells in *. destruct (ce_type m); intros Ef Er Efw.
  - destruct Hm as [HN Hs]. destruct (clients_sync_good r (ce_dump m) Hr HN Hs) as [Hi Ho]. split.
    + apply Hgood; try done. intros ip Hh. rewrite Ho by done. case_decide; [by right; right|by right; left].
    + intros ra Ga [_ Ht] ip Hh. rewrite Ho by done. specialize (Ht ip Hh). case_decide as Hin.
      * apply Ht in Hin as [n En]. rewrite En. by rewrite (ng_home _ Ga ip n Hh En).
      * destruct (owner ra ip) as [n|] eqn:En; [|done]. destruct Hin. apply Ht. by eexists.
  - split; [|by intros ra _ [? _]]. destruct (ce_update m) as [u|]; [|done]. specialize (Hm u eq_refl).
    destruct (add_spec r u (ng_inv _ Hr)) as [Hi Ho]. apply Hgood; try done. intros ip Hh. destruct (Ho ip) as [?|[-> E]]; [by left|right; right].
    by rewrite E, (Hm Hh).
  - split; [|by intros ra _ [? _]]. destruct (ce_update m) as [u|]; [|done]. unfold deleteRemoteRoutingObject in *.
    destruct (sr_delete_route_law r (VirtualIp u) (ng_inv _ Hr)) as [Hi Hd]. apply Hgood; try done.
    intros ip Hh. unfold owner. change (Router.table ?r !! ip) with (sr_GetRemoteRoutingObject r ip). rewrite Hd.
    case_decide; [by right; left|by left].
  - split; [done|]. by intros ra _ [? _].
Qed.

(** ** The contract of the stream *)

#[local] Instance same_clients_pre : PreOrder same_clients.
Proof. split; [done|]. intros r1 r2 r3 H1 H2 ip Hh. by rewrite H2, H1. Qed.

#[local] Instance clients_contract : Contract (applyClients fresh a b).
Proof.
  refine {| sc_inv := node_good; sc_client := node_good; sc_msg := msg_ok; sc_same := same_clients;
    sc_tells := tells; sc_agree r rb := same_clients r rb |}.
  - intros r bk Hr Hb. split; [|done]. apply (node_good_moves r); [done|apply Hr|apply Hr|split; [apply Hr|done]|by left].
  - apply clients_build_ok.
  - intros r r' m H [Ht Hm]. split; [done|]. intros ip Hh. by rewrite (H ip Hh), Hm.
  - intros r r' rb H Hag ip Hh. by rewrite (Hag ip Hh), (H ip Hh).
  - intros rb m Hr Hm. destruct (clients_stream_good rb m Hr Hm) as [Hg Ht]. eexists. split; [reflexivity|]. by split.
Defined.

Lemma clients_server_exec quiet op : server_op quiet op → server_ok (applyClients fresh a b) quiet (exec op).
Proof.
  intros Ho r Hr _. destruct (clients_exec_good quiet op r Hr ltac:(by left)) as (r' & E & Hg & G & Hq). exists r'.
  split; [done|]. split; [done|]. split; [|intros ->; by apply Hq; right]. eapply grown_weaken; [|exact G]. intros ev. by apply event_msg_ok.
Qed.

Lemma clients_client_exec op : client_op op → client_ok (applyClients fresh a b) (exec op).
Proof.
  intros Ho rb Hr. destruct (clients_exec_good false op rb Hr ltac:(by right)) as (r' & E & Hg & _ & Hq). exists r'.
  split; [done|]. split; [done|]. intros r _ Hag ip Hh. by rewrite (Hq ltac:(by left) ip Hh), Hag.
Qed.

Lemma clients_node_acts_wf quiet xs :
  Forall (node_act (server_op quiet) client_op) xs → Forall (wf_act (applyClients fresh a b) quiet) xs.
Proof.
  intros H. eapply Forall_impl; [exact H|]. intros x [op Ho|op Ho| | | | | |]; try exact I; [by apply clients_server_exec|by apply clients_client_exec].
Qed.

Lemma clients_idle_ok ra rb : node_good ra → node_good rb → stream_ok (applyClients fresh a b) (idle ra rb).
Proof. intros Ga Gb. constructor; simpl; try done; first [apply Ga|constructor]. Qed.

(** C13: packets for a client find its node.  Start from two nodes whose routes for
    addresses of [a]'s network lead to [a], however much [b]'s are out of date, and
    let anything happen: clients of [a] come and go, both nodes learn clients of
    others, rules change, other peers subscribe, events are lost because the
    subscription is full, either end of the stream fails and [b] opens it again.
    Nothing panics; and once no event waits in the subscription and [a]'s own clients
    rest, a round of the ticker is enough: whatever happens besides, a [b] that is
    connected and has read what is under way routes an address of [a]'s network to
    [a] exactly if [a] serves a client there, and nowhere else. *)
Theorem clients_converge ra rb xs rest :
  node_good ra → node_good rb →
  Forall (node_act (server_op false) client_op) xs → Forall (node_act (server_op true) client_op) rest →
  ∃ s, run (applyClients fresh a b) (Renew false false true :: xs) (idle ra rb) = Ok s ∧
    (buffered s = [] → ∃ s1, run (applyClients fresh a b) (Serve Tick true :: rest) s = Ok s1 ∧
       (up s1 = true → ∀ n, (length (st_wire s1) ≤ n)%nat →
          ∃ s2, run (applyClients fresh a b) (replicate n (Recv true)) s1 = Ok s2 ∧ ∀ ip, home ip = true →
            owner (st_client s2) ip = (if decide (is_Some (owner (st_server s) ip)) then Some a else None))).
Proof.
  intros Ga Gb Hxs%clients_node_acts_wf Hrest%clients_node_acts_wf.
  destruct (stream_run (applyClients fresh a b) false (Renew false false true :: xs) _ (clients_idle_ok ra rb Ga Gb)) as (s & E & Hs & _);
    [by constructor|].
  exists s. split; [exact E|]. intros Hb.
  destruct (stream_settles (applyClients fresh a b) s rest Hs Hb Hrest) as (s1 & E1 & Hsame & Hread). exists s1. split; [exact E1|].
  intros Hup n Hn. destruct (Hread Hup n Hn) as (s2 & E2 & Esrv & Hag). exists s2. split; [exact E2|]. intros ip Hh.
  rewrite (Hag ip Hh), Esrv, (Hsame ip Hh). destruct (owner (st_server s) ip) as [m|] eqn:En.
  - rewrite decide_True by by eexists. by rewrite (ng_home _ (so_inv _ _ Hs) ip m Hh En).
  - rewrite decide_False; [done|]. by intros [].
Qed.

End Spec.

(** * Witness *)

#[local] Existing Instance RoutingTable.RoutingTable.trace_link.
#[local] Existing Instance RoutingTable.RoutingTable.free_limiter.

Definition demo_home (ip : Z) : bool := bool_decide (ip / 65536 = 2561)%Z.
Definition demo_fresh (ev : ClientInfo) : nat := Z.to_nat (VirtualIp ev - 167837696).

(** Two clients of [a] arrive, the stream fails and is opened again, the first
    client leaves. *)
Definition demo_acts : list (Streams.act Router.Router Router.Router) :=
  [Server (exec (OpAddRoutingObject (mkObj 1 "a" 167837698 None))); Serve Update true; Recv true; Recv false;
   Renew false false true; Server (exec (OpAddRoutingObject (mkObj 2 "a" 167837699 None)));
   Server (exec (OpDeleteRoutingObject 167837698)); Serve Update true; Serve Update true].
Definition demo_rest : list (Streams.act Router.Router Router.Router) :=
  [Recv true; Client (exec (OpAddRoutingObject (mkObj 3 "b" 5 None)))].

Lemma clients_demo_node_good : node_good "a" demo_home [] Router.demo_router.
Proof.
  constructor; [exact demo_router_inv|split; apply empty_broker_ok|vm_compute; discriminate|].
  intros ip n _. unfold owner. simpl. by rewrite lookup_empty.
Qed.

Lemma clients_converge_witness :
  ∃ s1 s2, run (applyClients demo_fresh "a" "b") (Serve Tick true :: demo_rest) s1 = Ok s2 ∧
    ∃ s3, run (applyClients demo_fresh "a" "b") (replicate (length (st_wire s2)) (Recv true)) s2 = Ok s3 ∧
      owner (st_client s3) 167837698 = None ∧ owner (st_client s3) 167837699 = Some "a"%string.
Proof.
  destruct (clients_converge demo_fresh "a" "b" demo_home [] ltac:(done)
    Router.demo_router Router.demo_router demo_acts demo_rest clients_demo_node_good clients_demo_node_good)
    as (s & E & Hs).
  - repeat (apply Forall_cons; split; [constructor; by repeat split|]). by apply Forall_nil.
  - repeat (apply Forall_cons; split; [constructor; by vm_compute|]). by apply Forall_nil.
  - assert (Hv : (x <- run (applyClients demo_fresh "a" "b") (Renew false false true :: demo_acts) (idle Router.demo_router Router.demo_router);;
      Ok (buffered x, owner (st_server x) 167837698, owner (st_server x) 167837699)) = Ok ([], None, Some "a"%string))
      by (vm_compute; reflexivity).
    rewrite E in Hv. cbn [gobind] in Hv. injection Hv as Hb H1 H2.
    destruct (Hs Hb) as (s1 & E1 & Hn).
    assert (Hv : (x <- run (applyClients demo_fresh "a" "b") ((Renew false false true :: demo_acts) ++ Serve Tick true :: demo_rest)
      (idle Router.demo_router Router.demo_router);; Ok (up x)) = Ok true) by (vm_compute; reflexivity).
    rewrite run_app, E in Hv. cbn [gobind] in Hv. rewrite E1 in Hv. injection Hv as Hup.
    destruct (Hn Hup _ (le_n _)) as (s2 & E2 & Hk).
    exists s, s1. split; [exact E1|]. exists s2. split; [exact E2|].
    rewrite !Hk by done. rewrite H1, H2. by split.
Defined.

End ClientSync.
