(* ===== verification/MeshClients.v ===== *)
(** * The clients of a mesh (any number of nodes, pkg/mesh/peerssync)

    Every node tells the others all the routes it holds, its own and those it
    learned.  Here the streams of clients between any number of nodes run over one
    router per node (MeshNet.v): where a route can lead, and what a client that
    leaves means for the whole mesh. *)
From stdpp Require Import functions.
From S2P Require Import Prelude Broker Streams MeshNet RoutingTable Firewall Router RouterOps PeersSync ClientSync.
Import Broker Streams MeshNet RouterOps Firewall.Firewall RoutingTable.RoutingTable PeersSync.PeersSync ClientSync.

Open Scope go_scope.

Module MeshClients.

(** * Specification *)

Section Spec.
Context `{LK : Link} `{LM : Limiter} `{MR : MapRange}.
Context (fresh : ClientInfo → nat) (ns : list string) (home : Z → option string) (departed : option Z) (a : string).

(** [home]: the node whose network an address belongs to (the certificates of a mesh
    give every node another one); [departed]: an address of [a] whose client has left. *)
Context (Hleft : ∀ ip, departed = Some ip → home ip = Some a).

(** Every route leads to the node whose network the address belongs to. *)
Definition leads_home (r : Router.Router) : Prop := ∀ ip n, owner r ip = Some n → home ip = Some n.

Record node_ok (r : Router.Router) : Prop := {
  no_inv : sr_inv r;
  no_subs : subs_ok r;
  no_fits : router_fits r ns;
  no_home : leads_home r }.

(** The router has no route to the client that left. *)
Definition gone (r : Router.Router) : Prop := ∀ ip, departed = Some ip → owner r ip = None.

Definition true_home (u : ClientInfo) : Prop := home (VirtualIp u) = Some (CNodeId u) ∧ departed ≠ Some (VirtualIp u).
Definition silent (m : ClientEvent) : Prop :=
  match ce_type m with
  | CLIENT_SYNC => NoDup (VirtualIp <$> ce_dump m) ∧ Forall true_home (ce_dump m)
  | CLIENT_ADDED => ∀ u, ce_update m = Some u → true_home u
  | _ => True
  end.
Definition dump_like (m : ClientEvent) : Prop := ce_type m = CLIENT_SYNC.

(** What managers do: clients of their own node come and go at addresses of its
    network, but not the one that left; rules change at will. *)
Definition local_op (n : string) (op : router_op) : Prop :=
  match op with
  | OpAddRoutingObject obj => home (GetVirtualIP obj) = Some n ∧ GetNodeID obj = n ∧ departed ≠ Some (GetVirtualIP obj)
  | OpAddRemoteRoutingObject _ => False
  | _ => rule_op ns op
  end.

(** ** One router *)

Lemma moves_ok r r' :
  node_ok r → sr_inv r' → router_fits r' ns → subs_ok r' →
  (∀ ip, owner r' ip = owner r ip ∨ owner r' ip = None ∨ (owner r' ip = home ip ∧ departed ≠ Some ip)) →
  node_ok r' ∧ (gone r → gone r').
Proof.
  intros Hr Hi Hf Hs Ho. split.
  - constructor; [done..|]. intros ip n E. destruct (Ho ip) as [E'|[E'|[E' _]]]; [|congruence..]. apply (no_home _ Hr). by rewrite <- E'.
  - intros Hg ip Hip. destruct (Ho ip) as [->|[?|[_ ?]]]; [by apply Hg|done|done].
Qed.

Lemma clients_exec n op r :
  node_ok r → local_op n op → ∃ r', exec op r = Ok r' ∧ node_ok r' ∧ (gone r → gone r') ∧
    grown (λ ev, silent (generateRoutingeEvent ev)) (Router.routingsubs r) (Router.routingsubs r').
Proof.
  intros Hr Ho. destruct (exec_spec op r (no_subs _ Hr)) as (r' & E & Ef & Et & Gf & Gr). exists r'. split; [done|].
  assert (Hrule : rule_op ns op) by by destruct op.
  destruct (exec_inv ns op r r' (no_inv _ Hr) (no_fits _ Hr) Hrule Ef Et) as [Hi Hf].
  destruct (moves_ok r r' Hr Hi Hf) as [H1 H2]; [split; [apply Gf|apply Gr]| |].
  - intros ip. destruct (owner_after op r r' ip Et) as [?|Hx]; [by left|].
    destruct op as [idx rule|idx|idx rule|idx|obj|j|obj|j]; try done; destruct Hx as [-> Hx]; [right; right|by right; left..].
    destruct Ho as (Hh & Hn & Hl). by rewrite Hx, Hh, Hn.
  - split; [done|]. split; [done|]. eapply grown_weaken; [|exact Gr]. intros ev Hev.
    destruct op as [| | | |obj|ip| |]; try done; simpl in Hev.
    + subst ev. destruct Ho as (Hh & Hn & Hl). intros u [= <-]. by split; [rewrite Hn|].
    + by destruct Hev as (obj & _ & ->).
Qed.

(** ** Messages *)

Lemma clients_dump_silent r : node_ok r → gone r → silent (buildRoutingSyncEvent r).
Proof.
  intros Hr Hg. pose proof (no_inv _ Hr) as (_ & _ & Ht). unfold silent, buildRoutingSyncEvent. cbn [ce_type ce_dump].
  change (sr_DumpRoutingTable r) with (Dump (Router.table r)). split.
  - rewrite (dump_addresses (Router.table r) Ht). apply map_range_NoDup.
  - apply Forall_fmap, Forall_forall. intros d (o & Ho & Hn)%elem_of_Dump; [|done].
    assert (E : owner r (RecVirtualIP d) = Some (RecNodeID d)) by (unfold owner; by rewrite Ho, <- Hn).
    split; [by apply (no_home _ Hr)|]. simpl. intros Hl. by rewrite (Hg _ Hl) in E.
Qed.

(** A dump read: routes are kept, dropped, or lead home. *)
Lemma clients_dump_read c b r dump :
  c ≠ b → node_ok r → NoDup (VirtualIp <$> dump) → Forall true_home dump →
  let r' := syncClients b fresh c r dump in
  sr_inv r' ∧
  (∀ ip, owner r' ip = owner r ip ∨ owner r' ip = None ∨ (owner r' ip = home ip ∧ departed ≠ Some ip)) ∧
  (c = a → gone r').
Proof.
  intros Hcb Hr HN HF r'. destruct (sync_clients_spec (R := Router.Router) b c fresh r dump (no_inv _ Hr) HN Hcb) as (Hi & Ho & _).
  split; [exact Hi|]. rewrite Forall_forall in HF.
  assert (Hafter : ∀ ip, owner r' ip = client_after b c r dump ip) by (intros ip; apply Ho).
  assert (Hentry : ∀ ip ev, head (filter (λ ev, VirtualIp ev = ip) dump) = Some ev → home ip = Some (CNodeId ev) ∧ departed ≠ Some ip).
  { intros ip ev [<- Hin]%head_Some_elem_of%list_elem_of_filter. by apply HF. }
  split.
  - intros ip. rewrite Hafter. unfold client_after. change (GetNodeID <$> sr_GetRemoteRoutingObject r ip) with (owner r ip).
    case_decide; [by left|]. destruct (head _) as [ev|] eqn:Eh; [|case_decide; auto]. destruct (Hentry ip ev Eh) as [Hh Hd].
    case_decide; [auto|]. right. right. by rewrite Hh.
  - intros -> ip Hd. rewrite Hafter. unfold client_after. change (GetNodeID <$> sr_GetRemoteRoutingObject r ip) with (owner r ip).
    assert (Hcur : owner r ip = None ∨ owner r ip = Some a).
    { destruct (owner r ip) as [n|] eqn:E; [right|by left]. pose proof (no_home _ Hr ip n E) as Hh. rewrite (Hleft ip Hd) in Hh. done. }
    destruct (head _) as [ev|] eqn:Eh; [by destruct (Hentry ip ev Eh)|].
    rewrite decide_False by (destruct Hcur as [->| ->]; congruence). case_decide; [done|]. destruct Hcur; [done|congruence].
Qed.

(** A silent message leads no route astray, and a dump of its owner takes the one of
    the client that left. *)
Lemma clients_message_read c b r m :
  c ≠ b → node_ok r → silent m →
  let r' := streamPeerData b fresh c r m in
  node_ok r' ∧ Router.routingsubs r' = Router.routingsubs r ∧ (gone r → gone r') ∧ (c = a → dump_like m → gone r').
Proof.
  intros Hcb Hr Hm r'. pose proof (stream_rest fresh c b r m) as Hrest. fold r' in Hrest. unfold rest_of in Hrest. injection Hrest as Ef Er Efw.
  assert (Hok : sr_inv r' → (∀ ip, owner r' ip = owner r ip ∨ owner r' ip = None ∨ (owner r' ip = home ip ∧ departed ≠ Some ip)) →
    node_ok r' ∧ Router.routingsubs r' = Router.routingsubs r ∧ (gone r → gone r')).
  { intros Hi Ho. destruct (moves_ok r r' Hr Hi) as [G1 G2]; [|split; [rewrite Ef|rewrite Er]; apply Hr|done|done].
    unfold router_fits. rewrite Efw. apply Hr. }
  clear Ef Er Efw. unfold silent, dump_like in *. subst r'. unfold streamPeerData in *. destruct (ce_type m).
  - destruct Hm as [HN HF]. destruct (clients_dump_read c b r (ce_dump m) Hcb Hr HN HF) as (Hi & Ho & Hg).
    destruct (Hok Hi Ho) as (G1 & G2 & G3). by auto.
  - assert (G : node_ok match ce_update m with Some u => addRemoteRoutingObject b fresh r u | None => r end ∧
      Router.routingsubs match ce_update m with Some u => addRemoteRoutingObject b fresh r u | None => r end = Router.routingsubs r ∧
      (gone r → gone match ce_update m with Some u => addRemoteRoutingObject b fresh r u | None => r end)).
    { destruct (ce_update m) as [u|]; [|done]. destruct (Hm u eq_refl) as [Hh Hd].
      destruct (add_spec fresh b r u (no_inv _ Hr)) as [Hi Ho]. apply Hok; [exact Hi|]. intros ip.
      destruct (Ho ip) as [?|[-> E]]; [by left|right; right]. by rewrite E, Hh. }
    destruct G as (G1 & G2 & G3). by split_and!.
  - assert (G : node_ok match ce_update m with Some u => deleteRemoteRoutingObject r u | None => r end ∧
      Router.routingsubs match ce_update m with Some u => deleteRemoteRoutingObject r u | None => r end = Router.routingsubs r ∧
      (gone r → gone match ce_update m with Some u => deleteRemoteRoutingObject r u | None => r end)).
    { destruct (ce_update m) as [u|]; [|done].
      destruct (sr_delete_route_law r (VirtualIp u) (no_inv _ Hr)) as [Hi Hd]. apply Hok; [exact Hi|]. intros ip. unfold owner.
      change (Router.table ?r !! ip) with (sr_GetRemoteRoutingObject r ip). unfold deleteRemoteRoutingObject. rewrite Hd. case_decide; auto. }
    destruct G as (G1 & G2 & G3). by split_and!.
  - by split_and!.
Qed.

(** ** The mesh of clients *)

(** Outside [l] no node has a route to the client that left; nothing under way
    brings one. *)
Definition clients_ok (l : list string) (m : mesh Router.Router ClientEvent) : Prop := mesh_ok (λ _, node_ok) gone silent l m.

#[export] Instance clients_mesh : MeshLaws (applyClients fresh) exec (λ _, node_ok) gone silent local_op.
Proof.
  constructor.
  - intros _ r Hr. apply (no_subs _ Hr).
  - intros _ r bk Hr Hb. destruct (moves_ok r (sv_with_subs r bk) Hr) as [G _]; [apply Hr|apply Hr|split; [apply Hr|done]|by left|done].
  - done.
  - intros _ r Hr Hg. by apply clients_dump_silent.
  - intros c b r m Hcb Hr Hm. destruct (clients_message_read c b r m Hcb Hr Hm) as (G1 & G2 & G3 & _). eexists. split; [reflexivity|].
    split; [exact G1|]. split; [exact G3|]. simpl. rewrite G2. apply grown_refl, (no_subs _ Hr).
  - intros n op r. apply clients_exec.
Qed.

#[export] Instance clients_owner : MeshOwner (applyClients fresh) (λ _, node_ok) gone silent dump_like a.
Proof.
  constructor; [done|]. intros b r m r' Hab Hr Hm Ht [= <-]. by apply (clients_message_read a b r m Hab Hr Hm).
Qed.

End Spec.

Section Theorems.
Context `{LK : Link} `{LM : Limiter} `{MR : MapRange}.
Context (fresh : ClientInfo → nat) (ns : list string) (home : Z → option string).
Notation clients_run := (net_run (applyClients fresh) exec).

(** C14: in a mesh every route leads home.  Let every node start without streams and
    with routes, if any, that lead to the node whose network the address belongs to.
    Then whatever happens in the mesh, with any number of nodes, clients that come
    and go at each of them, rules that change, streams that open, break and start
    again and tell each other whatever each has learned from third nodes, nothing
    panics, and at every node every route still leads to the node whose network the
    address belongs to: a packet is never sent to another. *)
Theorem routes_lead_home (f : string → Router.Router) xs :
  (∀ n, node_ok ns home (f n)) → Forall (act_ok (local_op ns home None)) xs →
  ∃ m, clients_run xs (mkMesh f no_streams) = Ok m ∧
    ∀ n ip obj, Router.table (nodes m n) !! ip = Some obj → home ip = Some (GetNodeID obj).
Proof.
  intros Hf HF. assert (Hd : ∀ ip, None = Some ip → home ip = Some ""%string) by done.
  pose proof (clients_mesh fresh ns home None "" Hd) as ML.
  destruct (silent_run _ _ _ _ _ _ xs (mkMesh f no_streams) ltac:(by apply idle_mesh_ok) HF) as (m & E & Hm).
  exists m. split; [exact E|]. intros n ip obj Ho. apply (no_home _ _ _ (mo_node _ _ _ _ _ Hm n)). unfold owner. by rewrite Ho.
Qed.


End Theorems.

(** * Concrete meshes *)

#[local] Existing Instance RoutingTable.RoutingTable.trace_link.
#[local] Existing Instance RoutingTable.RoutingTable.free_limiter.

(** 10.1.x.x is the network of [a], 10.2.x.x that of [b]. *)
Definition mesh_home (ip : Z) : option string :=
  if bool_decide (ip / 65536 = 2561)%Z then Some "a"%string else if bool_decide (ip / 65536 = 2562)%Z then Some "b"%string else None.
Definition a_client : Z := 167837698.
Definition b_client : Z := 167903234.
Definition at_a : RoutingObject := mkObj 1 "a" a_client None.
Definition at_b : RoutingObject := mkObj 2 "b" b_client None.
Notation demo_run := (net_run (applyClients demo_fresh) exec).

Definition routed (m : mesh Router.Router ClientEvent) (n : string) (ip : Z) : option string := owner (nodes m n) ip.
Definition no_clients : mesh Router.Router ClientEvent := mkMesh (λ _, Router.demo_router) no_streams.

(** The client of [a] is known at [c], whose connection to [a] breaks before the
    client leaves; [b] has agreed with [a].  When [b] opens its stream from [c], the
    route is back at [b]: it leads home, but nobody is there. *)
Lemma stale_dump_brings_client_back :
  (m <- demo_run (open_stream "a" "c" ++ [Node "a" (OpAddRoutingObject at_a); Pair "a" "c" (LServe Update true);
      Pair "a" "c" (LRecv true); Pair "a" "c" (LRecv false); Node "a" (OpDeleteRoutingObject a_client)] ++ open_stream "a" "b") no_clients;;
   m' <- demo_run (open_stream "c" "b") m;;
   Ok ((routed m "a" a_client, routed m "b" a_client, routed m "c" a_client), (routed m' "a" a_client, routed m' "b" a_client))) =
  Ok ((None, None, Some "a"%string), (None, Some "a"%string)).
Proof. vm_compute. reflexivity. Qed.

Lemma no_clients_ok : node_ok [] mesh_home Router.demo_router.
Proof.
  constructor; [exact demo_router_inv|split; apply empty_broker_ok|vm_compute; discriminate|].
  intros ip n. unfold owner. simpl. by rewrite lookup_empty.
Qed.

(** Clients of two nodes meet at a third. *)
Definition two_clients : list (mesh_act router_op) :=
  open_stream "a" "c" ++ [Node "a" (OpAddRoutingObject at_a); Pair "a" "c" (LServe Update true); Pair "a" "c" (LRecv true);
    Node "b" (OpAddRoutingObject at_b)] ++ open_stream "c" "b" ++ open_stream "b" "a" ++ [Pair "a" "c" (LServe Tick true); Pair "a" "c" (LRecv true)].

Lemma routes_lead_home_witness :
  (m <- demo_run two_clients no_clients;;
   Ok (routed m "b" a_client, routed m "a" b_client, routed m "c" b_client)) = Ok (Some "a", Some "b", Some "b")%string ∧
  ∃ m, demo_run two_clients no_clients = Ok m ∧
    ∀ n ip obj, Router.table (nodes m n) !! ip = Some obj → mesh_home ip = Some (GetNodeID obj).
Proof.
  split; [vm_compute; reflexivity|].
  apply (routes_lead_home demo_fresh [] mesh_home (λ _, Router.demo_router) two_clients); [intros _; exact no_clients_ok|].
  repeat (apply Forall_cons; split; [first [done|split; [by vm_compute|done]]|]). apply Forall_nil_2.
Defined.

(** [b] still has the route to the client that left. *)
Definition stale_clients : mesh Router.Router ClientEvent :=
  mkMesh (<["b"%string := Router.set_table Router.demo_router {[a_client := at_a]}]> (λ _, Router.demo_router)) no_streams.
Definition demo_mesh : mesh Router.Router ClientEvent :=
  match net_step (applyClients demo_fresh) exec (Pair "a" "b" (LRenew false false true)) stale_clients with Ok m => m | _ => stale_clients end.
Definition demo_after : list (mesh_act router_op) :=
  Node "b" (OpAddRoutingObject at_b) :: open_stream "b" "c" ++ open_stream "c" "b".

Lemma stale_clients_ok : clients_ok [] mesh_home (Some a_client) ["b"%string] stale_clients.
Proof.
  apply idle_mesh_ok.
  - intros n. simpl. destruct (decide (n = "b"%string)) as [->|]; [rewrite fn_lookup_insert|rewrite fn_lookup_insert_ne by done; exact no_clients_ok].
    destruct no_clients_ok as [(H1 & H2 & _) H3 H4 _].
    assert (Ht : ∀ ip o, ({[a_client := at_a]} : gmap Z RoutingObject) !! ip = Some o → ip = a_client ∧ o = at_a) by by intros ip o [<- <-]%lookup_singleton_Some.
    constructor; [split; [exact H1|split; [exact H2|]]|exact H3|exact H4|].
    + by intros ip o [-> ->]%Ht.
    + intros ip n. unfold owner. simpl. intros (o & [-> ->]%Ht & ->)%fmap_Some. done.
  - intros n Hn. simpl. rewrite fn_lookup_insert_ne by set_solver. intros ip _. unfold owner. simpl. by rewrite lookup_empty.
Qed.

Lemma stale_mesh_ok : clients_ok [] mesh_home (Some a_client) ["b"%string] demo_mesh.
Proof.
  assert (Hd : ∀ ip, Some a_client = Some ip → mesh_home ip = Some "a"%string) by by intros ? [= <-].
  pose proof (clients_mesh demo_fresh [] mesh_home (Some a_client) "a" Hd) as ML.
  destruct (pair_step (applyClients demo_fresh) exec _ _ _ _ ["b"%string] stale_clients "a" "b" (LRenew false false true) stale_clients_ok)
    as (s & E & Hs & _); [set_solver|done|].
  unfold demo_mesh. cbn [net_step]. by rewrite E.
Qed.

(** While [b] is told, it gets a client of its own, and [c] connects to [a]. *)
Definition demo_round : list (mesh_act router_op) :=
  [Node "b" (OpAddRoutingObject at_b); Pair "a" "b" (LServe Tick true); Pair "c" "a" (LRenew false false true);
   Pair "a" "b" (LRecv true); Pair "c" "a" (LRecv true); Pair "a" "b" (LRecv true); Pair "a" "b" (LRecv true)].

Lemma departure_is_round : round "a" (λ _, 3%nat) (unheard ["b"%string]) demo_round.
Proof.
  unfold demo_round.
  repeat first [apply round_meanwhile; [solve [done|split; vm_compute; done]|]
    |eapply round_tick; [vm_compute; reflexivity|]|eapply round_read; [vm_compute; reflexivity|]].
  match goal with |- round _ _ ?p _ => replace p with (∅ : gmap string (option nat)) by (vm_compute; reflexivity) end. apply round_over.
Qed.

Lemma departure_acts_ok : Forall (act_ok (local_op [] mesh_home (Some a_client))) (demo_round ++ demo_after).
Proof. repeat (apply Forall_cons; split; [first [done|split; [by vm_compute|done]]|]). apply Forall_nil_2. Qed.


End MeshClients.
