(* ===== verification/MeshGossip.v ===== *)
(** * What the mesh knows of a peer (any number of nodes, pkg/mesh/discovery)

    Every node tells the others all the peers it knows of, its own observations and
    those it was told; a record that a node learns is an event for its own
    subscribers.  Here the streams of known peers between any number of nodes run over
    one registry and one store per node (MeshNet.v): what becomes of a peer that
    nobody is connected to any more. *)
From stdpp Require Import functions.
From S2P Require Import Prelude Broker Streams MeshNet Topology Session Discovery SessionStreams.
Import Broker Streams MeshNet Topology.Topology Session.Session Discovery.Discovery SessionStreams.

Open Scope go_scope.

Module MeshGossip.

Section System.
Context `{MR : MapRange}.

(** The sessions and the store of a node. *)
Notation peer_node := (sessionRegistry * inMemoryState)%type.

(** The server's loop of [SubscribePeers] on the store of a node. *)
#[export] Instance serve_peers : Served peer_node PeerEvent PeerEvent := {|
  sv_subs n := subs n.2;
  sv_with_subs n b := (n.1, mkState (peers n.2) b);
  sv_subscribe n := ((n.1, (Subscribe n.2).1), (Subscribe n.2).2);
  sv_sync n := buildSyncEvent n.2;
  sv_message ev := ev |}.

#[export] Instance serve_peers_laws : ServedLaws peer_node PeerEvent PeerEvent.
Proof. split; [done|]. intros [reg s]. by exists 200%nat. Qed.

(** The client's loop is the same for all pairs of nodes. *)
Definition gossip (c b : string) : peer_node → PeerEvent → gores peer_node := applyPeers.

(** What a node does by itself: it records a peer it met, forgets one, its sessions
    change, and the ticker of discovery refreshes the store. *)
Inductive peer_op :=
| Learn (u : PeerInfo)
| Forget (id : string)
| Sessions (reg : sessionRegistry)
| Refresh (now : Z) (localID : string).

Definition exec (op : peer_op) (n : peer_node) : gores peer_node :=
  match op with
  | Learn u => x <- InsertMerge n.2 u;; Ok (n.1, x.2)
  | Forget id => s <- Topology.Remove n.2 id;; Ok (n.1, s)
  | Sessions reg => Ok (reg, n.2)
  | Refresh now localID => x <- refreshPeers now localID n.1 n.2;; Ok (n.1, x.1)
  end.

End System.

(** * Specification *)

Section Spec.
Context `{MR : MapRange} (x : string) (T : Z) (HT : (T < 2 ^ 63)%Z).
Notation peer_node := (sessionRegistry * inMemoryState)%type.

(** Not after [T]. *)
Definition old (t : Z) : Prop := (0 <= t <= T)%Z.

Definition old_store (s : inMemoryState) : Prop := ∀ p, peer_map s !! x = Some p → old (LastSeen p).

(** A node without a session with the peer [x], and with old records of it. *)
Record node_ok (n : peer_node) : Prop := {
  pn_store : topo_ok n.2;
  pn_reg : reg_ok n.1;
  pn_alone : Session.Get n.1 x = None;
  pn_old : old_store n.2 }.

(** Messages without news of [x]. *)
Definition old_news (u : ProtoPeer) : Prop := Id u = x → old (ProtoLastSeen u).
Definition silent (ev : PeerEvent) : Prop :=
  match Type_ ev with
  | SYNC => Forall old_news (EvDump ev)
  | JOINED | UPDATED => ∀ u, Update ev = Some u → old_news u
  | LEFT => True
  end.

(** Nobody meets [x]. *)
Definition apart_op (n : string) (op : peer_op) : Prop :=
  match op with
  | Learn u => ID u ≠ x
  | Sessions reg => reg_ok reg ∧ Session.Get reg x = None
  | Refresh _ localID => localID = n
  | Forget _ => True
  end.

(** ** One store *)

Definition tells_old (s s' : inMemoryState) : Prop := old_store s' ∧ grown silent (subs s) (subs s').

Lemma settle_facts m e isNew :
  let '(m', res, evs) := settle m e isNew in
  (∀ k p, m' !! k = Some p → m !! k = Some p) ∧
  Forall (λ ev, Type_ ev = LEFT ∨ Type_ ev ≠ SYNC ∧ Update ev = Some (peerInfoToProto e)) evs.
Proof.
  unfold settle. destruct (resolveAddressConflict m e) as [[m1 dropped] lost] eqn:Er.
  assert (H1 : ∀ k p, m1 !! k = Some p → m !! k = Some p).
  { revert Er. unfold resolveAddressConflict. case_decide; [by intros [= <- _ _]|].
    destruct (foldl (conflict_step e) _ _) as [d []]; intros [= <- _ _]; [done|].
    intros k p. rewrite delete_all_lookup. by case_decide. }
  assert (H2 : ∀ k p, (if lost then delete (ID e) m1 else m1) !! k = Some p → m !! k = Some p).
  { intros k p. destruct lost; [intros [_ Hk]%lookup_delete_Some|intros Hk]; by apply H1. }
  assert (H3 : Forall (λ ev, Type_ ev = LEFT ∨ Type_ ev ≠ SYNC ∧ Update ev = Some (peerInfoToProto e))
    ((λ p, mkEvent LEFT (Some (peerInfoToProto p)) []) <$> dropped)) by (apply Forall_fmap, Forall_forall; intros p _; by left).
  destruct lost, isNew; simpl; (split; [exact H2|]); try (apply Forall_cons; split; [|exact H3]); [by apply Forall_nil|by left|by right|by right].
Qed.

Lemma notify_old s evs s' :
  broker_ok (subs s) → Forall silent evs → notify_all s evs = Ok s' → peers s' = peers s ∧ grown silent (subs s) (subs s').
Proof.
  revert s. unfold notify_all. induction evs as [|ev evs IH]; intros s Hb HF E; simpl in E.
  { injection E as <-. split; [done|]. by apply grown_refl. }
  apply Forall_cons in HF as [Hev HF]. destruct (notify_grown silent ev (subs s) Hb Hev) as (b & En & G).
  rewrite En in E. simpl in E. destruct (IH (mkState (peers s) b) (proj1 G) HF E) as [E1 G1]. split; [done|]. by eapply grown_trans.
Qed.

Lemma old_wire p : old (LastSeen p) → old (ProtoLastSeen (peerInfoToProto p)).
Proof. unfold old. simpl. intros Ho. rewrite i64_small; [done|]. unfold is_i64. lia. Qed.

(** Storing a record in a map, with the conflicts and the events that follow. *)
Lemma store_old s m e isNew m' res evs s' :
  broker_ok (subs s) → settle m e isNew = (m', res, evs) → notify_all (set_peers s m') evs = Ok s' →
  (∀ p, m !! x = Some p → old (LastSeen p)) → (ID e = x → old (LastSeen e)) → tells_old s s'.
Proof.
  intros Hb Es En Hm He. pose proof (settle_facts m e isNew) as Hf. rewrite Es in Hf. destruct Hf as [Hsub HF].
  destruct (notify_old (set_peers s m') evs s' Hb) as [Ep G]; [|exact En|].
  - eapply Forall_impl; [exact HF|]. intros ev [Ht|[Ht Hu]]; unfold silent; [by rewrite Ht|].
    assert (Hn : ∀ u, Update ev = Some u → old_news u).
    { intros u Eu Hid. rewrite Hu in Eu. injection Eu as <-. by apply old_wire, He. }
    destruct (Type_ ev); done.
  - split; [|exact G]. intros p. unfold peer_map. rewrite Ep. simpl. intros Hp. by apply Hm, Hsub.
Qed.

Lemma insert_old s u res s' :
  topo_ok s → old_store s → (ID u = x → old (LastSeen u)) → InsertMerge s u = Ok (res, s') → tells_old s s'.
Proof.
  intros Hs Ho Hu. pose proof (tk_subs _ Hs) as Hb.
  assert (Hrefl : tells_old s s) by (split; [done|by apply grown_refl]).
  unfold InsertMerge. case_decide as Hid; [by intros [= _ <-]|]. destruct (peer_map s !! ID u) as [old_rec|] eqn:Eo.
  - destruct (merge_record old_rec u) as [e changed] eqn:Em. destruct changed; [|by intros [= _ <-]]. cbn [negb].
    destruct (settle _ e false) as [[m' r] evs] eqn:Es. destruct (notify_all _ evs) as [s2| |] eqn:En; [|done..].
    cbn [gobind]. intros [= _ <-]. destruct (tk_key _ Hs _ _ Eo) as [Ek _].
    assert (He : ID e = ID u ∧ (ID u = x → old (LastSeen e))).
    { unfold merge_record in Em. destruct (decide (LastSeen old_rec < LastSeen u)%Z), (decide (Address u ≠ "" ∧ _)); injection Em as <-; simpl;
        (split; [done|]); intros Hx; try (by apply Hu); apply Ho; by rewrite <- Hx. }
    destruct He as [Ei He]. eapply store_old; [exact Hb|exact Es|exact En| |intros Hx; apply He; congruence].
    intros p. rewrite lookup_insert. case_decide as Hx; [intros [= <-]; by apply He|apply Ho].
  - destruct (peers s) as [m|] eqn:Ep; [|done]. destruct (settle _ (Clone u) true) as [[m' r] evs] eqn:Es.
    destruct (notify_all _ evs) as [s2| |] eqn:En; [|done..]. cbn [gobind]. intros [= _ <-].
    eapply store_old; [exact Hb|exact Es|exact En| |exact Hu].
    intros p. rewrite lookup_insert. case_decide as Hx; [intros [= <-]; by apply Hu|].
    intros Hp. apply Ho. unfold peer_map. by rewrite Ep.
Qed.

Lemma remove_old s id s' : topo_ok s → old_store s → Topology.Remove s id = Ok s' → tells_old s s'.
Proof.
  intros Hs Ho. pose proof (tk_subs _ Hs) as Hb.
  assert (Hrefl : tells_old s s) by (split; [done|by apply grown_refl]).
  unfold Topology.Remove. case_decide; [by intros [= <-]|]. destruct (peer_map s !! id) as [p|]; [|by intros [= <-]].
  intros E. assert (HF : Forall silent [mkEvent LEFT (Some (peerInfoToProto p)) []]) by by apply Forall_singleton.
  destruct (notify_old (set_peers s (delete id (peer_map s))) _ s' Hb HF E) as [Ep G]. split; [|exact G].
  intros q. unfold peer_map. rewrite Ep. simpl. intros [_ Hq]%lookup_delete_Some. by apply Ho.
Qed.

Lemma tells_old_trans s1 s2 s3 : tells_old s1 s2 → tells_old s2 s3 → tells_old s1 s3.
Proof. intros [_ G1] [O2 G2]. split; [done|]. by eapply grown_trans. Qed.

(** ** The refresh *)

Lemma refresh_sessions_old now l s con s' :
  topo_ok s → old_store s → (∀ t, t ∈ l → PeerID t ≠ x ∧ is_Some (Conn t)) → refresh_sessions now s l = Ok (con, s') →
  topo_ok s' ∧ tells_old s s'.
Proof.
  revert s con. induction l as [|t l IH]; intros s con Hs Ho Hl; simpl.
  { intros [= _ <-]. split; [done|]. split; [done|]. by apply grown_refl, tk_subs. }
  destruct (Hl t (list_elem_of_here _ _)) as [Hx [c Ec]]. rewrite Ec.
  assert (H1 : ∃ s1, refresh_session now s t = Ok s1 ∧ topo_ok s1 ∧ tells_old s s1).
  { destruct (refresh_session_total now t s Hs) as (s1 & E & Hs1). exists s1. do 2 (split; [done|]). revert E. unfold refresh_session.
    match goal with |- (if ?b then _ else _) = _ → _ => destruct b end; [intros [= <-]; split; [done|]; by apply grown_refl, tk_subs|].
    match goal with |- context [InsertMerge s ?u] => set (u' := u) end. destruct (InsertMerge s u') as [[res s2]| |] eqn:Ei; [|done..].
    intros [= <-]. eapply insert_old; [done|done| |exact Ei]. intros Hid. by destruct Hx. }
  destruct H1 as (s1 & -> & Hs1 & Ht1). cbn [gobind]. destruct (refresh_sessions now s1 l) as [[con1 s2]| |] eqn:E2; [|done..].
  intros [= _ <-]. destruct (IH s1 con1 Hs1 (proj1 Ht1)) as [Hs2 Ht2]; [intros t' Ht'; apply Hl; by right|done|].
  split; [done|]. by eapply tells_old_trans.
Qed.

Lemma sweep_old now localID reg con l s s' dials :
  topo_ok s → old_store s → sweep now localID reg con s l = Ok (s', dials) → tells_old s s'.
Proof.
  revert s dials. induction l as [|p l IH]; intros s dials Hs Ho; simpl.
  { intros [= <- _]. split; [done|]. by apply grown_refl, tk_subs. }
  case_decide; [by apply IH|]. case_decide; [by apply IH|]. case_decide.
  - destruct (Remove_spec s (ID p) Hs) as (s1 & E & Hs1 & _). rewrite E. cbn [gobind]. intros E2.
    pose proof (remove_old _ _ _ Hs Ho E) as Ht. eapply tells_old_trans; [exact Ht|]. by eapply IH, E2; [|apply Ht].
  - case_decide; [by apply IH|]. destruct (sweep now localID reg con s l) as [[s1 d1]| |] eqn:E; [|done..].
    intros [= <- _]. by eapply IH.
Qed.

Lemma refresh_old now localID n s' dials :
  node_ok n → refreshPeers now localID n.1 n.2 = Ok (s', dials) → tells_old n.2 s'.
Proof.
  intros [Hs Hr Hx Ho]. unfold refreshPeers. destruct (refresh_sessions now n.2 (ListActive n.1)) as [[con s1]| |] eqn:E1; [|done..].
  cbn [gobind]. intros E2. destruct (refresh_sessions_old now (ListActive n.1) n.2 con s1 Hs Ho) as [Hs1 Ht1]; [|exact E1|].
  { intros t Ht. split; [|by apply (active_have_conn n.1)]. unfold ListActive in Ht.
    apply list_elem_of_fmap in Ht as ([k t'] & -> & Hin%elem_of_map_range). destruct (rk_key _ Hr _ _ Hin) as (Ek & _). simpl.
    unfold Session.Get in Hx. congruence. }
  eapply tells_old_trans; [exact Ht1|]. eapply sweep_old; [exact Hs1|apply Ht1|exact E2].
Qed.

(** ** The mesh of stores *)

Lemma dump_old s : topo_ok s → old_store s → silent (buildSyncEvent s).
Proof.
  intros Hs Ho. apply Forall_fmap, Forall_forall. intros p Hp%List_spec Hid; [|done]. apply old_wire, Ho. simpl in Hid. by rewrite <- Hid.
Qed.

Lemma insert_dump_old l s s' :
  topo_ok s → old_store s → Forall old_news l → insert_dump s l = Ok s' → tells_old s s'.
Proof.
  revert s. induction l as [|u l IH]; intros s Hs Ho HF; simpl.
  { intros [= <-]. split; [done|]. by apply grown_refl, tk_subs. }
  apply Forall_cons in HF as [Hu HF]. destruct (insert_merge_total s (peer_of_proto u) Hs) as (res & s1 & E & Hs1). rewrite E.
  cbn [gobind snd]. pose proof (insert_old s (peer_of_proto u) res s1 Hs Ho Hu E) as Ht. intros E2. eapply tells_old_trans; [exact Ht|]. by eapply IH, E2; [|apply Ht|].
Qed.

Lemma gossip_old reg s ev s' :
  topo_ok s → old_store s → silent ev → streamDiscoveryData reg s ev = Ok s' → tells_old s s'.
Proof.
  intros Hs Ho. assert (Hrefl : tells_old s s) by (split; [done|by apply grown_refl, tk_subs]).
  assert (Hone : ∀ u, old_news u → (y <- InsertMerge s (peer_of_proto u);; Ok y.2) = Ok s' → tells_old s s').
  { intros u Hu. destruct (InsertMerge s (peer_of_proto u)) as [[res s1]| |] eqn:E; [|done..]. intros [= <-]. by apply (insert_old s (peer_of_proto u) res s1 Hs Ho Hu E). }
  unfold silent, streamDiscoveryData. destruct (Type_ ev).
  - apply insert_dump_old; done.
  - destruct (Update ev) as [u|]; [|by intros _ [= <-]]. intros Hev. by apply Hone, Hev.
  - destruct (Update ev) as [u|]; [|by intros _ [= <-]]. intros Hev. by apply Hone, Hev.
  - intros _. destruct (Update ev) as [u|]; [|by intros [= <-]]. case_decide; [by intros [= <-]|]. by apply remove_old.
Qed.

#[export] Instance gossip_mesh : MeshLaws gossip exec (λ _, node_ok) (λ _, True) silent apart_op.
Proof.
  constructor.
  - intros _ n Hn. apply (tk_subs _ (pn_store _ Hn)).
  - intros _ n b [[H1 H2 H3 _] Hr Hx Ho] Hb. by constructor; [constructor|..].
  - done.
  - intros _ n Hn _. apply dump_old; apply Hn.
  - intros c b [reg s] ev _ [Hs Hr Hx Ho] Hev. simpl in *. destruct (stream_event_total reg s ev Hs) as (s' & E & Hs').
    destruct (gossip_old reg s ev s' Hs Ho Hev E) as [Ho' G].
    exists (reg, s'). split; [unfold gossip, applyPeers; simpl; by rewrite E|]. by split; [constructor|].
  - intros n op [reg s] [Hs Hr Hx Ho] Hop. simpl in *.
    destruct op as [u|id|reg'|now localID]; simpl in *.
    + destruct (insert_merge_total s u Hs) as (res & s' & E & Hs'). rewrite E. exists (reg, s'). split; [done|].
      destruct (insert_old s u res s' Hs Ho (λ Hid, False_ind _ (Hop Hid)) E) as [Ho' G]. by split; [constructor|].
    + destruct (Remove_spec s id Hs) as (s' & E & Hs' & _). rewrite E. exists (reg, s'). split; [done|].
      destruct (remove_old s id s' Hs Ho E) as [Ho' G]. by split; [constructor|].
    + destruct Hop as [Hr' Hx']. exists (reg', s). split; [done|]. split; [by constructor|]. split; [done|]. apply grown_refl, tk_subs, Hs.
    + destruct (refreshPeers_spec now localID reg s Hs Hr) as (s' & dials & E & Hs' & _). rewrite E. exists (reg, s'). split; [done|].
      destruct (refresh_old now localID (reg, s) s' dials) as [Ho' G]; [by constructor|exact E|]. by split; [constructor|].
Qed.

(** C16: gossip does not keep a dead peer alive.  Let nobody have a session with a peer
    [x] and let no store hold a record of it later than [T], in a mesh without streams
    yet.  Then whatever happens in the mesh, with any number of nodes that meet and
    forget other peers, whose sessions come and go, that refresh their stores at any
    time and tell each other whatever they hold, nothing panics and no store ever holds
    a later record of [x]: what nodes repeat to each other never looks like news.  So
    every refresh of any node but [x] that comes more than the time to live after [T]
    leaves no record of [x] there. *)
Theorem dead_peers_are_forgotten (f : string → peer_node) xs :
  (∀ n, node_ok (f n)) → Forall (act_ok apart_op) xs →
  ∃ m, net_run gossip exec xs (mkMesh f no_streams) = Ok m ∧
    (∀ n p, peer_map (nodes m n).2 !! x = Some p → (LastSeen p <= T)%Z) ∧
    ∀ n now, x ≠ n → (T + peerTTL < now)%Z →
      ∃ s dials, refreshPeers now n (nodes m n).1 (nodes m n).2 = Ok (s, dials) ∧ peer_map s !! x = None.
Proof.
  intros Hf HF. destruct (silent_run _ _ _ _ _ _ xs (mkMesh f no_streams) ltac:(by apply idle_mesh_ok) HF) as (m & E & Hm).
  exists m. split; [exact E|]. pose proof (mo_node _ _ _ _ _ Hm) as Hn. split.
  - intros n p Hp. apply (pn_old _ (Hn n) p Hp).
  - intros n now Hx Hnow. specialize (Hn n). destruct (refreshPeers_spec now n _ _ (pn_store _ Hn) (pn_reg _ Hn)) as (s & dials & Er & _ & Hkeep & _).
    exists s, dials. split; [exact Er|]. destruct (peer_map s !! x) as [p|] eqn:Ep; [|done].
    destruct (refresh_old now n _ _ _ Hn Er) as [Ho _]. destruct (Ho p Ep) as [_ Hle].
    destruct (Hkeep x p Ep) as [?|[Hs|Ht]]; [done| |lia]. rewrite (pn_alone _ Hn) in Hs. by destruct Hs.
Qed.

End Spec.
(** * Concrete meshes *)

Definition dead_peer : PeerInfo := mkPeer "x" "10.0.0.9:4000" 5.
Definition dead_store : inMemoryState :=
  match InsertMerge newInMemoryState dead_peer with Ok (_, s) => s | _ => newInMemoryState end.
Definition dead_mesh : mesh (sessionRegistry * inMemoryState) PeerEvent := mkMesh (λ _, (demo_reg, dead_store)) no_streams.
Definition later : Z := (6 + peerTTL)%Z.
Definition knows (m : mesh (sessionRegistry * inMemoryState) PeerEvent) (n : string) : bool :=
  bool_decide (is_Some (peer_map (nodes m n).2 !! "x"%string)).

Lemma dead_store_ok : node_ok "x" 5 (demo_reg, dead_store).
Proof.
  destruct (insert_merge_total newInMemoryState dead_peer new_state_ok) as (res & s & E & Hs).
  assert (Ed : dead_store = s) by (unfold dead_store; by rewrite E). rewrite Ed.
  constructor; [exact Hs|exact demo_reg_ok|by vm_compute|].
  apply (insert_old "x" 5 ltac:(lia) newInMemoryState dead_peer res s new_state_ok); [by intros p|by intros _|exact E].
Qed.

(** [a] forgets the peer, which expired, and is told of it again by [b], which has not
    looked yet: for [a] it has joined, which makes it dial the address again. *)
Lemma expired_peer_comes_back :
  (m <- net_run gossip exec [Node "a" (Refresh later "a")] dead_mesh;;
   m' <- net_run gossip exec (open_stream "b" "a") m;;
   Ok (knows m "a", knows m' "a",
       listenForNewPeers "z" demo_reg (mkEvent JOINED (Some (peerInfoToProto dead_peer)) []))) =
  Ok (false, true, Some "10.0.0.9:4000"%string).
Proof. vm_compute. reflexivity. Qed.

Definition dead_events : list (mesh_act peer_op) :=
  open_stream "a" "b" ++ [Node "b" (Refresh later "b")] ++ open_stream "b" "a" ++
  [Node "a" (Learn (mkPeer "y" "10.0.0.8:4000" 9)); Pair "a" "b" (LServe Streams.Update true); Pair "a" "b" (LRecv true);
   Pair "a" "b" (LServe Tick true); Pair "a" "b" (LRecv true)].

Lemma dead_peers_are_forgotten_witness :
  ∃ m, net_run gossip exec dead_events dead_mesh = Ok m ∧
    ∃ s dials, refreshPeers later "b" (nodes m "b").1 (nodes m "b").2 = Ok (s, dials) ∧ peer_map s !! "x"%string = None.
Proof.
  destruct (dead_peers_are_forgotten "x" 5 ltac:(lia) (λ _, (demo_reg, dead_store)) dead_events) as (m & E & _ & H).
  - intros _. exact dead_store_ok.
  - repeat (apply Forall_cons; split; [first [done|by vm_compute]|]). apply Forall_nil_2.
  - exists m. split; [exact E|]. apply H; [done|]. vm_compute. reflexivity.
Defined.

End MeshGossip.
