(* ===== verification/Accounting.v ===== *)
(** * The traffic of the clients, from the packet to the database

    The bytes of a client are counted in its peer object (pkg/transport/awg), swapped
    out by the watchdog into a channel of 100, carried by the goroutine of
    [RegisterTransport] into a channel of 1000 and added to the client's row by the
    statistics goroutine of [Run] (pkg/services/peersmanager).  Each goroutine takes
    its turns in any order; the ledger says where every byte is. *)
From S2P Require Import Prelude DgMessage Broker RoutingTable Firewall Router Repos Model AwgClient AwgTransport Services.
Import Broker AwgTransport.AwgTransport.

Open Scope go_scope.

Module Accounting.

Section System.
Context `{DV : Device} `{LK : Link} `{LM : Limiter} `{MR : MapRange} `{PF : Repos.Platform}.

Notation Router := Router.Router.Router.

(** The goroutine of [RegisterTransport]: waiting for statistics, waiting for room
    in [statsDrain], or ended. *)
Inductive forwarder := Receiving | Sending (data : TransportPeerStats) | Ended.

Record Acct := mkAcct {
  ac_router : Router;
  ac_awg : AWGTransport;
  ac_watchdog : bool;
  ac_forward : forwarder;
  ac_statsDrain : list TransportPeerStats;
  ac_drainer : bool;
  ac_db : Repos.DB }.

Definition set_awg (s : Acct) (t : AWGTransport) : Acct :=
  mkAcct (ac_router s) t (ac_watchdog s) (ac_forward s) (ac_statsDrain s) (ac_drainer s) (ac_db s).
Definition set_plane (s : Acct) (r : Router) (t : AWGTransport) : Acct :=
  mkAcct r t (ac_watchdog s) (ac_forward s) (ac_statsDrain s) (ac_drainer s) (ac_db s).
Definition set_forward (s : Acct) (t : AWGTransport) (f : forwarder) (q : list TransportPeerStats) : Acct :=
  mkAcct (ac_router s) t (ac_watchdog s) f q (ac_drainer s) (ac_db s).
Definition set_drain (s : Acct) (q : list TransportPeerStats) (live : bool) (db : Repos.DB) : Acct :=
  mkAcct (ac_router s) (ac_awg s) (ac_watchdog s) (ac_forward s) q live db.
Definition stop_watchdog (s : Acct) : Acct :=
  mkAcct (ac_router s) (ac_awg s) false (ac_forward s) (ac_statsDrain s) (ac_drainer s) (ac_db s).

(** ** The goroutines

    [done]: the context is done; [pick]: the choice of a select statement whose
    cases are all ready.  A turn of a goroutine that waits changes nothing. *)

(** [AWGTransport.Run]: a tick, or the end. *)
Definition Run_turn (done pick : bool) (now : Z) (s : Acct) : gores Acct :=
  if negb (ac_watchdog s) then Ok s else
  if done && negb pick then Ok (stop_watchdog s) else
  x <- watchPeers now (ac_router s) (ac_awg s);; Ok (set_plane s x.1 x.2).

Definition pop_delta (t : AWGTransport) : AWGTransport := set_objs t (peer_objs t) (tail (deltaChan t)).

(** [RegisterTransport]: the send to [statsDrain] waits for room, whatever the
    context. *)
Definition RegisterTransport_turn (done pick : bool) (s : Acct) : Acct :=
  match ac_forward s with
  | Ended => s
  | Sending data =>
      if decide (length (ac_statsDrain s) < 1000)%nat
      then set_forward s (ac_awg s) Receiving (ac_statsDrain s ++ [data]) else s
  | Receiving =>
      match deltaChan (ac_awg s) with
      | data :: _ => if done && negb pick then set_forward s (ac_awg s) Ended (ac_statsDrain s)
                     else set_forward s (pop_delta (ac_awg s)) (Sending data) (ac_statsDrain s)
      | [] => if done then set_forward s (ac_awg s) Ended (ac_statsDrain s) else s
      end
  end.

(** The statistics goroutine of [PeersManager.Run]: an error of the statement is
    logged. *)
Definition drain_turn (done pick : bool) (s : Acct) : Acct :=
  if negb (ac_drainer s) then s else
  match ac_statsDrain s with
  | data :: q =>
      if done && negb pick then set_drain s (ac_statsDrain s) false (ac_db s)
      else set_drain s q true
             (Services.PeersManager.drain_stats (ac_db s) (VirtualIP data) (StatLastSeen data)
                (DeltaToPeer data) (DeltaFromPeer data)).2
  | [] => if done then set_drain s [] false (ac_db s) else s
  end.

(** ** Everything that happens *)

Inductive event :=
| ToClient (pick_send : bool) (ref id : nat) (data : list Z)
| FromClient (now src n : Z)
| Tick (done pick : bool) (now : Z)
| Forward (done pick : bool)
| Drain (done pick : bool)
| Register (now : Z) (p : Model.Peer)
| Kick (ip : Z)
| NewRow (now : Z) (arg : Repos.CreatePeerAutoIDParams)
| DeleteRow (id : Z).

Definition step (x : event) (s : Acct) : gores Acct :=
  match x with
  | ToClient pick ref id data => Ok (set_awg s (SendDatagram pick ref id data (ac_awg s)).2)
  | FromClient now src n => Ok (set_awg s (note_packet now src n (ac_awg s)))
  | Tick done pick now => Run_turn done pick now s
  | Forward done pick => Ok (RegisterTransport_turn done pick s)
  | Drain done pick => Ok (drain_turn done pick s)
  | Register now p => y <- CreatePeer now (ac_router s) (ac_awg s) p;; Ok (set_plane s y.2.1 y.2.2)
  | Kick ip => y <- KickPeer (ac_router s) (ac_awg s) ip;; Ok (set_plane s y.2.1 y.2.2)
  | NewRow now arg => Ok (set_drain s (ac_statsDrain s) (ac_drainer s) (Repos.CreatePeerAutoID now arg (ac_db s)).2)
  | DeleteRow id => Ok (set_drain s (ac_statsDrain s) (ac_drainer s) (Repos.DeletePeer id (ac_db s)).2)
  end.

Fixpoint run (xs : list event) (s : Acct) : gores Acct :=
  match xs with
  | [] => Ok s
  | x :: rest => s1 <- step x s;; run rest s1
  end.

Lemma acct_run_app xs ys s : run (xs ++ ys) s = (s1 <- run xs s;; run ys s1).
Proof. revert s. induction xs as [|x xs IH]; intros s; [done|]. simpl. destruct (step x s); [|done..]. apply IH. Qed.

End System.

(** * Specification: the ledger *)

Section Spec.
Context `{DL : DeviceLaws} `{LK : Link} `{LM : Limiter} `{MR : MapRange} `{PF : Repos.Platform}.

Inductive direction := FromPeer | ToPeer.

(** ** Where the bytes of the client at [ip] are *)

Section Ledger.
Context (d : direction) (ip : Z).

Definition delta (x : TransportPeerStats) : Z := match d with FromPeer => DeltaFromPeer x | ToPeer => DeltaToPeer x end.
Definition bytes_of (p : AWGPeer) : Z := match d with FromPeer => totalFromPeer p | ToPeer => totalToPeer p end.
Definition total_of (p : Repos.Peer) : Z := match d with FromPeer => Repos.FromPeerTotal p | ToPeer => Repos.ToPeerTotal p end.

(** In the peer object that is registered for the address. *)
Definition counter (t : AWGTransport) : Z :=
  match peersByIP t !! ip ≫= λ ref, peer_objs t !! ref with Some p => bytes_of p | None => 0 end.
(** In a channel. *)
Definition queued (q : list TransportPeerStats) : Z :=
  foldr (λ x a, (if decide (VirtualIP x = ip) then delta x else 0) + a)%Z 0%Z q.
Definition carried (f : forwarder) : Z := match f with Sending x => queued [x] | _ => 0 end.
(** In rows of the address. *)
Definition stored_in (rows : list Repos.Peer) : Z :=
  foldr (λ p a, (if decide (Repos.VirtualIp p = ip) then total_of p else 0) + a)%Z 0%Z rows.
Definition stored (db : Repos.DB) : Z := stored_in (Repos.peers db).

Definition held (s : Acct) : Z :=
  (stored (ac_db s) + queued (ac_statsDrain s) + carried (ac_forward s) + queued (deltaChan (ac_awg s)) + counter (ac_awg s))%Z.

(** The bytes that an event brings: packets of the client that is registered. *)
Definition brought (x : event) (s : Acct) : Z :=
  match x, d with
  | ToClient _ ref _ data, ToPeer =>
      if decide (peersByIP (ac_awg s) !! ip = Some ref) then golen data else 0
  | FromClient _ src n, FromPeer =>
      if decide (src = ip ∧ is_Some (peersByIP (ac_awg s) !! ip)) then n else 0
  | _, _ => 0
  end.

(** The statistics that a round offers. *)
Definition offered (t : AWGTransport) : list TransportPeerStats :=
  stats_of <$> (round_peers t (map_range (peersByIP t))).*2.

(** The bytes that an event loses: what a round does not get into the channel, the
    counters of a client that is removed, statistics that cannot be stored, and what
    a deleted row held. *)
Definition lost (x : event) (s : Acct) : Z :=
  match x with
  | Tick done pick _ =>
      if ac_watchdog s && negb (done && negb pick)
      then queued (drop (100 - length (deltaChan (ac_awg s))) (offered (ac_awg s))) else 0
  | Register _ p => if decide (Model.VirtualIP p = ip) then counter (ac_awg s) else 0
  | Kick j => if decide (j = ip) then counter (ac_awg s) else 0
  | Drain done pick =>
      match ac_statsDrain s with
      | data :: _ =>
          if ac_drainer s && negb (done && negb pick) &&
             negb (bool_decide (head (Repos.db_faults (ac_db s)) ≠ Some true ∧ VirtualIP data ∈ Repos.VirtualIp <$> Repos.peers (ac_db s)))
          then queued [data] else 0
      | [] => 0
      end
  | DeleteRow id =>
      if decide (head (Repos.db_faults (ac_db s)) = Some true) then 0%Z
      else stored_in (filter (λ p, Repos.ID p = id) (Repos.peers (ac_db s)))
  | _ => 0
  end.

Fixpoint tally (f : event → Acct → Z) (xs : list event) (s : Acct) : Z :=
  match xs with
  | [] => 0
  | x :: rest => (f x s + match step x s with Ok s1 => tally f rest s1 | _ => 0 end)%Z
  end.

End Ledger.

(** ** What is kept *)

Definition stats_nonneg (x : TransportPeerStats) : Prop := (0 <= DeltaFromPeer x)%Z ∧ (0 <= DeltaToPeer x)%Z.
Definition waiting (f : forwarder) : list TransportPeerStats := match f with Sending x => [x] | _ => [] end.

Record acct_ok (s : Acct) : Prop := {
  ak_awg : awg_ok (ac_router s) (ac_awg s);
  ak_delta : (length (deltaChan (ac_awg s)) <= 100)%nat;
  ak_drain : (length (ac_statsDrain s) <= 1000)%nat;
  ak_db : Repos.db_ok (ac_db s);
  ak_counts ip ref p : peersByIP (ac_awg s) !! ip = Some ref → peer_objs (ac_awg s) !! ref = Some p →
    (0 <= totalFromPeer p)%Z ∧ (0 <= totalToPeer p)%Z;
  ak_stats : Forall stats_nonneg (deltaChan (ac_awg s) ++ waiting (ac_forward s) ++ ac_statsDrain s);
  ak_rows p : p ∈ Repos.peers (ac_db s) → (0 <= Repos.FromPeerTotal p)%Z ∧ (0 <= Repos.ToPeerTotal p)%Z }.

(** A client is registered with a key that no other address has at that moment. *)
Definition event_ok (x : event) (s : Acct) : Prop :=
  match x with
  | Register _ p => is_u32 (Model.VirtualIP p) ∧ no_newline (Model.AwgPublicKey p) ∧
      (dev_peers (awgDevice (ac_awg s)) !! Model.AwgPublicKey p = None ∨
       dev_peers (awgDevice (ac_awg s)) !! Model.AwgPublicKey p = Some (Model.VirtualIP p))
  | FromClient _ _ n => (0 <= n)%Z
  | _ => True
  end.
Fixpoint events_ok (xs : list event) (s : Acct) : Prop :=
  match xs with
  | [] => True
  | x :: rest => event_ok x s ∧ match step x s with Ok s1 => events_ok rest s1 | _ => True end
  end.

(** ** Sums *)

Lemma queued_cons d ip x q : queued d ip (x :: q) = ((if decide (VirtualIP x = ip) then delta d x else 0) + queued d ip q)%Z.
Proof. done. Qed.

Lemma queued_app d ip q1 q2 : queued d ip (q1 ++ q2) = (queued d ip q1 + queued d ip q2)%Z.
Proof. induction q1 as [|x q IH]; [done|]. simpl. rewrite IH. lia. Qed.

Lemma queued_nonneg d ip q : Forall stats_nonneg q → (0 <= queued d ip q)%Z.
Proof.
  induction q as [|x q IH]; [done|]. intros [[Hf Ht] HF]%Forall_cons. specialize (IH HF). simpl. unfold delta. destruct d; case_decide; lia.
Qed.

Lemma carried_waiting d ip f : carried d ip f = queued d ip (waiting f).
Proof. by destruct f. Qed.

Lemma stored_app d ip l1 l2 : stored_in d ip (l1 ++ l2) = (stored_in d ip l1 + stored_in d ip l2)%Z.
Proof. induction l1 as [|x l IH]; [done|]. simpl. rewrite IH. lia. Qed.

Lemma stored_nonneg d ip (l : list Repos.Peer) :
  (∀ p, p ∈ l → (0 <= Repos.FromPeerTotal p)%Z ∧ (0 <= Repos.ToPeerTotal p)%Z) → (0 <= stored_in d ip l)%Z.
Proof.
  induction l as [|x l IH]; [done|]. intros Hl. destruct (Hl x (list_elem_of_here _ _)).
  assert (0 <= stored_in d ip l)%Z by (apply IH; intros p Hp; apply Hl; by right).
  simpl. unfold total_of. destruct d; case_decide; lia.
Qed.

Lemma stored_split d ip (P : Repos.Peer → Prop) `{∀ p, Decision (P p)} l :
  stored_in d ip l = (stored_in d ip (filter P l) + stored_in d ip (filter (λ p, ¬ P p) l))%Z.
Proof.
  induction l as [|x l IH]; [done|]. rewrite !filter_cons. destruct (decide (P x)) as [Hx|Hx].
  - rewrite (decide_False (P := ¬ P x)) by tauto. simpl. rewrite IH. lia.
  - rewrite (decide_True (P := ¬ P x)) by done. simpl. rewrite IH. lia.
Qed.

(** What statistics add to the rows. *)
Lemma stored_update d ip from to seen j (l : list Repos.Peer) :
  NoDup (Repos.VirtualIp <$> l) →
  stored_in d ip ((λ p, if decide (Repos.VirtualIp p = j) then Repos.add_stats from to seen p else p) <$> l) =
  (stored_in d ip l + (if decide (j = ip ∧ j ∈ Repos.VirtualIp <$> l) then match d with FromPeer => from | ToPeer => to end else 0))%Z.
Proof.
  induction l as [|x l IH]; [intros _; rewrite decide_False; [done|intros [_ []%not_elem_of_nil]]|].
  rewrite fmap_cons. intros [Hx HN]%NoDup_cons. rewrite fmap_cons. simpl. rewrite IH by done.
  destruct (decide (Repos.VirtualIp x = j)) as [Ej|Ej].
  - subst j. rewrite (decide_False (P := _ ∧ _ ∈ _)) by tauto. change (Repos.VirtualIp (Repos.add_stats _ _ _ x)) with (Repos.VirtualIp x).
    destruct (decide (Repos.VirtualIp x = ip)) as [Ei|Ei].
    + rewrite decide_True by (split; [done|by left]). unfold total_of. destruct d; simpl; lia.
    + rewrite decide_False by tauto. lia.
  - destruct (decide (j = ip ∧ j ∈ Repos.VirtualIp <$> l)) as [H1|H1]; [rewrite (decide_True (P := _ ∧ _ ∈ _)) by (split; [tauto|right; tauto])|rewrite (decide_False (P := _ ∧ _ ∈ _)); [|intros [H2 [H3|H3]%elem_of_cons]; [congruence|tauto]]]; lia.
Qed.

(** ** Bounds *)

(** No more than an [int64] of bytes. *)
Definition bounded (x : event) (s : Acct) : Prop := ∀ d ip, (held d ip s + brought d ip x s < 2 ^ 63)%Z.
Definition accounted (x : event) (s s' : Acct) : Prop :=
  ∀ d ip, (held d ip s' + lost d ip x s = held d ip s + brought d ip x s)%Z.

Lemma counter_nonneg d ip s : acct_ok s → (0 <= counter d ip (ac_awg s))%Z.
Proof.
  intros Hs. unfold counter. destruct (peersByIP (ac_awg s) !! ip) as [ref|] eqn:Ei; [|done]. simpl.
  destruct (peer_objs (ac_awg s) !! ref) as [p|] eqn:Ep; [|done]. destruct (ak_counts _ Hs ip ref p Ei Ep). by destruct d.
Qed.

Lemma held_parts d ip s : acct_ok s →
  (0 <= stored d ip (ac_db s))%Z ∧ (0 <= queued d ip (ac_statsDrain s))%Z ∧ (0 <= carried d ip (ac_forward s))%Z ∧
  (0 <= queued d ip (deltaChan (ac_awg s)))%Z ∧ (0 <= counter d ip (ac_awg s))%Z.
Proof.
  intros Hs. pose proof (ak_stats _ Hs) as [H1 [H2 H3]%Forall_app]%Forall_app.
  split; [apply stored_nonneg, Hs|]. split; [by apply queued_nonneg|]. rewrite carried_waiting.
  split; [by apply queued_nonneg|]. split; [by apply queued_nonneg|]. by apply counter_nonneg.
Qed.

(** ** The counters *)

Lemma awg_ok_object r t t' ref p q :
  awg_ok r t → peer_objs t !! ref = Some p → virtualIP q = virtualIP p → pubKey q = pubKey p →
  same_tables t t' → peer_objs t' = <[ref := q]> (peer_objs t) → awg_ok r t'.
Proof.
  intros [Htun Hpeer Hdev Hb] Hp Hv Hk (Eb & Eu & Ed) Eo. constructor; [congruence| | |done].
  - intros ip rf. rewrite Eb, Ed, Eo. intros Hi. destruct (Hpeer _ _ Hi) as (p' & obj & Hp' & Hrest).
    destruct (decide (rf = ref)) as [->|Hne]; [exists q, obj; rewrite lookup_insert_eq|exists p', obj; by rewrite lookup_insert_ne].
    rewrite Hp in Hp'. injection Hp' as <-. by rewrite Hv, Hk.
  - intros key ip. rewrite Ed, Eb, Eo. intros Hi. destruct (Hdev _ _ Hi) as (rf & p' & Hr & Hp' & Hkey).
    destruct (decide (rf = ref)) as [->|Hne]; [exists ref, q; rewrite lookup_insert_eq|exists rf, p'; by rewrite lookup_insert_ne].
    rewrite Hp in Hp'. injection Hp' as <-. by rewrite Hk.
Qed.

Lemma counter_object d ip t t' ref q :
  peersByIP t' = peersByIP t → peer_objs t' = <[ref := q]> (peer_objs t) →
  counter d ip t' = if decide (peersByIP t !! ip = Some ref) then bytes_of d q else counter d ip t.
Proof.
  intros Eb Eo. unfold counter. rewrite Eb, Eo. destruct (peersByIP t !! ip) as [rf|]; [|by rewrite decide_False].
  simpl. destruct (decide (Some rf = Some ref)) as [[= ->]|Hne]; [by rewrite lookup_insert_eq|]. rewrite lookup_insert_ne; [done|congruence].
Qed.

(** Bytes are counted in the object [ref]. *)
Lemma count_step s t' ref p q :
  acct_ok s → peer_objs (ac_awg s) !! ref = Some p → virtualIP q = virtualIP p → pubKey q = pubKey p →
  (∀ ip, peersByIP (ac_awg s) !! ip = Some ref → (0 <= totalFromPeer q)%Z ∧ (0 <= totalToPeer q)%Z) →
  same_tables (ac_awg s) t' → deltaChan t' = deltaChan (ac_awg s) → peer_objs t' = <[ref := q]> (peer_objs (ac_awg s)) →
  acct_ok (set_awg s t') ∧ ∀ d ip, held d ip (set_awg s t') =
    (held d ip s + if decide (peersByIP (ac_awg s) !! ip = Some ref) then bytes_of d q - bytes_of d p else 0)%Z.
Proof.
  intros Hs Hp Hv Hk Hq Ht Ed Eo. pose proof Ht as (Eb & _ & Edev). split.
  - constructor; simpl; try apply Hs.
    + by apply (awg_ok_object _ _ _ _ _ _ (ak_awg _ Hs) Hp Hv Hk).
    + rewrite Ed. apply Hs.
    + intros ip rf x. rewrite Eb, Eo. intros Hi [[<- <-]|[_ Hx]]%lookup_insert_Some; [by apply (Hq ip)|by apply (ak_counts _ Hs ip rf)].
    + rewrite Ed. apply Hs.
  - intros d ip. unfold held. simpl. rewrite Ed, (counter_object d ip _ _ _ _ Eb Eo).
    case_decide as Hi; [|lia]. unfold counter. rewrite Hi. simpl. rewrite Hp. lia.
Qed.

Lemma counter_bound d ip x s ref p :
  acct_ok s → bounded x s → peersByIP (ac_awg s) !! ip = Some ref → peer_objs (ac_awg s) !! ref = Some p →
  (0 <= bytes_of d p ∧ bytes_of d p + brought d ip x s < 2 ^ 63)%Z.
Proof.
  intros Hs Hb Hi Hp. destruct (held_parts d ip s Hs) as (? & ? & ? & ? & ?). specialize (Hb d ip). unfold held in Hb.
  assert (E : counter d ip (ac_awg s) = bytes_of d p) by (unfold counter; rewrite Hi; simpl; by rewrite Hp). rewrite E in *. lia.
Qed.

Lemma u64_nonneg z : (0 <= u64 z)%Z.
Proof. unfold u64. by apply Z.mod_pos_bound. Qed.

Lemma to_client_step pick ref id data s :
  acct_ok s → bounded (ToClient pick ref id data) s →
  ∃ s', step (ToClient pick ref id data) s = Ok s' ∧ acct_ok s' ∧ accounted (ToClient pick ref id data) s s'.
Proof.
  intros Hs Hb. eexists. split; [reflexivity|]. unfold SendDatagram.
  destruct (peer_objs (ac_awg s) !! ref) as [p|] eqn:Ep.
  - set (q := set_counts p (u64 (totalToPeer p + golen data)) (totalFromPeer p)).
    match goal with |- context [writePacket ?a ?b ?c] => destruct (writePacket a b c) as [e t'] eqn:Ew end.
    assert (Ht : same_tables (ac_awg s) t' ∧ deltaChan t' = deltaChan (ac_awg s) ∧ peer_objs t' = <[ref := q]> (peer_objs (ac_awg s))).
    { unfold writePacket in Ew. destruct (_ && _) in Ew; injection Ew as _ <-; by split_and!. }
    destruct Ht as (H1 & H2 & H3). destruct (count_step s t' ref p q Hs Ep) as [G1 G2]; try done.
    { intros ip Hi. destruct (ak_counts _ Hs ip ref p Hi Ep) as [Hf _]. split; [exact Hf|apply u64_nonneg]. }
    split; [exact G1|]. intros d ip. rewrite G2. cbn [lost]. rewrite Z.add_0_r. f_equal. unfold brought.
    destruct d; simpl; [case_decide; lia|]. case_decide as Hi; [|done].
    destruct (counter_bound ToPeer ip _ _ _ _ Hs Hb Hi Ep) as [Hc Hc2]. unfold brought in Hc2. rewrite decide_True in Hc2 by done. simpl in Hc, Hc2.
    rewrite u64_small by (unfold is_u64; lia). lia.
  - simpl. replace (set_awg s (ac_awg s)) with s by by destruct s. split; [exact Hs|]. intros d ip. cbn [lost]. unfold brought.
    destruct d; [lia|]. rewrite decide_False; [lia|]. intros Hi. destruct (ao_peer _ _ (ak_awg _ Hs) _ _ Hi) as (p & _ & Hp & _). congruence.
Qed.

Lemma from_client_step now src n s :
  acct_ok s → bounded (FromClient now src n) s → (0 <= n)%Z →
  ∃ s', step (FromClient now src n) s = Ok s' ∧ acct_ok s' ∧ accounted (FromClient now src n) s s'.
Proof.
  intros Hs Hb Hn. eexists. split; [reflexivity|]. unfold note_packet. rewrite (ao_tun _ _ (ak_awg _ Hs)).
  destruct (peersByIP (ac_awg s) !! src) as [ref|] eqn:Ei.
  - destruct (ao_peer _ _ (ak_awg _ Hs) _ _ Ei) as (p & _ & Hp & Hv & _). rewrite Hp.
    match goal with |- context [set_objs _ (<[ref := ?q']> _) _] => set (q := q') end.
    assert (Hq : virtualIP q = virtualIP p ∧ pubKey q = pubKey p ∧ totalToPeer q = totalToPeer p ∧ totalFromPeer q = u64 (totalFromPeer p + n))
      by (subst q; case_decide; by split_and!).
    destruct Hq as (H1 & H2 & H3 & H4). destruct (ak_counts _ Hs src ref p Ei Hp) as [_ Ht].
    destruct (count_step s (set_objs (ac_awg s) (<[ref := q]> (peer_objs (ac_awg s))) (deltaChan (ac_awg s))) ref p q Hs Hp) as [G1 G2];
      try done; [intros _ _; rewrite H3, H4; split; [apply u64_nonneg|exact Ht]|].
    split; [exact G1|]. intros d ip. rewrite G2. cbn [lost]. rewrite Z.add_0_r. f_equal. unfold brought, bytes_of.
    clearbody q. destruct d; cbv beta iota; [rewrite H4|rewrite H3; case_decide; lia].
    assert (Hsrc : peersByIP (ac_awg s) !! ip = Some ref → ip = src).
    { intros Hi. destruct (ao_peer _ _ (ak_awg _ Hs) _ _ Hi) as (p' & _ & Hp' & Hv' & _). congruence. }
    case_decide as Hi.
    + rewrite (Hsrc Hi) in *. rewrite decide_True by (split; [done|by eexists]).
      destruct (counter_bound FromPeer src _ _ _ _ Hs Hb Ei Hp) as [Hc Hc2]. unfold brought in Hc2. rewrite decide_True in Hc2 by (split; [done|by eexists]).
      simpl in Hc, Hc2. rewrite u64_small by (unfold is_u64; lia). lia.
    + rewrite decide_False; [done|]. intros [-> _]. by rewrite Ei in Hi.
  - simpl. replace (set_awg s (ac_awg s)) with s by by destruct s. split; [exact Hs|]. intros d ip. cbn [lost]. unfold brought.
    destruct d; [|lia]. rewrite decide_False; [lia|]. intros [-> [? Hi]]. congruence.
Qed.

(** ** The watchdog *)

Lemma offered_peers t l d ip :
  NoDup l.*1 → (∀ kv, kv ∈ l → ∃ p, peer_objs t !! kv.2 = Some p ∧ virtualIP p = kv.1) →
  queued d ip (stats_of <$> (round_peers t l).*2) =
  match list_to_map (M := gmap Z nat) l !! ip ≫= λ ref, peer_objs t !! ref with Some p => bytes_of d p | None => 0%Z end.
Proof.
  induction l as [|[j ref] l IH]; intros HN Hl; [done|]. rewrite fmap_cons in HN. apply NoDup_cons in HN as [Hj HN]. simpl in Hj.
  destruct (Hl (j, ref) ltac:(by left)) as (p & Hp & Hv). simpl in Hp, Hv.
  assert (Er : stats_of <$> (round_peers t ((j, ref) :: l)).*2 = stats_of p :: (stats_of <$> (round_peers t l).*2))
    by (unfold round_peers; cbn [omap list_omap snd]; by rewrite Hp).
  rewrite Er, queued_cons. change (VirtualIP (stats_of p)) with (virtualIP p). rewrite Hv.
  specialize (IH HN ltac:(intros kv Hin; apply Hl; by right)). cbn [list_to_map foldr uncurry fst snd]. rewrite lookup_insert.
  destruct (decide (j = ip)) as [->|Hne]; [|rewrite IH; done]. cbn [mbind option_bind]. rewrite Hp.
  rewrite IH, not_elem_of_list_to_map_1 by done. cbn [mbind option_bind]. destruct d; simpl; lia.
Qed.

Lemma offered_counter s d ip : acct_ok s → queued d ip (offered (ac_awg s)) = counter d ip (ac_awg s).
Proof.
  intros Hs. unfold offered, counter. rewrite offered_peers.
  - assert (El : list_to_map (M := gmap Z nat) (map_range (peersByIP (ac_awg s))) = peersByIP (ac_awg s)); [|by rewrite El].
    apply map_eq. intros j. apply option_eq. intros ref. rewrite <- elem_of_list_to_map by apply map_range_NoDup. apply elem_of_map_range.
  - apply map_range_NoDup.
  - intros [j ref] Hin%elem_of_map_range. destruct (ao_peer _ _ (ak_awg _ Hs) _ _ Hin) as (p & _ & Hp & Hv & _). by exists p.
Qed.

Lemma offered_length t : (length (offered t) <= size (peersByIP t))%nat.
Proof.
  unfold offered. rewrite !length_fmap. rewrite <- map_range_length. unfold round_peers. induction (map_range (peersByIP t)) as [|kv l IH]; [done|].
  cbn [omap list_omap]. destruct (_ <$> _); simpl in *; lia.
Qed.

Lemma offered_nonneg s : acct_ok s → Forall stats_nonneg (offered (ac_awg s)).
Proof.
  intros Hs. apply Forall_fmap, Forall_fmap, Forall_forall. intros [ref p] ([j rf] & Hin%elem_of_map_range & Hp)%list_elem_of_omap. simpl in *.
  destruct (peer_objs (ac_awg s) !! rf) as [p'|] eqn:Ep; [|done]. simpl in Hp. injection Hp as <- <-. by destruct (ak_counts _ Hs _ _ _ Hin Ep).
Qed.

Lemma tick_spec done pick now s :
  acct_ok s → ∃ s', step (Tick done pick now) s = Ok s' ∧ acct_ok s' ∧ accounted (Tick done pick now) s s' ∧
    (ac_watchdog s = true → done = false → ∀ d ip, counter d ip (ac_awg s') = 0%Z).
Proof.
  intros Hs. cbn [step]. unfold Run_turn, accounted. cbn [lost brought].
  destruct (ac_watchdog s); cbn [negb andb]; [|exists s; split_and!; [done..| |done]; intros []; lia].
  destruct (done && negb pick) eqn:Ed0; cbn [negb].
  { exists (stop_watchdog s). split; [reflexivity|]. split; [by destruct Hs|]. split; [intros [] ip; unfold held; simpl; lia|]. intros _ ->. done. }
  destruct (watchdog_round now (ac_router s) (ac_awg s) (ak_awg _ Hs) (ak_delta _ Hs)) as (r' & t' & -> & Ha & Hn & Hr & Ed).
  cbn [gobind fst snd]. eexists. split; [reflexivity|].
  assert (Hback : ∀ ip ref, peersByIP t' !! ip = Some ref → ∃ p, peersByIP (ac_awg s) !! ip = Some ref ∧
    peer_objs (ac_awg s) !! ref = Some p ∧ peer_objs t' !! ref = Some (set_counts p 0 0)).
  { intros ip ref Hi. destruct (peersByIP (ac_awg s) !! ip) as [rf|] eqn:Ei; [|by rewrite (Hn _ Ei) in Hi].
    destruct (ao_peer _ _ (ak_awg _ Hs) _ _ Ei) as (p & _ & Hp & _). destruct (Hr _ _ _ Ei Hp) as [E1 E2]. exists p.
    rewrite E1 in Hi. destruct (ap_expired now p); [done|]. by injection Hi as <-. }
  change (stats_of <$> _) with (offered (ac_awg s)) in Ed. pose proof (ak_delta _ Hs) as Hc.
  assert (E0 : ∀ d ip, counter d ip t' = 0%Z).
  { intros d ip. unfold counter. destruct (peersByIP t' !! ip) as [ref|] eqn:Ei; [|done]. destruct (Hback _ _ Ei) as (p & _ & _ & Hp). simpl.
    rewrite Hp. by destruct d. }
  split; [|split; [|by intros _ _]].
  - constructor; simpl; try apply Hs.
    + exact Ha.
    + rewrite Ed, length_app, length_take. lia.
    + intros ip ref p Hi Hp. destruct (Hback ip ref Hi) as (p0 & H1 & H2 & H3). rewrite Hp in H3. by injection H3 as ->.
    + pose proof (ak_stats _ Hs) as HF. rewrite Ed. apply Forall_app in HF as [H1 H2]. apply Forall_app. split; [|exact H2].
      apply Forall_app. split; [exact H1|]. by apply Forall_take, offered_nonneg.
  - intros d ip. rewrite <- (Z.add_0_r (held d ip s)). unfold held. simpl. rewrite Ed, queued_app.
    pose proof (offered_counter s d ip Hs) as Eo.
    rewrite <- (take_drop (100 - length (deltaChan (ac_awg s))) (offered (ac_awg s))), queued_app in Eo.
    rewrite E0. destruct d; lia.
Qed.

Lemma watch_step done pick now s :
  acct_ok s → ∃ s', step (Tick done pick now) s = Ok s' ∧ acct_ok s' ∧ accounted (Tick done pick now) s s'.
Proof. intros Hs. destruct (tick_spec done pick now s Hs) as (s' & H1 & H2 & H3 & _). by exists s'. Qed.

(** The watchdog leaves the other goroutines and the database alone. *)
Lemma tick_rest done pick now s s' : step (Tick done pick now) s = Ok s' →
  ac_forward s' = ac_forward s ∧ ac_statsDrain s' = ac_statsDrain s ∧ ac_drainer s' = ac_drainer s ∧ ac_db s' = ac_db s.
Proof.
  cbn [step]. unfold Run_turn. destruct (negb (ac_watchdog s)); [by intros [= <-]|]. destruct (_ && _); [by intros [= <-]|].
  destruct (watchPeers _ _ _) as [x| |]; [|done..]. by intros [= <-].
Qed.

(** ** The channels *)

Definition carried_nothing (f : forwarder) : Prop := match f with Sending _ => False | _ => True end.

Lemma forward_step done pick s :
  acct_ok s → ∃ s', step (Forward done pick) s = Ok s' ∧ acct_ok s' ∧ accounted (Forward done pick) s s'.
Proof.
  intros Hs. eexists. split; [reflexivity|]. unfold accounted. cbn [lost brought].
  assert (Hsum : ∀ t f q, peersByIP t = peersByIP (ac_awg s) → peer_objs t = peer_objs (ac_awg s) → awgDevice t = awgDevice (ac_awg s) →
    tun_peers t = tun_peers (ac_awg s) →
    (length (deltaChan t) <= 100)%nat → (length q <= 1000)%nat →
    deltaChan t ++ waiting f ++ q ≡ₚ deltaChan (ac_awg s) ++ waiting (ac_forward s) ++ ac_statsDrain s →
    (∀ d ip, queued d ip q + carried d ip f + queued d ip (deltaChan t) =
       queued d ip (ac_statsDrain s) + carried d ip (ac_forward s) + queued d ip (deltaChan (ac_awg s)))%Z →
    acct_ok (set_forward s t f q) ∧ ∀ d ip, (held d ip (set_forward s t f q) + 0 = held d ip s + 0)%Z).
  { intros t f q E1 E2 E3 E4 H1 H2 HP Hq. split.
    - destruct Hs as [[K1 K2 K3 K4] _ _ K6 K7 K8 K9]. constructor; simpl; try done.
      + constructor; [congruence| | |done]; intros; rewrite ?E1, ?E2, ?E3 in *; [by apply K2|by apply K3].
      + rewrite E1, E2. exact K7.
      + by rewrite HP.
    - intros d ip. unfold held. simpl. assert (Ec : counter d ip t = counter d ip (ac_awg s)) by (unfold counter; by rewrite E1, E2).
      rewrite Ec. specialize (Hq d ip). lia. }
  pose proof (ak_delta _ Hs) as Hd. pose proof (ak_drain _ Hs) as Hq. unfold RegisterTransport_turn.
  assert (Hsame : acct_ok s ∧ ∀ d ip, (held d ip s + 0 = held d ip s + 0)%Z) by done.
  assert (Hend : carried_nothing (ac_forward s) → acct_ok (set_forward s (ac_awg s) Ended (ac_statsDrain s)) ∧
    ∀ d ip, (held d ip (set_forward s (ac_awg s) Ended (ac_statsDrain s)) + 0 = held d ip s + 0)%Z).
  { intros Hn. apply Hsum; try done; [|intros d ip]; by destruct (ac_forward s). }
  destruct (ac_forward s) as [|data|] eqn:Ef.
  - destruct (deltaChan (ac_awg s)) as [|x q] eqn:Ec; [by destruct done; [apply Hend|]|]. destruct (done && negb pick); [by apply Hend|].
    apply Hsum; try done; simpl; rewrite ?Ec; simpl.
    + simpl in Hd. lia.
    + apply Permutation_sym. rewrite <- Permutation_middle. done.
    + intros d ip. lia.
  - case_decide as Hroom; [|done]. apply Hsum; try done; simpl.
    + rewrite length_app. simpl. lia.
    + apply Permutation_app_head. rewrite Permutation_app_comm. done.
    + intros d ip. rewrite queued_app. simpl. lia.
  - done.
Qed.

(** ** The rows *)

(** Only the database changes. *)
Lemma rows_step s q live db :
  acct_ok s → (length q <= 1000)%nat → q ⊆ ac_statsDrain s → Repos.db_ok db →
  (∀ p, p ∈ Repos.peers db → (0 <= Repos.FromPeerTotal p)%Z ∧ (0 <= Repos.ToPeerTotal p)%Z) →
  acct_ok (set_drain s q live db).
Proof.
  intros [K1 K3 K4 K5 K6 K7 K8] Hq Hsub Hd Hr. constructor; simpl; try done.
  apply Forall_app in K7 as [H1 [H2 H3]%Forall_app]. apply Forall_app. split; [done|]. apply Forall_app. split; [done|].
  rewrite Forall_forall in *. intros x Hx. by apply H3, Hsub.
Qed.

(** The statement of the statistics, on the totals. *)
Lemma UpdatePeerStats_totals from to seen j db :
  Repos.db_ok db → (0 <= from)%Z → (0 <= to)%Z →
  (∀ p, p ∈ Repos.peers db → (0 <= Repos.FromPeerTotal p)%Z ∧ (0 <= Repos.ToPeerTotal p)%Z) →
  let db' := (Repos.UpdatePeerStats from to seen j db).2 in
  Repos.db_ok db' ∧
  (∀ p, p ∈ Repos.peers db' → (0 <= Repos.FromPeerTotal p)%Z ∧ (0 <= Repos.ToPeerTotal p)%Z) ∧
  ∀ d ip, stored d ip db' = (stored d ip db +
    if decide (j = ip ∧ head (Repos.db_faults db) ≠ Some true ∧ j ∈ Repos.VirtualIp <$> Repos.peers db)
    then match d with FromPeer => from | ToPeer => to end else 0)%Z.
Proof.
  intros Hd Hf Ht Hr db'. destruct (Repos.UpdatePeerStats from to seen j db) as [res db1] eqn:E. change db1 in (value of db').
  subst db'. destruct (Repos.UpdatePeerStats_spec _ _ _ _ _ _ _ Hd E) as [Hd' _]. split; [exact Hd'|].
  unfold Repos.UpdatePeerStats, Repos.stmt in E.
  assert (Hrun : (head (Repos.db_faults db) = Some true ∧ Repos.peers db1 = Repos.peers db) ∨
    (head (Repos.db_faults db) ≠ Some true ∧ Repos.peers db1 =
       (λ p, if decide (Repos.VirtualIp p = j) then Repos.add_stats from to seen p else p) <$> Repos.peers db)).
  { destruct (Repos.db_faults db) as [|[] fs]; injection E as _ <-; simpl; [by right|by left|by right]. }
  destruct Hrun as [[Hh Hp]|[Hh Hp]]; unfold stored; rewrite Hp.
  - split; [done|]. intros d ip. rewrite decide_False by tauto. lia.
  - split.
    + intros p (p0 & -> & Hin)%list_elem_of_fmap. destruct (Hr p0 Hin). case_decide; simpl; lia.
    + intros d ip. rewrite stored_update by apply Hd. f_equal. apply decide_ext. tauto.
Qed.

Lemma drain_step done pick s :
  acct_ok s → bounded (Drain done pick) s →
  ∃ s', step (Drain done pick) s = Ok s' ∧ acct_ok s' ∧ accounted (Drain done pick) s s'.
Proof.
  intros Hs Hb. eexists. split; [reflexivity|]. unfold accounted, drain_turn. cbn [lost brought].
  destruct (ac_drainer s); cbn [negb andb]; [|split; [done|]; intros d ip; destruct (ac_statsDrain s); lia].
  pose proof (ak_drain _ Hs) as Hq. pose proof (ak_stats _ Hs) as HF. apply Forall_app in HF as [_ [_ HF]%Forall_app].
  destruct (ac_statsDrain s) as [|x q] eqn:Eq.
  { destruct done; [|by split]. split.
    - apply rows_step; [done..|set_solver|apply Hs|apply Hs].
    - intros d ip. unfold held. simpl. rewrite Eq. simpl. lia. }
  destruct (done && negb pick); cbn [negb andb].
  { split; [|intros d ip; unfold held; simpl; rewrite Eq; simpl; lia].
    apply rows_step; [done|done|by rewrite Eq|apply Hs|apply Hs]. }
  apply Forall_cons in HF as [[Hxf Hxt] HF].
  assert (Hsmall : ∀ d, (delta d x < 2 ^ 63)%Z).
  { intros d. pose proof (held_parts d (VirtualIP x) s Hs) as (? & _ & ? & ? & ?). specialize (Hb d (VirtualIP x)). unfold held in Hb.
    cbn [brought] in Hb. rewrite Eq, queued_cons, decide_True in Hb by done. pose proof (queued_nonneg d (VirtualIP x) q HF). lia. }
  pose proof (Hsmall FromPeer) as Hsf. pose proof (Hsmall ToPeer) as Hst. simpl in Hsf, Hst.
  unfold Services.PeersManager.drain_stats. rewrite !i64_small by (unfold is_i64; lia).
  destruct (UpdatePeerStats_totals (DeltaFromPeer x) (DeltaToPeer x) (StatLastSeen x) (VirtualIP x) (ac_db s) (ak_db _ Hs) Hxf Hxt (ak_rows _ Hs))
    as (G1 & G2 & G3). split.
  - apply rows_step; [done|simpl in Hq; lia|rewrite Eq; set_solver|done|done].
  - intros d ip. unfold held. simpl. rewrite G3, Eq, !queued_cons. simpl.
    destruct (decide (VirtualIP x = ip)) as [Hi|Hi].
    + case_bool_decide as Hc; simpl; [rewrite decide_True by done|rewrite decide_False by tauto]; destruct d; simpl; lia.
    + rewrite decide_False by tauto. case_bool_decide; simpl; lia.
Qed.

Lemma new_row_step now arg s :
  acct_ok s → ∃ s', step (NewRow now arg) s = Ok s' ∧ acct_ok s' ∧ accounted (NewRow now arg) s s'.
Proof.
  intros Hs. eexists. split; [reflexivity|]. unfold accounted. cbn [lost brought].
  destruct (Repos.CreatePeerAutoID now arg (ac_db s)) as [res db'] eqn:E.
  pose proof (Repos.CreatePeerAutoID_spec _ _ _ _ _ (ak_db _ Hs) E) as Hc. simpl. destruct res as [p|e|]; [| |done].
  - destruct Hc as (Hd & Hp & _ & _ & _ & Ep). split.
    + apply rows_step; [done|apply Hs|done|done|]. rewrite Hp. intros p' [Hin| ->%list_elem_of_singleton]%elem_of_app; [by apply Hs|].
      by rewrite Ep.
    + intros d ip. unfold held, stored. simpl. rewrite Hp, stored_app, Ep. destruct d; simpl; case_decide; simpl; lia.
  - destruct Hc as [fs ->]. split; [|done]. apply rows_step; [done|apply Hs|done|by apply Repos.db_ok_faults, Hs|apply Hs].
Qed.

Lemma delete_row_step id s :
  acct_ok s → ∃ s', step (DeleteRow id) s = Ok s' ∧ acct_ok s' ∧ accounted (DeleteRow id) s s'.
Proof.
  intros Hs. eexists. split; [reflexivity|]. unfold accounted. cbn [lost brought].
  destruct (Repos.DeletePeer id (ac_db s)) as [res db'] eqn:E.
  pose proof (Repos.DeletePeer_spec _ _ _ _ (ak_db _ Hs) E) as Hc. cbn [snd].
  unfold Repos.DeletePeer, Repos.stmt in E. destruct res as [[]|e|]; [| |done].
  - destruct Hc as (Hp & _ & _ & Hd). assert (Hh : head (Repos.db_faults (ac_db s)) ≠ Some true) by (by destruct (Repos.db_faults (ac_db s)) as [|[]]).
    split.
    + apply rows_step; [done|apply Hs|done|done|]. intros p. rewrite Hp. intros [_ Hin]%list_elem_of_filter. by apply Hs.
    + intros d ip. rewrite decide_False by done. unfold held, stored. simpl. rewrite Hp. rewrite (stored_split d ip (λ p, Repos.ID p = id) (Repos.peers (ac_db s))). simpl. lia.
  - destruct Hc as [fs ->]. assert (Hh : head (Repos.db_faults (ac_db s)) = Some true) by (by destruct (Repos.db_faults (ac_db s)) as [|[]]).
    split; [|intros d ip; by rewrite decide_True]. apply rows_step; [done|apply Hs|done|by apply Repos.db_ok_faults, Hs|apply Hs].
Qed.

(** ** Registration *)

Lemma held_plane s r' t' d ip (new : Z) :
  deltaChan t' = deltaChan (ac_awg s) → counter d ip t' = new →
  (held d ip (set_plane s r' t') = held d ip s - counter d ip (ac_awg s) + new)%Z.
Proof. intros Ed Ec. unfold held. simpl. rewrite Ed, Ec. lia. Qed.

Lemma counter_same d ip t t' :
  peersByIP t' !! ip = peersByIP t !! ip → (∀ ref, peersByIP t !! ip = Some ref → peer_objs t' !! ref = peer_objs t !! ref) →
  counter d ip t' = counter d ip t.
Proof. intros Eb Eo. unfold counter. rewrite Eb. destruct (peersByIP t !! ip); [|done]. simpl. by rewrite Eo. Qed.

Lemma register_step now p s :
  acct_ok s → event_ok (Register now p) s →
  ∃ s', step (Register now p) s = Ok s' ∧ acct_ok s' ∧ accounted (Register now p) s s'.
Proof.
  intros Hs (Hu & Hn & Hk). cbn [step]. set (ip := Model.VirtualIP p).
  destruct (CreatePeer_spec now (ac_router s) (ac_awg s) p (ak_awg _ Hs) Hu Hn Hk) as (err & r' & t' & E & Ha & Hoth & Herr & _).
  destruct (CreatePeer_keeps _ _ _ _ _ _ _ E) as [Hsub Hd]. rewrite E. cbn [gobind fst snd]. eexists. split; [reflexivity|].
  fold ip in Hoth, Herr.
  assert (Hold : ∀ j ref q, j ≠ ip → peersByIP t' !! j = Some ref → peer_objs t' !! ref = Some q →
    peersByIP (ac_awg s) !! j = Some ref ∧ peer_objs (ac_awg s) !! ref = Some q).
  { intros j ref q Hj Hi Hq. destruct (Hoth j Hj) as [Eb _]. rewrite Eb in Hi. split; [done|].
    destruct (ao_peer _ _ (ak_awg _ Hs) _ _ Hi) as (q' & _ & Hq' & _). pose proof (lookup_weaken _ _ _ _ Hq' Hsub). congruence. }
  assert (Hnew : ∀ ref q, peersByIP t' !! ip = Some ref → peer_objs t' !! ref = Some q →
    totalFromPeer q = 0%Z ∧ totalToPeer q = 0%Z ∧ pubKey q = Model.AwgPublicKey p).
  { intros ref q Hi Hq. destruct err as [e|]; [by destruct Herr; congruence|]. destruct Herr as (rf & sh & H1 & _ & H2 & _).
    rewrite H1 in Hi. injection Hi as <-. rewrite H2 in Hq. by injection Hq as <-. }
  split.
  - destruct Hs as [K1 K3 K4 K5 K6 K7 K8]. constructor; simpl; try done; [by rewrite Hd| |by rewrite Hd].
    intros j ref q Hi Hq. destruct (decide (j = ip)) as [->|Hj]; [by destruct (Hnew ref q Hi Hq) as (-> & -> & _)|].
      destruct (Hold j ref q Hj Hi Hq) as [H1 H2]. by apply (K6 j ref).
  - intros d j. cbn [lost brought]. fold ip. case_decide as Hj.
    + subst j. rewrite (held_plane s r' t' d ip 0%Z Hd); [lia|]. unfold counter.
      destruct (peersByIP t' !! ip) as [ref|] eqn:Ei; [|done]. simpl. destruct (peer_objs t' !! ref) as [q|] eqn:Eq; [|done].
      destruct (Hnew ref q eq_refl Eq) as (H1 & H2 & _). by destruct d.
    + rewrite (held_plane s r' t' d j (counter d j (ac_awg s)) Hd); [lia|].
      apply counter_same; [by apply Hoth|]. intros ref Hi. destruct (ao_peer _ _ (ak_awg _ Hs) _ _ Hi) as (q & _ & Hq & _).
      rewrite Hq. by eapply lookup_weaken.
Qed.

Lemma kick_step ip s :
  acct_ok s → ∃ s', step (Kick ip) s = Ok s' ∧ acct_ok s' ∧ accounted (Kick ip) s s'.
Proof.
  intros Hs. cbn [step].
  destruct (KickPeer_spec (ac_router s) (ac_awg s) ip (ak_awg _ Hs)) as (b & r' & t' & E & Ha & _ & _ & _ & Eb & Eo & _ & _).
  destruct (KickPeer_keeps _ _ _ _ _ _ E) as [_ Hd]. rewrite E. cbn [gobind fst snd]. eexists. split; [reflexivity|]. split.
  - destruct Hs as [K1 K3 K4 K5 K6 K7 K8]. constructor; simpl; try done; [by rewrite Hd| |by rewrite Hd].
    intros j ref q. rewrite Eb, Eo. intros [_ Hi]%lookup_delete_Some Hq. by apply (K6 j ref).
  - intros d j. cbn [lost brought]. case_decide as Hj.
    + subst j. rewrite (held_plane s r' t' d ip 0%Z Hd); [lia|]. unfold counter. by rewrite Eb, lookup_delete_eq.
    + rewrite (held_plane s r' t' d j (counter d j (ac_awg s)) Hd); [lia|].
      apply counter_same; [by rewrite Eb, lookup_delete_ne|]. intros ref _. by rewrite Eo.
Qed.

(** ** The ledger balances *)

Lemma lost_nonneg d ip x s : acct_ok s → (0 <= lost d ip x s)%Z.
Proof.
  intros Hs. destruct x; cbn [lost]; try done.
  - destruct (_ && _); [|done]. by apply queued_nonneg, Forall_drop, offered_nonneg.
  - destruct (ac_statsDrain s) as [|x q] eqn:Eq; [done|]. destruct (_ && _); [|done]. apply queued_nonneg.
    pose proof (ak_stats _ Hs) as HF. apply Forall_app in HF as [_ [_ HF]%Forall_app]. rewrite Eq in HF.
    apply Forall_cons in HF as [Hx _]. by apply Forall_singleton.
  - case_decide; [by apply counter_nonneg|done].
  - case_decide; [by apply counter_nonneg|done].
  - case_decide; [done|]. apply stored_nonneg. intros p [_ Hp]%list_elem_of_filter. by apply (ak_rows _ Hs).
Qed.

Lemma brought_nonneg d ip x s : event_ok x s → (0 <= brought d ip x s)%Z.
Proof. intros Hx. destruct x, d; simpl in *; try done; case_decide; lia. Qed.

Lemma tally_brought_nonneg d ip xs s : events_ok xs s → (0 <= tally (brought d ip) xs s)%Z.
Proof.
  revert s. induction xs as [|x xs IH]; intros s; [done|]. intros [Hx HF]. pose proof (brought_nonneg d ip x s Hx).
  simpl. destruct (step x s) as [s1| |]; [specialize (IH s1 HF)|..]; lia.
Qed.

Lemma any_step x s :
  acct_ok s → event_ok x s → bounded x s → ∃ s', step x s = Ok s' ∧ acct_ok s' ∧ accounted x s s'.
Proof.
  intros Hs Hx Hb. destruct x.
  - by apply to_client_step.
  - by apply from_client_step.
  - by apply watch_step.
  - by apply forward_step.
  - by apply drain_step.
  - by apply register_step.
  - by apply kick_step.
  - by apply new_row_step.
  - by apply delete_row_step.
Qed.

(** No address sees more than an [int64] of bytes in all. *)
Definition within_bounds (xs : list event) (s : Acct) : Prop :=
  ∀ d ip, (held d ip s + tally (brought d ip) xs s < 2 ^ 63)%Z.

(** One event of a run that stays within the bounds. *)
Lemma ledger_step x xs s :
  acct_ok s → events_ok (x :: xs) s → within_bounds (x :: xs) s →
  ∃ s1, step x s = Ok s1 ∧ acct_ok s1 ∧ accounted x s s1 ∧ events_ok xs s1 ∧ within_bounds xs s1 ∧ bounded x s.
Proof.
  intros Hs [Hx HF] Hb. assert (Hb1 : bounded x s).
  { intros d ip. specialize (Hb d ip). simpl in Hb. destruct (step x s) as [s2| |]; [pose proof (tally_brought_nonneg d ip xs s2 HF)|..]; lia. }
  destruct (any_step x s Hs Hx Hb1) as (s1 & E1 & Hs1 & Hacc). exists s1. rewrite E1 in HF. split_and!; try done.
  intros d ip. specialize (Hb d ip). simpl in Hb. rewrite E1 in Hb. specialize (Hacc d ip). pose proof (lost_nonneg d ip x s Hs). lia.
Qed.

Lemma ledger_run xs ys s :
  acct_ok s → events_ok (xs ++ ys) s → within_bounds (xs ++ ys) s →
  ∃ s', run xs s = Ok s' ∧ acct_ok s' ∧ events_ok ys s' ∧ within_bounds ys s' ∧
    ∀ d ip, (held d ip s' + tally (lost d ip) xs s = held d ip s + tally (brought d ip) xs s)%Z ∧ (0 <= tally (lost d ip) xs s)%Z.
Proof.
  revert s. induction xs as [|x xs IH]; intros s Hs HF Hb; [exists s; split_and!; [done..|]; intros d ip; simpl; lia|].
  destruct (ledger_step x (xs ++ ys) s Hs HF Hb) as (s1 & E1 & Hs1 & Hacc & HF1 & Hb1 & _).
  destruct (IH s1 Hs1 HF1 Hb1) as (s' & E & Hs' & HF' & Hb' & Hbal).
  exists s'. simpl. rewrite E1. split_and!; [done..|]. intros d ip. specialize (Hacc d ip).
  specialize (Hbal d ip). pose proof (lost_nonneg d ip x s Hs). lia.
Qed.

(** ** Settlement *)

(** The goroutines run, and the database answers. *)
Record running (s : Acct) : Prop := {
  rn_forward : ac_forward s ≠ Ended;
  rn_drainer : ac_drainer s = true;
  rn_faults : Repos.db_faults (ac_db s) = [] }.

Definition rows_of (s : Acct) : list Z := Repos.VirtualIp <$> Repos.peers (ac_db s).
(** What is left to do. *)
Definition backlog (s : Acct) : nat :=
  (3 * length (deltaChan (ac_awg s)) + 2 * length (waiting (ac_forward s)) + length (ac_statsDrain s))%nat.
(** What has left the counters. *)
Definition pipeline (d : direction) (ip : Z) (s : Acct) : Z :=
  (stored d ip (ac_db s) + queued d ip (ac_statsDrain s) + carried d ip (ac_forward s) + queued d ip (deltaChan (ac_awg s)))%Z.

(** Anything but another round, the deletion of a row and the end of a goroutine. *)
Definition settling (x : event) : Prop :=
  match x with Tick _ _ _ | DeleteRow _ => False | Forward done _ | Drain done _ => done = false | _ => True end.
(** A stretch in which each of the two goroutines has a turn. *)
Definition both_turn (b : list event) : Prop :=
  Forall settling b ∧ (∃ done pick, Forward done pick ∈ b) ∧ ∃ done pick, Drain done pick ∈ b.
(** The turn that makes progress. *)
Definition useful (x : event) (s : Acct) : Prop :=
  match x with Drain _ _ => ac_statsDrain s ≠ [] | Forward _ _ => ac_statsDrain s = [] | _ => False end.

(** What such events keep: nothing of an address with a row is lost behind the
    counters, and the work only shrinks. *)
Record turned (s s' : Acct) : Prop := {
  tn_running : running s';
  tn_rows : rows_of s ⊆ rows_of s';
  tn_pipeline d ip : ip ∈ rows_of s → pipeline d ip s' = pipeline d ip s;
  tn_backlog : (backlog s' <= backlog s)%nat;
  tn_same : backlog s' = backlog s → ac_statsDrain s' = [] ↔ ac_statsDrain s = [] }.

Lemma turned_refl s : running s → turned s s.
Proof. by constructor. Qed.

Lemma turned_trans s1 s2 s3 : turned s1 s2 → turned s2 s3 → turned s1 s3.
Proof.
  intros [? R1 P1 B1 S1] [? R2 P2 B2 S2]. constructor; [done|set_solver| |lia|].
  - intros d ip Hi. rewrite P2, P1; [done..|]. by apply R1.
  - intros E. rewrite S2, S1 by lia. done.
Qed.

(** The goroutines and the database are left alone. *)
Lemma quiet_turned s r t :
  running s → deltaChan t = deltaChan (ac_awg s) → turned s (set_plane s r t).
Proof.
  intros Hr Ed. constructor; [by destruct Hr|done| | |done].
  - intros d ip _. unfold pipeline. simpl. by rewrite Ed.
  - unfold backlog. simpl. by rewrite Ed.
Qed.

Lemma drain_turned pick s s1 :
  running s → step (Drain false pick) s = Ok s1 → accounted (Drain false pick) s s1 →
  turned s s1 ∧ (ac_statsDrain s ≠ [] → (backlog s1 < backlog s)%nat).
Proof.
  intros Hr [= <-] Hacc. unfold accounted in Hacc. cbn [lost brought] in Hacc. revert Hacc.
  unfold drain_turn. rewrite (rn_drainer _ Hr). cbn [negb andb].
  destruct (ac_statsDrain s) as [|x q] eqn:Eq; [intros _; split; [by apply turned_refl|done]|]. cbn [negb andb].
  rewrite (rn_faults _ Hr). intros Hacc.
  assert (Hlt : (backlog (set_drain s q true (Services.PeersManager.drain_stats (ac_db s) (VirtualIP x) (StatLastSeen x)
    (DeltaToPeer x) (DeltaFromPeer x)).2) < backlog s)%nat) by (unfold backlog; simpl; rewrite Eq; simpl; lia).
  split; [|done]. constructor; [| | |lia|lia].
  - destruct Hr as [R1 R2 R3]. constructor; simpl; [done|done|].
    unfold Services.PeersManager.drain_stats, Repos.UpdatePeerStats. by rewrite Repos.stmt_run.
  - unfold rows_of, Services.PeersManager.drain_stats, Repos.UpdatePeerStats. simpl. rewrite Repos.stmt_run by apply Hr. simpl.
    rewrite <- list_fmap_compose. intros a. rewrite !list_elem_of_fmap. intros (p & -> & Hp). exists p. split; [unfold compose; cbv beta; destruct (decide _); reflexivity|done].
  - intros d ip Hi. specialize (Hacc d ip). unfold held in Hacc. unfold pipeline. simpl in *.
    destruct (decide (VirtualIP x = ip)) as [->|Hne].
    + rewrite bool_decide_true in Hacc by done. simpl in Hacc. lia.
    + destruct (negb _); lia.
Qed.

Lemma forward_turned pick s s1 :
  running s → step (Forward false pick) s = Ok s1 → accounted (Forward false pick) s s1 →
  turned s s1 ∧ (ac_statsDrain s = [] → (0 < backlog s)%nat → (backlog s1 < backlog s)%nat).
Proof.
  intros Hr [= <-] Hacc. unfold accounted in Hacc. cbn [lost brought] in Hacc. revert Hacc.
  unfold RegisterTransport_turn. destruct Hr as [R1 R2 R3]. destruct (ac_forward s) as [|x|] eqn:Ef; [| |done].
  - destruct (deltaChan (ac_awg s)) as [|x q] eqn:Ec; simpl; intros Hacc.
    + split; [apply turned_refl; constructor; rewrite ?Ef; done|]. unfold backlog. rewrite Ec, Ef. intros ->. simpl. lia.
    + assert (Hlt : (backlog (set_forward s (pop_delta (ac_awg s)) (Sending x) (ac_statsDrain s)) < backlog s)%nat)
        by (unfold backlog; simpl; rewrite Ec, Ef; simpl; lia).
      split; [|lia]. constructor; [by constructor|done| |lia|lia].
      intros d ip _. unfold pipeline. simpl. rewrite Ec, Ef. simpl. lia.
  - intros Hacc. case_decide as Hroom.
    + assert (Hlt : (backlog (set_forward s (ac_awg s) Receiving (ac_statsDrain s ++ [x])) < backlog s)%nat)
        by (unfold backlog; simpl; rewrite Ef, length_app; simpl; lia).
      split; [|lia]. constructor; [by constructor|done| |lia|lia].
      intros d ip _. unfold pipeline. simpl. rewrite Ef, queued_app. simpl. lia.
    + split; [apply turned_refl; constructor; rewrite ?Ef; done|]. intros Hq. rewrite Hq in Hroom. simpl in Hroom. lia.
Qed.

Lemma new_row_turned now arg s s1 :
  acct_ok s → running s → step (NewRow now arg) s = Ok s1 → accounted (NewRow now arg) s s1 → turned s s1.
Proof.
  intros Hs Hr [= <-] Hacc. destruct (Repos.CreatePeerAutoID now arg (ac_db s)) as [res db'] eqn:E.
  pose proof (Repos.CreatePeerAutoID_spec _ _ _ _ _ (ak_db _ Hs) E) as Hc. simpl in *.
  assert (Hf : Repos.db_faults db' = []).
  { unfold Repos.CreatePeerAutoID in E. unfold Repos.stmt in E. rewrite (rn_faults _ Hr) in E. simpl in E.
    repeat case_decide; injection E as _ <-; done. }
  constructor; [by constructor; try apply Hr| | |done|done].
  - unfold rows_of. simpl. destruct res as [p|e|]; [|by destruct Hc as [fs ->]|done].
    destruct Hc as (_ & -> & _). rewrite fmap_app. set_solver.
  - intros d ip _. specialize (Hacc d ip). cbn [lost brought] in Hacc. unfold held in Hacc. unfold pipeline. simpl in *. destruct d; lia.
Qed.

Lemma settle_step x s s1 :
  acct_ok s → running s → settling x → step x s = Ok s1 → accounted x s s1 →
  turned s s1 ∧ (useful x s → (0 < backlog s)%nat → (backlog s1 < backlog s)%nat).
Proof.
  intros Hs Hr Hx E Hacc. destruct x; try done; cbn [settling] in Hx.
  - split; [|done]. injection E as <-. apply (quiet_turned s (ac_router s)); [done|].
    unfold SendDatagram, writePacket. destruct (peer_objs _ !! _); [|done]. by destruct (_ && _).
  - split; [|done]. injection E as <-. apply (quiet_turned s (ac_router s)); [done|].
    unfold note_packet. destruct (tun_peers _ !! _); [|done]. by destruct (peer_objs _ !! _).
  - subst. destruct (forward_turned _ _ _ Hr E Hacc). by split.
  - subst. destruct (drain_turned _ _ _ Hr E Hacc) as [H1 H2]. split; [done|]. intros Hu _. by apply H2.
  - split; [|done]. cbn [step] in E. destruct (CreatePeer _ _ _ _) as [[err [r' t']]| |] eqn:Ec; [|done..].
    injection E as <-. apply quiet_turned; [done|]. by destruct (CreatePeer_keeps _ _ _ _ _ _ _ Ec).
  - split; [|done]. cbn [step] in E. destruct (KickPeer _ _ _) as [[b [r' t']]| |] eqn:Ec; [|done..].
    injection E as <-. apply quiet_turned; [done|]. by destruct (KickPeer_keeps _ _ _ _ _ _ Ec).
  - split; [|done]. by eapply new_row_turned.
Qed.

(** A stretch of events: progress when one of them is the turn that is due. *)
Lemma stretch_turned b ys s :
  acct_ok s → running s → Forall settling b → events_ok (b ++ ys) s → within_bounds (b ++ ys) s →
  ∃ s', run b s = Ok s' ∧ acct_ok s' ∧ events_ok ys s' ∧ within_bounds ys s' ∧ turned s s' ∧
    (∀ x, x ∈ b → useful x s → (0 < backlog s)%nat → (backlog s' < backlog s)%nat).
Proof.
  revert s. induction b as [|y b IH]; intros s Hs Hr HF He Hb.
  { exists s. split_and!; [done..|by apply turned_refl|by intros x Hx%elem_of_nil]. }
  apply Forall_cons in HF as [Hy HF]. destruct (ledger_step y (b ++ ys) s Hs He Hb) as (s1 & E1 & Hs1 & Hacc & He1 & Hb1 & _).
  destruct (settle_step y s s1 Hs Hr Hy E1 Hacc) as [T1 P1].
  destruct (IH s1 Hs1 (tn_running _ _ T1) HF He1 Hb1) as (s' & E & Hs' & He' & Hb' & T2 & P2).
  exists s'. cbn [run]. rewrite E1. split_and!; [done..|by eapply turned_trans|].
  intros x Hx Hu Hpos. pose proof (tn_backlog _ _ T1). pose proof (tn_backlog _ _ T2).
  apply elem_of_cons in Hx as [->|Hx]; [specialize (P1 Hu Hpos); lia|].
  destruct (decide (backlog s1 = backlog s)) as [Eq|]; [|lia]. pose proof (tn_same _ _ T1 Eq) as Hsame.
  assert (Hu1 : useful x s1) by (destruct x; simpl in *; tauto). specialize (P2 x Hx Hu1 ltac:(lia)). lia.
Qed.

Lemma stretches_turned bs s :
  acct_ok s → running s → Forall both_turn bs → events_ok (concat bs) s → within_bounds (concat bs) s →
  ∃ s', run (concat bs) s = Ok s' ∧ turned s s' ∧ (backlog s' <= backlog s - length bs)%nat.
Proof.
  revert s. induction bs as [|b bs IH]; intros s Hs Hr HF He Hb; [exists s; split; [done|]; split; [by apply turned_refl|simpl; lia]|].
  apply Forall_cons in HF as [(Hset & (d1 & p1 & Hf) & (d2 & p2 & Hd)) HF].
  destruct (stretch_turned b (concat bs) s Hs Hr Hset He Hb) as (s1 & E1 & Hs1 & He1 & Hb1 & T1 & P1).
  destruct (IH s1 Hs1 (tn_running _ _ T1) HF He1 Hb1) as (s2 & E2 & T2 & L2).
  exists s2. split; [cbn [concat]; by rewrite acct_run_app, E1|]. split; [by eapply turned_trans|]. cbn [length].
  destruct (decide (backlog s = 0)%nat) as [E0|Hpos]; [pose proof (tn_backlog _ _ T1); lia|].
  assert (backlog s1 < backlog s)%nat; [|lia].
  destruct (decide (ac_statsDrain s = [])) as [Eq|Eq]; [by apply (P1 _ Hf); [|lia]|by apply (P1 _ Hd); [|lia]].
Qed.

(** ** Theorems *)

(** C23: every byte of the clients' traffic is accounted for.  Whatever happens in any
    order, packets to and from clients, rounds of the watchdog, turns of the goroutines
    that carry the statistics, clients registered (each with a key that no other
    address has at that moment), registered again and removed, rows created and
    deleted, statements that fail, goroutines that end: nothing panics, and for every
    address and each direction what the rows of the address hold and what is under way
    (in the channels, in the hands of a goroutine and in the peer's counter) is exactly
    what there was before and what the packets brought, less the losses that [lost]
    names, as long as an address sees less than 2^63 bytes.  The ledger is kept per
    address, as the program's statistics are: no byte is counted twice or under another
    address, but when an address is given out again the new client's row gets what was
    still under way ([next_client_pays]). *)
Theorem every_byte_is_accounted xs s :
  acct_ok s → events_ok xs s → within_bounds xs s →
  ∃ s', run xs s = Ok s' ∧ acct_ok s' ∧
    ∀ d ip, (held d ip s' + tally (lost d ip) xs s = held d ip s + tally (brought d ip) xs s)%Z.
Proof.
  intros Hs HF Hb. destruct (ledger_run xs [] s) as (s' & E & Hs' & _ & _ & Hbal); [done|by rewrite app_nil_r..|].
  exists s'. split; [exact E|]. split; [exact Hs'|]. intros d ip. apply Hbal.
Qed.

(** C24: the traffic reaches the database.  Let anything have happened, and let then the
    goroutines live, the database answer, and the statistics of all registered clients
    fit the watchdog's channel.  A round of the watchdog, followed by 1302 stretches in
    each of which the two goroutines behind it both get a turn, in whatever order and
    with whatever else between, packets, registrations, removals and new rows, but no
    further round, no deleted row and no statement that fails, leaves in the row of
    every address all that it held before and all that the packets had brought up to
    that round, less what was lost before it: the settlement itself loses nothing. *)
Theorem traffic_is_billed xs s pick now bs :
  acct_ok s → events_ok (xs ++ Tick false pick now :: concat bs) s → within_bounds (xs ++ Tick false pick now :: concat bs) s →
  Forall both_turn bs → (1302 <= length bs)%nat →
  ∃ s1, run xs s = Ok s1 ∧
    (ac_watchdog s1 = true → running s1 →
     (length (deltaChan (ac_awg s1)) + size (peersByIP (ac_awg s1)) <= 100)%nat →
     ∃ s2, run (Tick false pick now :: concat bs) s1 = Ok s2 ∧ ∀ d ip, ip ∈ rows_of s1 →
       (stored d ip (ac_db s2) = held d ip s + tally (brought d ip) xs s - tally (lost d ip) xs s)%Z).
Proof.
  intros Hs HF Hb Hbs Hn. destruct (ledger_run xs _ s Hs HF Hb) as (s1 & E1 & Hs1 & HF1 & Hb1 & Hbal). exists s1. split; [exact E1|].
  intros Hw Hr Hroom. destruct (ledger_step _ _ _ Hs1 HF1 Hb1) as (s1' & Et & Hs1' & Hacc & HF2 & Hb2 & _).
  destruct (tick_spec false pick now s1 Hs1) as (s1'' & Et' & _ & _ & Hzero). rewrite Et in Et'. injection Et' as <-.
  specialize (Hzero Hw eq_refl). destruct (tick_rest _ _ _ _ _ Et) as (Ef & Eq & Ed & Edb).
  assert (Hheld : ∀ d ip, pipeline d ip s1' = held d ip s1).
  { intros d ip. specialize (Hacc d ip). cbn [lost brought] in Hacc. pose proof (offered_length (ac_awg s1)).
    rewrite drop_ge in Hacc by lia. unfold held in Hacc at 1. rewrite Hzero in Hacc. unfold pipeline. destruct (_ && _), d; simpl in Hacc; lia. }
  destruct (stretches_turned bs s1' Hs1') as (s2 & E2 & T & L); [constructor; rewrite ?Ef, ?Ed, ?Edb; apply Hr|done..|].
  exists s2. split; [cbn [run]; rewrite Et; exact E2|]. intros d ip Hi.
  assert (Hrows : rows_of s1' = rows_of s1) by (unfold rows_of; by rewrite Edb).
  pose proof (tn_pipeline _ _ T d ip ltac:(by rewrite Hrows)) as Hh. rewrite Hheld in Hh. specialize (Hbal d ip).
  assert (Hlog : (backlog s1' <= 1302)%nat).
  { pose proof (ak_delta _ Hs1'). pose proof (ak_drain _ Hs1'). unfold backlog. destruct (ac_forward s1'); simpl; lia. }
  assert (E0 : (backlog s2 = 0)%nat) by lia. unfold backlog in E0.
  assert (Ez : deltaChan (ac_awg s2) = [] ∧ waiting (ac_forward s2) = [] ∧ ac_statsDrain s2 = [])
    by (split_and!; apply length_zero_iff_nil; lia).
  destruct Ez as (Z1 & Z2 & Z3). unfold pipeline in Hh. rewrite carried_waiting, Z1, Z2, Z3 in Hh. simpl in Hh. lia.
Qed.

(** ** Simple bounds *)

Definition size_of (x : event) : Z := match x with ToClient _ _ _ data => golen data | FromClient _ _ n => n | _ => 0 end.

Lemma tally_brought_le d ip xs s :
  events_ok xs s → (∀ x, x ∈ xs → (0 <= size_of x)%Z) → (tally (brought d ip) xs s <= foldr (λ x a, size_of x + a)%Z 0%Z xs)%Z.
Proof.
  revert s. induction xs as [|x xs IH]; intros s; [done|]. intros [Hx HF] Hnn.
  assert (Hle : (brought d ip x s <= size_of x)%Z) by (destruct x, d; simpl in *; first [lia|case_decide; lia]).
  assert (Hall : (0 <= foldr (λ x a, size_of x + a)%Z 0%Z xs)%Z).
  { clear -Hnn. induction xs as [|y xs IH]; [done|]. pose proof (Hnn y ltac:(set_solver)).
    specialize (IH ltac:(intros z Hz; apply Hnn; set_solver)). simpl. lia. }
  cbn [tally foldr]. destruct (step x s) as [s1| |]; [specialize (IH s1 HF ltac:(intros z Hz; apply Hnn; set_solver))|..]; lia.
Qed.

End Spec.

(** * Witnesses *)

#[local] Existing Instance RoutingTable.RoutingTable.trace_link.
#[local] Existing Instance RoutingTable.RoutingTable.free_limiter.
#[local] Existing Instance map_device.
#[local] Existing Instance map_device_laws.
#[local] Existing Instance demo_platform.

Definition billed_ip : Z := 167837698.
Definition billed_key (ip : Z) : string := pretty ip.
Definition billed_client : Model.Peer := Model.set_keys AwgClient.AwgClient.demo_client "" (billed_key billed_ip).
Definition billed_start : Acct := mkAcct Router.Router.demo_router demo_awg true Receiving [] true Repos.demo_db1.

(** The client connects; packets in both directions; a round; packets; the statistics
    of the first round are under way. *)
Definition billed_events : list event :=
  [Register 5 billed_client; FromClient 6 billed_ip 1500; ToClient true 0 0 (replicate 40 0%Z); Tick false true 7;
   FromClient 8 billed_ip 100; Forward false true].

Lemma billed_start_ok : acct_ok billed_start.
Proof.
  constructor; simpl; try done.
  - apply demo_awg_ok, empty_broker_ok.
  - lia.
  - lia.
  - exact Repos.demo_db1_ok.
  - intros p ->%list_elem_of_singleton. done.
Qed.

(** The settlement, with a packet of the client in each stretch. *)
Definition billed_stretches : list (list event) :=
  replicate 1302 [Drain false true; FromClient 9 billed_ip 1; Forward false true].

Lemma billed_key_ok : no_newline (billed_key billed_ip).
Proof. apply (bool_decide_eq_true_1 (no_newline _)). by vm_compute. Qed.

Lemma packets_ok l s : Forall (λ x, match x with Register _ _ => False | _ => True end) l → (∀ x, x ∈ l → (0 <= size_of x)%Z) → events_ok l s.
Proof.
  revert s. induction l as [|x l IH]; intros s; [done|]. intros [Hx HF]%Forall_cons Hs.
  split; [pose proof (Hs x ltac:(set_solver)); by destruct x|]. destruct (step x s); [|done..]. apply IH; [done|]. intros y Hy. apply Hs. set_solver.
Qed.

Lemma events_ok_cons x xs s :
  event_ok x s ∧ match step x s with Ok s1 => events_ok xs s1 | _ => True end → events_ok (x :: xs) s.
Proof. done. Qed.

Lemma billed_ok ys : Forall (λ x, match x with Register _ _ => False | _ => True end) ys → (∀ x, x ∈ ys → (0 <= size_of x)%Z) →
  events_ok (billed_events ++ ys) billed_start.
Proof.
  intros HF Hs. apply (events_ok_cons (Register 5 billed_client)). split; [split; [done|split; [exact billed_key_ok|by left]]|].
  destruct (step (Register 5 billed_client) billed_start) as [s1| |]; [|done..]. apply packets_ok.
  - by repeat (apply Forall_cons; split; [done|]).
  - intros x. rewrite !elem_of_cons. intros [-> |[-> |[-> |[-> |[-> |Hx]]]]]; [vm_compute; congruence..|by apply Hs].
Qed.

Lemma billed_within ys :
  events_ok (billed_events ++ ys) billed_start → (∀ x, x ∈ ys → (0 <= size_of x)%Z) →
  (foldr (λ x a, size_of x + a)%Z 0%Z ys < 2 ^ 62)%Z → within_bounds (billed_events ++ ys) billed_start.
Proof.
  intros He Hs Hy d ip. pose proof (tally_brought_le d ip (billed_events ++ ys) billed_start He) as Hle.
  assert (E : held d ip billed_start = 0%Z) by (unfold held, stored; simpl; destruct d; simpl; case_decide; done).
  assert (Es : ∀ z, foldr (λ x a, size_of x + a)%Z z billed_events = (1640 + z)%Z) by (intros z; unfold billed_events; cbn -[Z.add]; lia).
  rewrite E. rewrite foldr_app, Es in Hle. specialize (Hle ltac:(
    intros x [Hx|Hx]%elem_of_app; [revert x Hx; apply Forall_forall; repeat (apply Forall_cons; split; [vm_compute; congruence|]); done|by apply Hs])). lia.
Qed.

Lemma every_byte_is_accounted_witness :
  ∃ s', run billed_events billed_start = Ok s' ∧
    (held FromPeer billed_ip s' + tally (lost FromPeer billed_ip) billed_events billed_start =
       held FromPeer billed_ip billed_start + tally (brought FromPeer billed_ip) billed_events billed_start)%Z.
Proof.
  assert (He : events_ok (billed_events ++ []) billed_start) by (apply billed_ok; [done|by intros x Hx%elem_of_nil]).
  destruct (every_byte_is_accounted billed_events billed_start billed_start_ok) as (s' & E & _ & H).
  - rewrite app_nil_r in He. exact He.
  - rewrite <- (app_nil_r billed_events). apply billed_within; [exact He|by intros x Hx%elem_of_nil|simpl; lia].
  - exists s'. split; [exact E|apply H].
Defined.

Lemma billed_stretches_small x : x ∈ Tick false true 9 :: concat billed_stretches → (0 <= size_of x)%Z.
Proof.
  intros [->|(l & Hx & Hl)%list_elem_of_In%in_concat]%elem_of_cons; [done|]. apply list_elem_of_In, elem_of_replicate in Hx as [-> _].
  apply list_elem_of_In in Hl. revert x Hl. apply Forall_forall. by repeat (apply Forall_cons; split; [done|]).
Qed.

Lemma traffic_is_billed_witness :
  ∃ s1 s2, run billed_events billed_start = Ok s1 ∧ run (Tick false true 9 :: concat billed_stretches) s1 = Ok s2 ∧
    stored FromPeer billed_ip (ac_db s2) = 1600%Z ∧ stored ToPeer billed_ip (ac_db s2) = 40%Z.
Proof.
  assert (He : events_ok (billed_events ++ Tick false true 9 :: concat billed_stretches) billed_start).
  { apply billed_ok; [|exact billed_stretches_small]. apply Forall_cons. split; [done|]. apply Forall_concat, Forall_replicate.
    by repeat (apply Forall_cons; split; [done|]). }
  destruct (traffic_is_billed billed_events billed_start true 9 billed_stretches billed_start_ok He) as (s1 & E1 & H).
  - apply billed_within; [exact He|exact billed_stretches_small|vm_compute; done].
  - apply Forall_replicate. split; [by repeat (apply Forall_cons; split; [done|])|].
    split; exists false, true; [do 2 apply list_elem_of_further|]; apply list_elem_of_here.
  - unfold billed_stretches. rewrite length_replicate. lia.
  - exists s1.
    assert (Hv : (x <- run billed_events billed_start;; Ok (ac_watchdog x, (match ac_forward x with Ended => false | _ => true end), ac_drainer x, Repos.db_faults (ac_db x),
        (length (deltaChan (ac_awg x)), size (peersByIP (ac_awg x))), rows_of x)) = Ok (true, true, true, [], (0%nat, 1%nat), [billed_ip]))
      by (vm_compute; reflexivity).
    rewrite E1 in Hv. cbn [gobind] in Hv. injection Hv as H1 H2 H3 H4 H5 H6 H7.
    destruct H as (s2 & E2 & Hst); [exact H1| |rewrite H5, H6; lia|].
    { constructor; [by destruct (ac_forward s1)|exact H3|exact H4]. }
    exists s2. split; [exact E1|]. split; [exact E2|]. rewrite !Hst by (rewrite H7; by left).
    split; vm_compute; reflexivity.
Defined.

(** The address of the last client is given out again, and the statistics name only
    the address: what is under way when a client is deleted is charged to the next. *)
Lemma next_client_pays :
  (x <- run (billed_events ++ [DeleteRow 1; Kick billed_ip; NewRow 9 (Repos.demo_params "bb"); Forward false true; Drain false true]) billed_start;;
   Ok ((λ p, (Repos.ID p, Repos.AwgPublicKey p, Repos.VirtualIp p, Repos.FromPeerTotal p)) <$> Repos.peers (ac_db x))) =
  Ok [(2%Z, "bb"%string, billed_ip, 1500%Z)].
Proof. vm_compute. reflexivity. Qed.

End Accounting.
